(* ===== verification/_CoqProject ===== *)
-Q . S2P
Prelude.v
JsLang.v
Numbers.v
Json.v
Config.v
NodePath.v
Prog.v
Entities.v
Database.v
World.v
Repository.v
Outbox.v
Ingestion.v
Quota.v
Routing.v
Dynamic.v
Storage.v
Crypto.v
Pipeline.v
Events.v
Processor.v
Transfers.v
Delivery.v
Recovery.v
Auth.v
Http.v
Isolation.v
Migrations.v
AdminUi.v
Wiring.v
System.v
Lifecycle.v
Conduct.v
Exclusion.v
Metering.v
Concurrency.v
Schedule.v
Redrive.v
Tracing.v
Modules.v
Boot.v
Page.v
Routes.v
