(* ===== verification/Prelude.v ===== *)
(** * S3-SyncBridge orchestrator: a verification development

    The program ([src/nestjs-app/src], NestJS in TypeScript) moves files that SFTPGo
    receives into an S3 store.  SFTPGo posts a webhook for each upload; the orchestrator
    writes a PENDING transfer and an outbox event in one transaction; a relay publishes
    the event as a BullMQ job; a worker checks the file (size, quota, antivirus), encrypts
    it if asked to, uploads it and finalizes the row; a sweeper re-drives what a crash
    left behind; a management API lets the users of several tenants list, download and
    retry transfers and subscribe to signed webhooks.

    ** How the program is modelled

    An [async] function is a program of [Prog]: a tree of awaited operations with
    exceptions as results, [bind]/[catch_]/[finally_]/[for_each] for [await], [try] and
    loops.  The operations ([World.eff]) act on one [world]: the database, the queues, the
    object store, the shared volume, the messages sent, and the mutable fields and metrics
    of the process.  The same program is run
    - without faults ([exec]);
    - with a fault for each operation that leaves the process, which fails before it took
      effect or loses its acknowledgement ([run], [outcome], [final]);
    - up to a crash after any number of operations ([crash]);
    - interleaved with any number of others, any of which may die ([pool_step]).
    The program logic [rg] (a rely, a guarantee, a postcondition) covers all of them.
    Programs are finite trees, so every run ends; the loops of the source range over
    lists.  Fuel is used in [JsLang] (40 digits, more than a double below 10^21 has), in
    [Pipeline] (the length of the data, one step per chunk), in [Json] (twice the length
    of the text and two, which every text can do with: [Json.JSON_parse_fuel]) and in
    [Modules] (rounds of construction, one for each thing to construct; that all are
    constructed is part of [Modules.modules_wire_up]).

    ** Files, the code they model, what they show

    - [Prelude], [JsLang], [NodePath]: exceptions and results, sorting, tactics; the
      JavaScript strings, numbers and [Buffer] functions used; [node:path].
    - [Numbers], [Json]: [Number(s)] on texts and the rounding to doubles; [JSON.parse]
      and [JSON.stringify], with the round trip.
    - [Config]: [config/configuration.ts], [config/env.validation.ts].  What every
      variable of the schema promises holds of the tree; the two sources of defaults agree;
      where the tree is not what was validated.
    - [Dynamic]: [ingestion/routing.service.ts], [tenancy/tenant.service.ts] and
      [quota/quota.service.ts] on the JSON values they are really given, which the code
      casts to its types unchecked.  On values that conform to the interfaces the typed
      components are right; and what other values do.
    - [Prog]: asynchronous programs, their semantics and logic, soundness for
      interleaving.
    - [Entities], [Database], [World]: the TypeORM entities and queue payloads; the
      migrations as the constraints of statements (column types, unique indexes, the
      row-level security policy), transactions; the world and its operations;
      [metrics/metrics.service.ts].
    - [Repository]: [ingestion/file-transfer.repository.ts].
    - [Outbox]: [outbox/outbox.service.ts].  The row and its event are stored together or
      not at all; the relay is at-least-once; a pass publishes the oldest batch.
    - [Ingestion]: [ingestion/ingestion.service.ts], [tenancy/tenant.service.ts].  What
      each outcome of a webhook means; deliveries of a taken key; path confinement; the key.
    - [Quota]: [quota/].  The gate is exact; sequential use respects the limits; the
      race of concurrent transfers.
    - [Routing], [Storage], [Crypto]: [ingestion/routing.service.ts],
      [storage/storage.service.ts], [crypto/crypto.service.ts].  Keys separate users;
      uploads touch one object; encryption round trip, authenticity, equality of streaming
      and buffered decryption.
    - [Pipeline]: [ingestion/pipeline/].  The steps are a gate; the clamd client as a
      state machine over its events speaks INSTREAM and fails closed.
    - [Events]: [events/], [kafka/], [notifications/], [ingestion/dead-letter.processor.ts].
      Fan-out reaches the tenant's subscribers, deliveries are acknowledged by 2xx
      only, subscriptions are tenant-scoped.
    - [Processor]: [ingestion/ingestion.processor.ts], [common/checksum.util.ts].  SUCCESS
      means stored at every crash point; an acknowledged job is finished; a ready
      transfer succeeds, encrypted or not; the [failed] event finalizes exactly the last
      attempt; and the defects found.
    - [Transfers]: [ingestion/transfers.service.ts].  Tenant isolation through row-level
      security; what was uploaded is what is downloaded; the branches of a retry.
    - [Delivery]: composition of [Ingestion], [Outbox], [Processor] and [Transfers].  The
      relay drains the outbox; an accepted upload is delivered, from the webhook to the
      download.
    - [Recovery]: [ingestion/recovery.service.ts], [ingestion/retention.service.ts].
    - [Auth]: [auth/], [ingestion/guards/webhook-auth.guard.ts].  Tokens for right
      passwords only; created accounts can log in; usernames are unique.
    - [Http]: the controllers, the exception filter, [health/].  Every route is
      guarded; every request is answered and internal errors disclose nothing.
    - [Isolation]: noninterference of tenants.  What a tenant's requests are answered
      does not depend on what the others own, creations of subscriptions included.
    - [Migrations]: [database/migrations/] as schema statements, TypeORM's runner, the
      decorators of the entities.  Any history of runs and reverts leaves a prefix of the
      migrations, next to whatever else the database holds; the result is what the
      entities declare and what the statements of [Database] enforce.
    - [AdminUi]: the script of [admin-ui/admin-ui.html.ts] as functions on the page, its
      local storage and a server.  A reload keeps the session; file names become markup.
    - [Wiring]: [metrics/metrics.module.ts], the queues of the modules,
      [database/data-source.ts], [database/database.module.ts], the body limit of
      [main.ts].  The metrics of [World] refine the registry; migrations and
      service reach the same database.
    - [System]: all handlers at once.  Under any interleaving no accepted transfer is
      without a job or a PENDING event.
    - [Lifecycle]: the abstract specification of the transfer table, a ledger whose
      entries move through their phases, and the refinement theorem: under any
      interleaving the table moves as the ledger may, and each move is granted, from its
      phase, to a running handler; a handler alone keeps the order of the phases.  A
      redelivered webhook is a duplicate as long as no purge ran.
    - [Conduct]: what every handler does to the database and to the overlap flags, once for
      all relations that allow the program's statements; which handlers leave the usage
      table and the flags alone.
    - [Exclusion]: the flags of [OutboxService.relay] and [RecoveryService.sweep].  In one
      process at most one pass of each is under way, and the flag never stays up.
    - [Metering]: the usage table under interleaving.  It is its first value plus the
      charges of the threads: exactly one for each body of an attempt that returned, at most
      one for any other, none by anything else.
    - [Concurrency]: a worker of [k] slots.  Transfers can pass the quota check together,
      but the overshoot is at most [k - 1] files; with one slot the limit is exact.  What is
      completed is metered; an upload whose metering fails is not.
    - [Schedule]: the decorators [@Interval] and [@Cron] as data, passes of the relay beside
      all other tasks of the process.  A waiting event is published by a deadline, however
      many uploads come after it and whatever fails in some passes.
    - [Redrive]: attempts that die, restarts and sweeps in turn.  A file that kills the
      worker is given up after the attempts it had left, and re-driven until then.
    - [Tracing]: [tracing.ts], the span of [ingestion.processor.ts], the carrier of
      [ingestion.service.ts].  The worker's span joins the trace of the webhook and tells
      how the job ended.
    - [Modules]: [app.module.ts], every [*.module.ts] and every constructor as data, the
      container's rule as a function.  Everything resolves, in one way; providers are
      single instances; the construction order exists.
    - [Boot]: the constructors and client factories as functions of the configuration, the
      start of [main.ts] as a program.  A process listens only with settings that passed
      validation and a usable key, and validated settings fit the types the components are
      modelled with.
    - [Page]: the markup of [admin-ui/admin-ui.html.ts], [admin-ui/admin-ui.controller.ts],
      the content security policy of [main.ts].  Markup and script hang together; the
      policy blocks the handlers.
    - [Routes]: the decorators of the controllers, [auth/decorators/], [auth/guards/] as
      data, and the framework's rule from a request line to a handler.  The declared routes
      are those [Http] was written with, and no line has two readings; without the
      secret or the token of an operator or admin no line changes anything.

    The interfaces are classes: [Handler] (what an operation does), [Externals], [Gcm]
    with [GcmLaws], [Credentials] with [CredentialLaws], [Validators] (code outside the
    repository and what it promises), [Evolving] (what a handler owes the system),
    [Lawful] (what it may do to the ledger), [Discipline] and [Conducts] (a relation on
    databases and the handlers that move along it), and, for the libraries of the later
    files, [Framework] with [FrameworkLaw], [Propagation] with [PropagationLaws], [Libraries] with
    [LibrariesLaw], [Helmet] with [HelmetLaw].
    Concrete instances in the [Demo*] modules evaluate the definitions.

    ** Outside the model

    - Strings are Latin-1; integers are exact up to the rounding to doubles where the
      code depends on it.  [varchar(n)] counts characters.
    - The hashes, AES-GCM's keystream and tag, bcrypt, jsonwebtoken, class-validator's
      texts, the ETags of a server, clamd's answer and remote HTTP servers are parameters.
    - BullMQ: a queue is the history of the jobs added; [Processor.attempt] is one
      attempt of a job: [process] and, when it threw, [onFailed] with the attempt counted
      ([failed_job]).  When BullMQ runs a job again is not modelled, nor are the delays of a
      backoff and stalled jobs; a job may be run any number of times in [System].
    - The connections that TypeORM and BullMQ open at the start, and what [@nestjs/config]
      writes into the environment, are parameters of [Boot.bootstrap].
    - Within one operation the world does not change: a file is read at once, an
      S3 [PutObject] with a wrong length is refused, a multipart upload appears when it
      is complete.  A read error inside a piped encryption stream, which in the
      source is an unhandled [error] event, is a failure of the upload here.
    - Timers fire at most a given lag late, and passes of the relay end within a given time
      ([Schedule]); a restart is a fresh process state and a pause ([Redrive]).
    - Not modelled, because it is configuration of libraries and keeps no state of the
      program: log lines, the rate limiter's counters, the Swagger documents,
      the headers of helmet other than its content security policy,
      the order in which the framework runs the start hooks (both
      orders are covered), the style sheet of the admin page. *)
From stdpp Require Export base list strings gmap option numbers pretty sorting.
From Stdlib Require Export ZArith Lia.
From Stdlib Require Ascii Strings.Byte.
Delimit Scope char_scope with char.
String Notation Ascii.ascii Ascii.ascii_of_byte Ascii.byte_of_ascii : char_scope.

(** ** Scopes and hint databases

    [bridge] holds the lemmas that [eauto with bridge] may apply,
    [bridge_rw] the equations that [autorewrite with bridge_rw] uses. *)
Declare Scope bridge_scope.
Delimit Scope bridge_scope with bridge.
Create HintDb bridge discriminated.
Create Rewrite HintDb bridge_rw.
Open Scope string_scope.
Open Scope list_scope.

(** ** Errors

    The exceptions the program distinguishes.  [NonRetryable] is the class
    declared in [common/non-retryable.error.ts]; [HttpError] is a NestJS
    [HttpException] with its status; [Infra] is everything a library, a driver or
    the network raises: its JavaScript [name] and [message], the SQLSTATE of a
    [QueryFailedError], the [$metadata.httpStatusCode] of an AWS SDK error. *)
Record infra_error := Infra_error {
  ie_name : string;
  ie_message : string;
  ie_code : option string;
  ie_status : option Z;
}.

Inductive exn :=
  | NonRetryable (message : string)
  | HttpError (status : Z) (message : string)
  | Infra (e : infra_error).

#[global] Instance infra_error_eq_dec : EqDecision infra_error.
Proof. solve_decision. Defined.
#[global] Instance exn_eq_dec : EqDecision exn.
Proof. solve_decision. Defined.

(** An [Error] the source raises itself with [new Error(message)]. *)
Definition plain_error (message : string) : exn :=
  Infra (Infra_error "Error" message None None).

(** [err.name] and [err.message]. *)
Definition exn_name (e : exn) : string :=
  match e with
  | NonRetryable _ => "NonRetryableError"
  | HttpError 404 _ => "NotFoundException"
  | HttpError 409 _ => "ConflictException"
  | HttpError 401 _ => "UnauthorizedException"
  | HttpError 403 _ => "ForbiddenException"
  | HttpError _ _ => "HttpException"
  | Infra i => ie_name i
  end.

Definition exn_message (e : exn) : string :=
  match e with
  | NonRetryable m => m
  | HttpError _ m => m
  | Infra i => ie_message i
  end.

(** The outcome of an operation: a value, or an exception. *)
Inductive result (A : Type) :=
  | Ok (a : A)
  | Err (e : exn).
Arguments Ok {A} a.
Arguments Err {A} e.

#[global] Instance result_eq_dec {A} `{EqDecision A} : EqDecision (result A).
Proof. solve_decision. Defined.

Definition is_ok {A} (r : result A) : bool :=
  match r with Ok _ => true | Err _ => false end.

(** ** Bytes *)
Abbreviation bytes := (list Byte.byte).

#[global] Instance byte_eq_dec : EqDecision Byte.byte := Strings.Byte.byte_eq_dec.

(** ** Generic list operations

    [isort le l] is the stable insertion sort behind every [ORDER BY]: rows that
    compare equal keep the order in which the table yields them. *)
Fixpoint sorted_insert {A} (le : A → A → bool) (x : A) (l : list A) : list A :=
  match l with
  | [] => [x]
  | y :: l' => if le x y then x :: y :: l' else y :: sorted_insert le x l'
  end.

Definition isort {A} (le : A → A → bool) (l : list A) : list A :=
  foldr (sorted_insert le) [] l.

Lemma sorted_insert_perm {A} (le : A → A → bool) x l :
  sorted_insert le x l ≡ₚ x :: l.
Proof.
  induction l as [|y l IH]; simpl; [done|].
  destruct (le x y); [done|]. rewrite IH. apply Permutation_swap.
Qed.

Lemma isort_perm {A} (le : A → A → bool) l : isort le l ≡ₚ l.
Proof.
  induction l as [|x l IH]; simpl; [done|].
  rewrite sorted_insert_perm. by rewrite IH.
Qed.

Lemma elem_of_isort {A} (le : A → A → bool) l x : x ∈ isort le l ↔ x ∈ l.
Proof. by rewrite isort_perm. Qed.

Lemma length_isort {A} (le : A → A → bool) l : length (isort le l) = length l.
Proof. by rewrite isort_perm. Qed.

(** Sorting by an integer key yields a list in which the key never decreases. *)
Section key_sort.
Context {A : Type} (key : A → Z).
Let R (x y : A) : Prop := (key x ≤ key y)%Z.
Let le (x y : A) : bool := (key x <=? key y)%Z.

Lemma sorted_insert_StronglySorted x l :
  StronglySorted R l → StronglySorted R (sorted_insert le x l).
Proof.
  induction 1 as [|y l Hs IH Hall]; simpl.
  { constructor; constructor. }
  unfold le at 1. destruct (Z.leb_spec (key x) (key y)) as [Hle|Hgt].
  - constructor; [by constructor|]. constructor; [done|].
    eapply Forall_impl; [exact Hall|]. unfold R. intros z Hz. lia.
  - constructor; [done|]. rewrite sorted_insert_perm. constructor; [|done].
    unfold R; lia.
Qed.

Lemma isort_StronglySorted l : StronglySorted R (isort le l).
Proof.
  induction l as [|x l IH]; simpl; [constructor|].
  by apply sorted_insert_StronglySorted.
Qed.
End key_sort.

(** ** JavaScript's [a ?? b] and [a || b] on optional strings *)
Definition nullish {A} (o : option A) (d : A) : A := default d o.
Definition truthy (o : option string) : bool :=
  match o with Some s => negb (String.eqb s "") | None => false end.
Definition or_string (o : option string) (d : string) : string :=
  match o with
  | Some s => if String.eqb s "" then d else s
  | None => d
  end.

(** ** Tactics

    [inv_ok] inverts equations between results; [case_results] destructs the
    scrutinee of every match in the goal. *)
Ltac inv_ok :=
  repeat match goal with
  | H : Ok _ = Ok _ |- _ => injection H as H; try subst
  | H : Err _ = Err _ |- _ => injection H as H; try subst
  | H : Ok _ = Err _ |- _ => discriminate H
  | H : Err _ = Ok _ |- _ => discriminate H
  | H : (_, _) = (_, _) |- _ => injection H as H; try subst
  end.

Ltac case_results :=
  repeat match goal with
  | |- context [match ?x with _ => _ end] => destruct x eqn:?; simplify_eq/=; try done
  end.

(** Destruct the boolean tests of a goal and of its hypotheses. *)
Ltac bool_cases :=
  repeat (case_match; simplify_eq/=; try done).

Lemma string_eqb_spec (s t : string) : reflect (s = t) (String.eqb s t).
Proof. apply String.eqb_spec. Qed.

Lemma string_eqb_refl s : String.eqb s s = true.
Proof. apply String.eqb_refl. Qed.

Lemma string_app_nil_r s : s +:+ "" = s.
Proof. induction s as [|c s IH]; [done|]. exact (f_equal (String c) IH). Qed.

Lemma string_app_assoc s t u : s +:+ (t +:+ u) = (s +:+ t) +:+ u.
Proof. induction s as [|c s IH]; [done|]. exact (f_equal (String c) IH). Qed.

#[export] Hint Rewrite string_eqb_refl string_app_nil_r @length_isort : bridge_rw.
