(* ===== verification/JsLang.v ===== *)
(** * The JavaScript string and number operations the source uses

    A JavaScript string is modelled by a [string]: a sequence of UTF-16 code units
    below 256 (Latin-1), one per [ascii].  On that range the functions here agree
    with ECMAScript, the upper half of Latin-1 included ([toLowerCase], [trim],
    the UTF-8 encoding of [Buffer.from]).  A JavaScript number that is an
    integer is its [Z] value; [to_double] is the rounding that reading a decimal
    literal performs and [number_to_string] is [String(n)]. *)
From S2P Require Import Prelude.

(** ** Strings as lists of code units *)
Abbreviation chars := String.list_ascii_of_string.
Abbreviation of_chars := String.string_of_list_ascii.

Definition code (c : Ascii.ascii) : nat := Ascii.nat_of_ascii c.

(** [s.startsWith(p)] *)
Definition startsWith (s p : string) : bool := String.prefix p s.

(** [s.includes(t)] *)
Fixpoint includes (s t : string) : bool :=
  String.prefix t s ||
  match s with
  | EmptyString => false
  | String _ s' => includes s' t
  end.

(** [s.toLowerCase()] on Latin-1: A-Z and the accented capitals U+00C0..U+00DE
    (the multiplication sign U+00D7 excepted) move up by 32. *)
Definition lower_char (c : Ascii.ascii) : Ascii.ascii :=
  let n := code c in
  if ((65 <=? n) && (n <=? 90))%nat
     || ((192 <=? n) && (n <=? 222) && negb (n =? 215))%nat
  then Ascii.ascii_of_nat (n + 32) else c.

Fixpoint toLowerCase (s : string) : string :=
  match s with
  | EmptyString => EmptyString
  | String c s' => String (lower_char c) (toLowerCase s')
  end.

(** White space of [trim] and of the regular expression class [\s]. *)
Definition is_ws (c : Ascii.ascii) : bool :=
  let n := code c in
  ((9 <=? n) && (n <=? 13))%nat || (n =? 32)%nat || (n =? 160)%nat.

(** [s.replace(/^c+/, '')] for a character test [c] *)
Fixpoint strip_leading (p : Ascii.ascii → bool) (s : string) : string :=
  match s with
  | EmptyString => EmptyString
  | String c s' => if p c then strip_leading p s' else s
  end.

Fixpoint string_rev_app (s acc : string) : string :=
  match s with
  | EmptyString => acc
  | String c s' => string_rev_app s' (String c acc)
  end.
Definition string_rev (s : string) : string := string_rev_app s EmptyString.

Definition strip_trailing (p : Ascii.ascii → bool) (s : string) : string :=
  string_rev (strip_leading p (string_rev s)).

(** [s.trim()] *)
Definition trim (s : string) : string := strip_trailing is_ws (strip_leading is_ws s).

(** [s.endsWith(t)] *)
Definition endsWith (s t : string) : bool :=
  String.prefix (string_rev t) (string_rev s).

(** [s.split(c)] for a one-character separator: never the empty array. *)
Fixpoint split_char (c : Ascii.ascii) (s : string) : list string :=
  match s with
  | EmptyString => [EmptyString]
  | String d s' =>
      if Ascii.eqb c d then EmptyString :: split_char c s'
      else match split_char c s' with
           | [] => [String d EmptyString]
           | w :: ws => String d w :: ws
           end
  end.

(** [a.join(sep)] *)
Definition join (sep : string) (l : list string) : string := String.concat sep l.

(** [s.replaceAll(c, '')], [s.replace(/c/g, '')] for one character [c] *)
Fixpoint remove_char (c : Ascii.ascii) (s : string) : string :=
  match s with
  | EmptyString => EmptyString
  | String d s' => if Ascii.eqb c d then remove_char c s' else String d (remove_char c s')
  end.

(** [Buffer.from(s)]: the UTF-8 encoding of Latin-1 code units. *)
Definition utf8_char (c : Ascii.ascii) : list nat :=
  let n := code c in
  if (n <? 128)%nat then [n] else [192 + n / 64; 128 + n mod 64]%nat.
Definition byte_of_nat (n : nat) : Byte.byte := Ascii.byte_of_ascii (Ascii.ascii_of_nat n).
Definition utf8 (s : string) : bytes := map byte_of_nat (chars s ≫= utf8_char).

(** ** Numbers *)

(** The nearest IEEE-754 double of an integer, ties to even. *)
Definition round_half_even (a d : Z) : Z :=
  let q := (a / d)%Z in
  let r := (a mod d)%Z in
  if (2 * r <? d)%Z then q
  else if (d <? 2 * r)%Z then (q + 1)%Z
  else if Z.even q then q else (q + 1)%Z.

Definition to_double (z : Z) : Z :=
  let a := Z.abs z in
  if (a <? 2 ^ 53)%Z then z
  else let d := (2 ^ (Z.log2 a - 52))%Z in (Z.sgn z * (round_half_even a d * d))%Z.

(** A JavaScript number that is integral: a fixpoint of the rounding. *)
Definition is_double (z : Z) : Prop := to_double z = z.

#[global] Instance is_double_dec z : Decision (is_double z).
Proof. unfold is_double. apply _. Defined.

(** [Number::toString] prints the shortest decimal that reads back as the same
    double: the first digit count [k] for which rounding to [k] significant digits
    is lossless.  [n] is the number of decimal digits of the magnitude. *)
Fixpoint decimal_digits (fuel : nat) (a : Z) : nat :=
  match fuel with
  | O => O
  | S f => if (a =? 0)%Z then O else S (decimal_digits f (a / 10))
  end.

Fixpoint shortest_from (v : Z) (n k fuel : nat) : Z :=
  match fuel with
  | O => v
  | S f =>
      let d := (10 ^ Z.of_nat (n - k))%Z in
      let c := (round_half_even v d * d)%Z in
      if (to_double c =? v)%Z then c else shortest_from v n (S k) f
  end.

Definition shortest (v : Z) : Z :=
  if (Z.abs v <? 2 ^ 53)%Z then v
  else let n := decimal_digits 40 (Z.abs v) in
       (Z.sgn v * shortest_from (Z.abs v) n 1 n)%Z.

(** [String(v)] for an integral number below 10^21 in magnitude (from there on
    JavaScript switches to exponent notation). *)
Definition number_to_string (v : Z) : string := pretty (shortest v).

(** ** Facts *)

(** [c] does not occur in [s]. *)
Fixpoint no_char (c : Ascii.ascii) (s : string) : bool :=
  match s with
  | EmptyString => true
  | String d s' => negb (Ascii.eqb c d) && no_char c s'
  end.

Lemma no_char_app c s t : no_char c (s +:+ t) = no_char c s && no_char c t.
Proof.
  induction s as [|d s IH]; [done|].
  change (String d s +:+ t) with (String d (s +:+ t)). simpl. rewrite IH. apply andb_assoc.
Qed.

Lemma split_char_nonempty c s : split_char c s ≠ [].
Proof. destruct s as [|d s]; simpl; [done|]. repeat case_match; done. Qed.

Lemma split_char_no_char c s : Forall (λ t, no_char c t = true) (split_char c s).
Proof.
  induction s as [|d s IH]; simpl; [by repeat constructor|].
  destruct (Ascii.eqb c d) eqn:E; [by constructor|].
  destruct (split_char c s) as [|w ws]; simpl.
  - constructor; [|done]. simpl. by rewrite E.
  - inversion_clear IH as [|? ? Hw Hws]. constructor; [|done]. simpl. by rewrite E, Hw.
Qed.

Lemma split_char_app c s t :
  no_char c s = true →
  split_char c (s +:+ String c t) = s :: split_char c t.
Proof.
  induction s as [|d s IH]; simpl.
  - intros _. change ("" +:+ String c t) with (String c t). simpl.
    by rewrite Ascii.eqb_refl.
  - intros [Hd%negb_true_iff Hs]%andb_true_iff.
    change (String d s +:+ String c t) with (String d (s +:+ String c t)). simpl.
    by rewrite Hd, IH.
Qed.

Lemma split_char_single c s : no_char c s = true → split_char c s = [s].
Proof.
  induction s as [|d s IH]; simpl; [done|].
  intros [Hd%negb_true_iff Hs]%andb_true_iff. by rewrite Hd, IH.
Qed.

(** [l.join(c).split(c)] is [l] when no piece contains the separator. *)
Lemma split_join c l :
  l ≠ [] → Forall (λ s, no_char c s = true) l →
  split_char c (join (String c EmptyString) l) = l.
Proof.
  intros Hne Hl. induction Hl as [|s l Hs Hl IH]; [done|]. unfold join in *.
  destruct l as [|t l]; [by apply split_char_single|].
  change (String.concat (String c "") (s :: t :: l))
    with (s +:+ String c (String.concat (String c "") (t :: l))).
  rewrite split_char_app by done. by rewrite IH.
Qed.

Lemma join_inj c l l' :
  l ≠ [] → l' ≠ [] →
  Forall (λ s, no_char c s = true) l → Forall (λ s, no_char c s = true) l' →
  join (String c EmptyString) l = join (String c EmptyString) l' → l = l'.
Proof.
  intros H1 H2 H3 H4 Heq. rewrite <- (split_join c l), <- (split_join c l') by done.
  by rewrite Heq.
Qed.

(** Printed integers are digits, with a leading minus at most. *)
Lemma pretty_N_go_no_char c x s :
  (∀ n, Ascii.eqb c (pretty_N_char n) = false) →
  no_char c s = true → no_char c (pretty_N_go x s) = true.
Proof.
  intros Hc. revert s. induction (N.lt_wf_0 x) as [x _ IH]; intros s Hs.
  destruct (decide (x = 0)%N) as [->|Hx]; [by rewrite pretty_N_go_0|].
  rewrite pretty_N_go_step by lia. apply IH; [apply N.div_lt; lia|].
  simpl. by rewrite Hc, Hs.
Qed.

Lemma pretty_N_no_char c (x : N) :
  (∀ n, Ascii.eqb c (pretty_N_char n) = false) → no_char c (pretty x) = true.
Proof.
  intros Hc. unfold pretty, pretty_N. case_decide.
  - specialize (Hc 0%N). simpl in *. by rewrite Hc.
  - by apply pretty_N_go_no_char.
Qed.

Lemma pretty_Z_no_char c (z : Z) : no_char c "-0123456789" = true → no_char c (pretty z) = true.
Proof.
  simpl. rewrite !andb_true_iff, !negb_true_iff. intros (Hm & H0 & H1 & H2 & H3 & H4 & H5 & H6 & H7 & H8 & H9 & _).
  assert (H : ∀ x : N, no_char c (pretty x) = true).
  { intros x. apply pretty_N_no_char. intros n. unfold pretty_N_char. by repeat case_match. }
  destruct z as [|p|p]; [simpl; by rewrite H0|exact (H (Npos p))|].
  change (no_char c ("-" +:+ pretty (Npos p)) = true). rewrite no_char_app, H. simpl. by rewrite Hm.
Qed.

Lemma pretty_Z_no_comma (z : Z) : no_char ","%char (pretty z) = true.
Proof. by apply pretty_Z_no_char. Qed.

Lemma string_app_inj_l (p s t : string) : p +:+ s = p +:+ t → s = t.
Proof. induction p; simpl; [done|]. intros [=]. auto. Qed.

Lemma string_app_char_inj c (s t : string) :
  s +:+ String c EmptyString = t +:+ String c EmptyString → s = t.
Proof.
  revert t. induction s as [|d s IH]; intros [|e t] Heq; simpl in *; [done|..].
  - injection Heq as _ Heq. by destruct t.
  - injection Heq as _ Heq. by destruct s.
  - injection Heq as -> Heq. f_equal. auto.
Qed.

(** The part of a string before the first occurrence of a character. *)
Lemma before_char_inj c u u' r r' :
  no_char c u = true → no_char c u' = true →
  u +:+ String c r = u' +:+ String c r' → u = u' ∧ r = r'.
Proof.
  revert u'. induction u as [|d u IH]; intros [|d' u'] Hu Hu' Heq; simpl in *.
  - by simplify_eq.
  - injection Heq as <- _. apply andb_true_iff in Hu' as [Hc _]. by rewrite Ascii.eqb_refl in Hc.
  - injection Heq as -> _. apply andb_true_iff in Hu as [Hc _]. by rewrite Ascii.eqb_refl in Hc.
  - injection Heq as -> Heq. apply andb_true_iff in Hu as [_ Hu], Hu' as [_ Hu'].
    destruct (IH _ Hu Hu' Heq) as [-> ->]. done.
Qed.

Lemma number_to_string_no_bar v : no_char "|"%char (number_to_string v) = true.
Proof. by apply pretty_Z_no_char. Qed.

Lemma pretty_Z_nonempty (z : Z) : (pretty z : string) ≠ "".
Proof.
  assert (Hn : ∀ x : N, (pretty x : string) ≠ "").
  { intros x. unfold pretty, pretty_N. case_decide as Hx; [done|].
    assert (Hg : ∀ y s, s ≠ "" → pretty_N_go y s ≠ "").
    { intros y. induction (N.lt_wf_0 y) as [y _ IH]; intros s Hs.
      destruct (decide (y = 0)%N) as [->|Hy]; [by rewrite pretty_N_go_0|].
      rewrite pretty_N_go_step by lia. apply IH; [apply N.div_lt; lia|done]. }
    rewrite pretty_N_go_step by lia. by apply Hg. }
  destruct z as [|p|p]; [done|exact (Hn (Npos p))|done].
Qed.

(** What is printed reads back as the number, so distinct numbers print
    differently. *)
Lemma shortest_from_double v n k fuel :
  to_double v = v → to_double (shortest_from v n k fuel) = v.
Proof.
  intros Hv. revert k. induction fuel as [|f IH]; intros k; simpl; [done|].
  destruct (Z.eqb_spec (to_double (round_half_even v (10 ^ Z.of_nat (n - k)) *
    10 ^ Z.of_nat (n - k))) v); auto.
Qed.

Lemma to_double_opp z : to_double (- z) = (- to_double z)%Z.
Proof.
  unfold to_double. rewrite Z.abs_opp. destruct (Z.abs z <? 2 ^ 53)%Z; [done|].
  rewrite Z.sgn_opp. lia.
Qed.

Lemma shortest_double v : is_double v → to_double (shortest v) = v.
Proof.
  unfold is_double, shortest. intros Hv. destruct (Z.abs v <? 2 ^ 53)%Z eqn:Hs; [done|].
  assert (Habs : to_double (Z.abs v) = Z.abs v).
  { destruct (Z.abs_eq_or_opp v) as [-> | ->]; [done|]. by rewrite to_double_opp, Hv. }
  set (m := shortest_from _ _ _ _).
  assert (Hm : to_double m = Z.abs v) by (by apply shortest_from_double).
  destruct (Z.sgn_spec v) as [[? ->]|[[<- _]|[? ->]]].
  - rewrite Z.mul_1_l, Hm. lia.
  - done.
  - replace (-1 * m)%Z with (- m)%Z by lia. rewrite to_double_opp, Hm. lia.
Qed.

Lemma number_to_string_inj v v' :
  is_double v → is_double v' → number_to_string v = number_to_string v' → v = v'.
Proof.
  unfold number_to_string. intros Hv Hv' Heq%(inj (pretty (A := Z))). rewrite <- (shortest_double v), <- (shortest_double v') by done.
  by rewrite Heq.
Qed.

(** [startsWith] as an equation. *)
Lemma startsWith_spec s p : startsWith s p = true ↔ ∃ t, s = p +:+ t.
Proof.
  unfold startsWith. revert s. induction p as [|c p IH]; intros s; simpl.
  - split; [intros _; by exists s|]. by destruct s.
  - destruct s as [|d s].
    + split; [done|]. by intros [t Ht].
    + simpl. destruct (Ascii.ascii_dec c d) as [->|Hne].
      * rewrite IH. split; intros [t Ht].
        -- exists t. by rewrite Ht.
        -- exists t. by injection Ht.
      * split; [done|]. intros [t Ht]. by injection Ht.
Qed.

(** The UTF-8 encoding is injective. *)
Lemma utf8_char_app_inj c d (s t : list nat) :
  utf8_char c ++ s = utf8_char d ++ t → c = d ∧ s = t.
Proof.
  assert (Hinj : ∀ a b, code a = code b → a = b).
  { intros a b E. rewrite <- (Ascii.ascii_nat_embedding a), <- (Ascii.ascii_nat_embedding b).
    unfold code in E. by rewrite E. }
  unfold utf8_char. intros Heq.
  assert (H0 := f_equal (λ l, default 0 (l !! 0)) Heq).
  assert (H1 := f_equal (λ l, default 0 (l !! 1)) Heq).
  assert (Hs1 := f_equal (drop 1) Heq). assert (Hs2 := f_equal (drop 2) Heq).
  destruct (Nat.ltb_spec (code c) 128), (Nat.ltb_spec (code d) 128);
    cbn -[Nat.div Nat.modulo Nat.add] in H0, H1, Hs1, Hs2; [auto|lia..|].
  split; [|done]. apply Hinj.
  rewrite (Nat.div_mod_eq (code c) 64), (Nat.div_mod_eq (code d) 64). lia.
Qed.

Lemma byte_of_nat_inj a b : a < 256 → b < 256 → byte_of_nat a = byte_of_nat b → a = b.
Proof.
  unfold byte_of_nat. intros Ha Hb E%(f_equal Ascii.ascii_of_byte).
  rewrite !Ascii.ascii_of_byte_of_ascii in E.
  rewrite <- (Ascii.nat_ascii_embedding a Ha), <- (Ascii.nat_ascii_embedding b Hb). by rewrite E.
Qed.

Lemma utf8_char_small c n : n ∈ utf8_char c → n < 256.
Proof.
  pose proof (Ascii.nat_ascii_bounded c) as Hc. unfold utf8_char, code.
  assert (Ascii.nat_of_ascii c / 64 < 4) by (apply Nat.Div0.div_lt_upper_bound; lia).
  pose proof (Nat.mod_upper_bound (Ascii.nat_of_ascii c) 64).
  intros Hn%list_elem_of_In. destruct (Ascii.nat_of_ascii c <? 128)%nat; cbn -[Nat.div Nat.modulo] in Hn; lia.
Qed.

Lemma utf8_inj s t : utf8 s = utf8 t → s = t.
Proof.
  unfold utf8. intros H.
  assert (Hm : ∀ l l' : list nat, (∀ n, n ∈ l → n < 256) → (∀ n, n ∈ l' → n < 256) →
    map byte_of_nat l = map byte_of_nat l' → l = l').
  { intros l. induction l as [|a l IH]; intros [|b l'] Hl Hl' E; simpl in E; try done.
    injection E as Eb El. f_equal.
    - apply byte_of_nat_inj; auto; [apply Hl|apply Hl']; set_solver.
    - apply IH; [set_solver..|done]. }
  assert (Hsm : ∀ u n, n ∈ chars u ≫= utf8_char → n < 256).
  { intros u n (c & Hn & _)%list_elem_of_bind. by eapply utf8_char_small. }
  apply Hm in H; [|eauto..]. clear Hm Hsm. revert t H.
  induction s as [|c s IH]; intros [|d t] H; simpl in H; [done|..].
  - exfalso. unfold utf8_char in H. by case_match.
  - exfalso. unfold utf8_char in H. by case_match.
  - apply utf8_char_app_inj in H as [-> H]. f_equal. by apply IH.
Qed.
