(* ===== verification/Numbers.v ===== *)
(** * JavaScript numbers

    The doubles as rationals, the conversion [Number(s)] and the multiplication by a
    constant: what the configuration and the JSON reader need. *)
From Stdlib Require Import QArith.
From S2P Require Import Prelude JsLang.
#[local] Open Scope Z_scope.

(** A finite double as a rational in lowest terms. *)
Inductive js_number := NaN | Infinity (negative : bool) | Finite (q : Q).

Definition pow2 (e : Z) : Q := if (0 <=? e) then inject_Z (2 ^ e) else Qmake 1 (Z.to_pos (2 ^ (- e))).

(** The double nearest to [n / d], for [n > 0]: 53 bits of mantissa, the least
    exponent -1074, ties to even; from 2^1024 on, infinity. *)
Definition round_double (n : Z) (d : positive) : option Q :=
  let guess := Z.log2 n - Z.log2 (Zpos d) - 52 in
  let scaled e := if (0 <=? e) then (n, Zpos d * 2 ^ e) else (n * 2 ^ (- e), Zpos d) in
  let e0 := let '(a, b) := scaled guess in if (a / b <? 2 ^ 52) then guess - 1 else guess in
  let e := Z.max e0 (-1074) in
  let '(a, b) := scaled e in
  let m := round_half_even a b in
  if (m * 2 ^ Z.max e 0 <? 2 ^ 1024) then Some (Qred (inject_Z m * pow2 e)%Q) else None.

Definition to_number (negative : bool) (n : Z) (d : positive) : js_number :=
  if (n =? 0) then Finite 0
  else match round_double n d with
       | Some q => Finite (if negative then Qred (- q) else q)
       | None => Infinity negative
       end.

(** ** [Number(s)] *)
Definition digit_of (base : Z) (c : Ascii.ascii) : option Z :=
  let n := Z.of_nat (code c) in
  let v := if (48 <=? n) && (n <=? 57) then n - 48
           else if (97 <=? n) && (n <=? 122) then n - 87
           else if (65 <=? n) && (n <=? 90) then n - 55 else 99 in
  if (v <? base) then Some v else None.

(** A run of digits: its value, its length and the rest. *)
Fixpoint digits (base acc : Z) (count : nat) (s : string) : Z * nat * string :=
  match s with
  | EmptyString => (acc, count, s)
  | String c s' => match digit_of base c with
                   | Some v => digits base (acc * base + v) (S count) s'
                   | None => (acc, count, s)
                   end
  end.

Definition sign_of (s : string) : bool * string :=
  match s with
  | String "-"%char s' => (true, s')
  | String "+"%char s' => (false, s')
  | _ => (false, s)
  end.

(** The exponent part, to the end of the string. *)
Definition exponent_of (s : string) : option Z :=
  match s with
  | EmptyString => Some 0
  | String c s' =>
      if Ascii.eqb c "e"%char || Ascii.eqb c "E"%char then
        let '(neg, t) := sign_of s' in
        match digits 10 0 0 t with
        | (v, S _, EmptyString) => Some (if neg then - v else v)
        | _ => None
        end
      else None
  end.

(** [m * 10^e] *)
Definition scaled_number (negative : bool) (m e : Z) : js_number :=
  if (0 <=? e) then to_number negative (m * 10 ^ e) 1
  else to_number negative m (Z.to_pos (10 ^ (- e))).

Definition decimal (negative : bool) (s : string) : js_number :=
  let '(ip, ni, r) := digits 10 0 0 s in
  let '(m, nf, r') := match r with
                      | String "."%char t => let '(v, k, u) := digits 10 ip 0 t in (v, k, u)
                      | _ => (ip, O, r)
                      end in
  if (ni + nf =? 0)%nat then NaN
  else match exponent_of r' with
       | None => NaN
       | Some e => scaled_number negative m (e - Z.of_nat nf)
       end.

Definition radix (s : string) : option (Z * string) :=
  match s with
  | String "0"%char (String c t) =>
      let l := lower_char c in
      if Ascii.eqb l "x"%char then Some (16, t)
      else if Ascii.eqb l "o"%char then Some (8, t)
      else if Ascii.eqb l "b"%char then Some (2, t) else None
  | _ => None
  end.

Definition Number (s : string) : js_number :=
  let t := trim s in
  if String.eqb t "" then Finite 0
  else match radix t with
       | Some (base, u) => match digits base 0 0 u with
                           | (v, S _, EmptyString) => to_number false v 1
                           | _ => NaN
                           end
       | None => let '(neg, u) := sign_of t in
                 if String.eqb u "Infinity" then Infinity neg else decimal neg u
       end.

(** [Number(undefined)] is NaN. *)
Definition number_of (v : option string) : js_number :=
  match v with Some s => Number s | None => NaN end.

(** [a * b] for a positive integer constant [b]. *)
Definition times (a : js_number) (b : Z) : js_number :=
  match a with
  | Finite q => let r := Qred (q * inject_Z b)%Q in to_number (Qnum r <? 0) (Z.abs (Qnum r)) (Qden r)
  | _ => a
  end.

Example Number_examples :
  Number "3000" = Finite (inject_Z 3000) ∧ Number " 0x10 " = Finite (inject_Z 16) ∧
  Number "" = Finite 0 ∧ Number "1e3" = Finite (inject_Z 1000) ∧ Number "2.5" = Finite (5 # 2) ∧
  Number "0.99999999999999999999" = Finite 1 ∧ Number "12px" = NaN ∧ Number "-Infinity" = Infinity true ∧
  Number "1e400" = Infinity false ∧ Number "9007199254740993" = Finite (inject_Z 9007199254740992) ∧
  Number "-7" = Finite (inject_Z (-7)) ∧ Number "." = NaN ∧ Number "0.1" = Finite (3602879701896397 # 36028797018963968).
Proof. by vm_compute. Qed.

(** ** Facts *)

Lemma Qred_integer z : Qred (inject_Z z) = inject_Z z.
Proof.
  unfold Qred, inject_Z. pose proof (Z.ggcd_gcd z 1) as Hg. pose proof (Z.ggcd_correct_divisors z 1) as Hd.
  destruct (Z.ggcd z 1) as [g [a b]]. simpl in *. rewrite Z.gcd_1_r in Hg. subst g.
  destruct Hd as [Ha Hb]. f_equal; [lia|]. by replace b with 1 by lia.
Qed.

(** Integers below 2^53 are doubles: nothing is rounded. *)
Lemma round_double_exact n : 0 < n < 2 ^ 53 → round_double n 1 = Some (inject_Z n).
Proof.
  intros [Hpos Hlt]. unfold round_double. change (Z.log2 1) with 0. rewrite Z.sub_0_r.
  assert (Hl : 0 <= Z.log2 n < 53) by (split; [apply Z.log2_nonneg|apply Z.log2_lt_pow2; lia]).
  destruct (Z.log2_spec n Hpos) as [Hlo _].
  set (g := Z.log2 n - 52).
  assert (Hs : (if 0 <=? g then (n, 1 * 2 ^ g) else (n * 2 ^ (- g), 1)) = (n * 2 ^ (- g), 1)).
  { destruct (Z.leb_spec 0 g); [|done]. assert (g = 0) as -> by lia. f_equal; simpl; lia. }
  assert (Hge : 2 ^ 52 <= n * 2 ^ (- g)).
  { replace 52 with (Z.log2 n + - g) by lia. rewrite Z.pow_add_r by lia. apply Z.mul_le_mono_nonneg_r; lia. }
  assert (Hub : n * 2 ^ (- g) < 2 ^ 1024).
  { assert (2 ^ (- g) <= 2 ^ 52) by (apply Z.pow_le_mono_r; lia).
    apply Z.lt_trans with (2 ^ 53 * 2 ^ 52 + 1); [nia|]. reflexivity. }
  rewrite Hs, Z.div_1_r, (proj2 (Z.ltb_ge _ _) Hge). rewrite Z.max_l by lia. rewrite Hs.
  assert (Hr : round_half_even (n * 2 ^ (- g)) 1 = n * 2 ^ (- g)).
  { unfold round_half_even. rewrite Z.mod_1_r, Z.div_1_r. reflexivity. }
  rewrite Hr, (Z.max_r g 0), Z.mul_1_r, (proj2 (Z.ltb_lt _ _) Hub) by lia.
  f_equal. transitivity (Qred (inject_Z n)).
  - apply Qred_complete. unfold pow2. destruct (Z.leb_spec 0 g).
    + assert (g = 0) as -> by lia. rewrite Z.mul_1_r. unfold Qeq. simpl. lia.
    + unfold Qeq, inject_Z, Qmult. cbn [Qnum Qden Pos.mul].
      rewrite Pos.mul_1_l, Z2Pos.id by (apply Z.pow_pos_nonneg; lia). lia.
  - apply Qred_integer.
Qed.

Lemma times_exact z b : 0 <= z → 0 < b → z * b < 2 ^ 53 →
  times (Finite (inject_Z z)) b = Finite (inject_Z (z * b)).
Proof.
  intros Hz Hb Hlt. unfold times.
  assert (Hq : Qred (inject_Z z * inject_Z b) = inject_Z (z * b)).
  { change (inject_Z z * inject_Z b)%Q with (inject_Z (z * b)). apply Qred_integer. }
  rewrite Hq. simpl. destruct (Z.ltb_spec (z * b) 0); [nia|]. rewrite Z.abs_eq by nia. unfold to_number.
  destruct (Z.eqb_spec (z * b) 0) as [->|Hne]; [done|]. by rewrite round_double_exact by nia.
Qed.

(** ** [String(n)] for any number

    The shortest decimal that reads back as the number, closest to it, laid out as
    ECMAScript's [Number::toString] does. *)
Fixpoint decimal_width (fuel : nat) (a : Z) : Z :=
  match fuel with
  | O => 0
  | S f => if (a =? 0) then 0 else 1 + decimal_width f (a / 10)
  end.

(** The [n] with [10^(n-1) <= a/b < 10^n]. *)
Fixpoint leading_zeros (fuel : nat) (a b : Z) : Z :=
  match fuel with
  | O => 0
  | S f => if (b <=? a * 10) then 0 else 1 + leading_zeros f (a * 10) b
  end.
Definition point_position (a b : Z) : Z :=
  if (b <=? a) then decimal_width 320 (a / b) else - leading_zeros 330 a b.

(** The first number of digits that loses nothing, with the digits. *)
Fixpoint shortest_digits (q : Q) (n k : Z) (fuel : nat) : Z * Z :=
  let a := Qnum q in
  let b := Zpos (Qden q) in
  let s := if (0 <=? k - n) then round_half_even (a * 10 ^ (k - n)) b
           else round_half_even a (b * 10 ^ (n - k)) in
  match fuel with
  | O => (s, k)
  | S f => match scaled_number false s (n - k) with
           | Finite r => if Qeq_bool r q then (s, k) else shortest_digits q n (k + 1) f
           | _ => shortest_digits q n (k + 1) f
           end
  end.

Definition zeros (n : Z) : string := of_chars (replicate (Z.to_nat n) "0"%char).

Definition layout (s k n : Z) : string :=
  let d := pretty s in
  if (k <=? n) && (n <=? 21) then d +:+ zeros (n - k)
  else if (0 <? n) && (n <=? 21) then
    String.substring 0 (Z.to_nat n) d +:+ "." +:+ String.substring (Z.to_nat n) (Z.to_nat (k - n)) d
  else if (-6 <? n) && (n <=? 0) then "0." +:+ zeros (- n) +:+ d
  else
    let e := (if (0 <=? n - 1) then "+" else "-") +:+ pretty (Z.abs (n - 1)) in
    if (k =? 1) then d +:+ "e" +:+ e
    else String.substring 0 1 d +:+ "." +:+ String.substring 1 (Z.to_nat (k - 1)) d +:+ "e" +:+ e.

Definition number_text (v : js_number) : string :=
  match v with
  | NaN => "NaN"
  | Infinity negative => if negative then "-Infinity" else "Infinity"
  | Finite q =>
      if (Qnum q =? 0) then "0"
      else
        let p := Qmake (Z.abs (Qnum q)) (Qden q) in
        let n := point_position (Qnum p) (Zpos (Qden p)) in
        let '(s, k) := shortest_digits p n 1 17 in
        (* a carry into one more digit *)
        let '(s, n) := if (s =? 10 ^ k) then (s / 10, n + 1) else (s, n) in
        (if (Qnum q <? 0) then "-" else "") +:+ layout s k n
  end.

Example number_text_examples :
  number_text (Number "0.1") = "0.1" ∧ number_text (Number "-2.5") = "-2.5" ∧
  number_text (Number "1e21") = "1e+21" ∧ number_text (Number "123456789012345680000") = "123456789012345680000" ∧
  number_text (Number "1.5e-7") = "1.5e-7" ∧ number_text (Number "0.000001") = "0.000001" ∧
  number_text (Number "5") = "5" ∧ number_text (Number "100") = "100" ∧ number_text NaN = "NaN" ∧
  number_text (Number "9007199254740993") = "9007199254740992".
Proof. by vm_compute. Qed.
