(* ===== verification/Json.v ===== *)
(** * JSON

    [JSON.stringify] on the values the source sends and [JSON.parse] on the texts it
    reads.  Strings are Latin-1 here ([JsLang]); a text with an escape above [\u00ff]
    denotes a string outside that range and is answered [Beyond].  The reader recurses
    with fuel; [JSON_parse] gives it twice the length of the text and two more, which is
    enough for every text ([JSON_parse_fuel]). *)
From Stdlib Require Import QArith.
From S2P Require Import Prelude JsLang Numbers.

Inductive json :=
  | JNull
  | JBool (b : bool)
  | JNumber (n : js_number)
  | JString (s : string)
  | JArray (l : list json)
  | JObject (fields : list (string * json)).   (** in the order of the text, repetitions included *)

(** ** Writing *)
Definition hex_digit (n : nat) : Ascii.ascii :=
  Ascii.ascii_of_nat (if (n <? 10)%nat then 48 + n else 87 + n).

Definition json_char (c : Ascii.ascii) : string :=
  let n := code c in
  let esc d := String "\"%char (String d EmptyString) in
  if (n =? 34)%nat then esc c
  else if (n =? 92)%nat then esc c
  else if (n =? 8)%nat then esc "b"%char
  else if (n =? 9)%nat then esc "t"%char
  else if (n =? 10)%nat then esc "n"%char
  else if (n =? 12)%nat then esc "f"%char
  else if (n =? 13)%nat then esc "r"%char
  else if (n <? 32)%nat
  then "\u00" +:+ String (hex_digit (n / 16)) (String (hex_digit (n mod 16)) EmptyString)
  else String c EmptyString.

Fixpoint json_chars (s : string) : string :=
  match s with
  | EmptyString => EmptyString
  | String c s' => json_char c +:+ json_chars s'
  end.

Definition quote : string := String (Ascii.ascii_of_nat 34) EmptyString.
Definition json_string (s : string) : string := quote +:+ json_chars s +:+ quote.
Definition json_bool (b : bool) : string := if b then "true" else "false".
Definition json_field (name value : string) : string := json_string name +:+ ":" +:+ value.

(** The numbers the source sends are integers. *)
Definition json_number (n : js_number) : string :=
  match n with Finite q => number_to_string (Qnum q) | _ => "null" end.

Fixpoint stringify (v : json) : string :=
  match v with
  | JNull => "null"
  | JBool b => json_bool b
  | JNumber n => json_number n
  | JString s => json_string s
  | JArray l => "[" +:+ join "," (map stringify l) +:+ "]"
  | JObject l => "{" +:+ join "," (map (λ p, json_field p.1 (stringify p.2)) l) +:+ "}"
  end.

(** ** Reading *)
Inductive parsed (A : Type) :=
  | Parsed (a : A)
  | SyntaxError
  | Beyond      (** a string outside Latin-1 *)
  | OutOfFuel.
Arguments Parsed {A} a.
Arguments SyntaxError {A}.
Arguments Beyond {A}.
Arguments OutOfFuel {A}.

Definition parsed_bind {A B} (p : parsed A) (f : A → parsed B) : parsed B :=
  match p with
  | Parsed a => f a
  | SyntaxError => SyntaxError
  | Beyond => Beyond
  | OutOfFuel => OutOfFuel
  end.

Definition is_json_ws (c : Ascii.ascii) : bool :=
  let n := code c in ((n =? 9) || (n =? 10) || (n =? 13) || (n =? 32))%nat.
Definition skip_ws (s : string) : string := strip_leading is_json_ws s.

Definition unescape (c : Ascii.ascii) : option Ascii.ascii :=
  let n := code c in
  if ((n =? 34) || (n =? 92) || (n =? 47))%nat then Some c
  else if Ascii.eqb c "b"%char then Some (Ascii.ascii_of_nat 8)
  else if Ascii.eqb c "f"%char then Some (Ascii.ascii_of_nat 12)
  else if Ascii.eqb c "n"%char then Some (Ascii.ascii_of_nat 10)
  else if Ascii.eqb c "r"%char then Some (Ascii.ascii_of_nat 13)
  else if Ascii.eqb c "t"%char then Some (Ascii.ascii_of_nat 9)
  else None.

Definition hex4 (a b c d : Ascii.ascii) : option Z :=
  x ← digit_of 16 a; y ← digit_of 16 b; z ← digit_of 16 c; t ← digit_of 16 d;
  Some (((x * 16 + y) * 16 + z) * 16 + t)%Z.

Definition put_char (c : Ascii.ascii) (p : parsed (string * string)) : parsed (string * string) :=
  parsed_bind p (λ q, Parsed (String c q.1, q.2)).

(** The characters up to the closing quote, and the rest. *)
Fixpoint parse_chars (s : string) : parsed (string * string) :=
  match s with
  | EmptyString => SyntaxError
  | String c s' =>
      if (code c =? 34)%nat then Parsed (EmptyString, s')
      else if (code c =? 92)%nat then
        match s' with
        | EmptyString => SyntaxError
        | String e r =>
            if Ascii.eqb e "u"%char then
              match r with
              | String x (String y (String z (String t r'))) =>
                  match hex4 x y z t with
                  | Some n => if (n <? 256)%Z then put_char (Ascii.ascii_of_nat (Z.to_nat n)) (parse_chars r')
                              else Beyond
                  | None => SyntaxError
                  end
              | _ => SyntaxError
              end
            else match unescape e with
                 | Some x => put_char x (parse_chars r)
                 | None => SyntaxError
                 end
        end
      else if (code c <? 32)%nat then SyntaxError
      else put_char c (parse_chars s')
  end.

Definition minus_of (s : string) : bool * string :=
  match s with
  | String c s' => if Ascii.eqb c "-"%char then (true, s') else (false, s)
  | EmptyString => (false, s)
  end.

Definition starts_zero (s : string) : bool :=
  match s with String c _ => Ascii.eqb c "0"%char | EmptyString => false end.

(** The fraction, if there is one: the mantissa, the number of its fractional digits
    and the rest; a point without digits is an error. *)
Definition parse_fraction (ip : Z) (s : string) : option (Z * nat * string) :=
  match s with
  | String c t =>
      if Ascii.eqb c "."%char then
        match digits 10 ip 0 t with
        | (_, O, _) => None
        | res => Some res
        end
      else Some (ip, O, s)
  | EmptyString => Some (ip, O, s)
  end.

Definition parse_exponent (s : string) : option (Z * string) :=
  match s with
  | String c t =>
      if Ascii.eqb c "e"%char || Ascii.eqb c "E"%char then
        let '(neg, u) := sign_of t in
        match digits 10 0 0 u with
        | (_, O, _) => None
        | (v, _, r) => Some ((if neg then - v else v)%Z, r)
        end
      else Some (0%Z, s)
  | EmptyString => Some (0%Z, s)
  end.

Definition parse_number (s : string) : parsed (json * string) :=
  let '(neg, t) := minus_of s in
  let '(ip, ni, r) := digits 10 0 0 t in
  if (ni =? 0)%nat || (starts_zero t && negb (ni =? 1)%nat) then SyntaxError
  else match parse_fraction ip r with
       | None => SyntaxError
       | Some (m, nf, r1) =>
           match parse_exponent r1 with
           | None => SyntaxError
           | Some (e, r2) => Parsed (JNumber (scaled_number neg m (e - Z.of_nat nf)), r2)
           end
       end.

Definition drop_string (n : nat) (s : string) : string := String.substring n (String.length s - n) s.

Definition parse_literal (s : string) : option (json * string) :=
  if startsWith s "null" then Some (JNull, drop_string 4 s)
  else if startsWith s "true" then Some (JBool true, drop_string 4 s)
  else if startsWith s "false" then Some (JBool false, drop_string 5 s)
  else None.

Fixpoint parse_value (fuel : nat) (s : string) {struct fuel} : parsed (json * string) :=
  match fuel with
  | O => OutOfFuel
  | S f =>
      match skip_ws s with
      | EmptyString => SyntaxError
      | String c r =>
          if Ascii.eqb c "{"%char then
            if startsWith (skip_ws r) "}" then Parsed (JObject [], drop_string 1 (skip_ws r))
            else parsed_bind (parse_members f r) (λ q, Parsed (JObject q.1, q.2))
          else if Ascii.eqb c "["%char then
            if startsWith (skip_ws r) "]" then Parsed (JArray [], drop_string 1 (skip_ws r))
            else parsed_bind (parse_elements f r) (λ q, Parsed (JArray q.1, q.2))
          else if (code c =? 34)%nat then parsed_bind (parse_chars r) (λ q, Parsed (JString q.1, q.2))
          else match parse_literal (String c r) with
               | Some q => Parsed q
               | None => parse_number (String c r)
               end
      end
  end
with parse_elements (fuel : nat) (s : string) {struct fuel} : parsed (list json * string) :=
  match fuel with
  | O => OutOfFuel
  | S f =>
      parsed_bind (parse_value f s) (λ q,
        match skip_ws q.2 with
        | String c r =>
            if Ascii.eqb c ","%char then parsed_bind (parse_elements f r) (λ q', Parsed (q.1 :: q'.1, q'.2))
            else if Ascii.eqb c "]"%char then Parsed ([q.1], r)
            else SyntaxError
        | EmptyString => SyntaxError
        end)
  end
with parse_members (fuel : nat) (s : string) {struct fuel} : parsed (list (string * json) * string) :=
  match fuel with
  | O => OutOfFuel
  | S f =>
      match skip_ws s with
      | String c r =>
          if (code c =? 34)%nat then
            parsed_bind (parse_chars r) (λ k,
              match skip_ws k.2 with
              | String c1 r1 =>
                  if Ascii.eqb c1 ":"%char then
                    parsed_bind (parse_value f r1) (λ q,
                      match skip_ws q.2 with
                      | String c2 r2 =>
                          if Ascii.eqb c2 ","%char
                          then parsed_bind (parse_members f r2) (λ q', Parsed ((k.1, q.1) :: q'.1, q'.2))
                          else if Ascii.eqb c2 "}"%char then Parsed ([(k.1, q.1)], r2)
                          else SyntaxError
                      | EmptyString => SyntaxError
                      end)
                  else SyntaxError
              | EmptyString => SyntaxError
              end)
          else SyntaxError
      | EmptyString => SyntaxError
      end
  end.

Definition JSON_parse (s : string) : parsed json :=
  parsed_bind (parse_value (2 * String.length s + 2) s) (λ q,
    if String.eqb (skip_ws q.2) "" then Parsed q.1 else SyntaxError).

Example JSON_parse_examples :
  JSON_parse ("{ " +:+ quote +:+ "a" +:+ quote +:+ " : [1, -2.5e1, true, null], " +:+ quote +:+ "b" +:+ quote +:+ ":{} }") =
    Parsed (JObject [("a", JArray [JNumber (Finite 1); JNumber (Finite (inject_Z (-25))); JBool true; JNull]);
                     ("b", JObject [])]) ∧
  JSON_parse "[1,]" = SyntaxError ∧ JSON_parse "01" = SyntaxError ∧ JSON_parse "{" = SyntaxError ∧
  JSON_parse "" = SyntaxError ∧ JSON_parse "nul" = SyntaxError ∧ JSON_parse "[]x" = SyntaxError ∧
  JSON_parse " 7 " = Parsed (JNumber (Finite (inject_Z 7))).
Proof. by vm_compute. Qed.

(** ** Facts: JSON *)
Definition unhex (c : Ascii.ascii) : nat :=
  let n := code c in if (n <? 58)%nat then n - 48 else n - 87.

(** Reading one character of a JSON string back; [None] at the closing quote. *)
Definition unjson_char (s : string) : option (Ascii.ascii * string) :=
  match s with
  | EmptyString => None
  | String c s' =>
      if (code c =? 34)%nat then None
      else if (code c =? 92)%nat then
        match s' with
        | String "b"%char r => Some (Ascii.ascii_of_nat 8, r)
        | String "t"%char r => Some (Ascii.ascii_of_nat 9, r)
        | String "n"%char r => Some (Ascii.ascii_of_nat 10, r)
        | String "f"%char r => Some (Ascii.ascii_of_nat 12, r)
        | String "r"%char r => Some (Ascii.ascii_of_nat 13, r)
        | String "u"%char (String _ (String _ (String h (String l r)))) =>
            Some (Ascii.ascii_of_nat (unhex h * 16 + unhex l), r)
        | String d r => Some (d, r)
        | EmptyString => None
        end
      else Some (c, s')
  end.

Lemma unjson_json_char c r : unjson_char (json_char c +:+ r) = Some (c, r).
Proof. destruct c as [[] [] [] [] [] [] [] []]; reflexivity. Qed.

Lemma json_string_inj_app s s' r r' :
  json_string s +:+ r = json_string s' +:+ r' → s = s' ∧ r = r'.
Proof.
  unfold json_string. rewrite <- !string_app_assoc. intros H%string_app_inj_l. revert s' H.
  induction s as [|c s IH]; intros [|c' s'] Heq; simpl in Heq.
  - by apply (string_app_inj_l quote) in Heq.
  - apply (f_equal unjson_char) in Heq. rewrite <- !string_app_assoc, unjson_json_char in Heq. done.
  - apply (f_equal unjson_char) in Heq. rewrite <- !string_app_assoc, unjson_json_char in Heq. done.
  - apply (f_equal unjson_char) in Heq. rewrite <- !string_app_assoc, !unjson_json_char in Heq.
    injection Heq as -> Heq. destruct (IH s' Heq) as [-> ->]. done.
Qed.

Lemma json_field_inj n v v' r r' :
  json_field n v +:+ r = json_field n v' +:+ r' → v +:+ r = v' +:+ r'.
Proof. unfold json_field. rewrite <- !string_app_assoc. by intros ?%string_app_inj_l%string_app_inj_l. Qed.

(** ** Facts: the reader ends, with less text than it had *)
Abbreviation len := String.length.

Lemma len_skip_ws s : (len (skip_ws s) ≤ len s)%nat.
Proof.
  unfold skip_ws. induction s as [|c s IH]; simpl; [lia|]. destruct (is_json_ws c); simpl; lia.
Qed.

Lemma len_substring n m s : (len (String.substring n m s) ≤ len s - n)%nat.
Proof.
  revert n m. induction s as [|c s IH]; intros [|n] [|m]; simpl; try lia.
  - specialize (IH 0%nat m). lia.
  - specialize (IH n 0%nat). lia.
  - specialize (IH n (S m)). lia.
Qed.

Lemma len_drop n s : (len (drop_string n s) ≤ len s - n)%nat.
Proof. apply len_substring. Qed.

Lemma len_digits base acc k s v k' r : digits base acc k s = (v, k', r) → (len r + k' = len s + k)%nat.
Proof.
  revert acc k. induction s as [|c s IH]; intros acc k; simpl; [intros; simplify_eq; simpl; lia|].
  destruct (digit_of base c); [|intros; simplify_eq; simpl; lia]. intros Hd%IH. lia.
Qed.

(** What a sub-reader leaves is at most [n] characters, and it does not run out of fuel. *)
Definition leaves {A} (n : nat) (p : parsed (A * string)) : Prop :=
  match p with Parsed q => (len q.2 ≤ n)%nat | OutOfFuel => False | _ => True end.

Lemma leaves_mono {A} n m (p : parsed (A * string)) : leaves n p → (n ≤ m)%nat → leaves m p.
Proof. destruct p; simpl; lia || done. Qed.

Lemma leaves_bind {A B} n m (p : parsed (A * string)) (f : A * string → parsed (B * string)) :
  leaves n p → (∀ q, (len q.2 ≤ n)%nat → leaves m (f q)) → leaves m (parsed_bind p f).
Proof. destruct p; simpl; auto. Qed.

Lemma leaves_put_char n c p : leaves n p → leaves n (put_char c p).
Proof. intros Hp. by eapply leaves_bind; [exact Hp|]. Qed.

Lemma leaves_chars n s : (len s ≤ n)%nat → leaves (n - 1) (parse_chars s).
Proof.
  revert s. induction n as [n IH] using lt_wf_ind. intros s Hs. destruct s as [|c s]; [done|]. simpl in Hs.
  assert (Hrec : ∀ r x, (len r < len s + 1)%nat → leaves (n - 1) (put_char x (parse_chars r))).
  { intros r x Hr. apply leaves_put_char. eapply leaves_mono; [apply (IH (len r)); lia|lia]. }
  simpl. destruct (code c =? 34)%nat; [simpl; lia|]. destruct (code c =? 92)%nat.
  - destruct s as [|e r]; [done|]. destruct (Ascii.eqb e "u"%char).
    + destruct r as [|x [|y [|z [|t r]]]]; try done. destruct (hex4 x y z t); [|done].
      destruct (_ <? 256)%Z; [|done]. apply Hrec. simpl. lia.
    + destruct (unescape e); [|done]. apply Hrec. simpl. lia.
  - destruct (code c <? 32)%nat; [done|]. apply Hrec. lia.
Qed.

Lemma leaves_number n s : (len s ≤ n)%nat → leaves (n - 1) (parse_number s).
Proof.
  intros Hs. unfold parse_number.
  assert (Ht : (len (minus_of s).2 ≤ len s)%nat)
    by (destruct s as [|c s]; simpl; [lia|]; destruct (Ascii.eqb c _); simpl; lia).
  destruct (minus_of s) as [neg t]. simpl in Ht.
  destruct (digits 10 0 0 t) as [[ip ni] r] eqn:Hd. apply len_digits in Hd.
  destruct (Nat.eqb_spec ni 0); [done|]. simpl. destruct (starts_zero t && negb (ni =? 1)%nat); [done|].
  destruct (parse_fraction ip r) as [[[m nf] r1]|] eqn:Hf; [|done].
  assert (Hr1 : (len r1 ≤ len r)%nat).
  { unfold parse_fraction in Hf. destruct r as [|c r]; [by simplify_eq|].
    destruct (Ascii.eqb c _); [|by simplify_eq].
    destruct (digits 10 ip 0 r) as [[v [|k]] u] eqn:Hd2; simplify_eq. apply len_digits in Hd2. simpl. lia. }
  destruct (parse_exponent r1) as [[e r2]|] eqn:He; [|done]. simpl.
  assert (Hr2 : (len r2 ≤ len r1)%nat); [|lia].
  unfold parse_exponent in He. destruct r1 as [|c r1]; [by simplify_eq|].
  destruct (Ascii.eqb c "e"%char || Ascii.eqb c "E"%char); [|by simplify_eq].
  assert (Hu : (len (sign_of r1).2 ≤ len r1)%nat).
  { destruct r1 as [|c1 r1]; simpl; [lia|]. repeat case_match; simpl; lia. }
  destruct (sign_of r1) as [sg u]. simpl in Hu.
  destruct (digits 10 0 0 u) as [[v [|k]] r3] eqn:Hd3; simplify_eq. apply len_digits in Hd3. simpl. lia.
Qed.

Lemma leaves_literal s q : parse_literal s = Some q → (len q.2 ≤ len s - 1)%nat.
Proof.
  pose proof (len_drop 4 s) as H4. pose proof (len_drop 5 s) as H5. unfold parse_literal.
  repeat (destruct (startsWith s _); [intros; simplify_eq; simpl; lia|]). done.
Qed.

(** The three readers on their fuel, all at once. *)
Lemma reader_leaves f :
  (∀ s n, (len s ≤ n)%nat → (2 * n + 1 ≤ f)%nat → leaves (n - 1) (parse_value f s)) ∧
  (∀ s n, (len s ≤ n)%nat → (2 * n + 2 ≤ f)%nat → leaves (n - 1) (parse_elements f s)) ∧
  (∀ s n, (len s ≤ n)%nat → (2 * n + 2 ≤ f)%nat → leaves (n - 1) (parse_members f s)).
Proof.
  induction f as [|f (IHv & IHe & IHm)]; [split_and!; intros; lia|]. split_and!; intros s n Hs Hf; simpl.
  - pose proof (len_skip_ws s) as Hws. destruct (skip_ws s) as [|c r] eqn:Hsk; [done|]. simpl in Hws.
    pose proof (len_skip_ws r) as Hwr. pose proof (len_drop 1 (skip_ws r)) as Hd.
    destruct (Ascii.eqb c "{"%char).
    { destruct (startsWith _ _); [simpl; lia|].
      eapply leaves_bind; [apply (IHm r (n - 1)%nat); lia|]. intros q Hq. simpl. lia. }
    destruct (Ascii.eqb c "["%char).
    { destruct (startsWith _ _); [simpl; lia|].
      eapply leaves_bind; [apply (IHe r (n - 1)%nat); lia|]. intros q Hq. simpl. lia. }
    destruct (code c =? 34)%nat.
    { eapply leaves_bind; [apply (leaves_chars (n - 1)); lia|]. intros q Hq. simpl. lia. }
    destruct (parse_literal (String c r)) as [q|] eqn:Hl.
    + apply leaves_literal in Hl. simpl in Hl |- *. lia.
    + apply leaves_number. simpl. lia.
  - eapply leaves_bind; [apply (IHv s n); lia|]. intros [v r] Hr. simpl in Hr |- *.
    pose proof (len_skip_ws r) as Hws. destruct (skip_ws r) as [|c r']; [done|]. simpl in Hws.
    destruct (Ascii.eqb c ","%char).
    + eapply leaves_bind; [apply (IHe r' (n - 1)%nat); lia|]. intros q Hq. simpl. lia.
    + destruct (Ascii.eqb c "]"%char); simpl; [lia|done].
  - pose proof (len_skip_ws s) as Hws. destruct (skip_ws s) as [|c r] eqn:Hsk; [done|]. simpl in Hws.
    destruct (code c =? 34)%nat; [|done].
    eapply leaves_bind; [apply (leaves_chars (n - 1)); lia|]. intros [k r0] Hk. simpl in Hk |- *.
    pose proof (len_skip_ws r0) as Hw0. destruct (skip_ws r0) as [|c1 r1]; [done|]. simpl in Hw0.
    destruct (Ascii.eqb c1 ":"%char); [|done].
    eapply leaves_bind; [apply (IHv r1 (n - 1)%nat); lia|]. intros [v r2] Hv. simpl in Hv |- *.
    pose proof (len_skip_ws r2) as Hw2. destruct (skip_ws r2) as [|c2 r3]; [done|]. simpl in Hw2.
    destruct (Ascii.eqb c2 ","%char).
    + eapply leaves_bind; [apply (IHm r3 (n - 1)%nat); lia|]. intros q Hq. simpl. lia.
    + destruct (Ascii.eqb c2 "}"%char); simpl; [lia|done].
Qed.

(** The fuel of [JSON_parse] suffices for every text. *)
Lemma JSON_parse_fuel s : JSON_parse s ≠ OutOfFuel.
Proof.
  destruct (reader_leaves (2 * len s + 2)) as [Hv _]. specialize (Hv s (len s) ltac:(lia) ltac:(lia)).
  unfold JSON_parse. destruct (parse_value _ s) as [q| | |]; simpl in *; try done.
  by destruct (String.eqb _ _).
Qed.

(** ** Facts: what is written reads back *)

Section json_induction.
Variable Pr : json → Prop.
Hypothesis Hnull : Pr JNull.
Hypothesis Hbool : ∀ b, Pr (JBool b).
Hypothesis Hnumber : ∀ n, Pr (JNumber n).
Hypothesis Hstring : ∀ s, Pr (JString s).
Hypothesis Harray : ∀ l, Forall Pr l → Pr (JArray l).
Hypothesis Hobject : ∀ l, Forall (λ p, Pr p.2) l → Pr (JObject l).

Fixpoint json_nested_ind (v : json) : Pr v :=
  match v with
  | JNull => Hnull
  | JBool b => Hbool b
  | JNumber n => Hnumber n
  | JString s => Hstring s
  | JArray l => Harray l ((fix go l := match l return Forall Pr l with
                                       | [] => Forall_nil_2 _
                                       | x :: l' => Forall_cons_2 _ _ _ (json_nested_ind x) (go l')
                                       end) l)
  | JObject l => Hobject l ((fix go l := match l return Forall (λ p, Pr p.2) l with
                                         | [] => Forall_nil_2 _
                                         | p :: l' => Forall_cons_2 (λ p, Pr p.2) _ _ (json_nested_ind p.2) (go l')
                                         end) l)
  end.
End json_induction.

(** The values whose numbers are safe integers. *)
Fixpoint printable (v : json) : Prop :=
  match v with
  | JNumber n => ∃ z, n = Finite (inject_Z z) ∧ (Z.abs z < 2 ^ 53)%Z
  | JArray l => (fix go l := match l with [] => True | x :: l' => printable x ∧ go l' end) l
  | JObject l => (fix go l := match l with [] => True | p :: l' => printable p.2 ∧ go l' end) l
  | _ => True
  end.

(** *** Strings *)
Lemma parse_json_char c r : parse_chars (json_char c +:+ r) = put_char c (parse_chars r).
Proof. destruct c as [[] [] [] [] [] [] [] []]; reflexivity. Qed.

Lemma parse_json_string s r : parse_chars (json_chars s +:+ quote +:+ r) = Parsed (s, r).
Proof.
  induction s as [|c s IH]; [done|]. cbn [json_chars]. by rewrite <- string_app_assoc, parse_json_char, IH.
Qed.

(** *** Numbers *)

(** A digit run ends at [s]. *)
Definition no_digit (s : string) : bool :=
  match s with String c _ => negb (bool_decide (is_Some (digit_of 10 c))) | EmptyString => true end.

Lemma digits_stop acc k s : no_digit s = true → digits 10 acc k s = (acc, k, s).
Proof.
  destruct s as [|c s]; [done|]. simpl. destruct (digit_of 10 c); [|done].
  by rewrite bool_decide_eq_true_2 by eauto.
Qed.

Lemma digit_pretty n : (n < 10)%N → digit_of 10 (pretty_N_char n) = Some (Z.of_N n).
Proof. intros Hn. assert (n = 0 ∨ n = 1 ∨ n = 2 ∨ n = 3 ∨ n = 4 ∨ n = 5 ∨ n = 6 ∨ n = 7 ∨ n = 8 ∨ n = 9)%N by lia.
  naive_solver.
Qed.

Lemma digits_pretty_go x : (0 < x)%N → ∃ k, (0 < k)%nat ∧ ∀ acc cnt s,
  digits 10 acc cnt (pretty_N_go x s) = digits 10 (acc * 10 ^ Z.of_nat k + Z.of_N x) (cnt + k) s ∧
  starts_zero (pretty_N_go x s) = false.
Proof.
  induction (N.lt_wf_0 x) as [x _ IH]. intros Hx.
  assert (Hm : (x mod 10 < 10)%N) by (apply N.mod_lt; lia).
  assert (Hdm : Z.of_N x = (Z.of_N (x / 10) * 10 + Z.of_N (x mod 10))%Z).
  { rewrite (N.div_mod x 10) at 1 by lia. lia. }
  destruct (decide (x / 10 = 0)%N) as [Hz|Hz].
  - exists 1%nat. split; [lia|]. intros acc cnt s. rewrite pretty_N_go_step by lia. rewrite Hz, pretty_N_go_0. simpl.
    rewrite digit_pretty by done. rewrite Hdm, Hz. split; [f_equal; lia|].
    assert (x mod 10 ≠ 0)%N by lia.
    assert (x mod 10 = 1 ∨ x mod 10 = 2 ∨ x mod 10 = 3 ∨ x mod 10 = 4 ∨ x mod 10 = 5 ∨ x mod 10 = 6 ∨
            x mod 10 = 7 ∨ x mod 10 = 8 ∨ x mod 10 = 9)%N as Hc by lia.
    destruct_or! Hc; by rewrite Hc.
  - destruct (IH (x / 10)%N) as (k & Hk & Hgo); [apply N.div_lt; lia|lia|].
    exists (S k). split; [lia|]. intros acc cnt s. rewrite pretty_N_go_step by lia.
    destruct (Hgo acc cnt (String (pretty_N_char (x mod 10)) s)) as [-> ->]. split; [|done].
    simpl digits at 1. rewrite digit_pretty by done. f_equal; [|lia].
    rewrite Nat2Z.inj_succ, Z.pow_succ_r by lia. rewrite Hdm. lia.
Qed.

(** The text of a natural number, read back. *)
Lemma digits_pretty (n : N) s :
  no_digit s = true →
  ∃ k, (0 < k)%nat ∧ digits 10 0 0 (pretty n +:+ s) = (Z.of_N n, k, s) ∧
    (starts_zero (pretty n +:+ s) = true → k = 1%nat).
Proof.
  intros Hs. unfold pretty, pretty_N. destruct (decide (n = 0)%N) as [->|Hn].
  - exists 1%nat. split_and!; [lia| |done]. change ("0" +:+ s) with (String "0"%char s). simpl. by apply digits_stop.
  - assert (Happ : pretty_N_go n "" +:+ s = pretty_N_go n s).
    { clear Hs Hn. assert (Hg : ∀ x t, pretty_N_go x t +:+ s = pretty_N_go x (t +:+ s)).
      { intros x. induction (N.lt_wf_0 x) as [x _ IH]. intros t.
        destruct (decide (x = 0)%N) as [->|Hx]; [by rewrite !pretty_N_go_0|].
        rewrite !(pretty_N_go_step x) by lia. rewrite IH; [done|apply N.div_lt; lia]. }
      by rewrite Hg. }
    rewrite Happ. destruct (digits_pretty_go n) as (k & Hk & Hgo); [lia|]. destruct (Hgo 0%Z 0%nat s) as [-> Hz].
    exists k. split_and!; [done| |by rewrite Hz]. rewrite digits_stop by done. by f_equal; f_equal; lia.
Qed.

(** The delimiters after a value: none continues a number. *)
Definition stops (s : string) : bool :=
  match s with
  | EmptyString => true
  | String c _ => Ascii.eqb c ","%char || Ascii.eqb c "]"%char || Ascii.eqb c "}"%char
  end.

Lemma stops_number s :
  stops s = true → no_digit s = true ∧ (∀ ip, parse_fraction ip s = Some (ip, 0%nat, s)) ∧
  parse_exponent s = Some (0%Z, s).
Proof.
  destruct s as [|c s]; [done|]. simpl.
  intros [[->%Ascii.eqb_eq| ->%Ascii.eqb_eq]%orb_true_iff| ->%Ascii.eqb_eq]%orb_true_iff; done.
Qed.

Lemma to_number_exact neg z :
  (0 ≤ z < 2 ^ 53)%Z → to_number neg z 1 = Finite (inject_Z (if neg then - z else z)).
Proof.
  intros Hz. unfold to_number. destruct (Z.eqb_spec z 0) as [->|Hne]; [by destruct neg|].
  rewrite round_double_exact by lia. destruct neg; [|done]. f_equal.
  change (- inject_Z z)%Q with (inject_Z (- z)). apply Qred_integer.
Qed.

Lemma parse_natural (neg : bool) (n : N) s :
  (Z.of_N n < 2 ^ 53)%Z → stops s = true →
  parse_number ((if neg then "-" else "") +:+ pretty n +:+ s) =
    Parsed (JNumber (Finite (inject_Z (if neg then - Z.of_N n else Z.of_N n))), s).
Proof.
  intros Hn (Hd & Hfr & Hex)%stops_number. destruct (digits_pretty n s Hd) as (k & Hk & Hdig & Hz).
  assert (Hmin : minus_of ((if neg then "-" else "") +:+ pretty n +:+ s) = (neg, pretty n +:+ s)).
  { destruct neg; [done|]. change ("" +:+ pretty n +:+ s) with (pretty n +:+ s).
    destruct (pretty n +:+ s) as [|c t] eqn:Ht; [by simpl in Hdig; simplify_eq; lia|]. simpl.
    destruct (Ascii.eqb_spec c "-"%char) as [->|]; [|done]. exfalso.
    simpl in Hdig. by simplify_eq; lia. }
  unfold parse_number. rewrite Hmin, Hdig. rewrite (proj2 (Nat.eqb_neq k 0)) by lia. simpl.
  assert (Hsz : starts_zero (pretty n +:+ s) && negb (k =? 1)%nat = false).
  { destruct (starts_zero _) eqn:E; [|done]. by rewrite Hz. }
  rewrite Hsz, Hfr, Hex. unfold scaled_number. simpl. rewrite Z.mul_1_r, to_number_exact by lia. done.
Qed.

Lemma parse_integer z s :
  (Z.abs z < 2 ^ 53)%Z → stops s = true →
  parse_number (number_to_string z +:+ s) = Parsed (JNumber (Finite (inject_Z z)), s).
Proof.
  intros Hz Hs. unfold number_to_string, shortest. rewrite (proj2 (Z.ltb_lt _ _) Hz). destruct z as [|p|p].
  - exact (parse_natural false 0 s ltac:(done) Hs).
  - exact (parse_natural false (Npos p) s ltac:(simpl in *; lia) Hs).
  - change (pretty (Zneg p)) with ("-" +:+ pretty (Npos p)). rewrite <- string_app_assoc.
    exact (parse_natural true (Npos p) s ltac:(simpl in *; lia) Hs).
Qed.

(** *** Values *)
Lemma printable_array l : printable (JArray l) ↔ Forall printable l.
Proof. induction l as [|x l IH]; [done|]. rewrite Forall_cons, <- IH. done. Qed.
Lemma printable_object l : printable (JObject l) ↔ Forall (λ p, printable p.2) l.
Proof. induction l as [|x l IH]; [done|]. rewrite Forall_cons, <- IH. done. Qed.

Lemma drop_string_app p r : drop_string (len p) (p +:+ r) = r.
Proof.
  unfold drop_string. induction p as [|c p IH]; simpl.
  - change ("" +:+ r) with r. rewrite Nat.sub_0_r. induction r as [|c r IH]; simpl; [done|]. by rewrite IH.
  - exact IH.
Qed.

Lemma len_app s t : len (s +:+ t) = (len s + len t)%nat.
Proof. induction s as [|c s IH]; [done|]. exact (f_equal S IH). Qed.

(** The first character of a value: no white space, no closing bracket; a number begins
    with a digit or a minus sign. *)
Definition numeral_start (c : Ascii.ascii) : bool :=
  Ascii.eqb c "-"%char || bool_decide (is_Some (digit_of 10 c)).

Lemma natural_start (n : N) : ∃ c t, pretty n = String c t ∧ bool_decide (is_Some (digit_of 10 c)) = true.
Proof.
  destruct (digits_pretty n "" eq_refl) as (k & Hk & Hd & _). rewrite string_app_nil_r in Hd.
  destruct (pretty n) as [|c t]; [simpl in Hd; simplify_eq; lia|]. exists c, t. split; [done|].
  simpl in Hd. destruct (digit_of 10 c) as [v|]; [by apply bool_decide_eq_true_2|simplify_eq; lia].
Qed.

Lemma integer_start z : (Z.abs z < 2 ^ 53)%Z →
  ∃ c t, number_to_string z = String c t ∧ numeral_start c = true.
Proof.
  intros Hz. unfold number_to_string, shortest, numeral_start. rewrite (proj2 (Z.ltb_lt _ _) Hz).
  destruct z as [|p|p].
  - by exists "0"%char, "".
  - destruct (natural_start (Npos p)) as (c & t & Ht & Hc). exists c, t.
    split; [exact Ht|]. by rewrite Hc, orb_true_r.
  - by exists "-"%char, (pretty (Npos p)).
Qed.

Lemma numeral_start_other c :
  numeral_start c = true →
  is_json_ws c = false ∧ Ascii.eqb c "{"%char = false ∧ Ascii.eqb c "["%char = false ∧
  (code c =? 34)%nat = false ∧ (∀ t, parse_literal (String c t) = None) ∧ Ascii.eqb c "]"%char = false ∧
  Ascii.eqb c "}"%char = false.
Proof. destruct c as [[] [] [] [] [] [] [] []]; try (by intros [=]); intros _; split_and!; done. Qed.

Lemma value_start v : printable v →
  ∃ c t, stringify v = String c t ∧ is_json_ws c = false ∧ Ascii.eqb c "]"%char = false.
Proof.
  destruct v as [|b|n|s|l|l]; intros Hp; [by eexists _, _|by destruct b; eexists _, _| |by eexists _, _..].
  destruct Hp as (z & -> & Hz). destruct (integer_start z Hz) as (c & t & Ht & Hc). exists c, t. split; [exact Ht|].
  by destruct (numeral_start_other c Hc) as (? & _ & _ & _ & _ & ? & _).
Qed.

Lemma skip_ws_value v r : printable v → skip_ws (stringify v +:+ r) = stringify v +:+ r.
Proof.
  intros Hp. destruct (value_start v Hp) as (c & t & -> & Hc & _). unfold skip_ws. simpl. by rewrite Hc.
Qed.

Definition reads_back (v : json) : Prop :=
  ∀ fuel r, (2 * len (stringify v) ≤ fuel)%nat → stops r = true →
    parse_value fuel (stringify v +:+ r) = Parsed (v, r).

(** What follows a value inside an array or an object. *)
Definition rest_of (texts : list string) : string :=
  match texts with [] => "" | _ => "," +:+ join "," texts end.

Lemma join_cons_rest t texts : join "," (t :: texts) = t +:+ rest_of texts.
Proof. destruct texts; simpl; [by rewrite string_app_nil_r|done]. Qed.

Lemma stops_rest texts close r : stops (String close "") = true → stops (rest_of texts +:+ String close r) = true.
Proof. by destruct texts. Qed.

Lemma elements_read_back l fuel r :
  Forall printable l → Forall reads_back l → l ≠ [] →
  (2 * len (join "," (map stringify l)) + 1 ≤ fuel)%nat →
  parse_elements fuel (join "," (map stringify l) +:+ "]" +:+ r) = Parsed (l, r).
Proof.
  intros Hp Hl. revert fuel. induction Hl as [|v l Hv Hl IH]; intros fuel Hne Hf; [done|].
  apply Forall_cons in Hp as [Hpv Hpl].
  cbn [map] in *. rewrite join_cons_rest in *. rewrite len_app in Hf. destruct fuel as [|f]; [lia|]. cbn [parse_elements].
  rewrite <- string_app_assoc, (Hv f (rest_of (map stringify l) +:+ "]" +:+ r)); [|lia|by apply stops_rest].
  cbn [parsed_bind fst snd]. destruct l as [|v' l]; [done|].
  change (skip_ws (rest_of (map stringify (v' :: l)) +:+ "]" +:+ r))
    with (String ","%char (join "," (map stringify (v' :: l)) +:+ "]" +:+ r)).
  cbn [Ascii.eqb]. rewrite (IH Hpl f); [done|done|].
  change (len (rest_of (map stringify (v' :: l)))) with (S (len (join "," (map stringify (v' :: l))))) in Hf. lia.
Qed.

Abbreviation member_text := (λ p : string * json, json_field p.1 (stringify p.2)).

Lemma members_read_back l fuel r :
  Forall (λ p, printable p.2) l → Forall (λ p, reads_back p.2) l → l ≠ [] →
  (2 * len (join "," (map member_text l)) + 1 ≤ fuel)%nat →
  parse_members fuel (join "," (map member_text l) +:+ "}" +:+ r) = Parsed (l, r).
Proof.
  intros Hp Hl. revert fuel. induction Hl as [|[k v] l Hv Hl IH]; intros fuel Hne Hf; [done|].
  apply Forall_cons in Hp as [Hpv Hpl].
  cbn [map] in *. rewrite join_cons_rest in *. rewrite len_app in Hf. destruct fuel as [|f]; [lia|]. cbn [parse_members].
  assert (Hm : json_field k (stringify v) = quote +:+ json_chars k +:+ quote +:+ ":" +:+ stringify v)
    by (unfold json_field, json_string; by rewrite <- !string_app_assoc).
  cbn [fst snd] in *. rewrite Hm in *. rewrite !len_app in Hf. change (len quote) with 1%nat in Hf.
  rewrite <- !string_app_assoc. set (tail := stringify v +:+ rest_of (map member_text l) +:+ "}" +:+ r).
  change (skip_ws (quote +:+ json_chars k +:+ quote +:+ ":" +:+ tail))
    with (String (Ascii.ascii_of_nat 34) (json_chars k +:+ quote +:+ ":" +:+ tail)).
  change (code (Ascii.ascii_of_nat 34) =? 34)%nat with true. cbv iota.
  rewrite parse_json_string. cbn [parsed_bind fst snd].
  change (skip_ws (":" +:+ tail)) with (String ":"%char tail). cbn [Ascii.eqb].
  change (Ascii.eqb ":"%char ":"%char) with true. cbv iota. unfold tail.
  rewrite (Hv f); [|lia|by apply stops_rest]. cbn [parsed_bind fst snd].
  destruct l as [|p' l]; [done|].
  change (skip_ws (rest_of (map member_text (p' :: l)) +:+ "}" +:+ r))
    with (String ","%char (join "," (map member_text (p' :: l)) +:+ "}" +:+ r)).
  change (Ascii.eqb ","%char ","%char) with true. cbv iota. rewrite (IH Hpl f); [done|done|].
  change (len (rest_of (map member_text (p' :: l)))) with (S (len (join "," (map member_text (p' :: l))))) in Hf. lia.
Qed.

Lemma bracketed (open close : Ascii.ascii) (body r : string) :
  (String open "" +:+ body +:+ String close "") +:+ r = String open (body +:+ String close "" +:+ r).
Proof. by rewrite <- !string_app_assoc. Qed.

Lemma startsWith_app p r : startsWith (p +:+ r) p = true.
Proof. apply startsWith_spec. by exists r. Qed.

Lemma parse_literal_app p v r :
  (p, v) ∈ [("null", JNull); ("true", JBool true); ("false", JBool false)] → parse_literal (p +:+ r) = Some (v, r).
Proof.
  intros Hin. unfold parse_literal. rewrite !elem_of_cons, elem_of_nil in Hin. destruct_or! Hin; simplify_eq; try done.
  - by rewrite (startsWith_app "null"), (drop_string_app "null").
  - change (startsWith ("true" +:+ r) "null") with false.
    by rewrite (startsWith_app "true"), (drop_string_app "true").
  - change (startsWith ("false" +:+ r) "null") with false. change (startsWith ("false" +:+ r) "true") with false.
    by rewrite (startsWith_app "false"), (drop_string_app "false").
Qed.

Lemma literal_value p v fuel r :
  (p, v) ∈ [("null", JNull); ("true", JBool true); ("false", JBool false)] →
  parse_value (S fuel) (p +:+ r) = Parsed (v, r).
Proof.
  intros Hin. pose proof (parse_literal_app p v r Hin) as Hl. rewrite !elem_of_cons, elem_of_nil in Hin.
  destruct_or! Hin; simplify_eq; try done;
    match goal with |- parse_value _ ?x = _ =>
      exact (f_equal (λ o, match o with Some q => Parsed q | None => parse_number x end) Hl) end.
Qed.

Lemma value_reads_back v : printable v → reads_back v.
Proof.
  induction v as [|b|n|s|l IH|l IH] using json_nested_ind; intros Hp fuel r Hf Hr;
    (destruct fuel as [|f]; [exfalso; destruct (value_start _ Hp) as (c & t & Ht & _); rewrite Ht in Hf; simpl in Hf; lia|]).
  - apply (literal_value "null"). set_solver.
  - destruct b; [apply (literal_value "true")|apply (literal_value "false")]; set_solver.
  - destruct Hp as (z & -> & Hz). destruct (integer_start z Hz) as (c & t & Ht & Hc).
    destruct (numeral_start_other c Hc) as (Hw & H1 & H2 & H3 & H4 & _). pose proof (parse_integer z r Hz Hr) as Hpn.
    change (stringify (JNumber (Finite (inject_Z z)))) with (number_to_string z). rewrite Ht in *.
    change (String c t +:+ r) with (String c (t +:+ r)) in *. cbn [parse_value]. unfold skip_ws. cbn [strip_leading].
    by rewrite Hw, H1, H2, H3, H4.
  - cbn [stringify parse_value]. unfold json_string. rewrite <- !string_app_assoc.
    change (skip_ws (quote +:+ json_chars s +:+ quote +:+ r))
      with (String (Ascii.ascii_of_nat 34) (json_chars s +:+ quote +:+ r)).
    change (Ascii.eqb (Ascii.ascii_of_nat 34) _) with false. change (code (Ascii.ascii_of_nat 34) =? 34)%nat with true.
    cbv iota. by rewrite parse_json_string.
  - apply printable_array in Hp as Hpl. cbn [stringify] in *. rewrite (bracketed "["%char "]"%char).
    rewrite !len_app in Hf. simpl in Hf. cbn [parse_value].
    set (body := join "," (map stringify l) +:+ "]" +:+ r).
    change (skip_ws (String "["%char body)) with (String "["%char body). cbn -[body parse_elements startsWith skip_ws].
    destruct l as [|v l]; [change (skip_ws body) with ("]" +:+ r); by rewrite (startsWith_app "]"), (drop_string_app "]")|].
    assert (Hns : startsWith (skip_ws body) "]" = false).
    { unfold body. cbn [map]. rewrite join_cons_rest, <- string_app_assoc. apply Forall_cons in Hpl as [Hv _].
      rewrite skip_ws_value by done. destruct (value_start v Hv) as (c & t & -> & _ & Hc).
      apply not_true_iff_false. intros [u Hu]%startsWith_spec. injection Hu as -> _.
      by rewrite Ascii.eqb_refl in Hc. }
    rewrite Hns. unfold body. rewrite elements_read_back; [done|done| |done|lia].
    apply Forall_forall. intros x Hx. eapply Forall_forall in IH, Hpl; [|exact Hx..]. by apply IH.
  - apply printable_object in Hp as Hpl. cbn [stringify] in *. rewrite (bracketed "{"%char "}"%char).
    rewrite !len_app in Hf. simpl in Hf. cbn [parse_value].
    set (body := join "," (map member_text l) +:+ "}" +:+ r).
    change (skip_ws (String "{"%char body)) with (String "{"%char body). cbn -[body parse_members startsWith skip_ws].
    destruct l as [|[k v] l]; [change (skip_ws body) with ("}" +:+ r); by rewrite (startsWith_app "}"), (drop_string_app "}")|].
    assert (Hns : startsWith (skip_ws body) "}" = false).
    { unfold body. cbn [map]. by rewrite join_cons_rest, <- string_app_assoc. }
    rewrite Hns. unfold body. rewrite members_read_back; [done|done| |done|lia].
    apply Forall_forall. intros x Hx. eapply Forall_forall in IH, Hpl; [|exact Hx..]. by apply IH.
Qed.

(** [JSON.parse(JSON.stringify(v))] is [v]. *)
Lemma parse_stringify v : printable v → JSON_parse (stringify v) = Parsed v.
Proof.
  intros Hp. unfold JSON_parse. pose proof (value_reads_back v Hp (2 * len (stringify v) + 2) "") as Hv.
  rewrite string_app_nil_r in Hv. by rewrite Hv by (done || lia).
Qed.
