(* ===== verification/Config.v ===== *)
(** * Configuration ([config/configuration.ts], [config/env.validation.ts])

    [validateEnv] resolves the [X_FILE] secrets into the environment and checks the
    variables against a schema; the factory [configuration] then reads the environment
    into the typed tree.  Both convert strings to numbers with [Number] and to
    booleans with a list of spellings of their own.  The two are related here: what the
    schema promises of the variables holds of the tree, and the defaults of the one are
    the fallbacks of the other.

    The variables that hold JSON (routing rules, tenant map, tenant quotas) are parsed
    into the tree but not checked; [Dynamic] is about what the services make of them. *)
From Stdlib Require Import QArith.
From S2P Require Import Prelude JsLang Numbers Json.
#[local] Open Scope Z_scope.

(** ** The environment *)
Abbreviation env := (gmap string string).

Definition truthy_spellings : list string := ["true"; "1"; "yes"; "on"].
Definition spelled (s : string) : bool := existsb (String.eqb s) truthy_spellings.

(** [toBoolean] of the schema, on a string. *)
Definition toBoolean (s : string) : bool := spelled (toLowerCase (trim s)).

(** [bool] and [int] of the factory. *)
Definition bool_ (v : option string) (fallback : bool) : bool :=
  match v with None => fallback | Some s => spelled (toLowerCase s) end.

Definition int_ (v : option string) (fallback : Z) : js_number :=
  match number_of v with
  | Finite q => Finite q
  | _ => Finite (inject_Z fallback)
  end.

(** *** The schema *)
Inductive rule :=
  | IsInt (min : Z) (max : option Z)   (** [@Type(() => Number) @IsInt() @Min @Max] *)
  | IsNotEmptyString
  | IsOptionalString
  | IsBool                             (** [@Transform(toBoolean) @IsBoolean()] *)
  | IsOneOf (allowed : list string).

Record property := mkProperty {
  pr_name : string;
  pr_default : option string;   (** the initializer, as the text it is written to the environment *)
  pr_rule : rule;
}.

Definition required_text (name : string) : property := mkProperty name None IsNotEmptyString.
Definition text_or (name default_ : string) : property := mkProperty name (Some default_) IsNotEmptyString.
Definition int_or (name : string) (default_ : Z) (min : Z) (max : option Z) : property :=
  mkProperty name (Some (pretty default_)) (IsInt min max).
Definition bool_or (name : string) (default_ : bool) : property :=
  mkProperty name (Some (if default_ then "true" else "false")) IsBool.
Definition optional_text (name : string) : property := mkProperty name None IsOptionalString.

Definition LOG_LEVELS : list string := ["fatal"; "error"; "warn"; "info"; "debug"; "trace"; "silent"].
Definition NodeEnv : list string := ["development"; "production"; "test"].

(** The class [EnvironmentVariables], up to the antivirus settings and from the alerts on. *)
Definition app_variables : list property :=
  [mkProperty "NODE_ENV" (Some "development") (IsOneOf NodeEnv);
   int_or "APP_PORT" 3000 1 (Some 65535);
   required_text "WEBHOOK_SECRET";
   required_text "JWT_SECRET";
   text_or "JWT_EXPIRES_IN" "1h";
   text_or "ADMIN_USERNAME" "admin";
   required_text "ADMIN_PASSWORD";
   mkProperty "LOG_LEVEL" (Some "info") (IsOneOf LOG_LEVELS);
   bool_or "LOG_PRETTY" false;
   int_or "TRANSFER_MAX_ATTEMPTS" 3 1 (Some 10);
   int_or "TRANSFER_RETRY_BACKOFF_MS" 1000 0 None;
   required_text "INGESTION_DATA_ROOT";
   int_or "THROTTLE_TTL_MS" 60000 1000 None;
   int_or "THROTTLE_LIMIT" 100 1 None;
   int_or "MAX_PAYLOAD_SIZE_KB" 1024 1 None;
   int_or "WORKER_CONCURRENCY" 5 1 (Some 256);
   int_or "MAX_FILE_SIZE_MB" 1024 0 None;
   bool_or "AV_ENABLED" false;
   bool_or "ENCRYPTION_ENABLED" false;
   optional_text "ENCRYPTION_KEK";
   text_or "CLAMAV_HOST" "clamav";
   int_or "CLAMAV_PORT" 3310 1 (Some 65535)].

Definition service_variables : list property :=
  [bool_or "ALERTS_ENABLED" false;
   optional_text "ALERT_WEBHOOK_URL";
   bool_or "RECOVERY_ENABLED" true;
   int_or "RECOVERY_STALE_MS" 900000 1000 None;
   int_or "RECOVERY_BATCH_SIZE" 50 1 (Some 1000);
   int_or "AUDIT_RETENTION_DAYS" 0 0 None;
   required_text "REDIS_HOST";
   int_or "REDIS_PORT" 6379 1 (Some 65535);
   optional_text "REDIS_PASSWORD";
   required_text "POSTGRES_HOST";
   int_or "POSTGRES_PORT" 5432 1 (Some 65535);
   required_text "POSTGRES_USER";
   required_text "POSTGRES_PASSWORD";
   required_text "POSTGRES_DB";
   bool_or "DB_SYNCHRONIZE" false;
   bool_or "DB_LOGGING" false;
   optional_text "S3_ENDPOINT";
   required_text "S3_REGION";
   required_text "S3_BUCKET";
   required_text "S3_ACCESS_KEY_ID";
   required_text "S3_SECRET_ACCESS_KEY";
   bool_or "S3_FORCE_PATH_STYLE" true;
   int_or "S3_UPLOAD_PART_SIZE_MB" 8 5 None;
   int_or "S3_UPLOAD_CONCURRENCY" 4 1 (Some 64)].

Definition EnvironmentVariables : list property := app_variables ++ service_variables.

Definition integer_in (min : Z) (max : option Z) (v : js_number) : bool :=
  match v with
  | Finite q => (Zpos (Qden q) =? 1) && (min <=? Qnum q)
                && match max with Some m => Qnum q <=? m | None => true end
  | _ => false
  end.

(** The constraints on a property, on its value or its default. *)
Definition satisfies (r : rule) (v : option string) : bool :=
  match r with
  | IsInt min max => integer_in min max (number_of v)
  | IsNotEmptyString => truthy v
  | IsOptionalString | IsBool => true
  | IsOneOf allowed => match v with Some s => existsb (String.eqb s) allowed | None => true end
  end.

Definition value_of (config : env) (p : property) : option string :=
  match config !! pr_name p with Some s => Some s | None => pr_default p end.

Definition invalid_properties (config : env) : list property :=
  List.filter (λ p, negb (satisfies (pr_rule p) (value_of config p))) EnvironmentVariables.

(** [resolveFileSecrets]: [keys] is [Object.keys(process.env)], [read] is
    [readFileSync(path, 'utf8')] or its failure. *)
Definition resolve_secret (read : string → option string) (e : env) (key : string) : env :=
  if negb (endsWith key "_FILE") then e
  else
    let base := String.substring 0 (String.length key - 5) key in
    match e !! key with
    | Some path =>
        if String.eqb path "" then e
        else match read path with
             | Some content => <[base := trim content]> e
             | None => e
             end
    | None => e
    end.

Definition resolveFileSecrets (read : string → option string) (keys : list string) (e : env) : env :=
  foldl (resolve_secret read) e keys.

(** [validateEnv(config)]: the environment it leaves and the properties it rejects.
    [config] is what the framework read from the environment before the call,
    [constraints] the library's texts for a property. *)
Definition newline : string := String (Ascii.ascii_of_nat 10) EmptyString.

Definition validateEnv (read : string → option string) (constraints : property → string)
    (keys : list string) (e config : env) : env * result env :=
  let e' := resolveFileSecrets read keys e in
  let merged := config ∪ e' in
  match invalid_properties merged with
  | [] => (e', Ok merged)
  | bad => (e', Err (plain_error ("Invalid environment configuration:" +:+ newline +:+
      join newline (map (λ p, "  - " +:+ pr_name p +:+ ": " +:+ constraints p) bad))))
  end.

(** ** The configuration tree

    One record per group; a variable read without a fallback is an [option], as it is
    [undefined] when it is not set. *)
Record AppSettings := mkAppSettings {
  app_nodeEnv : string;
  app_port : js_number;
  app_webhookSecret : option string;
  app_logLevel : string;
  app_logPretty : bool;
  app_transferMaxAttempts : js_number;
  app_transferRetryBackoffMs : js_number;
  app_ingestionDataRoot : option string;
  app_workerConcurrency : js_number;
  app_maxPayloadBytes : js_number;
}.
Record ThrottleSettings := mkThrottleSettings {
  throttle_ttlMs : js_number;
  throttle_limit : js_number;
}.
Record AuthSettings := mkAuthSettings {
  auth_jwtSecret : option string;
  auth_jwtExpiresIn : string;
  auth_adminUsername : string;
  auth_adminPassword : option string;
}.
Record AlertsSettings := mkAlertsSettings {
  alerts_enabled : bool;
  alerts_webhookUrl : option string;
}.
Record RecoverySettings := mkRecoverySettings {
  recovery_enabled : bool;
  recovery_staleMs : js_number;
  recovery_batchSize : js_number;
}.
Record RetentionSettings := mkRetentionSettings {
  retention_auditDays : js_number;
}.
Record RedisSettings := mkRedisSettings {
  redis_host : option string;
  redis_port : js_number;
  redis_password : option string;
}.
Record DatabaseSettings := mkDatabaseSettings {
  database_host : option string;
  database_port : js_number;
  database_username : option string;
  database_password : option string;
  database_name : option string;
  database_synchronize : bool;
  database_logging : bool;
}.
Record S3Settings := mkS3Settings {
  s3_endpoint : option string;
  s3_region : option string;
  s3_bucket : option string;
  s3_accessKeyId : option string;
  s3_secretAccessKey : option string;
  s3_forcePathStyle : bool;
  s3_uploadPartSizeBytes : js_number;
  s3_uploadConcurrency : js_number;
}.
Record PipelineSettings := mkPipelineSettings {
  pipeline_maxFileSizeBytes : js_number;
  pipeline_avEnabled : bool;
  pipeline_clamavHost : string;
  pipeline_clamavPort : js_number;
}.
Record EncryptionSettings := mkEncryptionSettings {
  encryption_enabled : bool;
  encryption_kek : option string;
}.
Record RoutingSettings := mkRoutingSettings {
  routing_rules : option (list json);
}.
Record TenancySettings := mkTenancySettings {
  tenancy_defaultTenant : string;
  tenancy_map : option json;
}.
Record QuotasSettings := mkQuotasSettings {
  quotas_defaultMaxBytes : js_number;
  quotas_defaultMaxObjects : js_number;
  quotas_map : option json;
}.
Record KafkaSettings := mkKafkaSettings {
  kafka_enabled : bool;
  kafka_brokers : list string;
  kafka_clientId : string;
  kafka_eventsTopic : string;
}.

Record AppConfig := mkAppConfig {
  cfg_app : AppSettings;
  cfg_throttle : ThrottleSettings;
  cfg_auth : AuthSettings;
  cfg_alerts : AlertsSettings;
  cfg_recovery : RecoverySettings;
  cfg_retention : RetentionSettings;
  cfg_redis : RedisSettings;
  cfg_database : DatabaseSettings;
  cfg_s3 : S3Settings;
  cfg_pipeline : PipelineSettings;
  cfg_encryption : EncryptionSettings;
  cfg_routing : RoutingSettings;
  cfg_tenancy : TenancySettings;
  cfg_quotas : QuotasSettings;
  cfg_kafka : KafkaSettings;
}.

(** The JSON variables.  An absent, empty or malformed text is no rules and no entries;
    the shape of what was parsed is not looked at further.  [None] is a text whose
    strings the model does not have ([Json.Beyond]). *)
Definition parseRoutingRules (raw : option string) : option (list json) :=
  if negb (truthy raw) then Some []
  else match JSON_parse (nullish raw "") with
       | Parsed (JArray l) => Some l
       | Beyond => None
       | _ => Some []
       end.

(** [parsed && typeof parsed === 'object'] *)
Definition is_object (v : json) : bool :=
  match v with JArray _ | JObject _ => true | _ => false end.

Definition parseJson (raw : option string) : option json :=
  if negb (truthy raw) then Some (JObject [])
  else match JSON_parse (nullish raw "") with
       | Parsed v => Some (if is_object v then v else JObject [])
       | Beyond => None
       | _ => Some (JObject [])
       end.

Definition parseJsonMap (raw : option string) : option json :=
  if negb (truthy raw) then Some (JObject [])
  else match JSON_parse (nullish raw "") with
       | Parsed v => Some (if is_object v then v else JObject [])
       | Beyond => None
       | _ => Some (JObject [])
       end.

(** [v || undefined] *)
Definition non_empty (v : option string) : option string :=
  match v with Some s => if String.eqb s "" then None else Some s | None => None end.

Definition configuration (e : env) : AppConfig := {|
  cfg_app := {|
    app_nodeEnv := nullish (e !! "NODE_ENV") "development";
    app_port := int_ (e !! "APP_PORT") 3000;
    app_webhookSecret := e !! "WEBHOOK_SECRET";
    app_logLevel := nullish (e !! "LOG_LEVEL") "info";
    app_logPretty := bool_ (e !! "LOG_PRETTY") false;
    app_transferMaxAttempts := int_ (e !! "TRANSFER_MAX_ATTEMPTS") 3;
    app_transferRetryBackoffMs := int_ (e !! "TRANSFER_RETRY_BACKOFF_MS") 1000;
    app_ingestionDataRoot := e !! "INGESTION_DATA_ROOT";
    app_workerConcurrency := int_ (e !! "WORKER_CONCURRENCY") 5;
    app_maxPayloadBytes := times (int_ (e !! "MAX_PAYLOAD_SIZE_KB") 1024) 1024 |};
  cfg_throttle := {|
    throttle_ttlMs := int_ (e !! "THROTTLE_TTL_MS") 60000;
    throttle_limit := int_ (e !! "THROTTLE_LIMIT") 100 |};
  cfg_auth := {|
    auth_jwtSecret := e !! "JWT_SECRET";
    auth_jwtExpiresIn := nullish (e !! "JWT_EXPIRES_IN") "1h";
    auth_adminUsername := nullish (e !! "ADMIN_USERNAME") "admin";
    auth_adminPassword := e !! "ADMIN_PASSWORD" |};
  cfg_alerts := {|
    alerts_enabled := bool_ (e !! "ALERTS_ENABLED") false;
    alerts_webhookUrl := non_empty (e !! "ALERT_WEBHOOK_URL") |};
  cfg_recovery := {|
    recovery_enabled := bool_ (e !! "RECOVERY_ENABLED") true;
    recovery_staleMs := int_ (e !! "RECOVERY_STALE_MS") 900000;
    recovery_batchSize := int_ (e !! "RECOVERY_BATCH_SIZE") 50 |};
  cfg_retention := {|
    retention_auditDays := int_ (e !! "AUDIT_RETENTION_DAYS") 0 |};
  cfg_redis := {|
    redis_host := e !! "REDIS_HOST";
    redis_port := int_ (e !! "REDIS_PORT") 6379;
    redis_password := non_empty (e !! "REDIS_PASSWORD") |};
  cfg_database := {|
    database_host := e !! "POSTGRES_HOST";
    database_port := int_ (e !! "POSTGRES_PORT") 5432;
    database_username := match non_empty (e !! "APP_DB_USER") with Some u => Some u | None => e !! "POSTGRES_USER" end;
    database_password := e !! "POSTGRES_PASSWORD";
    database_name := e !! "POSTGRES_DB";
    database_synchronize := bool_ (e !! "DB_SYNCHRONIZE") false;
    database_logging := bool_ (e !! "DB_LOGGING") false |};
  cfg_s3 := {|
    s3_endpoint := non_empty (e !! "S3_ENDPOINT");
    s3_region := e !! "S3_REGION";
    s3_bucket := e !! "S3_BUCKET";
    s3_accessKeyId := e !! "S3_ACCESS_KEY_ID";
    s3_secretAccessKey := e !! "S3_SECRET_ACCESS_KEY";
    s3_forcePathStyle := bool_ (e !! "S3_FORCE_PATH_STYLE") true;
    s3_uploadPartSizeBytes := times (times (int_ (e !! "S3_UPLOAD_PART_SIZE_MB") 8) 1024) 1024;
    s3_uploadConcurrency := int_ (e !! "S3_UPLOAD_CONCURRENCY") 4 |};
  cfg_pipeline := {|
    pipeline_maxFileSizeBytes := times (times (int_ (e !! "MAX_FILE_SIZE_MB") 1024) 1024) 1024;
    pipeline_avEnabled := bool_ (e !! "AV_ENABLED") false;
    pipeline_clamavHost := nullish (e !! "CLAMAV_HOST") "clamav";
    pipeline_clamavPort := int_ (e !! "CLAMAV_PORT") 3310 |};
  cfg_encryption := {|
    encryption_enabled := bool_ (e !! "ENCRYPTION_ENABLED") false;
    encryption_kek := non_empty (e !! "ENCRYPTION_KEK") |};
  cfg_routing := {|
    routing_rules := parseRoutingRules (e !! "ROUTING_RULES") |};
  cfg_tenancy := {|
    tenancy_defaultTenant := nullish (e !! "DEFAULT_TENANT") "default";
    tenancy_map := parseJsonMap (e !! "TENANT_MAP") |};
  cfg_quotas := {|
    quotas_defaultMaxBytes := int_ (e !! "QUOTA_DEFAULT_MAX_BYTES") 0;
    quotas_defaultMaxObjects := int_ (e !! "QUOTA_DEFAULT_MAX_OBJECTS") 0;
    quotas_map := parseJson (e !! "TENANT_QUOTAS") |};
  cfg_kafka := {|
    kafka_enabled := bool_ (e !! "KAFKA_ENABLED") false;
    kafka_brokers := map trim (split_char ","%char (nullish (e !! "KAFKA_BROKERS") "kafka:9092"));
    kafka_clientId := nullish (e !! "KAFKA_CLIENT_ID") "s3-syncbridge";
    kafka_eventsTopic := nullish (e !! "KAFKA_EVENTS_TOPIC") "syncbridge.events" |}
|}.

(** ** Facts *)

(** *** Defaults *)
Fixpoint default_in (l : list property) (k : string) : option string :=
  match l with
  | [] => None
  | p :: l' => if String.eqb (pr_name p) k
               then match pr_default p with Some d => Some d | None => default_in l' k end
               else default_in l' k
  end.

(** The environment with the initializers of the schema written where nothing is set. *)
Definition inject_default (e : env) (p : property) : env :=
  match e !! pr_name p, pr_default p with
  | None, Some d => <[pr_name p := d]> e
  | _, _ => e
  end.
Definition inject_defaults (e : env) : env := foldl inject_default e EnvironmentVariables.

Lemma inject_lookup l e k :
  foldl inject_default e l !! k = match e !! k with Some s => Some s | None => default_in l k end.
Proof.
  revert e. induction l as [|p l IH]; intros e; simpl; [by destruct (e !! k)|].
  rewrite IH. unfold inject_default.
  destruct (String.eqb_spec (pr_name p) k) as [->|Hne].
  - destruct (e !! k) eqn:He; [by rewrite He|]. destruct (pr_default p); [by rewrite lookup_insert_eq|].
    by rewrite He.
  - destruct (e !! pr_name p); [done|]. destruct (pr_default p); [by rewrite lookup_insert_ne|done].
Qed.

(** A reading of a variable that takes the default for the missing value. *)
Lemma agree {A} (g : option string → A) e k :
  g (default_in EnvironmentVariables k) = g None → g (inject_defaults e !! k) = g (e !! k).
Proof. intros Hg. unfold inject_defaults. rewrite inject_lookup. by destruct (e !! k). Qed.

Lemma unset e k : default_in EnvironmentVariables k = None → inject_defaults e !! k = e !! k.
Proof. intros Hg. by apply (agree (λ v, v)). Qed.

(** The two sources of defaults agree.  The initializers of the schema, which the
    framework writes into the environment, and the fallbacks of the factory are the same
    values: the configuration tree does not depend on whether they were written. *)
Theorem defaults_agree e : configuration (inject_defaults e) = configuration e.
Proof.
  unfold configuration. f_equal; f_equal;
    try (match goal with
         | |- ?f (inject_defaults e !! ?k) ?x = _ => apply (agree (λ v, f v x)); vm_compute; reflexivity
         | |- ?f (inject_defaults e !! ?k) = _ => apply (agree f); vm_compute; reflexivity
         | |- times (?f (inject_defaults e !! ?k) ?x) ?m = _ =>
             apply (agree (λ v, times (f v x) m)); vm_compute; reflexivity
         | |- times (times (?f (inject_defaults e !! ?k) ?x) ?m) ?n = _ =>
             apply (agree (λ v, times (times (f v x) m) n)); vm_compute; reflexivity
         end);
    rewrite ?unset by (vm_compute; reflexivity); reflexivity.
Qed.

(** What [@nestjs/config] makes of the environment once [validate] has returned: it writes the
    properties of the validated instance that are not set there, with their initializers or,
    where only [config] had a value (a [.env] file; the image has none), some text for it. *)
Definition assigned (merged e e2 : env) : Prop :=
  ∀ k, match e !! k with
       | Some v => e2 !! k = Some v
       | None => match merged !! k with
                 | Some _ => is_Some (e2 !! k)
                 | None => e2 !! k = default_in EnvironmentVariables k
                 end
       end.

Lemma inject_assigned e : assigned e e (inject_defaults e).
Proof. intros k. unfold inject_defaults. rewrite inject_lookup. by destruct (e !! k). Qed.

Lemma assigned_configuration e e2 : assigned e e e2 → configuration e2 = configuration e.
Proof.
  intros He. rewrite <- (defaults_agree e). f_equal. apply map_eq. intros k. specialize (He k).
  pose proof (inject_assigned e k) as Hi. destruct (e !! k); congruence.
Qed.

(** *** What validation gives the tree *)
Definition int_between (lo hi : Z) (v : js_number) : Prop := ∃ z, v = Finite (inject_Z z) ∧ lo <= z <= hi.
Definition int_from (lo : Z) (v : js_number) : Prop := ∃ z, v = Finite (inject_Z z) ∧ lo <= z.
Definition present (v : option string) : Prop := ∃ s, v = Some s ∧ s ≠ "".

Definition valid_env (e : env) : Prop :=
  ∀ p, p ∈ EnvironmentVariables → satisfies (pr_rule p) (value_of e p) = true.

Lemma validateEnv_merged read cons keys e config e' merged :
  validateEnv read cons keys e config = (e', Ok merged) → merged = config ∪ e' ∧ valid_env merged.
Proof.
  unfold validateEnv. set (r := resolveFileSecrets read keys e).
  destruct (invalid_properties (config ∪ r)) as [|p l] eqn:Hbad; [|done].
  intros [= -> <-]. split; [done|]. intros p Hp. apply not_false_iff_true. intros Hf.
  assert (Hin : p ∈ invalid_properties (config ∪ e')).
  { unfold invalid_properties. apply list_elem_of_In, filter_In. rewrite <- list_elem_of_In. by rewrite Hf. }
  rewrite Hbad in Hin. by apply not_elem_of_nil in Hin.
Qed.

Lemma integer_in_from lo hi v : integer_in lo hi v = true → int_from lo v.
Proof.
  unfold integer_in. destruct v as [| |[n d]]; try done. cbn [Qnum Qden].
  intros [[[= ->]%Z.eqb_eq Hlo%Z.leb_le]%andb_true_iff _]%andb_true_iff. by exists n.
Qed.

Lemma integer_in_between lo hi v : integer_in lo (Some hi) v = true → int_between lo hi v.
Proof.
  unfold integer_in. destruct v as [| |[n d]]; try done. cbn [Qnum Qden].
  intros [[[= ->]%Z.eqb_eq Hlo%Z.leb_le]%andb_true_iff Hhi%Z.leb_le]%andb_true_iff. by exists n.
Qed.

(** A variable of the schema read by the factory with the same default. *)
Lemma int_valid e name dflt lo hi :
  valid_env e → int_or name dflt lo hi ∈ EnvironmentVariables →
  Number (pretty dflt) = Finite (inject_Z dflt) →
  integer_in lo hi (int_ (e !! name) dflt) = true.
Proof.
  intros Hv Hin Hd. specialize (Hv _ Hin). unfold value_of in Hv. simpl in Hv. unfold int_.
  destruct (e !! name) as [s|]; simpl in *; [|by rewrite Hd in Hv].
  destruct (Number s); try done.
Qed.

Lemma text_valid e name : valid_env e → required_text name ∈ EnvironmentVariables → present (e !! name).
Proof.
  intros Hv Hin. specialize (Hv _ Hin). unfold value_of in Hv. simpl in Hv.
  destruct (e !! name) as [s|]; [|done]. simpl in Hv. exists s. split; [done|].
  by destruct (String.eqb_spec s "").
Qed.

Lemma texts_valid e names :
  valid_env e → Forall (λ n, required_text n ∈ EnvironmentVariables) names →
  Forall present (map (λ n, e !! n) names).
Proof.
  intros Hv Hn. apply Forall_map. eapply Forall_impl; [exact Hn|]. intros n Hin. by apply text_valid.
Qed.

#[global] Instance rule_eq_dec : EqDecision rule.
Proof. solve_decision. Defined.
#[global] Instance property_eq_dec : EqDecision property.
Proof. solve_decision. Defined.

Ltac in_schema := apply (bool_decide_unpack _); vm_compute; exact I.

(** The bounds of the variable [name] with the default [d]; its text. *)
Ltac valid_between name d :=
  refine (integer_in_between _ _ _ (int_valid _ name d _ _ ltac:(eassumption) _ _));
  [in_schema|vm_compute; reflexivity].
Ltac valid_from name d :=
  refine (integer_in_from _ None _ (int_valid _ name d _ _ ltac:(eassumption) _ _));
  [in_schema|vm_compute; reflexivity].
Ltac valid_text name := refine (text_valid _ name ltac:(eassumption) _); in_schema.

(** A size in bytes, of a variable in a larger unit: exact as long as it is a safe integer. *)
Definition sized (unit_ lo : Z) (v bytes_ : js_number) : Prop :=
  ∃ z, v = Finite (inject_Z z) ∧ lo <= z ∧ (z * unit_ < 2 ^ 53 → bytes_ = Finite (inject_Z (z * unit_))).

(** What every variable of the schema gives the tree [c] of an environment. *)
Record well_configured (e : env) (c : AppConfig) : Prop := {
  wc_present : Forall present
    [app_webhookSecret (cfg_app c); app_ingestionDataRoot (cfg_app c); auth_jwtSecret (cfg_auth c);
     auth_adminPassword (cfg_auth c); redis_host (cfg_redis c); database_host (cfg_database c);
     database_password (cfg_database c); database_name (cfg_database c); s3_region (cfg_s3 c);
     s3_bucket (cfg_s3 c); s3_accessKeyId (cfg_s3 c); s3_secretAccessKey (cfg_s3 c)];
  wc_username : present (database_username (cfg_database c));
  wc_texts : Forall (λ s, s ≠ "") [auth_jwtExpiresIn (cfg_auth c); auth_adminUsername (cfg_auth c);
     pipeline_clamavHost (cfg_pipeline c)];
  wc_modes : app_nodeEnv (cfg_app c) ∈ NodeEnv ∧ app_logLevel (cfg_app c) ∈ LOG_LEVELS;
  wc_ports : Forall (int_between 1 65535)
    [app_port (cfg_app c); redis_port (cfg_redis c); database_port (cfg_database c); pipeline_clamavPort (cfg_pipeline c)];
  wc_attempts : int_between 1 10 (app_transferMaxAttempts (cfg_app c));
  wc_concurrency : int_between 1 256 (app_workerConcurrency (cfg_app c));
  wc_batch : int_between 1 1000 (recovery_batchSize (cfg_recovery c));
  wc_uploads : int_between 1 64 (s3_uploadConcurrency (cfg_s3 c));
  wc_periods : Forall (int_from 1000) [recovery_staleMs (cfg_recovery c); throttle_ttlMs (cfg_throttle c)];
  wc_limits : int_from 1 (throttle_limit (cfg_throttle c)) ∧
    Forall (int_from 0) [retention_auditDays (cfg_retention c); app_transferRetryBackoffMs (cfg_app c)];
  wc_payload : sized 1024 1 (int_ (e !! "MAX_PAYLOAD_SIZE_KB") 1024) (app_maxPayloadBytes (cfg_app c));
  wc_file : sized (1024 * 1024) 0 (int_ (e !! "MAX_FILE_SIZE_MB") 1024) (pipeline_maxFileSizeBytes (cfg_pipeline c));
  wc_part : sized (1024 * 1024) 5 (int_ (e !! "S3_UPLOAD_PART_SIZE_MB") 8) (s3_uploadPartSizeBytes (cfg_s3 c));
}.

Lemma kilobytes_sized lo v : 0 <= lo → int_from lo v → sized 1024 lo v (times v 1024).
Proof. intros H0 (z & -> & Hlo). exists z. split_and!; [done..|]. intros Hz. apply times_exact; lia. Qed.

Lemma megabytes_sized lo v : 0 <= lo → int_from lo v → sized (1024 * 1024) lo v (times (times v 1024) 1024).
Proof.
  intros H0 (z & -> & Hlo). exists z. split_and!; [done..|]. intros Hz.
  by rewrite (times_exact z), (times_exact (z * 1024)), <- Z.mul_assoc by lia.
Qed.

Lemma default_text_valid e name d :
  valid_env e → text_or name d ∈ EnvironmentVariables → d ≠ "" → nullish (e !! name) d ≠ "".
Proof.
  intros Hv Hin Hd. specialize (Hv _ Hin). unfold value_of in Hv. simpl in Hv.
  destruct (e !! name) as [s|]; [|done]. simpl in *. by destruct (String.eqb_spec s "").
Qed.

Lemma mode_valid e name d allowed :
  valid_env e → mkProperty name (Some d) (IsOneOf allowed) ∈ EnvironmentVariables → nullish (e !! name) d ∈ allowed.
Proof.
  intros Hv Hin. specialize (Hv _ Hin). unfold value_of in Hv. simpl in Hv.
  assert (Hm : ∀ s, existsb (String.eqb s) allowed = true → s ∈ allowed).
  { intros s (x & Hx & ->%String.eqb_eq)%existsb_exists. by apply list_elem_of_In. }
  destruct (e !! name); by apply Hm.
Qed.

Lemma valid_configured e : valid_env e → well_configured e (configuration e).
Proof.
  intros Hv. split.
  - refine (texts_valid e ["WEBHOOK_SECRET"; "INGESTION_DATA_ROOT"; "JWT_SECRET"; "ADMIN_PASSWORD";
      "REDIS_HOST"; "POSTGRES_HOST"; "POSTGRES_PASSWORD"; "POSTGRES_DB"; "S3_REGION"; "S3_BUCKET";
      "S3_ACCESS_KEY_ID"; "S3_SECRET_ACCESS_KEY"] Hv _). in_schema.
  - change (present (match non_empty (e !! "APP_DB_USER") with
                     | Some u => Some u | None => e !! "POSTGRES_USER" end)).
    destruct (e !! "APP_DB_USER") as [u|]; simpl; [|valid_text "POSTGRES_USER"].
    destruct (String.eqb_spec u ""); [valid_text "POSTGRES_USER"|]. by exists u.
  - repeat (apply Forall_cons; split); [..|apply Forall_nil_2];
      (apply default_text_valid; [done|in_schema|done]).
  - split; (apply mode_valid; [done|in_schema]).
  - apply Forall_cons; split; [valid_between "APP_PORT" 3000|].
    apply Forall_cons; split; [valid_between "REDIS_PORT" 6379|].
    apply Forall_cons; split; [valid_between "POSTGRES_PORT" 5432|].
    apply Forall_cons; split; [valid_between "CLAMAV_PORT" 3310|]. apply Forall_nil_2.
  - valid_between "TRANSFER_MAX_ATTEMPTS" 3.
  - valid_between "WORKER_CONCURRENCY" 5.
  - valid_between "RECOVERY_BATCH_SIZE" 50.
  - valid_between "S3_UPLOAD_CONCURRENCY" 4.
  - apply Forall_cons; split; [valid_from "RECOVERY_STALE_MS" 900000|].
    apply Forall_cons; split; [valid_from "THROTTLE_TTL_MS" 60000|]. apply Forall_nil_2.
  - split; [valid_from "THROTTLE_LIMIT" 100|].
    apply Forall_cons; split; [valid_from "AUDIT_RETENTION_DAYS" 0|].
    apply Forall_cons; split; [valid_from "TRANSFER_RETRY_BACKOFF_MS" 1000|]. apply Forall_nil_2.
  - apply kilobytes_sized; [done|]. valid_from "MAX_PAYLOAD_SIZE_KB" 1024.
  - apply megabytes_sized; [done|]. valid_from "MAX_FILE_SIZE_MB" 1024.
  - apply megabytes_sized; [done|]. valid_from "S3_UPLOAD_PART_SIZE_MB" 8.
Qed.

(** C35: A validated environment yields a usable configuration.  When [validateEnv] accepts,
    the tree that the factory builds from the values it checked has every secret and every
    connection parameter set and non-empty, every number of the schema an integer within its
    bounds, and the three sizes exact multiples of their unit as long as they are safe
    integers.  And where validation was given no value that the environment, its file secrets
    resolved, does not have, this is the tree of the process, also after the framework has
    written the initializers of the schema into the environment. *)
Theorem validated_configuration read cons keys e config e' merged :
  validateEnv read cons keys e config = (e', Ok merged) →
  well_configured merged (configuration merged) ∧
  (∀ e2, config ⊆ e' → assigned merged e' e2 → configuration e2 = configuration merged).
Proof.
  intros Hval. destruct (validateEnv_merged _ _ _ _ _ _ _ Hval) as [-> Hv]. split; [by apply valid_configured|].
  intros e2 Hsub. rewrite map_subseteq_union by done. apply assigned_configuration.
Qed.

(** ** Examples and divergences *)
Module DemoEnv.
Definition base : env := list_to_map
  [("WEBHOOK_SECRET", "hook"); ("JWT_SECRET", "jwt"); ("ADMIN_PASSWORD", "pw");
   ("INGESTION_DATA_ROOT", "/srv"); ("REDIS_HOST", "redis"); ("POSTGRES_HOST", "db");
   ("POSTGRES_USER", "app"); ("POSTGRES_PASSWORD", "pw"); ("POSTGRES_DB", "bridge");
   ("S3_REGION", "eu"); ("S3_BUCKET", "b"); ("S3_ACCESS_KEY_ID", "k"); ("S3_SECRET_ACCESS_KEY", "s")].
Definition no_files (path : string) : option string := None.
Definition blank_file (path : string) : option string := Some " ".
Definition no_texts (p : property) : string := "".
End DemoEnv.
Import DemoEnv.

Lemma validated_configuration_witness :
  is_ok (validateEnv no_files no_texts [] base base).2 = true ∧
  int_between 1 10 (app_transferMaxAttempts (cfg_app (configuration base))) ∧
  configuration (inject_defaults base) = configuration base.
Proof.
  assert (Hm : base ∪ base = base) by (by apply map_subseteq_union).
  assert (Hbad : invalid_properties base = []) by (vm_compute; reflexivity).
  assert (Hok : validateEnv no_files no_texts [] base base = (base, Ok base)).
  { unfold validateEnv, resolveFileSecrets. cbn [foldl]. rewrite Hm, Hbad. reflexivity. }
  destruct (validated_configuration no_files no_texts [] base base base base Hok) as [Hw Ht].
  split; [by rewrite Hok|]. split; [exact (wc_attempts _ _ Hw)|].
  exact (Ht _ (reflexivity base) (inject_assigned base)).
Defined.

(** With both [X] and [X_FILE] set, validation checks the value the framework read before
    [X_FILE] was resolved, and the tree holds the content of the file: a blank file passes
    as an empty webhook secret. *)
Theorem file_secret_not_validated :
  let e := <["WEBHOOK_SECRET_FILE" := "/run/secrets/hook"]> base in
  let r := validateEnv blank_file no_texts ["WEBHOOK_SECRET_FILE"] e e in
  is_ok r.2 = true ∧ e !! "WEBHOOK_SECRET" = Some "hook" ∧
  app_webhookSecret (cfg_app (configuration r.1)) = Some "".
Proof. split; [|split]; vm_compute; reflexivity. Qed.

(** The schema trims a boolean, the factory does not: a value with a trailing blank is
    validated as true and read as false. *)
Theorem boolean_spellings_differ :
  toBoolean "true " = true ∧
  pipeline_avEnabled (cfg_pipeline (configuration (<["AV_ENABLED" := "true "]> base))) = false.
Proof. split; vm_compute; reflexivity. Qed.

(** The quota variables are not in the schema: a mistyped limit falls back to 0, which
    means no limit. *)
Theorem mistyped_quota_is_unlimited :
  let e := <["QUOTA_DEFAULT_MAX_BYTES" := "10GB"]> base in
  is_ok (validateEnv no_files no_texts [] e e).2 = true ∧
  quotas_defaultMaxBytes (cfg_quotas (configuration e)) = Finite 0.
Proof. split; vm_compute; reflexivity. Qed.
