(* ===== verification/NodePath.v ===== *)
(** * The POSIX half of [node:path] the source uses

    [isAbsolute], [resolve], [relative] and [extname], as Node documents them for
    POSIX.  [resolve] turns a path into its normalized segments (empty and [.]
    segments dropped, [..] removing the segment before it); an absolute path is then
    the segments joined again.  [extname] follows the backward scan of Node. *)
From S2P Require Import Prelude JsLang.

Definition slash : Ascii.ascii := "/"%char.
Definition dot : Ascii.ascii := "."%char.

Definition isAbsolute (p : string) : bool := startsWith p "/".

(** One step of the normalization, on the stack of segments (last one first). *)
Definition push_segment (acc : list string) (seg : string) : list string :=
  if String.eqb seg "" || String.eqb seg "." then acc
  else if String.eqb seg ".." then tail acc
  else seg :: acc.

Definition normalize_segments (l : list string) : list string :=
  reverse (foldl push_segment [] l).

(** The segments of [resolve(p)] in a process whose working directory is [cwd]. *)
Definition path_segments (cwd p : string) : list string :=
  normalize_segments
    (split_char slash (if isAbsolute p then p else cwd +:+ "/" +:+ p)).

Definition abs_path (segs : list string) : string := "/" +:+ join "/" segs.

Definition resolve (cwd p : string) : string := abs_path (path_segments cwd p).

(** The common prefix of two segment lists is dropped; what is left of the first is
    climbed with [..], what is left of the second is walked down. *)
Fixpoint relative_segments (from to : list string) : list string :=
  match from, to with
  | f :: from', t :: to' =>
      if String.eqb f t then relative_segments from' to'
      else replicate (length from) ".." ++ to
  | _, _ => replicate (length from) ".." ++ to
  end.

Definition relative (cwd from to : string) : string :=
  join "/" (relative_segments (path_segments cwd from) (path_segments cwd to)).

(** [extname]: the scan runs from the end of the string; [cs] are the characters
    still to read, last first, and [i] is the index of its head plus one. *)
Record ext_scan := ExtScan {
  startDot : Z; startPart : Z; endPos : Z; matchedSlash : bool; preDotState : Z;
}.

Fixpoint extname_scan (cs : list Ascii.ascii) (i : nat) (st : ext_scan) : ext_scan :=
  match cs, i with
  | c :: cs', S i' =>
      let pos := Z.of_nat i' in
      if Ascii.eqb c slash then
        if negb (matchedSlash st)
        then ExtScan (startDot st) (pos + 1) (endPos st) (matchedSlash st) (preDotState st)
        else extname_scan cs' i' st
      else
        let st1 := if (endPos st =? -1)%Z
                   then ExtScan (startDot st) (startPart st) (pos + 1) false (preDotState st)
                   else st in
        let st2 :=
          if Ascii.eqb c dot then
            if (startDot st1 =? -1)%Z
            then ExtScan pos (startPart st1) (endPos st1) (matchedSlash st1) (preDotState st1)
            else ExtScan (startDot st1) (startPart st1) (endPos st1) (matchedSlash st1) 1
          else if negb (startDot st1 =? -1)%Z
          then ExtScan (startDot st1) (startPart st1) (endPos st1) (matchedSlash st1) (-1)
          else st1 in
        extname_scan cs' i' st2
  | _, _ => st
  end.

Definition extname (p : string) : string :=
  let cs := chars p in
  let st := extname_scan (reverse cs) (length cs) (ExtScan (-1) 0 (-1) true 0) in
  if (startDot st =? -1)%Z || (endPos st =? -1)%Z || (preDotState st =? 0)%Z
     || ((preDotState st =? 1)%Z && (startDot st =? endPos st - 1)%Z
         && (startDot st =? startPart st + 1)%Z)
  then ""
  else String.substring (Z.to_nat (startDot st)) (Z.to_nat (endPos st - startDot st)) p.

Example extname_examples :
  map extname ["report.csv"; ".bashrc"; "a.tar.gz"; "noext"; "x."; ".."; "a.b/"]
  = [".csv"; ""; ".gz"; ""; "."; ""; ".b"].
Proof. reflexivity. Qed.

(** ** Facts *)

(** A segment that [normalize_segments] can produce. *)
Definition clean_segment (s : string) : Prop :=
  s ≠ "" ∧ s ≠ "." ∧ s ≠ ".." ∧ no_char slash s = true.

Lemma push_segment_clean acc s :
  no_char slash s = true →
  Forall clean_segment acc → Forall clean_segment (push_segment acc s).
Proof.
  intros Hs H. unfold push_segment.
  destruct (string_eqb_spec s ""); [done|].
  destruct (string_eqb_spec s "."); [done|]. simpl.
  destruct (string_eqb_spec s "..").
  - destruct H; simpl; [constructor|done].
  - constructor; [|done]. done.
Qed.

Lemma normalize_segments_clean l :
  Forall (λ s, no_char slash s = true) l → Forall clean_segment (normalize_segments l).
Proof.
  intros Hl. unfold normalize_segments. apply Forall_reverse.
  assert (G : ∀ acc, Forall clean_segment acc →
    Forall clean_segment (foldl push_segment acc l)).
  { induction Hl as [|s l' Hs Hl IH]; intros acc H; simpl; [done|].
    by apply IH, push_segment_clean. }
  apply G. constructor.
Qed.

Lemma path_segments_clean cwd p : Forall clean_segment (path_segments cwd p).
Proof. apply normalize_segments_clean, split_char_no_char. Qed.

Lemma push_segment_clean_seg acc s : clean_segment s → push_segment acc s = s :: acc.
Proof.
  intros (H1 & H2 & H3 & _). unfold push_segment.
  destruct (string_eqb_spec s ""); [done|]. destruct (string_eqb_spec s "."); [done|].
  by destruct (string_eqb_spec s "..").
Qed.

Lemma normalize_segments_id l : Forall clean_segment l → normalize_segments l = l.
Proof.
  intros Hl. unfold normalize_segments.
  assert (G : ∀ acc, foldl push_segment acc l = reverse l ++ acc).
  { induction Hl as [|s l Hs Hl IH]; intros acc; simpl; [done|].
    rewrite push_segment_clean_seg, IH by done. by rewrite reverse_cons, <- app_assoc. }
  rewrite G, app_nil_r. apply reverse_involutive.
Qed.

(** Resolving an absolute path built from clean segments gives them back. *)
Lemma path_segments_abs cwd l :
  Forall clean_segment l → path_segments cwd (abs_path l) = l.
Proof.
  intros Hl. unfold path_segments, abs_path, isAbsolute.
  rewrite (proj2 (startsWith_spec _ "/")) by eauto.
  assert (Hns : Forall (λ s, no_char slash s = true) l)
    by (eapply Forall_impl; [exact Hl|]; by intros s (_ & _ & _ & ?)).
  change ("/" +:+ join "/" l) with ("" +:+ String slash (join "/" l)).
  rewrite split_char_app by done.
  destruct l as [|s l]; [done|]. change "/" with (String slash ""). rewrite split_join by done.
  unfold normalize_segments. simpl. fold (normalize_segments (s :: l)).
  exact (normalize_segments_id _ Hl).
Qed.

Lemma resolve_segments cwd cwd' p : path_segments cwd' (resolve cwd p) = path_segments cwd p.
Proof. apply path_segments_abs, path_segments_clean. Qed.

Lemma join_cons_startsWith sep s l t :
  startsWith s t = true → startsWith (join sep (s :: l)) t = true.
Proof.
  intros [u ->]%startsWith_spec. apply startsWith_spec. unfold join.
  destruct l as [|s' l]; [by exists u|].
  exists (u +:+ (sep +:+ String.concat sep (s' :: l))). by rewrite string_app_assoc.
Qed.

(** [relative_segments] climbs unless the first path is a prefix of the second. *)
Lemma relative_segments_spec from to :
  (∃ rest, to = from ++ rest ∧ relative_segments from to = rest) ∨
  (∃ tl, relative_segments from to = ".." :: tl ∧ ¬ from `prefix_of` to).
Proof.
  revert to. induction from as [|f from IH]; intros to; simpl.
  { left. exists to. by destruct to. }
  destruct to as [|t to].
  { right. exists (replicate (length from) ".." ++ []). split; [done|].
    intros H. by apply prefix_nil_not in H. }
  destruct (string_eqb_spec f t) as [->|Hne].
  - destruct (IH to) as [(rest & -> & H)|(tl & H & Hn)].
    + left. by exists rest.
    + right. exists tl. split; [done|]. intros Hp. apply Hn. by eapply prefix_cons_inv_2.
  - right. exists (replicate (length from) ".." ++ t :: to). split; [done|].
    intros Hp. by apply prefix_cons_inv_1 in Hp.
Qed.

Lemma join_startsWith_dots s l :
  startsWith (join "/" (s :: l)) ".." = true → startsWith s ".." = true.
Proof.
  destruct l as [|t l]; [done|]. unfold join.
  change (String.concat "/" (s :: t :: l)) with (s +:+ String slash (String.concat "/" (t :: l))).
  intros [u Hu]%startsWith_spec. destruct s as [|c [|c' s]].
  - by injection Hu.
  - injection Hu. intros _ H. discriminate H.
  - injection Hu as -> -> Hu. apply startsWith_spec. by exists s.
Qed.
