(* ===== verification/Prog.v ===== *)
(** * Asynchronous handlers as programs

    An [async] function is a [prog]: a finite tree whose nodes are the awaited (or
    otherwise observable) operations and whose continuations receive a result or an
    exception.  [bind], [catch_], [finally_] and [for_each] are [await] in sequence,
    [try]/[catch], [try]/[finally] and [for..of].

    Three semantics are given to the same tree.
    - [run] executes it against a world under a list of faults, one per fallible
      operation: the operation may fail before it took effect, or take effect
      and lose its acknowledgement.  [crash] stops after a number of operations.
    - [rg] is the program logic: [rg R G p Q w] says that, with other
      activities changing the world by [R] between the operations of [p], each
      operation of [p] changes it by [G] and [p] ends in [Q], whatever
      faults occur.  [R := eq] is sequential execution.
    - [pool_step] interleaves any number of programs, any of which may be
      killed at any point; [pool_sound] is the rely-guarantee theorem. *)
From S2P Require Import Prelude.

Inductive prog (E : Type → Type) (A : Type) : Type :=
  | Ret (a : A)
  | Throw (e : exn)
  | Call (X : Type) (op : E X) (k : result X → prog E A).
Arguments Ret {E A} a.
Arguments Throw {E A} e.
Arguments Call {E A X} op k.

Section combinators.
Context {E : Type → Type}.

Definition of_result {A} (r : result A) : prog E A :=
  match r with Ok a => Ret a | Err e => Throw e end.

(** [await op] *)
Definition call {X} (op : E X) : prog E X := Call op of_result.

Fixpoint bind {A B} (p : prog E A) (f : A → prog E B) : prog E B :=
  match p with
  | Ret a => f a
  | Throw e => Throw e
  | Call op k => Call op (λ r, bind (k r) f)
  end.

(** [try { p } catch (e) { h e }] *)
Fixpoint catch_ {A} (p : prog E A) (h : exn → prog E A) : prog E A :=
  match p with
  | Ret a => Ret a
  | Throw e => h e
  | Call op k => Call op (λ r, catch_ (k r) h)
  end.

(** [try { p } finally { fin }] *)
Fixpoint finally_ {A} (p : prog E A) (fin : prog E unit) : prog E A :=
  match p with
  | Ret a => bind fin (λ _, Ret a)
  | Throw e => bind fin (λ _, Throw e)
  | Call op k => Call op (λ r, finally_ (k r) fin)
  end.

(** [for (const x of l) await body(x)] *)
Fixpoint for_each {X} (l : list X) (body : X → prog E unit) : prog E unit :=
  match l with
  | [] => Ret tt
  | x :: l' => bind (body x) (λ _, for_each l' body)
  end.

(** Collecting loop: the results of the iterations, in order. *)
Fixpoint for_collect {X Y} (l : list X) (body : X → prog E Y) : prog E (list Y) :=
  match l with
  | [] => Ret []
  | x :: l' => bind (body x) (λ y, bind (for_collect l' body) (λ ys, Ret (y :: ys)))
  end.
End combinators.

Notation "x <- p ;; q" := (bind p (λ x, q))
  (at level 100, p at next level, right associativity) : bridge_scope.
Notation "p ;;; q" := (bind p (λ _, q))
  (at level 100, right associativity) : bridge_scope.
Open Scope bridge_scope.

(** ** Execution *)

Inductive fault :=
  | NoFault
  | FailBefore (e : infra_error)
  | FailAfter (e : infra_error).

(** What an environment makes of an operation; [fallible] tells the operations that
    leave the process from in-process reads and writes, which cannot fail. *)
Class Handler (E : Type → Type) (W : Type) := {
  handle : ∀ {X}, E X → W → result X * W;
  fallible : ∀ {X}, E X → bool;
}.

Section execution.
Context {E : Type → Type} {W : Type} `{!Handler E W}.

Definition perform {X} (f : fault) (op : E X) (w : W) : result X * W :=
  if fallible op then
    match f with
    | NoFault => handle op w
    | FailBefore e => (Err (Infra e), w)
    | FailAfter e => (Err (Infra e), (handle op w).2)
    end
  else handle op w.

Definition next_fault (fs : list fault) : fault := default NoFault (head fs).

Fixpoint run {A} (fs : list fault) (p : prog E A) (w : W) : result A * W * list fault :=
  match p with
  | Ret a => (Ok a, w, fs)
  | Throw e => (Err e, w, fs)
  | Call op k =>
      let r := perform (next_fault fs) op w in
      run (if fallible op then tail fs else fs) (k r.1) r.2
  end.

(** The result and the final world of a run; the fault-free run. *)
Definition outcome {A} (fs : list fault) (p : prog E A) (w : W) : result A := (run fs p w).1.1.
Definition final {A} (fs : list fault) (p : prog E A) (w : W) : W := (run fs p w).1.2.

(** The world when the process dies after [n] operations. *)
Fixpoint crash {A} (n : nat) (fs : list fault) (p : prog E A) (w : W) : W :=
  match n, p with
  | S n', Call op k =>
      let r := perform (next_fault fs) op w in
      crash n' (if fallible op then tail fs else fs) (k r.1) r.2
  | _, _ => w
  end.

Lemma run_bind {A B} (p : prog E A) (f : A → prog E B) fs w :
  run fs (bind p f) w =
  match run fs p w with
  | (Ok a, w', fs') => run fs' (f a) w'
  | (Err e, w', fs') => (Err e, w', fs')
  end.
Proof. revert fs w. induction p; intros fs w; simpl; [done..|]. apply H. Qed.

Lemma run_catch {A} (p : prog E A) h fs w :
  run fs (catch_ p h) w =
  match run fs p w with
  | (Ok a, w', fs') => (Ok a, w', fs')
  | (Err e, w', fs') => run fs' (h e) w'
  end.
Proof. revert fs w. induction p; intros fs w; simpl; [done..|]. apply H. Qed.

Lemma run_finally {A} (p : prog E A) fin fs w :
  run fs (finally_ p fin) w =
  match run fs p w with
  | (r, w', fs') =>
      match run fs' fin w' with
      | (Ok _, w'', fs'') => (r, w'', fs'')
      | (Err e, w'', fs'') => (Err e, w'', fs'')
      end
  end.
Proof.
  revert fs w. induction p; intros fs w; simpl.
  - rewrite run_bind. by destruct (run fs fin w) as [[[] ?] ?].
  - rewrite run_bind. by destruct (run fs fin w) as [[[] ?] ?].
  - apply H.
Qed.

(** The fault-free run. *)
Fixpoint exec {A} (p : prog E A) (w : W) : result A * W :=
  match p with
  | Ret a => (Ok a, w)
  | Throw e => (Err e, w)
  | Call op k => let r := handle op w in exec (k r.1) r.2
  end.

Lemma exec_run {A} (p : prog E A) w : run [] p w = (exec p w, []).
Proof.
  revert w. induction p as [a|e|X op k IH]; intros w; simpl; [done..|].
  unfold perform; simpl. by destruct (fallible op); rewrite IH.
Qed.

Lemma exec_call {X} (op : E X) w : exec (call op) w = handle op w.
Proof. simpl. by destruct (handle op w) as [[] ?]. Qed.

Lemma exec_bind {A B} (p : prog E A) (f : A → prog E B) w :
  exec (bind p f) w =
  match exec p w with
  | (Ok a, w') => exec (f a) w'
  | (Err e, w') => (Err e, w')
  end.
Proof. revert w. induction p; intros w; simpl; [done..|]. apply H. Qed.

Lemma exec_catch {A} (p : prog E A) h w :
  exec (catch_ p h) w =
  match exec p w with
  | (Ok a, w') => (Ok a, w')
  | (Err e, w') => exec (h e) w'
  end.
Proof. revert w. induction p; intros w; simpl; [done..|]. apply H. Qed.

Lemma exec_finally {A} (p : prog E A) fin w :
  exec (finally_ p fin) w =
  match exec p w with
  | (r, w') =>
      match exec fin w' with
      | (Ok _, w'') => (r, w'')
      | (Err e, w'') => (Err e, w'')
      end
  end.
Proof.
  revert w. induction p; intros w; simpl; [| |by apply H];
    rewrite exec_bind; by destruct (exec fin w) as [[] ?].
Qed.

(** ** The program logic *)
Fixpoint rg (R G : W → W → Prop) {A} (p : prog E A) (Q : result A → W → Prop)
    (w : W) : Prop :=
  ∀ w0, R w w0 →
  match p with
  | Ret a => Q (Ok a) w0
  | Throw e => Q (Err e) w0
  | Call op k => ∀ f,
      G w0 (perform f op w0).2 ∧
      rg R G (k (perform f op w0).1) Q (perform f op w0).2
  end.

Section rules.
Context (R G : W → W → Prop) `{!Reflexive R}.

Lemma rg_mono {A} (p : prog E A) (Q Q' : result A → W → Prop) w :
  rg R G p Q w → (∀ r w', Q r w' → Q' r w') → rg R G p Q' w.
Proof.
  intros H HQ. revert w H. induction p as [a|e|X op k IH]; intros w H w0 Hw0; eauto.
  intros f. destruct (H w0 Hw0 f) as [HG Hk]. split; [done|]. by apply IH.
Qed.

Lemma all_true_guarantee {A} (p : prog E A) Q w :
  rg R G p Q w → rg R (λ _ _, True) p Q w.
Proof.
  revert w. induction p as [a|e|X op k IH]; intros w H w0 Hw0; eauto.
  intros f. destruct (H w0 Hw0 f) as [_ Hk]. split; [done|]. by apply IH.
Qed.

Lemma rg_bind {A B} (p : prog E A) (f : A → prog E B) Q w :
  rg R G p (λ r w', match r with Ok a => rg R G (f a) Q w' | Err e => Q (Err e) w' end) w →
  rg R G (bind p f) Q w.
Proof.
  revert w. induction p as [a|e|X op k IH]; intros w H.
  - exact (H w (reflexivity w)).
  - exact H.
  - intros w0 Hw0 ft. destruct (H w0 Hw0 ft) as [HG Hk]. split; [done|]. by apply IH.
Qed.

Lemma rg_catch {A} (p : prog E A) (h : exn → prog E A) Q w :
  rg R G p (λ r w', match r with Ok a => Q (Ok a) w' | Err e => rg R G (h e) Q w' end) w →
  rg R G (catch_ p h) Q w.
Proof.
  revert w. induction p as [a|e|X op k IH]; intros w H.
  - exact H.
  - exact (H w (reflexivity w)).
  - intros w0 Hw0 ft. destruct (H w0 Hw0 ft) as [HG Hk]. split; [done|]. by apply IH.
Qed.

Lemma rg_finally {A} (p : prog E A) (fin : prog E unit) Q w :
  rg R G p (λ r w', rg R G fin (λ r' w'', match r' with
                                          | Ok _ => rg R G (of_result r) Q w''
                                          | Err e => Q (Err e) w''
                                          end) w') w →
  rg R G (finally_ p fin) Q w.
Proof.
  revert w. induction p as [a|e|X op k IH]; intros w H.
  - apply rg_bind. exact (H w (reflexivity w)).
  - apply rg_bind. exact (H w (reflexivity w)).
  - intros w0 Hw0 ft. destruct (H w0 Hw0 ft) as [HG Hk]. split; [done|]. by apply IH.
Qed.

(** Loops: an invariant indexed by the items still to come. *)
Lemma rg_for_each {X} (l : list X) (body : X → prog E unit) (I : list X → W → Prop) Q w :
  (∀ x l' w', I (x :: l') w' →
     rg R G (body x) (λ r w'', match r with Ok _ => I l' w'' | Err e => Q (Err e) w'' end) w') →
  (∀ w', I [] w' → rg R G (Ret tt) Q w') →
  I l w → rg R G (for_each l body) Q w.
Proof.
  intros Hbody Hend. revert w. induction l as [|x l IH]; intros w HI; simpl; [by apply Hend|].
  apply rg_bind. eapply rg_mono; [by apply Hbody|]. intros [a|e] w'; [apply IH|done].
Qed.
End rules.

(** One awaited operation under interference: the environment may move before it
    and again before its result is used. *)
Lemma rg_call (R G : W → W → Prop) {X} (op : E X) Q w :
  (∀ w0 f, R w w0 → G w0 (perform f op w0).2 ∧
     ∀ w1, R (perform f op w0).2 w1 → Q (perform f op w0).1 w1) →
  rg R G (call op) Q w.
Proof.
  intros H w0 Hw0 f. destruct (H w0 f Hw0) as [HG HQ]. split; [done|].
  destruct (perform f op w0) as [[a|e] w1]; exact HQ.
Qed.

Lemma rg_ret (R G : W → W → Prop) {A} (a : A) (Q : result A → W → Prop) w :
  (∀ w0, R w w0 → Q (Ok a) w0) → rg R G (Ret a) Q w.
Proof. done. Qed.

Lemma rg_throw (R G : W → W → Prop) {A} e (Q : result A → W → Prop) w :
  (∀ w0, R w w0 → Q (Err e) w0) → rg R G (Throw e) Q w.
Proof. done. Qed.

(** *** Sequential execution *)
Abbreviation seq C := (rg eq (λ _ w', C w')).

Lemma seq_ret (G : W → W → Prop) {A} (a : A) (Q : result A → W → Prop) w :
  Q (Ok a) w → rg eq G (Ret a) Q w.
Proof. by intros H w0 <-. Qed.

Lemma seq_throw (G : W → W → Prop) {A} e (Q : result A → W → Prop) w :
  Q (Err e) w → rg eq G (Throw e) Q w.
Proof. by intros H w0 <-. Qed.

Lemma seq_call (G : W → W → Prop) {X A} (op : E X) (k : result X → prog E A) Q w :
  (∀ f, G w (perform f op w).2 ∧ rg eq G (k (perform f op w).1) Q (perform f op w).2) →
  rg eq G (Call op k) Q w.
Proof. by intros H w0 <-. Qed.

(** Whatever the faults, a run ends in the postcondition... *)
Lemma seq_run (G : W → W → Prop) {A} (p : prog E A) Q w fs :
  rg eq G p Q w → Q (outcome fs p w) (final fs p w).
Proof.
  unfold outcome, final. revert w fs.
  induction p as [a|e|X op k IH]; intros w fs H; simpl; try by apply (H w).
  apply IH. apply (H w eq_refl).
Qed.

(** ...and a crash at any point leaves a world satisfying the crash condition. *)
Lemma seq_crash (C : W → Prop) {A} (p : prog E A) Q w fs n :
  C w → rg eq (λ _ w', C w') p Q w → C (crash n fs p w).
Proof.
  revert p w fs. induction n as [|n IH]; intros p w fs HC H; simpl; [done|].
  destruct p as [a|e|X op k]; [done..|].
  destruct (H w eq_refl (next_fault fs)) as [HG Hk]. by apply IH.
Qed.

Lemma seq_narrow (C C' : W → Prop) {A} (p : prog E A) Q w :
  rg eq (λ _ w', C w') p Q w → (∀ w', C w' → C' w') → rg eq (λ _ w', C' w') p Q w.
Proof.
  intros H HC. revert w H. induction p as [a|e|X op k IH]; intros w H w0 <-; [exact (H w eq_refl)..|].
  intros f. destruct (H w eq_refl f) as [HG Hk]. split; [by apply HC|]. by apply IH.
Qed.

(** A condition implied by the guarantee of a program can serve as its crash condition. *)
Lemma seq_condition (G : W → W → Prop) `{!PreOrder G} (C : W → Prop) {A} (p : prog E A) Q w0 w :
  rg eq G p Q w → G w0 w → (∀ w1, G w0 w1 → C w1) → rg eq (λ _ w', C w') p Q w.
Proof.
  intros H Hw HC. revert w H Hw. induction p as [a|e|X op k IH]; intros w H Hw w1 <-.
  - by apply (H w).
  - by apply (H w).
  - intros f. destruct (H w eq_refl f) as [HG Hk]. split; [apply HC; by etrans|].
    apply IH; [done|]. by etrans.
Qed.

(** The guarantee, chained over the operations performed: at every crash point and
    at the end. *)
Lemma rg_crash_trans (R G : W → W → Prop) `{!Reflexive R, !PreOrder G} {A} (p : prog E A) Q w n fs :
  rg R G p Q w → G w (crash n fs p w).
Proof.
  revert p w fs. induction n as [|n IH]; intros p w fs H; simpl; [done|].
  destruct p as [a|e|X op k]; [done..|].
  destruct (H w (reflexivity w) (next_fault fs)) as [HG Hk]. etrans; [exact HG|]. by apply IH.
Qed.

Lemma rg_final_trans (R G : W → W → Prop) `{!Reflexive R, !PreOrder G} {A} (p : prog E A) Q w fs :
  rg R G p Q w → G w (final fs p w).
Proof.
  unfold final. revert w fs.
  induction p as [a|e|X op k IH]; intros w fs H; simpl; [done..|].
  destruct (H w (reflexivity w) (next_fault fs)) as [HG Hk]. etrans; [exact HG|]. by apply IH.
Qed.

(** ** Interleaving *)
Definition pool : Type := list (prog E unit) * W.

Inductive pool_step : pool → pool → Prop :=
  | step_call ts w i X (op : E X) k f :
      ts !! i = Some (Call op k) →
      pool_step (ts, w) (<[i := k (perform f op w).1]> ts, (perform f op w).2)
  | step_kill ts w i :
      pool_step (ts, w) (delete i ts, w).

Section soundness.
Context (R : W → W → Prop) `{!Reflexive R, !Transitive R} (Q : result unit → W → Prop).

Lemma rg_stable {A} (G : W → W → Prop) (p : prog E A) (P : result A → W → Prop) w w' :
  rg R G p P w → R w w' → rg R G p P w'.
Proof.
  intros H Hw. destruct p; intros w0 Hw0; apply H; by etrans.
Qed.

Definition pool_ok (c : pool) : Prop := Forall (λ p, rg R R p Q c.2) c.1.

Lemma pool_step_ok c c' : pool_step c c' → pool_ok c → pool_ok c' ∧ R c.2 c'.2.
Proof.
  intros Hs Hok. destruct Hs as [ts w i X op k f Hi|ts w i]; unfold pool_ok in *; simpl in *.
  - assert (H : rg R R (Call op k) Q w) by exact (Forall_lookup_1 _ _ _ _ Hok Hi).
    destruct (H w (reflexivity w) f) as [HG Hk]. split; [|done].
    apply Forall_insert; [|done].
    eapply Forall_impl; [exact Hok|]. intros p Hp. exact (rg_stable _ _ _ _ _ Hp HG).
  - split; [|done]. by apply Forall_delete.
Qed.

Theorem pool_sound c c' : rtc pool_step c c' → pool_ok c → pool_ok c' ∧ R c.2 c'.2.
Proof.
  induction 1 as [c|c1 c2 c3 Hs _ IH]; intros Hok; [by split|].
  destruct (pool_step_ok _ _ Hs Hok) as [H2 HR].
  destruct (IH H2) as [H3 HR']. split; [done|]. by etrans.
Qed.
End soundness.

(** A schedule names the thread that moves next; its operations succeed. *)
Fixpoint schedule (l : list nat) (c : pool) : pool :=
  match l with
  | [] => c
  | i :: l' =>
      match c.1 !! i with
      | Some (Call op k) =>
          let r := handle op c.2 in schedule l' (<[i := k r.1]> c.1, r.2)
      | _ => schedule l' c
      end
  end.

Lemma schedule_steps l c : rtc pool_step c (schedule l c).
Proof.
  revert c. induction l as [|i l IH]; intros [ts w]; simpl; [done|].
  destruct (ts !! i) as [[a|e|X op k]|] eqn:Hi; try apply IH.
  eapply rtc_l; [apply (step_call _ _ i _ _ _ NoFault Hi)|].
  unfold perform. destruct (fallible op); apply IH.
Qed.
End execution.

Arguments schedule : simpl never.
Arguments rg : simpl never.
Arguments perform : simpl never.

(** Replace every operation of a program by one of a larger signature. *)
Fixpoint hoist {E F : Type → Type} (h : ∀ X, E X → F X) {A} (p : prog E A) : prog F A :=
  match p with
  | Ret a => Ret a
  | Throw e => Throw e
  | Call op k => Call (h _ op) (λ r, hoist h (k r))
  end.

(** ** Programs all of whose operations satisfy a predicate *)
Section all_ops.
Context {E : Type → Type} (Pr : ∀ X, E X → Prop).

Fixpoint all_ops {A} (p : prog E A) : Prop :=
  match p with
  | Ret _ | Throw _ => True
  | Call op k => Pr _ op ∧ ∀ r, all_ops (k r)
  end.

Lemma all_ops_call {X} (op : E X) : Pr _ op → all_ops (call op).
Proof. intros H. split; [done|]. by intros []. Qed.

Lemma all_ops_of_result {A} (r : result A) : all_ops (of_result r).
Proof. by destruct r. Qed.

Lemma all_ops_bind {A B} (p : prog E A) (f : A → prog E B) :
  all_ops p → (∀ a, all_ops (f a)) → all_ops (bind p f).
Proof. intros Hp Hf. induction p; simpl in *; naive_solver. Qed.

Lemma all_ops_catch {A} (p : prog E A) h :
  all_ops p → (∀ e, all_ops (h e)) → all_ops (catch_ p h).
Proof. intros Hp Hf. induction p; simpl in *; naive_solver. Qed.

Lemma all_ops_finally {A} (p : prog E A) fin :
  all_ops p → all_ops fin → all_ops (finally_ p fin).
Proof.
  intros Hp Hf. induction p; simpl in *; [..|naive_solver]; by apply all_ops_bind.
Qed.

Lemma all_ops_for_each {X} (l : list X) (body : X → prog E unit) :
  (∀ x, all_ops (body x)) → all_ops (for_each l body).
Proof. intros H. induction l; simpl; [done|]. by apply all_ops_bind. Qed.

Lemma all_ops_for_collect {X Y} (l : list X) (body : X → prog E Y) :
  (∀ x, all_ops (body x)) → all_ops (for_collect l body).
Proof.
  intros H. induction l; simpl; [done|]. apply all_ops_bind; [done|]. intros y.
  by apply all_ops_bind.
Qed.

Context {W : Type} `{!Handler E W} (R G : W → W → Prop).

(** A program inherits the guarantee its operations have. *)
Lemma all_ops_rg {A} (p : prog E A) w :
  (∀ X (op : E X), Pr _ op → ∀ f w', G w' (perform f op w').2) →
  all_ops p → rg R G p (λ _ _, True) w.
Proof.
  intros HG. revert w. induction p as [a|e|X op k IH]; intros w Hp w0 _; [done..|].
  intros f. destruct Hp as [Hop Hk]. split; [by apply HG|]. by apply IH.
Qed.

(** ...and, for a transitive one, relates its start to its end. *)
Lemma all_ops_rg_trans `{!PreOrder G} {A} (p : prog E A) w w0 :
  (∀ w w', R w w' → G w w') →
  (∀ X (op : E X), Pr _ op → ∀ f w', G w' (perform f op w').2) →
  all_ops p → G w0 w → rg R G p (λ _ w', G w0 w') w.
Proof.
  intros HR HG. revert w. induction p as [a|e|X op k IH]; intros w Hp Hw w1 Hw1.
  - by etrans; [|apply HR].
  - by etrans; [|apply HR].
  - intros f. destruct Hp as [Hop Hk]. split; [by apply HG|].
    apply IH; [done|]. etrans; [exact Hw|]. etrans; [by apply HR|]. by apply HG.
Qed.
End all_ops.

Lemma all_ops_impl {E : Type → Type} (Pr Pr' : ∀ X, E X → Prop) {A} (p : prog E A) :
  (∀ X op, Pr X op → Pr' X op) → all_ops Pr p → all_ops Pr' p.
Proof. intros H Hp. induction p; simpl in *; naive_solver. Qed.

(** Descend through the combinators of a program down to its operations. *)
Ltac ops_step :=
  lazymatch goal with
  | |- all_ops _ (bind _ _) => apply all_ops_bind; [|intros ?]
  | |- all_ops _ (catch_ _ _) => apply all_ops_catch; [|intros ?]
  | |- all_ops _ (finally_ _ _) => apply all_ops_finally
  | |- all_ops _ (for_each _ _) => apply all_ops_for_each; intros ?
  | |- all_ops _ (for_collect _ _) => apply all_ops_for_collect; intros ?
  | |- all_ops _ (call _) => apply all_ops_call
  | |- all_ops _ (of_result _) => apply all_ops_of_result
  | |- all_ops _ (Ret _) => exact I
  | |- all_ops _ (Throw _) => exact I
  | |- all_ops _ (match ?x with _ => _ end) => destruct x
  end.

Arguments bind : simpl never.
Arguments catch_ : simpl never.
Arguments finally_ : simpl never.
Arguments call : simpl never.
Arguments exec : simpl never.
Arguments run : simpl never.
Arguments crash : simpl never.

#[export] Hint Rewrite @exec_call @exec_bind @exec_catch @exec_finally : bridge_rw.

(** ** Tactics of the logic

    [rg_step] applies the rule for the program at the head of the goal. *)
Ltac rg_step :=
  lazymatch goal with
  | |- rg _ _ (bind _ _) _ _ => apply rg_bind; [apply _|]
  | |- rg _ _ (catch_ _ _) _ _ => apply rg_catch; [apply _|]
  | |- rg _ _ (finally_ _ _) _ _ => apply rg_finally; [apply _|]
  | |- rg eq _ (Ret _) _ _ => apply seq_ret
  | |- rg eq _ (Throw _) _ _ => apply seq_throw
  | |- rg eq _ (call _) _ _ => unfold call; apply seq_call; intros ?f
  | |- rg eq _ (Call _ _) _ _ => apply seq_call; intros ?f
  end.
