(* ===== verification/Entities.v ===== *)
(** * The data model: entities, jobs, configuration

    One record per TypeORM entity of [src/nestjs-app/src], with the columns in the order of the
    class, the enumerations, the payloads of the BullMQ queues and the parts of
    [AppConfig] the services read.  Timestamps are milliseconds since the epoch. *)
From S2P Require Import Prelude JsLang.

Module TransferStatus.
Inductive t := PENDING | PROCESSING | SUCCESS | FAILED.

#[global] Instance eq_dec : EqDecision t.
Proof. solve_decision. Defined.

Definition to_string (s : t) : string :=
  match s with
  | PENDING => "PENDING"
  | PROCESSING => "PROCESSING"
  | SUCCESS => "SUCCESS"
  | FAILED => "FAILED"
  end.

(** SUCCESS and FAILED end a transfer; the others are in flight. *)
Definition terminal (s : t) : bool :=
  match s with SUCCESS | FAILED => true | _ => false end.
End TransferStatus.

Record FileTransfer := mkFileTransfer {
  ft_id : string;
  ft_idempotencyKey : string;
  ft_filename : string;
  ft_virtualPath : string;
  ft_sourcePath : string;
  ft_objectKey : option string;
  ft_bucket : string;
  ft_sizeBytes : string;
  ft_etag : option string;
  ft_checksumSha256 : option string;
  ft_encrypted : bool;
  ft_wrappedDek : option string;
  ft_status : TransferStatus.t;
  ft_attempts : Z;
  ft_errorLog : option string;
  ft_tenantId : string;
  ft_username : string;
  ft_protocol : option string;
  ft_sessionId : option string;
  ft_createdAt : Z;
  ft_updatedAt : Z;
}.

#[global] Instance FileTransfer_eq_dec : EqDecision FileTransfer.
Proof. solve_decision. Defined.

(** [CreatePendingInput] of the repository: what the webhook knows of a transfer. *)
Record CreatePendingInput := mkInput {
  in_idempotencyKey : string;
  in_tenantId : string;
  in_filename : string;
  in_virtualPath : string;
  in_sourcePath : string;
  in_bucket : string;
  in_sizeBytes : string;
  in_username : string;
  in_protocol : option string;
  in_sessionId : option string;
}.

(** ** Queue payloads *)
Record TransferJobData := mkTransferJob {
  tj_transferId : string;
  tj_carrier : list (string * string);
}.

Record DeadLetterJobData := mkDeadLetter {
  dl_transferId : string;
  dl_reason : string;
}.

#[global] Instance TransferJobData_eq_dec : EqDecision TransferJobData.
Proof. solve_decision. Defined.
#[global] Instance DeadLetterJobData_eq_dec : EqDecision DeadLetterJobData.
Proof. solve_decision. Defined.

Definition TRANSFER_JOB : string := "process-transfer".

(** A BullMQ job: its name and payload, [opts.attempts] when the queue it was added
    through sets one, and the number of attempts made so far. *)
Record Job := mkJob {
  job_name : string;
  job_data : TransferJobData;
  job_attempts : option Z;
  job_attemptsMade : Z;
}.

#[global] Instance Job_eq_dec : EqDecision Job.
Proof. solve_decision. Defined.

(** ** Outbox *)
Module OutboxStatus.
Inductive t := PENDING | PUBLISHED.
#[global] Instance eq_dec : EqDecision t.
Proof. solve_decision. Defined.
End OutboxStatus.

Record OutboxEvent := mkOutboxEvent {
  ob_id : string;
  ob_aggregateId : string;
  ob_type : string;
  ob_payload : TransferJobData;
  ob_status : OutboxStatus.t;
  ob_attempts : Z;
  ob_createdAt : Z;
  ob_publishedAt : option Z;
}.

#[global] Instance OutboxEvent_eq_dec : EqDecision OutboxEvent.
Proof. solve_decision. Defined.

(** ** Usage, subscriptions, users *)
Record TenantUsage := mkUsage {
  us_objectCount : Z;
  us_bytesStored : Z;
}.

#[global] Instance TenantUsage_eq_dec : EqDecision TenantUsage.
Proof. solve_decision. Defined.

Inductive EventType := transfer_completed | transfer_failed.

#[global] Instance EventType_eq_dec : EqDecision EventType.
Proof. solve_decision. Defined.

Definition event_name (t : EventType) : string :=
  match t with
  | transfer_completed => "transfer.completed"
  | transfer_failed => "transfer.failed"
  end.

Record EventSubscription := mkSubscription {
  es_id : string;
  es_tenantId : string;
  es_url : string;
  es_events : list string;
  es_secret : string;
  es_active : bool;
  es_createdAt : Z;
}.

#[global] Instance EventSubscription_eq_dec : EqDecision EventSubscription.
Proof. solve_decision. Defined.

Inductive Role := ADMIN | OPERATOR | VIEWER.

#[global] Instance Role_eq_dec : EqDecision Role.
Proof. solve_decision. Defined.

Definition role_name (r : Role) : string :=
  match r with
  | ADMIN => "admin"
  | OPERATOR => "operator"
  | VIEWER => "viewer"
  end.

(** A row of [users].  The column [roles] is a TypeORM [simple-array]: the text of
    the names joined by commas. *)
Record User := mkUser {
  u_id : string;
  u_username : string;
  u_passwordHash : string;
  u_tenantId : string;
  u_roles : string;
  u_createdAt : Z;
  u_updatedAt : Z;
}.

#[global] Instance User_eq_dec : EqDecision User.
Proof. solve_decision. Defined.

(** The authenticated principal ([AuthUser] of [auth/jwt.strategy.ts]). *)
Record AuthUser := mkAuthUser {
  au_userId : string;
  au_username : string;
  au_roles : list Role;
  au_tenantId : string;
}.

(** The payload of an outbound event: what [publishTransferEvent] puts under [data]. *)
Inductive event_data :=
  | CompletedData (bucket objectKey : string) (sizeBytes : Z) (encrypted : bool)
  | FailedData (reason : string).

Record DomainEvent := mkEvent {
  ev_type : EventType;
  ev_transferId : string;
  ev_tenantId : string;
  ev_data : event_data;
}.

Record WebhookDeliveryJob := mkDelivery {
  wd_subscriptionId : string;
  wd_url : string;
  wd_secret : string;
  wd_event : DomainEvent;
}.

(** ** Routing rules and the configuration the services read *)
Record RoutingRule := mkRule {
  rr_username : option string;
  rr_extension : option string;
  rr_pathPrefix : option string;
  rr_bucket : option string;
  rr_prefix : option string;
}.

Record TenantQuota := mkTenantQuota {
  tq_maxBytes : option Z;
  tq_maxObjects : option Z;
}.
