(* ===== verification/Database.v ===== *)
(** * PostgreSQL as the services use it

    The tables the migrations create, with the constraints the source relies on:
    the primary keys, the unique index on [idempotency_key], the column widths and
    the row-level security policy [tenant_isolation].  A statement is a [dbM]: it
    reads and changes the database or fails; a failed statement or transaction
    changes nothing.  [ORDER BY] is stable on the order in which the table
    yields its rows, which is the (arbitrary) order of the map. *)
From S2P Require Import Prelude JsLang Entities.

Record db := mkDb {
  d_transfers : gmap string FileTransfer;
  d_outbox : gmap string OutboxEvent;
  d_usage : gmap string TenantUsage;
  d_subs : gmap string EventSubscription;
  d_users : gmap string User;
  d_now : Z;                  (** [now()] *)
  d_uuid : nat → string;      (** the values [uuid_generate_v4()] yields *)
  d_uuid_pos : nat;
  d_tenant : option string;   (** [current_setting('app.current_tenant', true)] *)
  d_superuser : bool;         (** the session's role bypasses row-level security *)
}.

Definition set_transfers (x : gmap string FileTransfer) (d : db) : db :=
  mkDb x (d_outbox d) (d_usage d) (d_subs d) (d_users d) (d_now d)
       (d_uuid d) (d_uuid_pos d) (d_tenant d) (d_superuser d).
Definition set_outbox (x : gmap string OutboxEvent) (d : db) : db :=
  mkDb (d_transfers d) x (d_usage d) (d_subs d) (d_users d) (d_now d)
       (d_uuid d) (d_uuid_pos d) (d_tenant d) (d_superuser d).
Definition set_usage (x : gmap string TenantUsage) (d : db) : db :=
  mkDb (d_transfers d) (d_outbox d) x (d_subs d) (d_users d) (d_now d)
       (d_uuid d) (d_uuid_pos d) (d_tenant d) (d_superuser d).
Definition set_subs (x : gmap string EventSubscription) (d : db) : db :=
  mkDb (d_transfers d) (d_outbox d) (d_usage d) x (d_users d) (d_now d)
       (d_uuid d) (d_uuid_pos d) (d_tenant d) (d_superuser d).
Definition set_users (x : gmap string User) (d : db) : db :=
  mkDb (d_transfers d) (d_outbox d) (d_usage d) (d_subs d) x (d_now d)
       (d_uuid d) (d_uuid_pos d) (d_tenant d) (d_superuser d).
Definition set_now (x : Z) (d : db) : db :=
  mkDb (d_transfers d) (d_outbox d) (d_usage d) (d_subs d) (d_users d) x
       (d_uuid d) (d_uuid_pos d) (d_tenant d) (d_superuser d).
Definition set_uuid_pos (x : nat) (d : db) : db :=
  mkDb (d_transfers d) (d_outbox d) (d_usage d) (d_subs d) (d_users d) (d_now d)
       (d_uuid d) x (d_tenant d) (d_superuser d).
Definition set_tenant (x : option string) (d : db) : db :=
  mkDb (d_transfers d) (d_outbox d) (d_usage d) (d_subs d) (d_users d) (d_now d)
       (d_uuid d) (d_uuid_pos d) x (d_superuser d).

(** ** Statements *)
Definition dbM (A : Type) : Type := db → result A * db.

Definition db_ret {A} (a : A) : dbM A := λ d, (Ok a, d).
Definition db_throw {A} (e : exn) : dbM A := λ d, (Err e, d).
Definition db_bind {A B} (m : dbM A) (f : A → dbM B) : dbM B := λ d,
  match m d with
  | (Ok a, d') => f a d'
  | (Err e, d') => (Err e, d')
  end.

(** Commit on success, roll back on failure; a transaction-local setting ends
    with the transaction. *)
Definition transact {A} (m : dbM A) : dbM A := λ d,
  match m d with
  | (Ok a, d') => (Ok a, set_tenant (d_tenant d) d')
  | (Err e, _) => (Err e, d)
  end.

(** The errors of the server. *)
Definition query_failed (message : string) (sqlstate : string) : exn :=
  Infra (Infra_error "QueryFailedError" message (Some sqlstate) None).

Definition PG_UNIQUE_VIOLATION : string := "23505".
Definition unique_violation : exn :=
  query_failed "duplicate key value violates unique constraint" PG_UNIQUE_VIOLATION.
Definition string_truncation : exn :=
  query_failed "value too long for type character varying" "22001".
Definition invalid_byte_sequence : exn :=
  query_failed "invalid byte sequence for encoding UTF8: 0x00" "22021".
Definition out_of_range : exn := query_failed "integer out of range" "22003".
Definition rls_violation : exn :=
  query_failed "new row violates row-level security policy" "42501".

(** ** Column types *)
Definition varchar (n : nat) (s : string) : bool := (String.length s <=? n)%nat.
Definition varchar_null (n : nat) (o : option string) : bool :=
  match o with Some s => varchar n s | None => true end.
Definition int4 (z : Z) : bool := ((- 2 ^ 31 <=? z) && (z <? 2 ^ 31))%Z.
Definition int8 (z : Z) : bool := ((- 2 ^ 63 <=? z) && (z <? 2 ^ 63))%Z.

(** The text form of a [bigint] literal. *)
Fixpoint digits_value (acc : Z) (s : string) : option Z :=
  match s with
  | EmptyString => Some acc
  | String c s' =>
      let n := code c in
      if ((48 <=? n) && (n <=? 57))%nat
      then digits_value (10 * acc + Z.of_nat (n - 48)) s' else None
  end.

Definition bigint_text (s : string) : bool :=
  match s with
  | EmptyString => false
  | String "-"%char EmptyString => false
  | String "-"%char s' =>
      match digits_value 0 s' with Some z => int8 (- z) | None => false end
  | _ => match digits_value 0 s with Some z => int8 z | None => false end
  end.

(** No PostgreSQL text value holds the character U+0000. *)
Definition pg_text (s : string) : bool := no_char "000"%char s.
Definition pg_text_null (o : option string) : bool :=
  match o with Some s => pg_text s | None => true end.

(** The [file_transfers] columns. *)
Definition check_transfer (r : FileTransfer) : result unit :=
  if negb (pg_text (ft_idempotencyKey r) && pg_text (ft_filename r) && pg_text (ft_virtualPath r)
     && pg_text (ft_sourcePath r) && pg_text_null (ft_objectKey r) && pg_text (ft_bucket r)
     && pg_text_null (ft_etag r) && pg_text_null (ft_checksumSha256 r)
     && pg_text_null (ft_wrappedDek r) && pg_text_null (ft_errorLog r)
     && pg_text (ft_tenantId r) && pg_text (ft_username r) && pg_text_null (ft_protocol r)
     && pg_text_null (ft_sessionId r))
  then Err invalid_byte_sequence
  else if varchar 128 (ft_idempotencyKey r) && varchar 1024 (ft_filename r)
     && varchar 2048 (ft_virtualPath r) && varchar 2048 (ft_sourcePath r)
     && varchar_null 2048 (ft_objectKey r) && varchar 255 (ft_bucket r)
     && varchar_null 255 (ft_etag r) && varchar_null 64 (ft_checksumSha256 r)
     && varchar 255 (ft_username r) && varchar_null 32 (ft_protocol r)
     && varchar_null 255 (ft_sessionId r) && varchar 100 (ft_tenantId r)
  then if int4 (ft_attempts r) && bigint_text (ft_sizeBytes r) then Ok tt else Err out_of_range
  else Err string_truncation.

(** ** Row-level security

    The policy [tenant_isolation], the same expression for [USING] and for
    [WITH CHECK]. *)
Definition tenant_isolation (d : db) (r : FileTransfer) : bool :=
  d_superuser d ||
  match d_tenant d with
  | None => true
  | Some t => String.eqb t "" || String.eqb (ft_tenantId r) t
  end.

(** ** Queries on [file_transfers] *)
Definition visible_transfers (d : db) : list FileTransfer :=
  List.filter (tenant_isolation d) (map snd (map_to_list (d_transfers d))).

Definition select_transfers (where_ : FileTransfer → bool) (le : FileTransfer → FileTransfer → bool)
    (take_ : nat) (skip : nat) : dbM (list FileTransfer) := λ d,
  (Ok (take take_ (drop skip (isort le (List.filter where_ (visible_transfers d))))), d).

Definition count_transfers (where_ : FileTransfer → bool) : dbM nat := λ d,
  (Ok (length (List.filter where_ (visible_transfers d))), d).

(** [findOne({ where: { id } })] *)
Definition find_transfer (id : string) : dbM (option FileTransfer) := λ d,
  (Ok (r ← d_transfers d !! id; if tenant_isolation d r then Some r else None), d).

(** The row is stamped with [updated_at = now()] by every TypeORM update. *)
Definition touch (now : Z) (r : FileTransfer) : FileTransfer :=
  mkFileTransfer (ft_id r) (ft_idempotencyKey r) (ft_filename r) (ft_virtualPath r)
    (ft_sourcePath r) (ft_objectKey r) (ft_bucket r) (ft_sizeBytes r) (ft_etag r)
    (ft_checksumSha256 r) (ft_encrypted r) (ft_wrappedDek r) (ft_status r) (ft_attempts r)
    (ft_errorLog r) (ft_tenantId r) (ft_username r) (ft_protocol r) (ft_sessionId r)
    (ft_createdAt r) now.

(** [update(id, patch)]: no row, or a row the policy hides, is no error. *)
Definition update_transfer (id : string) (patch : FileTransfer → FileTransfer) : dbM unit := λ d,
  match d_transfers d !! id with
  | Some r =>
      if tenant_isolation d r then
        let r' := touch (d_now d) (patch r) in
        match check_transfer r' with
        | Err e => (Err e, d)
        | Ok _ => if tenant_isolation d r' then (Ok tt, set_transfers (<[id := r']> (d_transfers d)) d)
                  else (Err rls_violation, d)
        end
      else (Ok tt, d)
  | None => (Ok tt, d)
  end.

Definition key_taken (d : db) (k : string) : bool :=
  existsb (λ p, String.eqb (ft_idempotencyKey p.2) k) (map_to_list (d_transfers d)).

(** [INSERT]: the server draws the id, checks the columns, the policy, the primary
    key and the unique index. *)
Definition insert_transfer (mk : string → Z → FileTransfer) : dbM FileTransfer := λ d,
  let id := d_uuid d (d_uuid_pos d) in
  let d1 := set_uuid_pos (S (d_uuid_pos d)) d in
  let r := mk id (d_now d) in
  match check_transfer r with
  | Err e => (Err e, d)
  | Ok _ =>
      if negb (tenant_isolation d r) then (Err rls_violation, d)
      else if bool_decide (is_Some (d_transfers d !! id)) || key_taken d (ft_idempotencyKey r)
      then (Err unique_violation, d)
      else (Ok r, set_transfers (<[id := r]> (d_transfers d)) d1)
  end.

Definition delete_transfers (where_ : FileTransfer → bool) : dbM Z := λ d,
  let doomed r := tenant_isolation d r && where_ r in
  (Ok (Z.of_nat (length (List.filter doomed (map snd (map_to_list (d_transfers d)))))),
   set_transfers (filter (λ p, doomed p.2 = false) (d_transfers d)) d).

(** ** Queries on the other tables *)
Definition insert_outbox (mk : string → Z → OutboxEvent) : dbM OutboxEvent := λ d,
  let id := d_uuid d (d_uuid_pos d) in
  let d1 := set_uuid_pos (S (d_uuid_pos d)) d in
  let e := mk id (d_now d) in
  if negb (varchar 100 (ob_type e)) then (Err string_truncation, d)
  else if bool_decide (is_Some (d_outbox d !! id)) then (Err unique_violation, d)
  else (Ok e, set_outbox (<[id := e]> (d_outbox d)) d1).

Definition select_outbox (where_ : OutboxEvent → bool) (le : OutboxEvent → OutboxEvent → bool)
    (take_ : nat) : dbM (list OutboxEvent) := λ d,
  (Ok (take take_ (isort le (List.filter where_ (map snd (map_to_list (d_outbox d)))))), d).

Definition update_outbox (id : string) (patch : OutboxEvent → OutboxEvent) : dbM unit := λ d,
  match d_outbox d !! id with
  | Some e => let e' := patch e in
      if int4 (ob_attempts e') then (Ok tt, set_outbox (<[id := e']> (d_outbox d)) d)
      else (Err out_of_range, d)
  | None => (Ok tt, d)
  end.

Definition find_usage (tenant : string) : dbM (option TenantUsage) := λ d,
  (Ok (d_usage d !! tenant), d).
