(* ===== verification/World.v ===== *)
(** * The world the handlers act on

    Everything outside the handlers: the database, the BullMQ queues, the object
    store, the shared volume, the sockets, and the mutable fields of the process
    (the overlap flags of the scheduled tasks, the Prometheus metrics).  [eff] lists
    the operations a handler awaits; [world_handler] says what each does when it
    succeeds.  Failures, lost acknowledgements and crashes are added by the
    semantics of [Prog].

    Node's cryptographic primitives, the ETags an S3 server computes, the reply of
    clamd and the answers of remote HTTP servers are code that is not part of the
    repository: they are the fields of [Externals], and the theorems that need
    something of them take it as a hypothesis. *)
From S2P Require Import Prelude JsLang Entities Database Prog.

Class Externals := {
  md5_hex : bytes → string;
  sha256_hex : bytes → string;
  hmac_sha256_hex : string → string → string;   (** key, message *)
  single_etag : bytes → option string;          (** ETag header of a PutObject *)
  multipart_etag : Z → bytes → option string;   (** ETag of a multipart upload, by part size *)
  clamd_session : bytes → string;               (** clamd's answer to what was sent to it *)
  http_status : string → string → Z;            (** status a POST of a body to a URL yields *)
}.

(** ** The object store *)
Record s3_object := mkObject {
  o_body : bytes;
  o_contentType : option string;
  o_etag : option string;
}.

Abbreviation s3_store := (gmap string (gmap string s3_object)).

(** [HeadBucket] answers with the bare name [NotFound]; the others use the error
    codes of the S3 API. *)
Definition s3_error (name : string) (status : Z) : exn :=
  Infra (Infra_error name name None (Some status)).

(** ** The shared volume *)
Inductive fs_node :=
  | RegularFile (content : bytes)
  | Directory.

(** ** The process *)
Record proc := mkProc {
  p_relaying : bool;      (** [OutboxService.relaying] *)
  p_running : bool;       (** [RecoveryService.running] *)
  p_kafkaReady : bool;    (** [KafkaProducerService.ready] *)
  m_success : Z;          (** syncbridge_transfers_total with status SUCCESS *)
  m_failed : Z;           (** syncbridge_transfers_total with status FAILED *)
  m_bytes : Z;            (** syncbridge_transfer_bytes_total *)
  m_inFlight : Z;         (** syncbridge_transfers_in_flight *)
  m_observed : Z;         (** observations of syncbridge_transfer_duration_seconds *)
  m_deadLetter : Z;       (** syncbridge_dead_letter_total *)
  m_delivered : Z;        (** syncbridge_webhook_deliveries_total, delivered *)
  m_deliveryFailed : Z;   (** syncbridge_webhook_deliveries_total, failed *)
}.

Definition boot_proc : proc := mkProc false false false 0 0 0 0 0 0 0 0.

(** An outgoing HTTP request. *)
Record http_request := mkRequest {
  rq_url : string;
  rq_headers : list (string * string);
  rq_body : string;
}.

Record world := mkWorld {
  w_db : db;
  w_queue : list Job;                    (** jobs added to [file-transfers], oldest first *)
  w_dlq : list DeadLetterJobData;        (** jobs added to [file-transfers-dlq] *)
  w_deliveries : list WebhookDeliveryJob; (** jobs added to [webhook-delivery] *)
  w_s3 : s3_store;
  w_fs : gmap string fs_node;
  w_kafka : list (string * DomainEvent); (** records accepted by the broker *)
  w_sent : list http_request;            (** requests that reached their server *)
  w_random : nat → Byte.byte;            (** the bytes [randomBytes] yields *)
  w_random_pos : nat;
  w_proc : proc;
}.

Definition set_db (d : db) (w : world) : world :=
  mkWorld d (w_queue w) (w_dlq w) (w_deliveries w) (w_s3 w) (w_fs w) (w_kafka w) (w_sent w)
          (w_random w) (w_random_pos w) (w_proc w).
Definition set_queue (q : list Job) (w : world) : world :=
  mkWorld (w_db w) q (w_dlq w) (w_deliveries w) (w_s3 w) (w_fs w) (w_kafka w) (w_sent w)
          (w_random w) (w_random_pos w) (w_proc w).
Definition set_dlq (q : list DeadLetterJobData) (w : world) : world :=
  mkWorld (w_db w) (w_queue w) q (w_deliveries w) (w_s3 w) (w_fs w) (w_kafka w) (w_sent w)
          (w_random w) (w_random_pos w) (w_proc w).
Definition set_deliveries (q : list WebhookDeliveryJob) (w : world) : world :=
  mkWorld (w_db w) (w_queue w) (w_dlq w) q (w_s3 w) (w_fs w) (w_kafka w) (w_sent w)
          (w_random w) (w_random_pos w) (w_proc w).
Definition set_s3 (s : s3_store) (w : world) : world :=
  mkWorld (w_db w) (w_queue w) (w_dlq w) (w_deliveries w) s (w_fs w) (w_kafka w) (w_sent w)
          (w_random w) (w_random_pos w) (w_proc w).
Definition set_fs (s : gmap string fs_node) (w : world) : world :=
  mkWorld (w_db w) (w_queue w) (w_dlq w) (w_deliveries w) (w_s3 w) s (w_kafka w) (w_sent w)
          (w_random w) (w_random_pos w) (w_proc w).
Definition set_kafka (k : list (string * DomainEvent)) (w : world) : world :=
  mkWorld (w_db w) (w_queue w) (w_dlq w) (w_deliveries w) (w_s3 w) (w_fs w) k (w_sent w)
          (w_random w) (w_random_pos w) (w_proc w).
Definition set_sent (s : list http_request) (w : world) : world :=
  mkWorld (w_db w) (w_queue w) (w_dlq w) (w_deliveries w) (w_s3 w) (w_fs w) (w_kafka w) s
          (w_random w) (w_random_pos w) (w_proc w).
Definition set_random_pos (n : nat) (w : world) : world :=
  mkWorld (w_db w) (w_queue w) (w_dlq w) (w_deliveries w) (w_s3 w) (w_fs w) (w_kafka w) (w_sent w)
          (w_random w) n (w_proc w).
Definition set_proc (p : proc) (w : world) : world :=
  mkWorld (w_db w) (w_queue w) (w_dlq w) (w_deliveries w) (w_s3 w) (w_fs w) (w_kafka w) (w_sent w)
          (w_random w) (w_random_pos w) p.

(** ** Operations *)
Inductive eff : Type → Type :=
  | Db {A} (m : dbM A) : eff A                     (** one statement or one transaction *)
  | QueueAdd (j : Job) : eff unit
  | DlqAdd (j : DeadLetterJobData) : eff unit
  | DeliveryAdd (j : WebhookDeliveryJob) : eff unit
  | Stat (path : string) : eff (option (bool * Z)) (** isFile, size; no such path: None *)
  | ReadFile (path : string) : eff bytes
  | HeadBucket (bucket : string) : eff unit
  | CreateBucket (bucket : string) : eff unit
  | PutObject (bucket key : string) (body : bytes) (contentLength : Z)
      (contentType : option string) : eff (option string)
  | MultipartUpload (partSize : Z) (bucket key : string) (body : bytes)
      (contentType : option string) : eff (option string)
  | HeadObject (bucket key : string) : eff unit
  | GetObject (bucket key : string) : eff s3_object
  | ClamdSession (host : string) (port : Z) (sent : bytes) : eff string
  | KafkaConnect : eff unit
  | KafkaDisconnect : eff unit
  | KafkaSend (key : string) (e : DomainEvent) : eff unit
  | Fetch (r : http_request) : eff Z
  | RedisPing : eff unit
  | RandomBytes (n : nat) : eff bytes              (** in-process *)
  | Now : eff Z                                    (** in-process *)
  | Proc {A} (f : proc → A * proc) : eff A.        (** in-process *)

Definition in_process {X} (op : eff X) : bool :=
  match op with RandomBytes _ | Now | Proc _ => true | _ => false end.

Definition lookup_object (s : s3_store) (bucket key : string) : option s3_object :=
  objs ← s !! bucket; objs !! key.

Section handler.
Context `{!Externals}.

Definition put_object (w : world) (bucket key : string) (o : s3_object) : result (option string) * world :=
  match w_s3 w !! bucket with
  | None => (Err (s3_error "NoSuchBucket" 404), w)
  | Some objs => (Ok (o_etag o), set_s3 (<[bucket := <[key := o]> objs]> (w_s3 w)) w)
  end.

Definition world_handle {X} (op : eff X) : world → result X * world :=
  match op in eff X return world → result X * world with
  | Db m => λ w,
      match transact m (w_db w) with (r, d) => (r, set_db d w) end
  | QueueAdd j => λ w, (Ok tt, set_queue (w_queue w ++ [j]) w)
  | DlqAdd j => λ w, (Ok tt, set_dlq (w_dlq w ++ [j]) w)
  | DeliveryAdd j => λ w, (Ok tt, set_deliveries (w_deliveries w ++ [j]) w)
  | Stat path => λ w,
      (Ok (match w_fs w !! path with
           | Some (RegularFile c) => Some (true, Z.of_nat (length c))
           | Some Directory => Some (false, 4096%Z)
           | None => None
           end), w)
  | ReadFile path => λ w,
      match w_fs w !! path with
      | Some (RegularFile c) => (Ok c, w)
      | Some Directory => (Err (Infra (Infra_error "Error" "EISDIR: illegal operation on a directory, read" None None)), w)
      | None => (Err (Infra (Infra_error "Error" "ENOENT: no such file or directory" None None)), w)
      end
  | HeadBucket b => λ w,
      match w_s3 w !! b with
      | Some _ => (Ok tt, w)
      | None => (Err (s3_error "NotFound" 404), w)
      end
  | CreateBucket b => λ w,
      match w_s3 w !! b with
      | Some _ => (Err (s3_error "BucketAlreadyOwnedByYou" 409), w)
      | None => (Ok tt, set_s3 (<[b := ∅]> (w_s3 w)) w)
      end
  | PutObject b k body len ct => λ w,
      if (Z.of_nat (length body) =? len)%Z
      then put_object w b k (mkObject body ct (single_etag body))
      else (Err (s3_error "IncompleteBody" 400), w)
  | MultipartUpload part b k body ct => λ w,
      put_object w b k (mkObject body ct (multipart_etag part body))
  | HeadObject b k => λ w,
      match lookup_object (w_s3 w) b k with
      | Some _ => (Ok tt, w)
      | None => (Err (s3_error "NotFound" 404), w)
      end
  | GetObject b k => λ w,
      match lookup_object (w_s3 w) b k with
      | Some o => (Ok o, w)
      | None => (Err (s3_error "NoSuchKey" 404), w)
      end
  | ClamdSession _ _ sent => λ w, (Ok (clamd_session sent), w)
  | KafkaConnect => λ w, (Ok tt, w)
  | KafkaDisconnect => λ w, (Ok tt, w)
  | KafkaSend k e => λ w, (Ok tt, set_kafka (w_kafka w ++ [(k, e)]) w)
  | Fetch r => λ w, (Ok (http_status (rq_url r) (rq_body r)), set_sent (w_sent w ++ [r]) w)
  | RedisPing => λ w, (Ok tt, w)
  | RandomBytes n => λ w,
      (Ok (map (w_random w) (seq (w_random_pos w) n)), set_random_pos (w_random_pos w + n) w)
  | Now => λ w, (Ok (d_now (w_db w)), w)
  | Proc f => λ w, let '(a, p) := f (w_proc w) in (Ok a, set_proc p w)
  end.

#[global] Instance world_handler : Handler eff world := {
  handle := @world_handle;
  fallible X op := negb (in_process op);
}.
End handler.

(** ** Programs over the world *)
Abbreviation P := (prog eff).

Definition sql {A} (m : dbM A) : P A := call (Db m).
Definition in_proc {A} (f : proc → A * proc) : P A := call (Proc f).
Definition set_in_proc (f : proc → proc) : P unit := call (Proc (λ p, (tt, f p))).

(** ** Metrics ([metrics/metrics.service.ts]) *)
Definition incInFlight (p : proc) : proc :=
  mkProc (p_relaying p) (p_running p) (p_kafkaReady p) (m_success p) (m_failed p) (m_bytes p)
    (m_inFlight p + 1) (m_observed p) (m_deadLetter p) (m_delivered p) (m_deliveryFailed p).
Definition decInFlight (p : proc) : proc :=
  mkProc (p_relaying p) (p_running p) (p_kafkaReady p) (m_success p) (m_failed p) (m_bytes p)
    (m_inFlight p - 1) (m_observed p) (m_deadLetter p) (m_delivered p) (m_deliveryFailed p).
Definition endTimer (p : proc) : proc :=
  mkProc (p_relaying p) (p_running p) (p_kafkaReady p) (m_success p) (m_failed p) (m_bytes p)
    (m_inFlight p) (m_observed p + 1) (m_deadLetter p) (m_delivered p) (m_deliveryFailed p).
Definition recordSuccess (bytes_ : Z) (p : proc) : proc :=
  mkProc (p_relaying p) (p_running p) (p_kafkaReady p) (m_success p + 1) (m_failed p)
    (m_bytes p + bytes_) (m_inFlight p) (m_observed p) (m_deadLetter p) (m_delivered p)
    (m_deliveryFailed p).
Definition recordFailure (p : proc) : proc :=
  mkProc (p_relaying p) (p_running p) (p_kafkaReady p) (m_success p) (m_failed p + 1) (m_bytes p)
    (m_inFlight p) (m_observed p) (m_deadLetter p) (m_delivered p) (m_deliveryFailed p).
Definition recordDeadLetter (p : proc) : proc :=
  mkProc (p_relaying p) (p_running p) (p_kafkaReady p) (m_success p) (m_failed p) (m_bytes p)
    (m_inFlight p) (m_observed p) (m_deadLetter p + 1) (m_delivered p) (m_deliveryFailed p).
Definition recordWebhookDelivery (delivered : bool) (p : proc) : proc :=
  mkProc (p_relaying p) (p_running p) (p_kafkaReady p) (m_success p) (m_failed p) (m_bytes p)
    (m_inFlight p) (m_observed p) (m_deadLetter p)
    (if delivered then m_delivered p + 1 else m_delivered p)%Z
    (if delivered then m_deliveryFailed p else m_deliveryFailed p + 1)%Z.
Definition set_relaying (b : bool) (p : proc) : proc :=
  mkProc b (p_running p) (p_kafkaReady p) (m_success p) (m_failed p) (m_bytes p)
    (m_inFlight p) (m_observed p) (m_deadLetter p) (m_delivered p) (m_deliveryFailed p).
Definition set_running (b : bool) (p : proc) : proc :=
  mkProc (p_relaying p) b (p_kafkaReady p) (m_success p) (m_failed p) (m_bytes p)
    (m_inFlight p) (m_observed p) (m_deadLetter p) (m_delivered p) (m_deliveryFailed p).
Definition set_kafkaReady (b : bool) (p : proc) : proc :=
  mkProc (p_relaying p) (p_running p) b (m_success p) (m_failed p) (m_bytes p)
    (m_inFlight p) (m_observed p) (m_deadLetter p) (m_delivered p) (m_deliveryFailed p).

(** Time passes. *)
Definition set_clock (now : Z) (w : world) : world := set_db (set_now now (w_db w)) w.

(** ** A concrete environment

    Used by the examples that evaluate the definitions: every external function is
    replaced by a simple computable one, the stores are empty. *)
Module Demo.
Definition byte_text (b : Byte.byte) : string := pretty (Byte.to_N b).
Definition text_of (b : bytes) : string := join "." (map byte_text b).

#[export] Instance externals : Externals := {
  md5_hex b := "md5:" +:+ text_of b;
  sha256_hex b := "sha:" +:+ pretty (length b) +:+ ":" +:+ text_of (take 16 b);
  hmac_sha256_hex k m := "hmac:" +:+ k +:+ ":" +:+ m;
  single_etag b := Some ("md5:" +:+ text_of b);
  multipart_etag _ b := Some ("md5:" +:+ text_of b +:+ "-2");
  clamd_session _ := "stream: OK";
  http_status _ _ := 200%Z;
}.

Definition empty_db : db :=
  mkDb ∅ ∅ ∅ ∅ ∅ 1000 (λ n, "uuid-" +:+ pretty n) 0 None false.

Definition empty_world : world :=
  mkWorld empty_db [] [] [] ∅ ∅ [] [] (λ n, if Nat.even n then Byte.x01 else Byte.x2a) 0 boot_proc.
End Demo.
