(* ===== verification/Repository.v ===== *)
(** * The transfer repository ([ingestion/file-transfer.repository.ts])

    The data-access operations on [file_transfers] as programs, the well-formedness
    of the table ([wf_transfers]: rows are stored under their id, no two share an
    idempotency key, every row fits its columns) and the lemmas that each
    statement preserves it. *)
From S2P Require Import Prelude JsLang Entities Database Prog World.

(** ** Row updates *)
Definition upd_lifecycle (st : TransferStatus.t) (attempts : Z) (errorLog : option string)
    (r : FileTransfer) : FileTransfer :=
  mkFileTransfer (ft_id r) (ft_idempotencyKey r) (ft_filename r) (ft_virtualPath r)
    (ft_sourcePath r) (ft_objectKey r) (ft_bucket r) (ft_sizeBytes r) (ft_etag r)
    (ft_checksumSha256 r) (ft_encrypted r) (ft_wrappedDek r) st attempts
    errorLog (ft_tenantId r) (ft_username r) (ft_protocol r) (ft_sessionId r)
    (ft_createdAt r) (ft_updatedAt r).

Definition upd_stored (bucket objectKey : string) (etag checksum : option string)
    (encrypted : bool) (wrappedDek : option string) (r : FileTransfer) : FileTransfer :=
  mkFileTransfer (ft_id r) (ft_idempotencyKey r) (ft_filename r) (ft_virtualPath r)
    (ft_sourcePath r) (Some objectKey) bucket (ft_sizeBytes r) etag
    checksum encrypted wrappedDek TransferStatus.SUCCESS (ft_attempts r)
    None (ft_tenantId r) (ft_username r) (ft_protocol r) (ft_sessionId r)
    (ft_createdAt r) (ft_updatedAt r).

(** [{ ...input, status: PENDING, attempts: 0 }], the nullable columns null. *)
Definition new_transfer (input : CreatePendingInput) (id : string) (now : Z) : FileTransfer :=
  mkFileTransfer id (in_idempotencyKey input) (in_filename input) (in_virtualPath input)
    (in_sourcePath input) None (in_bucket input) (in_sizeBytes input) None
    None false None TransferStatus.PENDING 0
    None (in_tenantId input) (in_username input) (in_protocol input) (in_sessionId input)
    now now.

Definition is_unique_violation (e : exn) : bool :=
  match e with
  | Infra i => String.eqb (ie_name i) "QueryFailedError"
               && bool_decide (ie_code i = Some PG_UNIQUE_VIOLATION)
  | _ => false
  end.

(** ** Operations *)
Definition createPendingIfAbsent (input : CreatePendingInput) : P (option FileTransfer) :=
  catch_ (r <- sql (insert_transfer (new_transfer input)) ;; Ret (Some r))
         (λ e, if is_unique_violation e then Ret None else Throw e).

Definition findById (id : string) : P (option FileTransfer) := sql (find_transfer id).

Definition markProcessing (id : string) : P unit :=
  sql (update_transfer id (λ r, upd_lifecycle TransferStatus.PROCESSING (ft_attempts r + 1) None r)).

Definition markSuccess (id bucket objectKey : string) (etag checksumSha256 : option string)
    (encrypted : bool) (wrappedDek : option string) : P unit :=
  sql (update_transfer id (upd_stored bucket objectKey etag checksumSha256 encrypted wrappedDek)).

Definition markFailed (id errorLog : string) : P unit :=
  sql (update_transfer id (λ r, upd_lifecycle TransferStatus.FAILED (ft_attempts r) (Some errorLog) r)).

(** [{ status: PENDING, attempts: 0, errorLog: null }] *)
Definition reset_patch (r : FileTransfer) : FileTransfer :=
  upd_lifecycle TransferStatus.PENDING 0 None r.

Definition by_createdAt (a b : FileTransfer) : bool := (ft_createdAt a <=? ft_createdAt b)%Z.
Definition by_createdAt_desc (a b : FileTransfer) : bool := (- ft_createdAt a <=? - ft_createdAt b)%Z.
Definition by_updatedAt (a b : FileTransfer) : bool := (ft_updatedAt a <=? ft_updatedAt b)%Z.

(** [{ status, ...(before ? { updatedAt: LessThan(before) } : {}) }] *)
Definition retry_where (status : TransferStatus.t) (before : option Z) (r : FileTransfer) : bool :=
  bool_decide (ft_status r = status)
  && match before with Some b => (ft_updatedAt r <? b)%Z | None => true end.

Definition findForRetryBatch (status : TransferStatus.t) (before : option Z) (limit : Z)
    : P (list FileTransfer) :=
  sql (select_transfers (retry_where status before) by_createdAt (Z.to_nat limit) 0).

Definition resetForRetry (id : string) : P unit := sql (update_transfer id reset_patch).

Definition status_where (status : option TransferStatus.t) (r : FileTransfer) : bool :=
  match status with Some s => bool_decide (ft_status r = s) | None => true end.

(** [findAndCount]: the page and the size of the whole answer. *)
Definition list_statement (status : option TransferStatus.t) (limit offset : Z)
    : dbM (list FileTransfer * Z) :=
  db_bind (select_transfers (status_where status) by_createdAt_desc (Z.to_nat limit) (Z.to_nat offset))
    (λ items, db_bind (count_transfers (status_where status))
      (λ total, db_ret (items, Z.of_nat total))).

Definition list_transfers (status : option TransferStatus.t) (limit offset : Z)
    : P (list FileTransfer * Z) := sql (list_statement status limit offset).

Definition purge_where (cutoff : Z) (r : FileTransfer) : bool :=
  (bool_decide (ft_status r = TransferStatus.SUCCESS)
   || bool_decide (ft_status r = TransferStatus.FAILED))
  && (ft_updatedAt r <? cutoff)%Z.

Definition deleteTerminalOlderThan (cutoff : Z) : P Z := sql (delete_transfers (purge_where cutoff)).

Definition stuck_where (staleBefore : Z) (r : FileTransfer) : bool :=
  (bool_decide (ft_status r = TransferStatus.PENDING)
   || bool_decide (ft_status r = TransferStatus.PROCESSING))
  && (ft_updatedAt r <? staleBefore)%Z.

Definition findStuck (staleBefore limit : Z) : P (list FileTransfer) :=
  sql (select_transfers (stuck_where staleBefore) by_updatedAt (Z.to_nat limit) 0).

(** ** Well-formedness of the table *)
Record wf_transfers (m : gmap string FileTransfer) : Prop := {
  wf_ids : ∀ id r, m !! id = Some r → ft_id r = id;
  wf_keys : ∀ i j r s, m !! i = Some r → m !! j = Some s →
    ft_idempotencyKey r = ft_idempotencyKey s → i = j;
  wf_checks : ∀ id r, m !! id = Some r → check_transfer r = Ok tt;
}.

(** A patch that keeps what identifies a row. *)
Definition keeps_identity (patch : FileTransfer → FileTransfer) : Prop :=
  ∀ r, ft_id (patch r) = ft_id r ∧ ft_idempotencyKey (patch r) = ft_idempotencyKey r
       ∧ ft_tenantId (patch r) = ft_tenantId r.

Lemma upd_lifecycle_identity st n e : keeps_identity (upd_lifecycle st n e).
Proof. by intros r. Qed.
Lemma upd_attempts_identity st (f : FileTransfer → Z) e :
  keeps_identity (λ r, upd_lifecycle st (f r) e r).
Proof. by intros r. Qed.
Lemma upd_stored_identity b k t c e d : keeps_identity (upd_stored b k t c e d).
Proof. by intros r. Qed.
Lemma reset_patch_identity : keeps_identity reset_patch.
Proof. by intros r. Qed.
#[export] Hint Resolve upd_lifecycle_identity upd_attempts_identity upd_stored_identity
  reset_patch_identity : bridge.

Lemma wf_insert m id r r' :
  wf_transfers m → m !! id = Some r →
  ft_id r' = ft_id r → ft_idempotencyKey r' = ft_idempotencyKey r →
  check_transfer r' = Ok tt → wf_transfers (<[id := r']> m).
Proof.
  intros [Hid Hkey Hchk] Hr Hi Hk Hc. split.
  - intros j s. rewrite lookup_insert. case_decide; intros; simplify_eq; [|by eauto].
    rewrite Hi. eauto.
  - intros i j s t. rewrite !lookup_insert.
    repeat case_decide; intros; simplify_eq; eauto; rewrite ?Hk in *; try (symmetry; by eauto).
  - intros j s. rewrite lookup_insert. case_decide; intros; simplify_eq; eauto.
Qed.

Lemma wf_insert_fresh m id r :
  wf_transfers m → m !! id = None → ft_id r = id → check_transfer r = Ok tt →
  (∀ j s, m !! j = Some s → ft_idempotencyKey s ≠ ft_idempotencyKey r) →
  wf_transfers (<[id := r]> m).
Proof.
  intros [Hid Hkey Hchk] Hn Hi Hc Hu. split.
  - intros j s. rewrite lookup_insert. case_decide; intros; simplify_eq; eauto.
  - intros i j s t. rewrite !lookup_insert.
    repeat case_decide; intros; simplify_eq; eauto; exfalso; naive_solver.
  - intros j s. rewrite lookup_insert. case_decide; intros; simplify_eq; eauto.
Qed.

Lemma wf_subset m m' : wf_transfers m → m' ⊆ m → wf_transfers m'.
Proof.
  intros [Hid Hkey Hchk] Hs. pose proof (λ i x, lookup_weaken m' m i x) as Hw.
  split; intros; eauto.
Qed.

Lemma key_taken_spec d k :
  key_taken d k = false ↔ (∀ j s, d_transfers d !! j = Some s → ft_idempotencyKey s ≠ k).
Proof.
  unfold key_taken. rewrite <- not_true_iff_false, existsb_exists. split.
  - intros H j s Hj Hk. apply H. exists (j, s). split.
    + by apply list_elem_of_In, elem_of_map_to_list.
    + simpl. rewrite Hk. apply String.eqb_refl.
  - intros H ([j s] & Hin & Hk%String.eqb_eq). simpl in *.
    apply list_elem_of_In, elem_of_map_to_list in Hin. by eapply H.
Qed.

(** ** What the statements do

    [update_transfer] either fails and changes nothing, or finds no visible row, or
    replaces the visible row by its patched and stamped version. *)
Lemma update_transfer_cases id patch d :
  (∃ e, update_transfer id patch d = (Err e, d)) ∨
  (update_transfer id patch d = (Ok tt, d) ∧
     (∀ r, d_transfers d !! id = Some r → tenant_isolation d r = false)) ∨
  (∃ r, d_transfers d !! id = Some r ∧ tenant_isolation d r = true ∧
     check_transfer (touch (d_now d) (patch r)) = Ok tt ∧
     update_transfer id patch d =
       (Ok tt, set_transfers (<[id := touch (d_now d) (patch r)]> (d_transfers d)) d)).
Proof.
  unfold update_transfer. destruct (d_transfers d !! id) as [r|] eqn:Hr; [|naive_solver].
  destruct (tenant_isolation d r) eqn:Hv; [|naive_solver].
  destruct (check_transfer (touch (d_now d) (patch r))) as [[]|e] eqn:Hc; [|naive_solver].
  destruct (tenant_isolation d (touch (d_now d) (patch r))); naive_solver.
Qed.

Lemma update_transfer_wf id patch d :
  keeps_identity patch → wf_transfers (d_transfers d) →
  wf_transfers (d_transfers (update_transfer id patch d).2).
Proof.
  intros Hp Hwf.
  destruct (update_transfer_cases id patch d) as [[e ->]|[[-> _]|(r & Hr & Hv & Hc & ->)]]; [done..|].
  simpl. destruct (Hp r) as (Hi & Hk & _). by eapply wf_insert.
Qed.

(** [insert_transfer] fails and changes nothing, or adds one row under a fresh id and
    a fresh idempotency key. *)
Lemma insert_transfer_cases mk d :
  (∃ e, insert_transfer mk d = (Err e, d)) ∨
  (let id := d_uuid d (d_uuid_pos d) in
   let r := mk id (d_now d) in
   insert_transfer mk d =
     (Ok r, set_transfers (<[id := r]> (d_transfers d)) (set_uuid_pos (S (d_uuid_pos d)) d)) ∧
   d_transfers d !! id = None ∧ key_taken d (ft_idempotencyKey r) = false ∧
   check_transfer r = Ok tt).
Proof.
  unfold insert_transfer. set (id := d_uuid d (d_uuid_pos d)). set (r := mk id (d_now d)).
  destruct (check_transfer r) as [[]|e]; [|naive_solver].
  destruct (tenant_isolation d r); simpl; [|naive_solver].
  destruct (d_transfers d !! id) as [s|] eqn:Hs; simpl; [naive_solver|].
  destruct (key_taken d (ft_idempotencyKey r)); naive_solver.
Qed.

Lemma insert_transfer_wf mk d :
  (∀ id now, ft_id (mk id now) = id) → wf_transfers (d_transfers d) →
  wf_transfers (d_transfers (insert_transfer mk d).2).
Proof.
  intros Hmk Hwf.
  destruct (insert_transfer_cases mk d) as [[e ->]|(-> & Hn & Hk & Hc)]; [done|]. simpl.
  apply wf_insert_fresh; auto. by apply key_taken_spec.
Qed.

Lemma delete_transfers_wf p d :
  wf_transfers (d_transfers d) → wf_transfers (d_transfers (delete_transfers p d).2).
Proof. intros H. eapply wf_subset; [exact H|]. simpl. apply map_filter_subseteq. Qed.

Lemma transact_transfers {A} (m : dbM A) d :
  (transact m d).2 = d ∨ d_transfers (transact m d).2 = d_transfers (m d).2.
Proof. unfold transact. destruct (m d) as [[a|e] d']; auto. Qed.

Lemma transact_wf {A} (m : dbM A) d :
  (wf_transfers (d_transfers d) → wf_transfers (d_transfers (m d).2)) →
  wf_transfers (d_transfers d) → wf_transfers (d_transfers (transact m d).2).
Proof. intros Hm Hwf. destruct (transact_transfers m d) as [->| ->]; auto. Qed.

Lemma elem_of_visible d r :
  r ∈ visible_transfers d ↔ (∃ id, d_transfers d !! id = Some r) ∧ tenant_isolation d r = true.
Proof.
  unfold visible_transfers. rewrite list_elem_of_In, filter_In, <- list_elem_of_In.
  rewrite list_elem_of_fmap. split.
  - intros [([id s] & -> & Hin%elem_of_map_to_list) Hv]. eauto.
  - intros [[id Hid] Hv]. split; [|done]. exists (id, r). split; [done|].
    by apply elem_of_map_to_list.
Qed.

(** Every row a [find] returns is visible and satisfies its condition. *)
Lemma select_transfers_elem p le n k d r :
  match (select_transfers p le n k d).1 with
  | Ok l => r ∈ l → (∃ id, d_transfers d !! id = Some r) ∧ tenant_isolation d r = true ∧ p r = true
  | Err _ => False
  end.
Proof.
  simpl. intros Hr%subseteq_take%subseteq_drop.
  rewrite elem_of_isort, list_elem_of_In, filter_In, <- list_elem_of_In, elem_of_visible in Hr.
  tauto.
Qed.
