(* ===== verification/Outbox.v ===== *)
(** * The transactional outbox ([outbox/outbox.service.ts])

    [createTransferWithOutbox] writes the transfer and the intent to enqueue it in one
    transaction; [relay] publishes committed intents to the queue.  The theorems: the
    two rows appear together or not at all; whatever fails and wherever the
    process dies, no event is marked PUBLISHED whose job was not added to the queue
    ([published_ok]) and no transfer loses its event ([intent_ok]); a relay pass
    without failures publishes the oldest [RELAY_BATCH] events in order. *)
From S2P Require Import Prelude JsLang Entities Database Prog World Repository.

Definition RELAY_BATCH : nat := 100.

(** [outbox.module.ts] registers [file-transfers] without [defaultJobOptions]: the
    jobs this module adds carry no [attempts]. *)
Definition outbox_queue_attempts : option Z := None.

Definition new_event (saved : FileTransfer) (carrier : list (string * string))
    (id : string) (now : Z) : OutboxEvent :=
  mkOutboxEvent id (ft_id saved) TRANSFER_JOB (mkTransferJob (ft_id saved) carrier)
    OutboxStatus.PENDING 0 now None.

Definition create_statement (input : CreatePendingInput) (carrier : list (string * string))
    : dbM FileTransfer :=
  db_bind (insert_transfer (new_transfer input)) (λ saved,
  db_bind (insert_outbox (new_event saved carrier)) (λ _,
  db_ret saved)).

Definition createTransferWithOutbox (input : CreatePendingInput)
    (carrier : list (string * string)) : P (option FileTransfer) :=
  catch_ (r <- sql (create_statement input carrier) ;; Ret (Some r))
         (λ e, if is_unique_violation e then Ret None else Throw e).

Definition is_pending (e : OutboxEvent) : bool := bool_decide (ob_status e = OutboxStatus.PENDING).
Definition outbox_by_createdAt (a b : OutboxEvent) : bool := (ob_createdAt a <=? ob_createdAt b)%Z.

Definition publish_patch (now : Z) (e : OutboxEvent) : OutboxEvent :=
  mkOutboxEvent (ob_id e) (ob_aggregateId e) (ob_type e) (ob_payload e)
    OutboxStatus.PUBLISHED (ob_attempts e + 1) (ob_createdAt e) (Some now).

Definition event_job (e : OutboxEvent) : Job :=
  mkJob (ob_type e) (ob_payload e) outbox_queue_attempts 0.

Definition relay_event (evt : OutboxEvent) : P unit :=
  call (QueueAdd (event_job evt)) ;;;
  now <- call Now ;;
  sql (update_outbox (ob_id evt) (publish_patch now)).

Definition relay : P unit :=
  busy <- in_proc (λ p, (p_relaying p, set_relaying true p)) ;;
  if (busy : bool) then Ret tt
  else
    finally_
      (catch_ (pending <- sql (select_outbox is_pending outbox_by_createdAt RELAY_BATCH) ;;
               for_each pending relay_event)
              (λ _, Ret tt))
      (set_in_proc (set_relaying false)).

(** ** Invariants

    Rows of the outbox sit under their id, and a PENDING one was never published. *)
Definition wf_outbox (o : gmap string OutboxEvent) : Prop :=
  ∀ id e, o !! id = Some e →
    ob_id e = id ∧ (ob_status e = OutboxStatus.PENDING → ob_attempts e = 0%Z).

(** Every transfer has an event that names it... *)
Definition intent_ok (d : db) : Prop :=
  ∀ id r, d_transfers d !! id = Some r →
    ∃ eid e, d_outbox d !! eid = Some e ∧ tj_transferId (ob_payload e) = id.

(** ...and a PUBLISHED event has a job in the queue. *)
Definition published_ok (w : world) : Prop :=
  ∀ eid e, d_outbox (w_db w) !! eid = Some e → ob_status e = OutboxStatus.PUBLISHED →
    ∃ j, j ∈ w_queue w ∧ job_data j = ob_payload e.

(** Together: a transfer whose job was never added still has a PENDING event. *)
Definition outbox_inv (w : world) : Prop :=
  wf_outbox (d_outbox (w_db w)) ∧ intent_ok (w_db w) ∧ published_ok w.

Lemma outbox_inv_not_lost w id r :
  outbox_inv w → d_transfers (w_db w) !! id = Some r →
  (∃ j, j ∈ w_queue w ∧ tj_transferId (job_data j) = id) ∨
  (∃ eid e, d_outbox (w_db w) !! eid = Some e ∧ ob_status e = OutboxStatus.PENDING ∧
            tj_transferId (ob_payload e) = id).
Proof.
  intros (_ & Hint & Hpub) Hr. destruct (Hint _ _ Hr) as (eid & e & He & Hid).
  destruct (ob_status e) eqn:Hs; [right; eauto|].
  left. destruct (Hpub _ _ He Hs) as (j & Hj & Hd). exists j. by rewrite Hd.
Qed.

(** ** [createTransferWithOutbox] *)
Lemma insert_outbox_cases mk d :
  (∃ e, insert_outbox mk d = (Err e, d)) ∨
  (let id := d_uuid d (d_uuid_pos d) in
   insert_outbox mk d =
     (Ok (mk id (d_now d)), set_outbox (<[id := mk id (d_now d)]> (d_outbox d))
                               (set_uuid_pos (S (d_uuid_pos d)) d)) ∧
   d_outbox d !! id = None).
Proof.
  unfold insert_outbox. destruct (varchar 100 _); simpl; [|naive_solver].
  destruct (d_outbox d !! d_uuid d (d_uuid_pos d)) eqn:H; simpl; naive_solver.
Qed.

(** What one execution of the transaction does to the database: nothing, or exactly
    the two new rows. *)
Definition created (input : CreatePendingInput) (carrier : list (string * string))
    (d d' : db) (r : FileTransfer) : Prop :=
  ∃ id eid,
    r = new_transfer input id (d_now d) ∧
    d_transfers d !! id = None ∧ d_outbox d !! eid = None ∧
    d_transfers d' = <[id := r]> (d_transfers d) ∧
    d_outbox d' = <[eid := new_event r carrier eid (d_now d)]> (d_outbox d) ∧
    key_taken d (in_idempotencyKey input) = false ∧
    check_transfer r = Ok tt ∧ d_usage d' = d_usage d ∧ d_subs d' = d_subs d.

Lemma create_statement_cases input carrier d :
  (∃ e, transact (create_statement input carrier) d = (Err e, d)) ∨
  (∃ r d', transact (create_statement input carrier) d = (Ok r, d') ∧
           created input carrier d d' r).
Proof.
  unfold transact, create_statement, db_bind.
  destruct (insert_transfer_cases (new_transfer input) d) as [[e ->]|(-> & Hn & Hk & Hc)];
    [naive_solver|].
  set (r := new_transfer input _ _).
  destruct (insert_outbox_cases (new_event r carrier)
    (set_transfers (<[d_uuid d (d_uuid_pos d) := r]> (d_transfers d))
      (set_uuid_pos (S (d_uuid_pos d)) d))) as [[e ->]|[-> Ho]]; [naive_solver|].
  right. eexists r, _. split; [reflexivity|]. simpl in *.
  eexists (d_uuid d (d_uuid_pos d)), (d_uuid d (S (d_uuid_pos d))). naive_solver.
Qed.

Lemma created_intent input carrier d d' r :
  created input carrier d d' r → intent_ok d → intent_ok d'.
Proof.
  intros (id & eid & -> & Hn & Hne & Ht & Ho & _) Hint i s. rewrite Ht, Ho.
  rewrite lookup_insert. case_decide as Hi; intros Hs.
  - simplify_eq. exists eid. rewrite lookup_insert_eq. eauto.
  - destruct (Hint _ _ Hs) as (e' & ev & Hev & Hid). exists e'.
    rewrite lookup_insert_ne by congruence. eauto.
Qed.

Lemma created_published input carrier w d' r :
  created input carrier (w_db w) d' r → published_ok w → published_ok (set_db d' w).
Proof.
  intros (id & eid & -> & Hn & Hne & Ht & Ho & _) Hpub i e. simpl. rewrite Ho.
  rewrite lookup_insert. case_decide; intros Hs; [by simplify_eq|]. eauto.
Qed.

Lemma created_wf_outbox input carrier d d' r :
  created input carrier d d' r → wf_outbox (d_outbox d) → wf_outbox (d_outbox d').
Proof.
  intros (id & eid & -> & _ & _ & _ & Ho & _) Hwf i e. rewrite Ho, lookup_insert.
  case_decide; intros; simplify_eq; [done|]. eauto.
Qed.

Lemma created_wf input carrier d d' r :
  created input carrier d d' r → wf_transfers (d_transfers d) → wf_transfers (d_transfers d').
Proof.
  intros (id & eid & -> & Hn & _ & Ht & _ & Hk & Hc & _) Hwf. rewrite Ht.
  apply wf_insert_fresh; auto. by apply key_taken_spec.
Qed.

(** The specification of [createTransferWithOutbox] under every fault: both rows
    appear or none does; [Some r] is returned only with the rows in place and
    [None] only when nothing was written. *)
Lemma createTransferWithOutbox_spec `{!Externals} input carrier w :
  rg eq (λ _ w', w' = w ∨ ∃ t d', created input carrier (w_db w) d' t ∧ w' = set_db d' w)
    (createTransferWithOutbox input carrier)
    (λ r w', match r with
             | Ok (Some t) => ∃ d', created input carrier (w_db w) d' t ∧ w' = set_db d' w
             | Ok None => w' = w ∨ ∃ t d', created input carrier (w_db w) d' t ∧ w' = set_db d' w
             | Err _ => w' = w ∨ ∃ t d', created input carrier (w_db w) d' t ∧ w' = set_db d' w
             end) w.
Proof.
  unfold createTransferWithOutbox, sql. rg_step. rg_step. rg_step.
  assert (Hsame : set_db (w_db w) w = w) by (by destruct w).
  destruct (create_statement_cases input carrier (w_db w)) as [(e & Hc)|(r & d' & Hc & Hcr)];
    destruct f; simpl; unfold perform; simpl; rewrite ?Hc; simpl; rewrite ?Hsame;
    (split; [naive_solver|]); repeat (first [rg_step | case_match]); simpl; naive_solver.
Qed.

(** ** How any activity may change the world

    [sys_inv] is what every handler keeps; [evolve] is what every operation of every
    handler does to the world, under any fault: it keeps [sys_inv], the history of
    the queue only grows, and an outbox event keeps its payload. *)
Definition sys_inv (w : world) : Prop :=
  wf_transfers (d_transfers (w_db w)) ∧ outbox_inv w.

Definition payloads_kept (d d' : db) : Prop :=
  ∀ eid e, d_outbox d !! eid = Some e →
    ∃ e', d_outbox d' !! eid = Some e' ∧ ob_payload e' = ob_payload e.

Definition evolve (w w' : world) : Prop :=
  (sys_inv w → sys_inv w') ∧ w_queue w `prefix_of` w_queue w' ∧ payloads_kept (w_db w) (w_db w').

#[export] Instance evolve_preorder : PreOrder evolve.
Proof.
  split.
  - intros w. split_and!; [done|done|]. intros eid e He. eauto.
  - intros w1 w2 w3 (Hi & Hq & Hp) (Hi' & Hq' & Hp'). split_and!.
    + auto.
    + by etrans.
    + intros eid e He. destruct (Hp _ _ He) as (e' & He' & Hpe).
      destruct (Hp' _ _ He') as (e'' & He'' & Hpe'). exists e''. split; congruence.
Qed.

(** A statement that keeps the outbox and turns the transfers into a well-formed
    table without new ids. *)
Definition tame {A} (m : dbM A) : Prop :=
  ∀ d, d_outbox (m d).2 = d_outbox d ∧
    (wf_transfers (d_transfers d) → wf_transfers (d_transfers (m d).2)) ∧
    (∀ id r, d_transfers (m d).2 !! id = Some r → is_Some (d_transfers d !! id)).

Lemma tame_reader {A} (m : dbM A) : (∀ d, (m d).2 = d) → tame m.
Proof. intros H d. rewrite H. eauto. Qed.

Lemma tame_bind {A B} (m : dbM A) (f : A → dbM B) :
  tame m → (∀ a, tame (f a)) → tame (db_bind m f).
Proof.
  intros Hm Hf d. destruct (Hm d) as (Ho & Hw & Hi). unfold db_bind.
  destruct (m d) as [[a|e] d']; simpl in *; [|done].
  destruct (Hf a d') as (Ho' & Hw' & Hi'). split_and!; [congruence|auto|].
  intros id r Hr. destruct (Hi' _ _ Hr) as [s Hs]. eauto.
Qed.

Lemma tame_update id patch : keeps_identity patch → tame (update_transfer id patch).
Proof.
  intros Hp d. split_and!.
  - destruct (update_transfer_cases id patch d) as [[e ->]|[[-> _]|(r & _ & _ & _ & ->)]]; done.
  - by apply update_transfer_wf.
  - destruct (update_transfer_cases id patch d) as [[e ->]|[[-> _]|(r & Hr & _ & _ & ->)]]; [eauto..|].
    simpl. intros i s. rewrite lookup_insert. case_decide; intros; simplify_eq; eauto.
Qed.

Lemma tame_delete p : tame (delete_transfers p).
Proof.
  intros d. split_and!; [done|apply delete_transfers_wf|]. simpl.
  intros id r Hr%map_lookup_filter_Some. naive_solver.
Qed.

Lemma tame_select p le n k : tame (select_transfers p le n k).
Proof. by apply tame_reader. Qed.
Lemma tame_count p : tame (count_transfers p).
Proof. by apply tame_reader. Qed.
Lemma tame_find id : tame (find_transfer id).
Proof. by apply tame_reader. Qed.
Lemma tame_ret {A} (a : A) : tame (db_ret a).
Proof. by apply tame_reader. Qed.
Lemma tame_throw {A} e : tame (@db_throw A e).
Proof. by apply tame_reader. Qed.
Lemma tame_select_outbox p le n : tame (select_outbox p le n).
Proof. by apply tame_reader. Qed.
Lemma tame_find_usage t : tame (find_usage t).
Proof. by apply tame_reader. Qed.
#[export] Hint Resolve tame_bind tame_update tame_delete tame_select tame_count tame_find
  tame_ret tame_throw tame_select_outbox tame_find_usage : bridge.

(** The operations that [evolve] the world whatever the state: tame statements, and
    everything that is not a statement. *)
Definition tame_op (X : Type) (op : eff X) : Prop :=
  match op with Db m => tame m | _ => True end.

Section evolve.
Context `{!Externals}.

Lemma evolve_same_db w w' :
  w_db w' = w_db w → w_queue w `prefix_of` w_queue w' → evolve w w'.
Proof.
  intros Hd Hq. split_and!; [|done|intros eid e He; rewrite Hd; eauto].
  intros (Hwf & Ho & Hi & Hp). unfold sys_inv, outbox_inv, published_ok. rewrite Hd.
  split_and!; [done..|]. intros eid e He Hs. destruct (Hp _ _ He Hs) as (j & Hj & Hjd).
  exists j. split; [|done]. destruct Hq as [k ->]. set_solver.
Qed.

Lemma evolve_db w d :
  d_outbox d = d_outbox (w_db w) →
  (wf_transfers (d_transfers (w_db w)) → wf_transfers (d_transfers d)) →
  (∀ id r, d_transfers d !! id = Some r → is_Some (d_transfers (w_db w) !! id)) →
  evolve w (set_db d w).
Proof.
  intros Ho Hwf Hids. split_and!; [|done|intros eid e He; simpl; rewrite Ho; eauto].
  intros (Hw & Hwo & Hi & Hp). unfold sys_inv, outbox_inv, published_ok, intent_ok. simpl.
  rewrite Ho. split_and!; [auto|done| |done].
  intros id r Hr. destruct (Hids _ _ Hr) as [s Hs]. by eapply Hi.
Qed.

Lemma evolve_created input carrier w d' r :
  created input carrier (w_db w) d' r → evolve w (set_db d' w).
Proof.
  intros Hc. split_and!; [|done|].
  - intros (Hw & Hwo & Hi & Hp). unfold sys_inv, outbox_inv. split_and!;
      [eapply created_wf|eapply created_wf_outbox|eapply created_intent|eapply created_published];
      eauto.
  - destruct Hc as (id & eid & -> & _ & Hne & _ & Ho & _). intros i e He. simpl.
    rewrite Ho. exists e. by rewrite lookup_insert_ne by congruence.
Qed.

Lemma set_db_tenant_evolve w d t : evolve w (set_db d w) → evolve w (set_db (set_tenant t d) w).
Proof. done. Qed.

Lemma tame_op_evolve {X} (op : eff X) f w : tame_op X op → evolve w (perform f op w).2.
Proof.
  intros Hop. assert (Hev : evolve w (handle op w).2).
  { destruct op; simpl; unfold put_object; try (by repeat case_match; apply evolve_same_db);
      try (apply evolve_same_db; [done|]; simpl; by eexists).
    destruct (Hop (w_db w)) as (Ho & Hwf & Hi). unfold transact.
    destruct (m (w_db w)) as [[a|e] d']; simpl in *.
    + by apply set_db_tenant_evolve, evolve_db.
    + by apply evolve_same_db. }
  unfold perform. destruct (fallible op); [|done]. by destruct f.
Qed.

Lemma tame_ops_rg {A} (p : P A) R w : all_ops tame_op p → rg R evolve p (λ _ _, True) w.
Proof. apply all_ops_rg. intros X op Hop f w'. by apply tame_op_evolve. Qed.
End evolve.

(** ** [relay] *)
Section relay.
Context `{!Externals}.

(** An event read by the relay is still in the table, with the payload it had. *)
Definition has_event (d : db) (evt : OutboxEvent) : Prop :=
  ∃ e, d_outbox d !! ob_id evt = Some e ∧ ob_payload e = ob_payload evt.

Lemma has_event_evolve w w' evt :
  evolve w w' → has_event (w_db w) evt → has_event (w_db w') evt.
Proof.
  intros (_ & _ & Hp) (e & He & Hpe). destruct (Hp _ _ He) as (e' & He' & Hpe').
  exists e'. split; congruence.
Qed.

(** Marking an event PUBLISHED is an [evolve] step once its job is in the queue. *)
Lemma publish_evolve w evt now f :
  has_event (w_db w) evt → event_job evt ∈ w_queue w →
  evolve w (perform f (Db (update_outbox (ob_id evt) (publish_patch now))) w).2.
Proof.
  intros (e & He & Hpe) Hj.
  assert (Hev : evolve w (handle (Db (update_outbox (ob_id evt) (publish_patch now))) w).2).
  { simpl. unfold transact, update_outbox. rewrite He.
    destruct (int4 (ob_attempts (publish_patch now e))); simpl; [|by apply evolve_same_db].
    apply set_db_tenant_evolve. split_and!; [|done|].
    - intros (Hw & Hwo & Hi & Hp). unfold sys_inv, outbox_inv. simpl. split_and!; [done|..].
      + intros i s. rewrite lookup_insert. case_decide; intros; simplify_eq; [|by eauto].
        simpl. split; [|done]. by apply (Hwo _ _ He).
      + intros id r Hr. destruct (Hi _ _ Hr) as (eid & ev & Hev & Hid).
        destruct (decide (ob_id evt = eid)) as [<-|Hne].
        * simplify_eq. eexists (ob_id evt), _. simpl. by rewrite lookup_insert_eq.
        * exists eid, ev. simpl. by rewrite lookup_insert_ne.
      + intros i s. simpl. rewrite lookup_insert. case_decide; intros; simplify_eq; [|by eauto].
        exists (event_job evt). split; [done|]. simpl. congruence.
    - intros i s Hs. simpl. destruct (decide (ob_id evt = i)) as [<-|Hne].
      + eexists. rewrite lookup_insert_eq. split; [done|]. by simplify_eq.
      + exists s. by rewrite lookup_insert_ne. }
  unfold perform. simpl. by destruct f.
Qed.

Lemma relay_event_rg evt w :
  has_event (w_db w) evt →
  rg evolve evolve (relay_event evt) (λ _ w', evolve w w') w.
Proof.
  intros Hev. unfold relay_event, sql.
  rg_step. apply rg_call. intros w0 f0 Hw0.
  assert (Hq := tame_op_evolve (QueueAdd (event_job evt)) f0 w0 I). split; [done|].
  intros w1 Hw1. destruct (perform f0 _ w0) as [[[]|e] w0'] eqn:Hp; simpl in *;
    [|by do 2 (etrans; [eassumption|])].
  assert (Hin1 : event_job evt ∈ w_queue w1).
  { destruct Hw1 as (_ & [k ->] & _). unfold perform in Hp. simpl in Hp.
    destruct f0; simplify_eq. simpl. set_solver. }
  rg_step. apply rg_call. intros w2 f1 Hw2. unfold perform; simpl. split; [reflexivity|].
  intros w3 Hw3. apply rg_call. intros w4 f2 Hw4.
  assert (H14 : evolve w1 w4) by (by do 2 (etrans; [eassumption|])).
  assert (H04 : evolve w w4) by (by do 3 (etrans; [eassumption|])).
  assert (Hin : event_job evt ∈ w_queue w4) by (destruct H14 as (_ & [k ->] & _); set_solver).
  assert (Hupd := publish_evolve w4 evt (d_now (w_db w2)) f2
    (has_event_evolve _ _ _ H04 Hev) Hin).
  split; [done|]. intros w5 Hw5. by do 2 (etrans; [eassumption|]).
Qed.

Lemma set_proc_evolve p w : evolve w (set_proc p w).
Proof. by apply evolve_same_db. Qed.

(** The events a relay pass reads are in the table. *)
Lemma select_outbox_has_event w p le n l :
  sys_inv w → (select_outbox p le n (w_db w)).1 = Ok l →
  ∀ evt, evt ∈ l → has_event (w_db w) evt.
Proof.
  intros (_ & Hwo & _) Hsel evt Hin. simpl in Hsel. simplify_eq.
  apply subseteq_take in Hin.
  rewrite elem_of_isort, list_elem_of_In, filter_In, <- list_elem_of_In, list_elem_of_fmap in Hin.
  destruct Hin as [([i ev] & -> & Hin%elem_of_map_to_list) _].
  exists ev. simpl. by destruct (Hwo _ _ Hin) as [-> _].
Qed.

(** The relay keeps [evolve], with any other activity running beside it. *)
Lemma relay_rg w : sys_inv w → rg evolve evolve relay (λ _ _, True) w.
Proof.
  intros Hinv. unfold relay, in_proc, set_in_proc, sql.
  rg_step. apply rg_call. intros w0 f0 Hw0. unfold perform; simpl.
  split; [apply set_proc_evolve|]. intros w1 Hw1.
  destruct (p_relaying (w_proc w0)); [by apply rg_ret|].
  rg_step. eapply rg_mono with (Q := λ _ _, True); last first.
  { intros r w' _. apply rg_call. intros w2 f2 _. unfold perform; simpl.
    split; [apply set_proc_evolve|]. intros w3 _. by destruct r; [apply rg_ret|apply rg_throw]. }
  rg_step. rg_step. apply rg_call. intros w2 f2 Hw2.
  split; [by apply tame_op_evolve, tame_select_outbox|]. intros w3 Hw3.
  destruct (perform f2 _ w2) as [[l|e] w2'] eqn:Hp; simpl in *; [|by apply rg_ret].
  assert (H2 : sys_inv w2) by (by apply Hw2, Hw1, (set_proc_evolve _ w0), Hw0).
  assert (Hl : ∀ evt, evt ∈ l → has_event (w_db w2') evt).
  { unfold perform in Hp. simpl in Hp. destruct f2; simplify_eq.
    by eapply (select_outbox_has_event w2). }
  assert (Hl3 : ∀ evt, evt ∈ l → has_event (w_db w3) evt)
    by (intros; eapply has_event_evolve; eauto).
  eapply (rg_for_each evolve evolve) with
    (I := λ l w', ∀ evt, evt ∈ l → has_event (w_db w') evt); [..|exact Hl3].
  - intros evt l' w4 Hl4. eapply rg_mono; [apply relay_event_rg, Hl4; set_solver|].
    intros [[]|e] w5 Hw5; simpl; [|by apply rg_ret].
    intros ev Hin. eapply has_event_evolve; [exact Hw5|]. apply Hl4. set_solver.
  - intros w4 _. by apply rg_ret.
Qed.

(** *** A pass without failures *)
Definition pending_events (d : db) : list OutboxEvent :=
  isort outbox_by_createdAt (List.filter is_pending (map snd (map_to_list (d_outbox d)))).

Definition publish_all (now : Z) (l : list OutboxEvent) (o : gmap string OutboxEvent)
    : gmap string OutboxEvent :=
  foldl (λ o e, <[ob_id e := publish_patch now e]> o) o l.

Lemma pending_events_elem d e :
  wf_outbox (d_outbox d) → e ∈ pending_events d →
  d_outbox d !! ob_id e = Some e ∧ ob_status e = OutboxStatus.PENDING ∧ ob_attempts e = 0%Z.
Proof.
  intros Hwf. unfold pending_events.
  rewrite elem_of_isort, list_elem_of_In, filter_In, <- list_elem_of_In, list_elem_of_fmap.
  intros [([i ev] & -> & Hin%elem_of_map_to_list) Hp%bool_decide_eq_true]. simpl in *.
  destruct (Hwf _ _ Hin) as [-> Ha]. auto.
Qed.

Lemma pending_events_complete d i e :
  d_outbox d !! i = Some e → ob_status e = OutboxStatus.PENDING → e ∈ pending_events d.
Proof.
  intros He Hp. unfold pending_events.
  rewrite elem_of_isort, list_elem_of_In, filter_In, <- list_elem_of_In, list_elem_of_fmap.
  split; [|by apply bool_decide_eq_true]. exists (i, e). by rewrite elem_of_map_to_list.
Qed.

Lemma pending_events_NoDup d :
  wf_outbox (d_outbox d) → NoDup (map ob_id (pending_events d)).
Proof.
  intros Hwf. unfold pending_events. rewrite (isort_perm _ _).
  assert (H1 : NoDup (map ob_id (map snd (map_to_list (d_outbox d))))).
  { rewrite map_map. erewrite map_ext_in; [apply NoDup_fst_map_to_list|].
    intros [i e] Hin%list_elem_of_In%elem_of_map_to_list. simpl. by destruct (Hwf _ _ Hin). }
  eapply sublist_NoDup; [exact H1|]. clear H1.
  induction (map snd (map_to_list (d_outbox d))) as [|e l IH]; simpl; [constructor|].
  destruct (is_pending e); simpl; by constructor.
Qed.

Lemma publish_all_lookup now l o i :
  NoDup (map ob_id l) →
  publish_all now l o !! i =
    match list_find (λ e, ob_id e = i) l with
    | Some (_, e) => Some (publish_patch now e)
    | None => o !! i
    end.
Proof.
  revert o. induction l as [|e l IH]; intros o Hnd; simpl; [done|].
  inversion_clear Hnd as [|? ? Hni Hnd']. rewrite (IH _ Hnd'). case_decide as Hi.
  - subst i. destruct (list_find (λ e0, ob_id e0 = ob_id e) l) as [[k e']|] eqn:Hf.
    + apply list_find_Some in Hf as (Hk & Hid & _). exfalso. apply Hni.
      rewrite <- Hid. apply list_elem_of_fmap. exists e'. split; [done|].
      by eapply list_elem_of_lookup_2.
    + by rewrite lookup_insert_eq.
  - destruct (list_find _ l) as [[k e']|]; simpl; [done|]. by rewrite lookup_insert_ne.
Qed.

Lemma relay_loop_exec l w :
  NoDup (map ob_id l) →
  (∀ e, e ∈ l → d_outbox (w_db w) !! ob_id e = Some e ∧ ob_attempts e = 0%Z) →
  exec (for_each l relay_event) w =
    (Ok tt, set_db (set_outbox (publish_all (d_now (w_db w)) l (d_outbox (w_db w))) (w_db w))
              (set_queue (w_queue w ++ map event_job l) w)).
Proof.
  revert w. induction l as [|e l IH]; intros w Hnd Hl.
  { simpl. rewrite app_nil_r. by destruct w as [[]]. }
  inversion_clear Hnd as [|? ? Hni Hnd']. destruct (Hl e) as [He Ha]; [set_solver|].
  simpl. unfold relay_event, sql. rewrite !exec_bind, exec_call. simpl.
  rewrite !exec_bind, exec_call. simpl. rewrite exec_call. simpl.
  assert (Hint : int4 (ob_attempts e + 1) = true) by (by rewrite Ha).
  unfold transact, update_outbox. simpl. rewrite He. simpl. rewrite Hint. simpl.
  rewrite IH; [|done|].
  - simpl. rewrite <- app_assoc. by destruct w as [[]].
  - intros e' Hin. simpl. destruct (Hl e') as [He' Ha']; [set_solver|]. split; [|done].
    rewrite lookup_insert_ne; [done|]. intros Heq. apply Hni. rewrite Heq.
    by apply list_elem_of_fmap_2.
Qed.
End relay.

(** C9: Accepting an upload is atomic.  Whatever fails during
    [createTransferWithOutbox], and wherever the process dies, the database is either
    untouched or holds exactly the new PENDING transfer together with one new PENDING
    outbox event that names it; the call returns the row only when both are stored. *)
Theorem createTransferWithOutbox_atomic `{!Externals} input carrier w fs n :
  let p := createTransferWithOutbox input carrier in
  let both w' t := ∃ d', created input carrier (w_db w) d' t ∧ w' = set_db d' w in
  (crash n fs p w = w ∨ ∃ t, both (crash n fs p w) t) ∧
  match outcome fs p w with
  | Ok (Some t) => both (final fs p w) t
  | _ => final fs p w = w ∨ ∃ t, both (final fs p w) t
  end.
Proof.
  intros p both. pose proof (createTransferWithOutbox_spec input carrier w) as Hspec. split.
  - eapply (seq_crash (λ w', w' = w ∨ ∃ t, both w' t)); [by left|exact Hspec].
  - pose proof (seq_run _ _ _ _ fs Hspec) as Hend.
    change (createTransferWithOutbox input carrier) with p in Hend.
    destruct (outcome fs p w) as [[t|]|e]; [done| |]; naive_solver.
Qed.

(** The relay is at-least-once.  Run alone, with any faults and stopped after any
    number of operations, [relay] leaves a world in which every transfer still has its
    event and every event marked PUBLISHED has its job in the queue. *)
Theorem relay_at_least_once `{!Externals} w fs n :
  sys_inv w → sys_inv (crash n fs relay w) ∧ sys_inv (final fs relay w).
Proof.
  intros Hinv. pose proof (relay_rg w Hinv) as Hrg.
  pose proof (rg_crash_trans _ _ _ _ _ n fs Hrg) as (Hc & _).
  pose proof (rg_final_trans _ _ _ _ _ fs Hrg) as (Hf & _). auto.
Qed.

(** A pass without failures, step by step. *)
Lemma relay_exec `{!Externals} w :
  sys_inv w → p_relaying (w_proc w) = false →
  let batch := take RELAY_BATCH (pending_events (w_db w)) in
  NoDup (map ob_id batch) ∧
  (∀ e, e ∈ batch → d_outbox (w_db w) !! ob_id e = Some e ∧ ob_attempts e = 0%Z) ∧
  exec relay w = (Ok tt,
    set_proc (set_relaying false (set_relaying true (w_proc w)))
      (set_db (set_outbox (publish_all (d_now (w_db w)) batch (d_outbox (w_db w))) (w_db w))
         (set_queue (w_queue w ++ map event_job batch) w))).
Proof.
  intros Hinv Hbusy batch. destruct Hinv as (_ & Hwo & _ & _).
  pose proof (pending_events_NoDup _ Hwo) as Hnd.
  assert (Hndb : NoDup (map ob_id batch)).
  { unfold batch. eapply sublist_NoDup; [exact Hnd|].
    rewrite <- firstn_map. apply sublist_take. }
  assert (Hel : ∀ e, e ∈ batch → d_outbox (w_db w) !! ob_id e = Some e ∧ ob_attempts e = 0%Z).
  { intros e He%subseteq_take. by destruct (pending_events_elem _ _ Hwo He) as (? & _ & ?). }
  split_and!; [done|done|].
  unfold relay, in_proc, set_in_proc, sql. rewrite exec_bind, exec_call. simpl. rewrite Hbusy.
  rewrite exec_finally, exec_catch, exec_bind, exec_call. simpl. fold (pending_events (w_db w)).
  fold batch. rewrite relay_loop_exec; [|done|done]. simpl.
  by destruct w as [[]].
Qed.

(** A relay pass without failures publishes.  It returns, appends the jobs of the
    oldest [RELAY_BATCH] pending events to the queue in creation order, marks exactly
    those events PUBLISHED, touches no transfer and releases its overlap flag. *)
Theorem relay_publishes `{!Externals} w :
  sys_inv w → p_relaying (w_proc w) = false →
  let batch := take RELAY_BATCH (pending_events (w_db w)) in
  let w' := (exec relay w).2 in
  (exec relay w).1 = Ok tt ∧
  w_queue w' = w_queue w ++ map event_job batch ∧
  StronglySorted (λ a b, (ob_createdAt a ≤ ob_createdAt b)%Z) (pending_events (w_db w)) ∧
  (∀ i e, d_outbox (w_db w) !! i = Some e → d_outbox (w_db w') !! i =
     Some (if decide (e ∈ batch) then publish_patch (d_now (w_db w)) e else e)) ∧
  d_transfers (w_db w') = d_transfers (w_db w) ∧
  p_relaying (w_proc w') = false.
Proof.
  intros Hinv Hbusy batch. destruct (relay_exec w Hinv Hbusy) as (Hndb & Hel & Hexec).
  fold batch in Hndb, Hel, Hexec. destruct Hinv as (_ & Hwo & _ & _).
  rewrite Hexec. simpl. split_and!; [done|done|apply isort_StronglySorted| |done|done].
  intros i e He. rewrite publish_all_lookup by done.
  destruct (Hwo _ _ He) as [<- _]. destruct (list_find _ batch) as [[k e']|] eqn:Hf; simpl.
  - apply list_find_Some in Hf as (Hk & Hid & _). apply list_elem_of_lookup_2 in Hk.
    destruct (Hel _ Hk) as [He' _]. rewrite Hid in He'. simplify_eq. by rewrite decide_True.
  - apply list_find_None in Hf. rewrite decide_False; [done|]. intros Hin.
    by eapply Forall_forall in Hf.
Qed.

Import Demo.

(** An outbox with one pending event. *)
Definition one_event_world : world :=
  set_db (set_outbox {["e1" := mkOutboxEvent "e1" "t1" TRANSFER_JOB (mkTransferJob "t1" [])
                                 OutboxStatus.PENDING 0 500 None]} Demo.empty_db) Demo.empty_world.

Lemma one_event_inv : sys_inv one_event_world.
Proof.
  split; [split; simpl; intros *; rewrite ?lookup_empty; done|]. split_and!.
  - intros i e H. unfold one_event_world in H. simpl in H.
    by apply lookup_singleton_Some in H as [<- <-].
  - intros i r. simpl. by rewrite lookup_empty.
  - intros i e H. unfold one_event_world in H. simpl in H.
    by apply lookup_singleton_Some in H as [<- <-].
Qed.

Lemma relay_at_least_once_witness :
  sys_inv (crash 3 [NoFault; NoFault] relay one_event_world) ∧
  sys_inv (final [NoFault; FailAfter (Infra_error "Error" "timeout" None None)] relay one_event_world).
Proof.
  split.
  - exact (proj1 (relay_at_least_once one_event_world [NoFault; NoFault] 3 one_event_inv)).
  - exact (proj2 (relay_at_least_once one_event_world
      [NoFault; FailAfter (Infra_error "Error" "timeout" None None)] 0 one_event_inv)).
Defined.

Lemma relay_publishes_witness :
  sys_inv one_event_world ∧ p_relaying (w_proc one_event_world) = false ∧
  w_queue (exec relay one_event_world).2 = [mkJob TRANSFER_JOB (mkTransferJob "t1" []) None 0].
Proof.
  split; [exact one_event_inv|]. split; [reflexivity|].
  destruct (relay_publishes one_event_world one_event_inv eq_refl) as (_ & Hq & _).
  rewrite Hq. reflexivity.
Defined.
