(* ===== verification/Ingestion.v ===== *)
(** * Webhook ingress ([ingestion/ingestion.service.ts], [tenancy/tenant.service.ts])

    [accept] turns an SFTPGo upload event into a PENDING transfer: it drops events that
    are not successful uploads, confines the source path to the data root, derives
    the idempotency key and the tenant, and hands the row to the outbox. *)
From S2P Require Import Prelude JsLang NodePath Entities Database Prog World Repository Outbox.

(** ** The payload *)
Record SftpgoWebhookDto := mkWebhook {
  wh_action : string;
  wh_username : string;
  wh_path : string;
  wh_virtual_path : string;
  wh_target_path : option string;
  wh_virtual_target_path : option string;
  wh_ssh_cmd : option string;
  wh_file_size : Z;
  wh_status : option Z;
  wh_protocol : option string;
  wh_ip : option string;
  wh_session_id : option string;
  wh_timestamp : option Z;
  wh_instance_id : option string;
}.

(** The [class-validator] constraints on it. *)
Definition webhook_valid (p : SftpgoWebhookDto) : bool :=
  negb (String.eqb (wh_action p) "") && negb (String.eqb (wh_username p) "")
  && negb (String.eqb (wh_path p) "") && negb (String.eqb (wh_virtual_path p) "")
  && (0 <=? wh_file_size p)%Z.

(** ** Tenants

    [this.map[username] ?? this.defaultTenant], where [map] is a plain object: a name
    that is not an own property of the map is looked up in [Object.prototype], whose
    members are not nullish.  [inherited] is the text the driver sends for them. *)
Definition native_function (name : string) : string := "function " +:+ name +:+ "() { [native code] }".

Definition inherited (key : string) : option string :=
  if String.eqb key "constructor" then Some (native_function "Object")
  else if String.eqb key "__proto__" then Some "{}"
  else if existsb (String.eqb key)
    ["toString"; "toLocaleString"; "valueOf"; "hasOwnProperty"; "isPrototypeOf";
     "propertyIsEnumerable"; "__defineGetter__"; "__defineSetter__"; "__lookupGetter__";
     "__lookupSetter__"]
  then Some (native_function key)
  else None.

Record TenantConfig := mkTenantConfig {
  tc_map : gmap string string;
  tc_default : string;
}.

Definition resolve_tenant (tc : TenantConfig) (username : string) : string :=
  match tc_map tc !! username with
  | Some t => t
  | None => match inherited username with
            | Some t => t
            | None => tc_default tc
            end
  end.

(** ** The service *)
Record IngestionConfig := mkIngestionConfig {
  ic_cwd : string;                (** working directory of the process *)
  ic_ingestionDataRoot : string;
  ic_bucket : string;
  ic_tenants : TenantConfig;
}.

Definition dataRoot (ic : IngestionConfig) : string := resolve (ic_cwd ic) (ic_ingestionDataRoot ic).

Inductive AcceptOutcome := ACCEPTED | DUPLICATE | IGNORED.

#[global] Instance AcceptOutcome_eq_dec : EqDecision AcceptOutcome.
Proof. solve_decision. Defined.

Definition SFTPGO_STATUS_OK : Z := 1.

Definition resolveWithinRoot (ic : IngestionConfig) (candidate : string) : option string :=
  if String.eqb candidate "" || negb (isAbsolute candidate) then None
  else
    let normalized := resolve (ic_cwd ic) candidate in
    let rel := relative (ic_cwd ic) (dataRoot ic) normalized in
    let escapes := startsWith rel ".." || isAbsolute rel in
    if escapes then None else Some normalized.

Definition basename (p : string) : string :=
  default p (last (List.filter (λ s, negb (String.eqb s "")) (split_char slash p))).

Definition key_fields (p : SftpgoWebhookDto) : list string :=
  [wh_username p; wh_virtual_path p; number_to_string (wh_file_size p);
   match wh_timestamp p with Some t => number_to_string t | None => "" end;
   nullish (wh_session_id p) ""].

Definition key_preimage (p : SftpgoWebhookDto) : string := join "|" (key_fields p).

Section service.
Context `{!Externals}.

Definition buildIdempotencyKey (p : SftpgoWebhookDto) : string :=
  sha256_hex (utf8 (key_preimage p)).

Definition pending_input (ic : IngestionConfig) (p : SftpgoWebhookDto) (sourcePath : string)
    : CreatePendingInput :=
  mkInput (buildIdempotencyKey p) (resolve_tenant (ic_tenants ic) (wh_username p))
    (basename (wh_virtual_path p)) (wh_virtual_path p) sourcePath (ic_bucket ic)
    (number_to_string (wh_file_size p)) (wh_username p) (wh_protocol p) (wh_session_id p).

(** [carrier] is the trace context the tracing library injects. *)
Definition accept (ic : IngestionConfig) (carrier : list (string * string))
    (payload : SftpgoWebhookDto) : P AcceptOutcome :=
  if negb (String.eqb (wh_action payload) "upload") then Ret IGNORED
  else if match wh_status payload with
          | Some s => negb (s =? SFTPGO_STATUS_OK)%Z
          | None => false
          end then Ret IGNORED
  else match resolveWithinRoot ic (wh_path payload) with
       | None => Ret IGNORED
       | Some sourcePath =>
           record <- createTransferWithOutbox (pending_input ic payload sourcePath) carrier ;;
           match record with
           | None => Ret DUPLICATE
           | Some _ => Ret ACCEPTED
           end
       end.
End service.

(** ** Path confinement *)

(** [p] is the root or lies below it, as segments, and nothing in it climbs. *)
Definition below_root (ic : IngestionConfig) (p : string) : Prop :=
  ∃ rest, path_segments (ic_cwd ic) p = path_segments (ic_cwd ic) (dataRoot ic) ++ rest ∧
          Forall clean_segment rest.

Lemma isAbsolute_join l : Forall clean_segment l → isAbsolute (join "/" l) = false.
Proof.
  intros Hl. apply not_true_iff_false. intros [t Ht]%startsWith_spec.
  destruct Hl as [|s l (Hne & _ & _ & Hs) Hl]; [done|]. unfold join in Ht.
  destruct s as [|c s]; [done|]. simpl in Hs.
  assert (c = slash) as -> by (destruct l; by injection Ht).
  done.
Qed.

(** The exact condition under which [resolveWithinRoot] accepts. *)
Lemma resolveWithinRoot_spec ic c p :
  resolveWithinRoot ic c = Some p ↔
  c ≠ "" ∧ isAbsolute c = true ∧ p = resolve (ic_cwd ic) c ∧
  ∃ rest, path_segments (ic_cwd ic) c = path_segments (ic_cwd ic) (dataRoot ic) ++ rest ∧
          match rest with s :: _ => startsWith s ".." = false | [] => True end.
Proof.
  unfold resolveWithinRoot, relative. rewrite resolve_segments.
  pose proof (path_segments_clean (ic_cwd ic) c) as Hclean.
  destruct (string_eqb_spec c "") as [->|Hne]; [naive_solver|].
  destruct (isAbsolute c); simpl; [|naive_solver].
  destruct (relative_segments_spec (path_segments (ic_cwd ic) (dataRoot ic)) (path_segments (ic_cwd ic) c))
    as [(rest & Hrest & Hrel)|(tl & Hrel & Hn)]; rewrite Hrel.
  - rewrite Hrest in Hclean. apply Forall_app in Hclean as [_ Hcl].
    rewrite isAbsolute_join, orb_false_r by done.
    destruct (startsWith (join "/" rest) "..") eqn:Hs; split; intros HH; try done.
    + destruct HH as (_ & _ & _ & rest' & Hr' & Hd). rewrite Hrest in Hr'.
      apply app_inv_head in Hr' as <-. destruct rest as [|s rest]; [done|].
      apply join_startsWith_dots in Hs. congruence.
    + injection HH as <-. split_and!; [done..|]. exists rest. split; [done|].
      destruct rest as [|s rest]; [done|]. apply not_true_iff_false. intros Hd.
      by rewrite (join_cons_startsWith _ _ _ _ Hd) in Hs.
    + by destruct HH as (_ & _ & -> & _).
  - rewrite (join_cons_startsWith "/" ".." tl "..") by done. simpl. split; [done|].
    intros (_ & _ & _ & rest & Hr & _). exfalso. apply Hn. rewrite Hr. by exists rest.
Qed.

(** C25: Path-traversal defence.  A path [resolveWithinRoot] lets through is absolute and
    normalized and lies in the data root: its segments extend those of the root, none
    of them is [.] or [..], and no segment contains a slash. *)
Theorem resolveWithinRoot_confined ic c p :
  resolveWithinRoot ic c = Some p →
  isAbsolute p = true ∧ resolve (ic_cwd ic) p = p ∧ below_root ic p.
Proof.
  intros (_ & _ & -> & rest & Hr & _)%resolveWithinRoot_spec. split_and!.
  - apply startsWith_spec. by eexists.
  - unfold resolve at 1. by rewrite resolve_segments.
  - exists rest. rewrite resolve_segments. split; [done|].
    pose proof (path_segments_clean (ic_cwd ic) c) as H. rewrite Hr in H.
    by apply Forall_app in H as [_ H].
Qed.

(** ...and it rejects no more than it says: an absolute path whose segments extend
    those of the root is accepted, unless the first one below the root begins with two
    dots. *)
Theorem resolveWithinRoot_complete ic c rest :
  isAbsolute c = true →
  path_segments (ic_cwd ic) c = path_segments (ic_cwd ic) (dataRoot ic) ++ rest →
  resolveWithinRoot ic c =
    match rest with
    | s :: _ => if startsWith s ".." then None else Some (resolve (ic_cwd ic) c)
    | [] => Some (resolve (ic_cwd ic) c)
    end.
Proof.
  intros Habs Hseg.
  assert (Hne : c ≠ "") by (by intros ->).
  destruct (resolveWithinRoot ic c) as [p|] eqn:Hr.
  - apply resolveWithinRoot_spec in Hr as (_ & _ & -> & rest' & Hr' & Hd). rewrite Hseg in Hr'.
    apply app_inv_head in Hr' as <-. destruct rest; [done|]. by rewrite Hd.
  - destruct rest as [|s rest].
    + enough (resolveWithinRoot ic c = Some (resolve (ic_cwd ic) c)) by congruence.
      apply resolveWithinRoot_spec. split_and!; [done..|]. by exists [].
    + destruct (startsWith s "..") eqn:Hd; [done|].
      enough (resolveWithinRoot ic c = Some (resolve (ic_cwd ic) c)) by congruence.
      apply resolveWithinRoot_spec. split_and!; [done..|]. by exists (s :: rest).
Qed.

Definition demo_ingestion : IngestionConfig :=
  mkIngestionConfig "/app" "/srv/sftpgo/data" "ingested-files" (mkTenantConfig ∅ "default").

Lemma resolveWithinRoot_confined_witness :
  below_root demo_ingestion "/srv/sftpgo/data/alice/report.csv".
Proof.
  apply (resolveWithinRoot_confined demo_ingestion "/srv/sftpgo/data/./bob/../alice/report.csv").
  reflexivity.
Defined.

Lemma resolveWithinRoot_complete_witness :
  resolveWithinRoot demo_ingestion "/srv/sftpgo/data/alice/x.csv" = Some "/srv/sftpgo/data/alice/x.csv".
Proof.
  exact (resolveWithinRoot_complete demo_ingestion "/srv/sftpgo/data/alice/x.csv" ["alice"; "x.csv"]
           eq_refl eq_refl).
Defined.

(** Traversal is refused; a file of the root whose name begins with two dots is
    refused as well, although it lies inside. *)
Example traversal_refused :
  resolveWithinRoot demo_ingestion "/srv/sftpgo/data/../../etc/passwd" = None ∧
  resolveWithinRoot demo_ingestion "/srv/sftpgo/data-other/x" = None.
Proof. by split. Qed.

(** A file directly in the data root whose name starts with two dots ([..draft.csv])
    is dropped as a path escape, although it lies inside the root. *)
Theorem dotted_name_rejected :
  below_root demo_ingestion "/srv/sftpgo/data/..draft.csv" ∧
  resolveWithinRoot demo_ingestion "/srv/sftpgo/data/..draft.csv" = None.
Proof.
  split; [|reflexivity]. exists ["..draft.csv"]. split; [reflexivity|].
  by repeat constructor.
Qed.

(** ** The idempotency key *)

(** The events the key is meant to tell apart. *)
Definition same_event (p q : SftpgoWebhookDto) : Prop :=
  wh_username p = wh_username q ∧ wh_virtual_path p = wh_virtual_path q ∧
  wh_file_size p = wh_file_size q ∧ wh_timestamp p = wh_timestamp q ∧
  nullish (wh_session_id p) "" = nullish (wh_session_id q) "".

(** The numbers of a payload are JavaScript integers, its texts hold no separator. *)
Definition numbers_ok (p : SftpgoWebhookDto) : Prop :=
  is_double (wh_file_size p) ∧ match wh_timestamp p with Some t => is_double t | None => True end.
Definition no_bars (p : SftpgoWebhookDto) : Prop :=
  no_char "|"%char (wh_username p) = true ∧ no_char "|"%char (wh_virtual_path p) = true ∧
  no_char "|"%char (nullish (wh_session_id p) "") = true.

Lemma key_fields_no_bar p : no_bars p → Forall (λ s, no_char "|"%char s = true) (key_fields p).
Proof.
  intros (Hu & Hv & Hs). unfold key_fields.
  repeat constructor; auto using number_to_string_no_bar.
  destruct (wh_timestamp p); auto using number_to_string_no_bar.
Qed.

Lemma key_preimage_inj p q :
  no_bars p → no_bars q → numbers_ok p → numbers_ok q →
  key_preimage p = key_preimage q → same_event p q.
Proof.
  intros Hp Hq [Hs Ht] [Hs' Ht'] Heq. unfold key_preimage in Heq.
  apply (join_inj "|"%char) in Heq; [|done..|by apply key_fields_no_bar|by apply key_fields_no_bar].
  injection Heq as Hu Hv Hn Hts Hse. split_and!; [done|done|by apply number_to_string_inj| |done].
  destruct (wh_timestamp p) as [t|], (wh_timestamp q) as [t'|]; [|exfalso..|done].
  - f_equal. by apply number_to_string_inj.
  - by apply (pretty_Z_nonempty (shortest t)).
  - by apply (pretty_Z_nonempty (shortest t')).
Qed.

Section accept.
Context `{!Externals}.

(** What is hashed determines the event, so, short of a SHA-256 collision between
    the two preimages at hand, keys agree exactly for the same event. *)
Lemma idempotency_key_iff p q :
  no_bars p → no_bars q → numbers_ok p → numbers_ok q →
  (sha256_hex (utf8 (key_preimage p)) = sha256_hex (utf8 (key_preimage q)) →
   utf8 (key_preimage p) = utf8 (key_preimage q)) →
  buildIdempotencyKey p = buildIdempotencyKey q ↔ same_event p q.
Proof.
  intros Hp Hq Hnp Hnq Hcoll. split.
  - intros Heq%Hcoll%utf8_inj. by apply key_preimage_inj.
  - intros (Hu & Hv & Hs & Ht & Hse). unfold buildIdempotencyKey, key_preimage, key_fields.
    by rewrite Hu, Hv, Hs, Ht, Hse.
Qed.

Definition actionable (ic : IngestionConfig) (p : SftpgoWebhookDto) : option string :=
  if String.eqb (wh_action p) "upload"
     && match wh_status p with Some s => (s =? SFTPGO_STATUS_OK)%Z | None => true end
  then resolveWithinRoot ic (wh_path p) else None.

Lemma accept_unfold ic carrier p :
  accept ic carrier p =
  match actionable ic p with
  | None => Ret IGNORED
  | Some src => record <- createTransferWithOutbox (pending_input ic p src) carrier ;;
                match record with None => Ret DUPLICATE | Some _ => Ret ACCEPTED end
  end.
Proof.
  unfold accept, actionable. destruct (String.eqb (wh_action p) "upload"); simpl; [|done].
  destruct (wh_status p) as [st|]; [|done]. by destruct (st =? SFTPGO_STATUS_OK)%Z.
Qed.

(** The statement behind [accept] never fails on a well-formed event but for a taken
    key. *)
Lemma create_statement_exec input carrier d id eid :
  id = d_uuid d (d_uuid_pos d) → eid = d_uuid d (S (d_uuid_pos d)) →
  d_tenant d = None → check_transfer (new_transfer input id (d_now d)) = Ok tt →
  d_transfers d !! id = None → d_outbox d !! eid = None →
  transact (create_statement input carrier) d =
  if key_taken d (in_idempotencyKey input) then (Err unique_violation, d)
  else (Ok (new_transfer input id (d_now d)),
        set_outbox (<[eid := new_event (new_transfer input id (d_now d)) carrier eid (d_now d)]> (d_outbox d))
          (set_transfers (<[id := new_transfer input id (d_now d)]> (d_transfers d))
             (set_uuid_pos (S (S (d_uuid_pos d))) d))).
Proof.
  intros -> -> Ht Hc Hn Ho. unfold transact, create_statement, db_bind, insert_transfer.
  rewrite Hc. unfold tenant_isolation. rewrite Ht, orb_true_r. simpl. rewrite Hn.
  rewrite bool_decide_false by (by intros []). simpl.
  destruct (key_taken d (in_idempotencyKey input)); [done|].
  unfold insert_outbox. simpl. rewrite Ho. rewrite bool_decide_false by (by intros []). simpl.
  destruct d; simpl in *. by subst.
Qed.

Lemma check_transfer_id input id now id' now' :
  check_transfer (new_transfer input id now) = check_transfer (new_transfer input id' now').
Proof. done. Qed.
End accept.

(** The idempotency key identifies the upload event.  For payloads whose texts hold no
    [|] and whose two preimages do not collide under SHA-256, the keys are equal exactly
    when user, virtual path, size, timestamp and session agree. *)
Theorem idempotency_key_identifies `{!Externals} p q :
  no_bars p → no_bars q → numbers_ok p → numbers_ok q →
  (sha256_hex (utf8 (key_preimage p)) = sha256_hex (utf8 (key_preimage q)) →
   utf8 (key_preimage p) = utf8 (key_preimage q)) →
  buildIdempotencyKey p = buildIdempotencyKey q ↔ same_event p q.
Proof. apply idempotency_key_iff. Qed.

Definition demo_payload : SftpgoWebhookDto :=
  mkWebhook "upload" "alice" "/srv/sftpgo/data/alice/report.csv" "/report.csv" None None None
    1024 (Some 1%Z) (Some "SFTP") None (Some "sess-1") (Some 1719800000000000000%Z) None.

Definition demo_payload2 : SftpgoWebhookDto :=
  mkWebhook "upload" "alice" "/srv/sftpgo/data/alice/report.csv" "/report.csv" None None None
    1024 (Some 1%Z) (Some "SFTP") None (Some "sess-2") (Some 1719800000000000000%Z) None.

Import Demo.

(** A toy digest that keeps its whole input. *)
Definition keeping_externals : Externals := {|
  md5_hex := text_of; sha256_hex := text_of; hmac_sha256_hex k m := k +:+ m;
  single_etag b := None; multipart_etag _ b := None;
  clamd_session _ := "stream: OK"; http_status _ _ := 200%Z |}.

Lemma idempotency_key_identifies_witness :
  ¬ @buildIdempotencyKey keeping_externals demo_payload =
    @buildIdempotencyKey keeping_externals demo_payload2.
Proof.
  intros H. apply (@idempotency_key_identifies keeping_externals demo_payload demo_payload2) in H.
  - destruct H as (_ & _ & _ & _ & H). discriminate H.
  - split_and!; reflexivity.
  - split_and!; reflexivity.
  - split; vm_compute; reflexivity.
  - split; vm_compute; reflexivity.
  - intros Hc. vm_compute in Hc. discriminate Hc.
Defined.

(** Without that restriction the key is ambiguous: the fields are joined without
    escaping, so uploads by different users at different paths can share a key whatever
    the digest, and the second is dropped as a duplicate. *)
Theorem idempotency_key_ambiguous :
  let p := mkWebhook "upload" "a" "/srv/sftpgo/data/a/f" "b|/f" None None None 1 None None None
             None None None in
  let q := mkWebhook "upload" "a|b" "/srv/sftpgo/data/ab/f" "/f" None None None 1 None None None
             None None None in
  webhook_valid p = true ∧ webhook_valid q = true ∧ wh_username p ≠ wh_username q ∧
  ∀ E : Externals, buildIdempotencyKey p = buildIdempotencyKey q.
Proof. by split_and!. Qed.

Section accept_theorems.
Context `{!Externals}.

Lemma accept_spec ic carrier p src w :
  actionable ic p = Some src →
  rg eq (λ _ _, True) (accept ic carrier p)
    (λ r w',
      match r with
      | Ok ACCEPTED => ∃ t d', created (pending_input ic p src) carrier (w_db w) d' t ∧ w' = set_db d' w
      | Ok IGNORED => False
      | _ => w' = w ∨ ∃ t d', created (pending_input ic p src) carrier (w_db w) d' t ∧ w' = set_db d' w
      end) w.
Proof.
  intros Ha. rewrite accept_unfold, Ha. rg_step.
  eapply rg_mono; [eapply all_true_guarantee, createTransferWithOutbox_spec|].
  intros [[t|]|e] w' Hw'; simpl; [rg_step|rg_step|]; naive_solver.
Qed.
End accept_theorems.

(** C20: [accept] acts only on successful uploads inside the data root, and then atomically.
    Any other event is IGNORED without a single operation.  For an actionable event,
    whatever fails, ACCEPTED means that one PENDING transfer with a source path below
    the root and its outbox event were stored; DUPLICATE or an error leaves the database
    untouched or, when an acknowledgement was lost, with exactly those two rows. *)
Theorem accept_sound `{!Externals} ic carrier p w fs :
  match actionable ic p with
  | None => run fs (accept ic carrier p) w = (Ok IGNORED, w, fs)
  | Some src =>
      below_root ic src ∧
      let stored w' := ∃ t d', created (pending_input ic p src) carrier (w_db w) d' t ∧ w' = set_db d' w in
      match outcome fs (accept ic carrier p) w with
      | Ok ACCEPTED => stored (final fs (accept ic carrier p) w)
      | Ok IGNORED => False
      | _ => final fs (accept ic carrier p) w = w ∨ stored (final fs (accept ic carrier p) w)
      end
  end.
Proof.
  destruct (actionable ic p) as [src|] eqn:Ha.
  - split.
    + unfold actionable in Ha. case_match; [|done].
      apply resolveWithinRoot_spec in Ha as (_ & _ & -> & rest & Hr & _).
      exists rest. rewrite resolve_segments. split; [done|].
      pose proof (path_segments_clean (ic_cwd ic) (wh_path p)) as Hcl. rewrite Hr in Hcl.
      by apply Forall_app in Hcl as [_ Hcl].
    + exact (seq_run _ _ _ _ fs (accept_spec ic carrier p src w Ha)).
  - by rewrite accept_unfold, Ha.
Qed.

(** *** Redelivery

    While a row with the key of an event is in the table, its delivery changes nothing,
    whatever fails, and without failures it is a DUPLICATE. *)
Lemma accept_taken `{!Externals} ic carrier p src w :
  actionable ic p = Some src → key_taken (w_db w) (buildIdempotencyKey p) = true →
  rg eq (λ _ w', w' = w) (accept ic carrier p) (λ r w', w' = w ∧ r ≠ Ok ACCEPTED ∧ r ≠ Ok IGNORED) w.
Proof.
  intros Ha Hk. rewrite accept_unfold, Ha.
  assert (Hno : ∀ t d', ¬ created (pending_input ic p src) carrier (w_db w) d' t).
  { intros t d' (id & eid & _ & _ & _ & _ & _ & Hf & _). simpl in Hf. congruence. }
  assert (Hc : rg eq (λ _ w', w' = w) (createTransferWithOutbox (pending_input ic p src) carrier)
    (λ r w', w' = w ∧ ∀ t, r ≠ Ok (Some t)) w).
  { eapply rg_mono; [eapply (seq_narrow (λ w', w' = w ∨ ∃ t d', created (pending_input ic p src) carrier (w_db w) d' t ∧ w' = set_db d' w));
      [apply createTransferWithOutbox_spec|naive_solver]|]. intros [[t|]|e] w'; naive_solver. }
  rg_step. eapply rg_mono; [exact Hc|]. intros [[t|]|e] w' [-> Ht]; [by specialize (Ht t)|by rg_step|done].
Qed.

Lemma accept_duplicate `{!Externals} ic carrier carrier' p w w2 fs :
  outcome fs (accept ic carrier p) w = Ok ACCEPTED →
  d_tenant (w_db w2) = None → key_taken (w_db w2) (buildIdempotencyKey p) = true →
  exec (accept ic carrier' p) w2 = (Ok DUPLICATE, w2).
Proof.
  intros Hout Ht Hk. destruct (actionable ic p) as [src|] eqn:Ha; last first.
  { unfold outcome in Hout. by rewrite accept_unfold, Ha in Hout. }
  pose proof (seq_run _ _ _ _ fs (accept_spec ic carrier p src w Ha)) as Hs.
  simpl in Hs. rewrite Hout in Hs. destruct Hs as (t & d' & (id & eid & -> & _ & _ & _ & _ & _ & Hc & _) & _).
  rewrite accept_unfold, Ha. unfold createTransferWithOutbox, sql.
  rewrite exec_bind, exec_catch, exec_bind, exec_call. simpl.
  unfold transact, create_statement, db_bind, insert_transfer.
  rewrite (check_transfer_id _ _ _ id (d_now (w_db w))), Hc.
  unfold tenant_isolation. rewrite Ht, orb_true_r. simpl. rewrite Hk, orb_true_r. simpl.
  by destruct w2.
Qed.

(** What an accepted event leaves in the table. *)
Lemma accepted_row `{!Externals} ic carrier p w fs :
  outcome fs (accept ic carrier p) w = Ok ACCEPTED →
  ∃ src id r, actionable ic p = Some src ∧
    d_transfers (w_db (final fs (accept ic carrier p) w)) !! id = Some r ∧ ft_idempotencyKey r = buildIdempotencyKey p.
Proof.
  intros Hout. destruct (actionable ic p) as [src|] eqn:Ha; last first.
  { unfold outcome in Hout. by rewrite accept_unfold, Ha in Hout. }
  pose proof (seq_run _ _ _ _ fs (accept_spec ic carrier p src w Ha)) as Hs.
  simpl in Hs. rewrite Hout in Hs. destruct Hs as (t & d' & (id & eid & -> & _ & _ & Hd & _) & ->).
  eexists src, id, _. split; [done|]. simpl. rewrite Hd, lookup_insert_eq. by split.
Qed.

(** A user whose name is a member of [Object.prototype] is never given the default
    tenant: with no entry in the map, the lookup finds the inherited member. *)
Theorem tenant_prototype_lookup tc :
  tc_map tc !! "constructor" = None →
  resolve_tenant tc "constructor" = "function Object() { [native code] }".
Proof. intros H. unfold resolve_tenant. by rewrite H. Qed.

Lemma tenant_prototype_lookup_witness :
  resolve_tenant (mkTenantConfig {["bob" := "acme"]} "default") "constructor"
    = "function Object() { [native code] }" ∧
  resolve_tenant (mkTenantConfig {["bob" := "acme"]} "default") "carol" = "default".
Proof.
  split; [|reflexivity].
  apply (tenant_prototype_lookup (mkTenantConfig {["bob" := "acme"]} "default")). reflexivity.
Defined.
