(* ===== verification/Quota.v ===== *)
(** * Quotas and usage metering ([quota/quota.service.ts], [quota/usage.controller.ts])

    The limit a tenant has, the usage row, the check a pipeline step makes before an
    upload and the upsert that meters a stored object.  Checked and recorded one after
    the other the limit holds; the check and the record are two statements, and
    interleaved transfers pass it together. *)
From S2P Require Import Prelude JsLang Entities Database Prog World Repository Outbox.

Record QuotaConfig := mkQuotaConfig {
  qc_defaultMaxBytes : Z;
  qc_defaultMaxObjects : Z;
  qc_map : gmap string TenantQuota;
}.

Record Quota := mkQuota { q_maxBytes : Z; q_maxObjects : Z }.
Record Usage := mkUsageNumbers { u_objectCount : Z; u_bytesStored : Z }.

(** [this.map[tenantId] ?? {}]; an inherited member has neither property. *)
Definition getQuota (qc : QuotaConfig) (tenantId : string) : Quota :=
  let t := default (mkTenantQuota None None) (qc_map qc !! tenantId) in
  mkQuota (nullish (tq_maxBytes t) (qc_defaultMaxBytes qc))
          (nullish (tq_maxObjects t) (qc_defaultMaxObjects qc)).

(** [Number(row.bytesStored)]: a [bigint] becomes a double. *)
Definition usage_numbers (row : option TenantUsage) : Usage :=
  match row with
  | Some u => mkUsageNumbers (to_double (us_objectCount u)) (to_double (us_bytesStored u))
  | None => mkUsageNumbers 0 0
  end.

Definition getUsage (tenantId : string) : P Usage :=
  row <- sql (find_usage tenantId) ;; Ret (usage_numbers row).

Definition quota_error (tenantId : string) (quota : Quota) (usage : Usage) (additionalBytes : Z)
    : option string :=
  if ((0 <? q_maxBytes quota) && (q_maxBytes quota <? to_double (u_bytesStored usage + additionalBytes)))%Z
  then Some ("Storage quota exceeded for tenant '" +:+ tenantId +:+ "': "
             +:+ number_to_string (u_bytesStored usage) +:+ "+" +:+ number_to_string additionalBytes
             +:+ " > " +:+ number_to_string (q_maxBytes quota) +:+ " bytes")
  else if ((0 <? q_maxObjects quota) && (q_maxObjects quota <? to_double (u_objectCount usage + 1)))%Z
  then Some ("Object quota exceeded for tenant '" +:+ tenantId +:+ "': "
             +:+ number_to_string (u_objectCount usage) +:+ "+1 > "
             +:+ number_to_string (q_maxObjects quota) +:+ " objects")
  else None.

Definition assertWithinQuota (qc : QuotaConfig) (tenantId : string) (additionalBytes : Z) : P unit :=
  usage <- getUsage tenantId ;;
  match quota_error tenantId (getQuota qc tenantId) usage additionalBytes with
  | Some m => Throw (NonRetryable m)
  | None => Ret tt
  end.

(** [INSERT .. ON CONFLICT (tenant_id) DO UPDATE]: one atomic statement. *)
Definition record_usage_statement (tenantId : string) (bytes_ : Z) : dbM unit := λ d,
  let u' := match d_usage d !! tenantId with
            | None => mkUsage 1 bytes_
            | Some u => mkUsage (us_objectCount u + 1) (us_bytesStored u + bytes_)
            end in
  if negb (varchar 100 tenantId) then (Err string_truncation, d)
  else if int8 (us_objectCount u') && int8 (us_bytesStored u')
  then (Ok tt, set_usage (<[tenantId := u']> (d_usage d)) d)
  else (Err out_of_range, d).

Definition recordUsage (tenantId : string) (bytes_ : Z) : P unit :=
  sql (record_usage_statement tenantId bytes_).

Definition summary (qc : QuotaConfig) (tenantId : string) : P (string * Usage * Quota) :=
  usage <- getUsage tenantId ;; Ret (tenantId, usage, getQuota qc tenantId).

(** [GET /v1/usage]: only an admin may name another tenant. *)
Definition usage_target (user : AuthUser) (tenant : option string) : string :=
  if truthy tenant && bool_decide (ADMIN ∈ au_roles user) then nullish tenant "" else au_tenantId user.

Definition usage_endpoint (qc : QuotaConfig) (user : AuthUser) (tenant : option string)
    : P (string * Usage * Quota) := summary qc (usage_target user tenant).

(** ** Facts *)
Lemma tame_record_usage t b : tame (record_usage_statement t b).
Proof. intros d. unfold record_usage_statement. by repeat case_match. Qed.
#[export] Hint Resolve tame_record_usage : bridge.

Lemma to_double_small z : (Z.abs z < 2 ^ 53)%Z → to_double z = z.
Proof. intros H. unfold to_double. by rewrite (proj2 (Z.ltb_lt _ _) H). Qed.

(** The usage of a tenant as the server stores it. *)
Definition stored_usage (d : db) (tenant : string) : TenantUsage :=
  default (mkUsage 0 0) (d_usage d !! tenant).

(** Usage and request in the range where doubles are exact. *)
Definition exact_range (u : TenantUsage) (b : Z) : Prop :=
  (0 ≤ us_objectCount u < 2 ^ 53 - 1 ∧ 0 ≤ us_bytesStored u < 2 ^ 52 ∧ 0 ≤ b < 2 ^ 52)%Z.

(** Within the limits after one more object of [b] bytes. *)
Definition fits (q : Quota) (u : TenantUsage) (b : Z) : Prop :=
  ((0 < q_maxBytes q → us_bytesStored u + b ≤ q_maxBytes q) ∧
   (0 < q_maxObjects q → us_objectCount u + 1 ≤ q_maxObjects q))%Z.

Definition within (q : Quota) (u : TenantUsage) : Prop :=
  ((0 < q_maxBytes q → us_bytesStored u ≤ q_maxBytes q) ∧
   (0 < q_maxObjects q → us_objectCount u ≤ q_maxObjects q))%Z.

Lemma usage_numbers_exact d t b :
  exact_range (stored_usage d t) b →
  usage_numbers (d_usage d !! t) =
    mkUsageNumbers (us_objectCount (stored_usage d t)) (us_bytesStored (stored_usage d t)).
Proof.
  unfold stored_usage, usage_numbers, exact_range. destruct (d_usage d !! t) as [u|]; simpl; [|done].
  intros (? & ? & ?). by rewrite !to_double_small by lia.
Qed.

Lemma quota_error_none t q u b :
  exact_range u b →
  quota_error t q (mkUsageNumbers (us_objectCount u) (us_bytesStored u)) b = None ↔ fits q u b.
Proof.
  intros (? & ? & ?). unfold quota_error, fits. simpl. rewrite !to_double_small by lia.
  destruct (Z.ltb_spec 0 (q_maxBytes q)), (Z.ltb_spec (q_maxBytes q) (us_bytesStored u + b)),
    (Z.ltb_spec 0 (q_maxObjects q)), (Z.ltb_spec (q_maxObjects q) (us_objectCount u + 1)); simpl;
    split; intros; try done; try lia; naive_solver lia.
Qed.

Lemma assertWithinQuota_exec `{!Externals} qc t b w :
  exec (assertWithinQuota qc t b) w =
  (match quota_error t (getQuota qc t) (usage_numbers (d_usage (w_db w) !! t)) b with
   | Some m => Err (NonRetryable m)
   | None => Ok tt
   end, w).
Proof.
  unfold assertWithinQuota, getUsage, sql. rewrite !exec_bind, exec_call. simpl.
  assert (Hs : set_db (set_tenant (d_tenant (w_db w)) (w_db w)) w = w) by (by destruct w as [[]]).
  rewrite Hs. change (exec (Ret ?x) ?w) with (Ok x, w). simpl. by case_match.
Qed.

Lemma set_db_same_tenant w : set_db (set_tenant (d_tenant (w_db w)) (w_db w)) w = w.
Proof. by destruct w as [[]]. Qed.

(** One transfer's use of the service: the check before the upload and the record after
    it, with nothing of the same tenant between them. *)
Definition metered (qc : QuotaConfig) (t : string) (b : Z) : P unit :=
  catch_ (assertWithinQuota qc t b ;;; recordUsage t b) (λ _, Ret tt).

(** Room for the requests still to come in the range of exact doubles. *)
Definition room (u : TenantUsage) (l : list Z) : Prop :=
  (0 ≤ us_objectCount u ∧ us_objectCount u + Z.of_nat (length l) < 2 ^ 53 ∧
   0 ≤ us_bytesStored u ∧ us_bytesStored u + foldr Z.add 0 l < 2 ^ 52 ∧
   Forall (λ b, 0 ≤ b) l)%Z.

Lemma sum_nonneg l : Forall (λ b, 0 ≤ b)%Z l → (0 ≤ foldr Z.add 0 l)%Z.
Proof. induction 1; simpl; lia. Qed.

Lemma room_exact u b l : room u (b :: l) → exact_range u b.
Proof.
  intros (? & Hc & ? & Hs & [Hb Hl]%Forall_cons). pose proof (sum_nonneg _ Hl).
  unfold exact_range. simpl in *. lia.
Qed.

Lemma room_skip u b l : room u (b :: l) → room u l.
Proof.
  intros (? & Hc & ? & Hs & [Hb Hl]%Forall_cons). unfold room. simpl in *. split_and!; (done || lia).
Qed.

Lemma record_usage_stored t b d :
  stored_usage (record_usage_statement t b d).2 t = stored_usage d t ∨
  stored_usage (record_usage_statement t b d).2 t =
    mkUsage (us_objectCount (stored_usage d t) + 1) (us_bytesStored (stored_usage d t) + b).
Proof.
  unfold record_usage_statement, stored_usage.
  destruct (d_usage d !! t) eqn:Hu; repeat case_match; simpl; rewrite ?Hu; auto; right;
    by rewrite lookup_insert_eq.
Qed.

(** What one metered transfer may do to the usage, under any fault. *)
Lemma metered_rg `{!Externals} qc t b w l :
  within (getQuota qc t) (stored_usage (w_db w) t) → room (stored_usage (w_db w) t) (b :: l) →
  rg eq (λ _ _, True) (metered qc t b)
    (λ r w', r = Ok tt ∧ within (getQuota qc t) (stored_usage (w_db w') t) ∧
             room (stored_usage (w_db w') t) l) w.
Proof.
  intros Hin Hroom. pose proof (room_exact _ _ _ Hroom) as Hex.
  pose proof (room_skip _ _ _ Hroom) as Hskip.
  unfold metered, assertWithinQuota, getUsage, recordUsage, sql.
  repeat rg_step. split; [done|].
  destruct f; unfold perform; simpl; rewrite ?set_db_same_tenant; repeat rg_step; try done.
  rewrite (usage_numbers_exact _ _ b) by done.
  destruct (quota_error t _ _ b) eqn:Hq; repeat rg_step; [done|].
  apply quota_error_none in Hq as [Hqb Hqo]; [|done]. split; [done|].
  destruct Hroom as (? & ? & ? & ? & [? ?]%Forall_cons). simpl in *.
  pose proof (record_usage_stored t b (w_db w)) as Hrec.
  assert (Hgoal : ∀ w', (stored_usage (w_db w') t = stored_usage (w_db w) t ∨
     stored_usage (w_db w') t = mkUsage (us_objectCount (stored_usage (w_db w) t) + 1)
       (us_bytesStored (stored_usage (w_db w) t) + b)) →
     within (getQuota qc t) (stored_usage (w_db w') t) ∧ room (stored_usage (w_db w') t) l).
  { intros w' [->| ->]; [done|]. unfold within, room. simpl. split_and!; (done || lia). }
  assert (Htx : stored_usage (transact (record_usage_statement t b) (w_db w)).2 t =
    stored_usage (w_db w) t ∨ stored_usage (transact (record_usage_statement t b) (w_db w)).2 t =
    mkUsage (us_objectCount (stored_usage (w_db w) t) + 1)
       (us_bytesStored (stored_usage (w_db w) t) + b)).
  { unfold transact. destruct (record_usage_statement t b (w_db w)) as [[]]; auto. }
  destruct (transact (record_usage_statement t b) (w_db w)) as [[[]|e] d'] eqn:Ht, f;
    unfold perform; simpl; rewrite ?Ht; simpl in *; repeat rg_step; auto.
Qed.

(** The quota gate is exact.  For usage and size in the range where doubles are
    exact, [assertWithinQuota] passes if and only if one more object of that size keeps
    the tenant within both limits (a limit of 0 is no limit); otherwise it throws a
    non-retryable error; it never changes anything. *)
Theorem quota_gate `{!Externals} qc t b w :
  exact_range (stored_usage (w_db w) t) b →
  (exec (assertWithinQuota qc t b) w).2 = w ∧
  ((exec (assertWithinQuota qc t b) w).1 = Ok tt ↔ fits (getQuota qc t) (stored_usage (w_db w) t) b) ∧
  (¬ fits (getQuota qc t) (stored_usage (w_db w) t) b →
     ∃ m, (exec (assertWithinQuota qc t b) w).1 = Err (NonRetryable m)).
Proof.
  intros Hex. rewrite assertWithinQuota_exec, (usage_numbers_exact _ _ b) by done.
  rewrite <- (quota_error_none t) by done.
  destruct (quota_error t _ _ b); simpl; naive_solver.
Qed.

(** Checked and recorded one at a time, the limit holds.  Any sequence of
    transfers of a tenant, each checked and then recorded before the next, with any of
    the statements failing or losing its acknowledgement, leaves the tenant within its
    quota if it was within it before. *)
Theorem quota_respected_sequentially `{!Externals} qc t l w fs :
  within (getQuota qc t) (stored_usage (w_db w) t) → room (stored_usage (w_db w) t) l →
  outcome fs (for_each l (metered qc t)) w = Ok tt ∧
  within (getQuota qc t) (stored_usage (w_db (final fs (for_each l (metered qc t)) w)) t).
Proof.
  intros Hin Hroom.
  eapply (seq_run (λ _ _, True) _
    (λ r w', r = Ok tt ∧ within (getQuota qc t) (stored_usage (w_db w') t))).
  eapply (rg_for_each eq (λ _ _, True)) with
    (I := λ l w, within (getQuota qc t) (stored_usage (w_db w) t) ∧ room (stored_usage (w_db w) t) l).
  - intros b l' w' [Hin' Hroom']. eapply rg_mono; [by apply metered_rg|].
    intros r w'' (-> & ? & ?). done.
  - intros w' [Hin' _]. by apply seq_ret.
  - done.
Qed.

Import Demo.

Definition demo_quota : QuotaConfig :=
  mkQuotaConfig 0 0 {["acme" := mkTenantQuota (Some 100%Z) None]}.

(** Two transfers of one tenant can pass the check together.  With a limit of 100
    bytes, two concurrent transfers of 60 bytes both complete their check and their
    record, and the tenant ends with 120 bytes stored. *)
Theorem quota_race :
  ∃ w', rtc pool_step ([metered demo_quota "acme" 60; metered demo_quota "acme" 60], empty_world)
                      ([Ret tt; Ret tt], w') ∧
    stored_usage (w_db w') "acme" = mkUsage 2 120 ∧
    ¬ within (getQuota demo_quota "acme") (stored_usage (w_db w') "acme").
Proof.
  eexists. split; [|split].
  - exact (schedule_steps [0; 1; 0; 1] _).
  - vm_compute. reflexivity.
  - vm_compute. intros [H _]. by specialize (H eq_refl).
Qed.

Lemma quota_gate_witness :
  (exec (assertWithinQuota demo_quota "acme" 60) empty_world).1 = Ok tt.
Proof.
  destruct (quota_gate demo_quota "acme" 60 empty_world) as (_ & [_ H] & _).
  - vm_compute. repeat split; discriminate.
  - apply H. vm_compute. repeat split; discriminate.
Defined.

Lemma quota_respected_sequentially_witness :
  within (getQuota demo_quota "acme")
    (stored_usage (w_db (final [NoFault] (for_each [60; 60; 30]%Z (metered demo_quota "acme")) empty_world)) "acme").
Proof.
  apply (quota_respected_sequentially demo_quota "acme" [60; 60; 30]%Z empty_world [NoFault]).
  - vm_compute. repeat split; discriminate.
  - split_and!; [done|vm_compute; done|done|vm_compute; done|].
    repeat constructor; discriminate.
Defined.
