(* ===== verification/Routing.v ===== *)
(** * Routing ([ingestion/routing.service.ts])

    Which bucket and key a transfer goes to: the first rule that matches decides, and
    with it the bucket, the prefix and the key [<prefix><username>/<relative path>]. *)
From S2P Require Import Prelude JsLang NodePath Entities.

Record RoutingConfig := mkRoutingConfig {
  rc_defaultBucket : string;
  rc_rules : list RoutingRule;
}.

Record RouteTarget := mkTarget { rt_bucket : string; rt_key : string }.

#[global] Instance RouteTarget_eq_dec : EqDecision RouteTarget.
Proof. solve_decision. Defined.

(** [.replace(/^\./, '')] and [.replace(/^\/+/, '')] *)
Definition drop_dot (s : string) : string :=
  match s with
  | String c s' => if Ascii.eqb c dot then s' else s
  | EmptyString => s
  end.
Definition drop_slashes (s : string) : string := strip_leading (Ascii.eqb slash) s.

(** [if (m.field && <field does not fit>) return false]: an absent or empty field
    constrains nothing. *)
Definition field_ok (field : option string) (fits : string → bool) : bool :=
  match field with
  | Some s => String.eqb s "" || fits s
  | None => true
  end.

Definition matches (rule : RoutingRule) (transfer : FileTransfer) : bool :=
  field_ok (rr_username rule) (λ u, String.eqb u (ft_username transfer))
  && field_ok (rr_extension rule) (λ e,
       String.eqb (toLowerCase (extname (ft_filename transfer))) ("." +:+ drop_dot (toLowerCase e)))
  && field_ok (rr_pathPrefix rule) (λ p, startsWith (ft_virtualPath transfer) p).

Definition rule_bucket (rc : RoutingConfig) (rule : option RoutingRule) : string :=
  or_string (r ← rule; rr_bucket r) (rc_defaultBucket rc).
Definition rule_prefix (rule : option RoutingRule) : string :=
  nullish (r ← rule; rr_prefix r) "".

Definition object_key (prefix : string) (transfer : FileTransfer) : string :=
  prefix +:+ ft_username transfer +:+ "/" +:+ drop_slashes (ft_virtualPath transfer).

Definition resolve_route (rc : RoutingConfig) (transfer : FileTransfer) : RouteTarget :=
  let rule := List.find (λ r, matches r transfer) (rc_rules rc) in
  mkTarget (rule_bucket rc rule) (object_key (rule_prefix rule) transfer).

(** ** Facts *)
Lemma find_first {A} (p : A → bool) l x :
  List.find p l = Some x →
  ∃ i, l !! i = Some x ∧ p x = true ∧ ∀ j y, j < i → l !! j = Some y → p y = false.
Proof.
  induction l as [|y l IH]; simpl; [done|]. destruct (p y) eqn:Hy.
  - intros. simplify_eq. exists 0. split_and!; [done|done|lia].
  - intros (i & Hi & Hp & Hlt)%IH. exists (S i). split_and!; [done|done|].
    intros [|j] z Hj; simpl; [by intros; simplify_eq|]. intros. eapply Hlt; [|done]. lia.
Qed.

(** The first matching rule decides.  [resolve] uses the bucket and the prefix of
    the first rule of the configuration that matches the transfer, the default bucket
    and no prefix when none does. *)
Theorem resolve_first_match rc t :
  (∃ i r, rc_rules rc !! i = Some r ∧ matches r t = true ∧
     (∀ j r', j < i → rc_rules rc !! j = Some r' → matches r' t = false) ∧
     resolve_route rc t = mkTarget (or_string (rr_bucket r) (rc_defaultBucket rc))
                                   (object_key (nullish (rr_prefix r) "") t)) ∨
  ((∀ r, r ∈ rc_rules rc → matches r t = false) ∧
   resolve_route rc t = mkTarget (rc_defaultBucket rc) (object_key "" t)).
Proof.
  unfold resolve_route. destruct (List.find _ _) as [r|] eqn:Hf.
  - left. destruct (find_first _ _ _ Hf) as (i & Hi & Hm & Hlt). by exists i, r.
  - right. split; [|done]. intros r Hr%list_elem_of_In. by apply (find_none _ _ Hf).
Qed.

(** Uploads of different users never share an object key.  Under one prefix, two
    transfers get the same key only if they have the same user and the same virtual path
    up to its leading slashes; user names contain no slash. *)
Theorem object_key_separates_users prefix t t' :
  no_char slash (ft_username t) = true → no_char slash (ft_username t') = true →
  object_key prefix t = object_key prefix t' →
  ft_username t = ft_username t' ∧
  drop_slashes (ft_virtualPath t) = drop_slashes (ft_virtualPath t').
Proof. intros Hu Hu' Hk%string_app_inj_l. by apply (before_char_inj slash). Qed.

Definition demo_transfer (user path file : string) : FileTransfer :=
  mkFileTransfer "t1" "k1" file path "/srv/data/f" None "default" "3" None None false None
    TransferStatus.PENDING 0 None "acme" user None None 0 0.

Definition demo_routing : RoutingConfig :=
  mkRoutingConfig "default"
    [mkRule None (Some ".CSV") None (Some "reports") (Some "csv/");
     mkRule (Some "ann") None (Some "/in") None (Some "ann-in/")].

Lemma object_key_separates_users_witness :
  ft_username (demo_transfer "ann" "//a.csv" "a.csv") = ft_username (demo_transfer "ann" "/a.csv" "a.csv") ∧
  drop_slashes "//a.csv" = drop_slashes "/a.csv".
Proof.
  apply (object_key_separates_users "x/" (demo_transfer "ann" "//a.csv" "a.csv")
           (demo_transfer "ann" "/a.csv" "a.csv")); reflexivity.
Defined.

Example resolve_route_examples :
  resolve_route demo_routing (demo_transfer "bob" "/in/a.Csv" "a.Csv") = mkTarget "reports" "csv/bob/in/a.Csv" ∧
  resolve_route demo_routing (demo_transfer "ann" "/in/a.txt" "a.txt") = mkTarget "default" "ann-in/ann/in/a.txt" ∧
  resolve_route demo_routing (demo_transfer "bob" "/in/a.txt" "a.txt") = mkTarget "default" "bob/in/a.txt".
Proof. vm_compute. done. Qed.
