(* ===== verification/Dynamic.v ===== *)
(** * The JSON-valued configuration, as the services read it

    [ROUTING_RULES], [TENANT_MAP] and [TENANT_QUOTAS] are parsed and cast to their
    interfaces without a check ([config/configuration.ts]); the services then read fields
    of whatever the text held.  Here the services run on the parsed values themselves, with
    JavaScript's property access and conversions.  On values that conform to the
    interfaces they agree with the typed definitions of [Routing], [Ingestion] and
    [Quota]; the theorems at the end say what happens on others. *)
From Stdlib Require Import QArith.
From S2P Require Import Prelude JsLang Numbers Json Config NodePath Entities Database Prog World Repository Outbox.
From S2P Require Import Ingestion Quota Routing.
#[local] Open Scope bool_scope.

(** ** Values *)
Inductive jsval :=
  | Undefined
  | Val (v : json)
  | Inherited (name : string).   (** a member of a prototype *)

(** The own property of an object: the last of the text wins. *)
Fixpoint own (l : list (string * json)) (name : string) : option json :=
  match l with
  | [] => None
  | (k, v) :: l' => match own l' name with
                    | Some x => Some x
                    | None => if String.eqb k name then Some v else None
                    end
  end.

Definition type_error (message : string) : exn := Infra (Infra_error "TypeError" message None None).

Definition or_undefined (o : option json) : jsval := match o with Some v => Val v | None => Undefined end.

(** [v.name] for the names of the interfaces' fields: of these only [match] is a member of a
    prototype, [String.prototype]. *)
Definition field (v : jsval) (name : string) : result jsval :=
  match v with
  | Undefined => Err (type_error ("Cannot read properties of undefined (reading '" +:+ name +:+ "')"))
  | Val JNull => Err (type_error ("Cannot read properties of null (reading '" +:+ name +:+ "')"))
  | Val (JObject l) => Ok (or_undefined (own l name))
  | Val (JString _) => Ok (if String.eqb name "match" then Inherited name else Undefined)
  | _ => Ok Undefined
  end.

(** [v ?? {}] *)
Definition or_empty (v : jsval) : jsval :=
  match v with Undefined | Val JNull => Val (JObject []) | _ => v end.

(** [Boolean(v)] *)
Definition js_truthy (v : jsval) : bool :=
  match v with
  | Undefined | Val JNull => false
  | Val (JBool b) => b
  | Val (JNumber (Finite q)) => negb (Qeq_bool q 0)
  | Val (JNumber NaN) => false
  | Val (JString s) => negb (String.eqb s "")
  | _ => true
  end.

(** [String(v)] *)
Fixpoint json_text (v : json) : string :=
  match v with
  | JNull => "null"
  | JBool b => json_bool b
  | JNumber n => number_text n
  | JString s => s
  | JArray l => join "," (map (λ x, match x with JNull => "" | _ => json_text x end) l)
  | JObject _ => "[object Object]"
  end.

Definition js_text (v : jsval) : string :=
  match v with
  | Undefined => "undefined"
  | Val v => json_text v
  | Inherited name => nullish (inherited name) (native_function name)
  end.

Definition result_bind {A B} (r : result A) (f : A → result B) : result B :=
  match r with Ok a => f a | Err e => Err e end.

(** ** Routing on the parsed rules ([ingestion/routing.service.ts]) *)
Definition dyn_matches (rule : json) (transfer : FileTransfer) : result bool :=
  result_bind (field (Val rule) "match") (λ m0,
  let m := or_empty m0 in
  result_bind (field m "username") (λ u,
  if js_truthy u && negb match u with Val (JString s) => String.eqb s (ft_username transfer) | _ => false end
  then Ok false
  else
    result_bind (field m "extension") (λ e,
    result_bind
      (if js_truthy e
       then match e with
            | Val (JString s) =>
                Ok (String.eqb (toLowerCase (extname (ft_filename transfer))) ("." +:+ drop_dot (toLowerCase s)))
            | _ => Err (type_error "m.extension.toLowerCase is not a function")
            end
       else Ok true) (λ fits : bool,
    if negb fits then Ok false
    else
      result_bind (field m "pathPrefix") (λ p,
      if js_truthy p && negb (startsWith (ft_virtualPath transfer) (js_text p)) then Ok false
      else Ok true))))).

(** [rules.find] *)
Fixpoint dyn_find (rules : list json) (transfer : FileTransfer) : result (option json) :=
  match rules with
  | [] => Ok None
  | r :: rules' =>
      result_bind (dyn_matches r transfer) (λ b : bool, if b then Ok (Some r) else dyn_find rules' transfer)
  end.

(** [rule?.name] *)
Definition optional_field (rule : option json) (name : string) : result jsval :=
  match rule with Some r => field (Val r) name | None => Ok Undefined end.

(** The bucket is whatever the rule holds. *)
Definition dyn_resolve (defaultBucket : string) (rules : list json) (transfer : FileTransfer)
    : result (jsval * string) :=
  result_bind (dyn_find rules transfer) (λ rule,
  result_bind (optional_field rule "bucket") (λ b,
  result_bind (optional_field rule "prefix") (λ p,
  let bucket := if js_truthy b then b else Val (JString defaultBucket) in
  let prefix := match p with Undefined | Val JNull => "" | _ => js_text p end in
  Ok (bucket, object_key prefix transfer)))).

(** *** The interface [RoutingRule] *)
Definition text_or_absent (l : list (string * json)) (name : string) : bool :=
  match own l name with None | Some JNull | Some (JString _) => true | _ => false end.
Definition text_of_field (l : list (string * json)) (name : string) : option string :=
  match own l name with Some (JString s) => Some s | _ => None end.

(** The fields under [match], if the value of [match] is absent or an object. *)
Definition match_fields (l : list (string * json)) : option (list (string * json)) :=
  match own l "match" with
  | None | Some JNull => Some []
  | Some (JObject m) => Some m
  | _ => None
  end.

Definition conforms_rule (rule : json) : bool :=
  match rule with
  | JObject l =>
      match match_fields l with
      | Some m => text_or_absent m "username" && text_or_absent m "extension" && text_or_absent m "pathPrefix"
                  && text_or_absent l "bucket" && text_or_absent l "prefix"
      | None => false
      end
  | _ => false
  end.

Definition decode_rule (rule : json) : RoutingRule :=
  match rule with
  | JObject l =>
      let m := default [] (match_fields l) in
      mkRule (text_of_field m "username") (text_of_field m "extension") (text_of_field m "pathPrefix")
             (text_of_field l "bucket") (text_of_field l "prefix")
  | _ => mkRule None None None None None
  end.

(** A conforming field as JavaScript sees it. *)
Lemma text_field l name :
  text_or_absent l name = true →
  (text_of_field l name = None ∧ js_truthy (or_undefined (own l name)) = false ∧
     match or_undefined (own l name) with Undefined | Val JNull => True | _ => False end) ∨
  (∃ s, text_of_field l name = Some s ∧ or_undefined (own l name) = Val (JString s)).
Proof. unfold text_or_absent, text_of_field. destruct (own l name) as [[]|]; simpl; naive_solver. Qed.

Lemma or_empty_match l m : match_fields l = Some m → or_empty (or_undefined (own l "match")) = Val (JObject m).
Proof. unfold match_fields. destruct (own l "match") as [[]|]; simpl; intros; by simplify_eq. Qed.

(** Each test of [matches] on such a field is the typed test. *)
Lemma username_test l t :
  text_or_absent l "username" = true → let u := or_undefined (own l "username") in
  js_truthy u && negb match u with Val (JString s) => String.eqb s (ft_username t) | _ => false end =
  negb (field_ok (text_of_field l "username") (λ u, String.eqb u (ft_username t))).
Proof.
  intros Hx. cbv zeta. destruct (text_field _ _ Hx) as [(-> & -> & _)|(u & -> & ->)]; simpl; [done|].
  by destruct (String.eqb u "").
Qed.

Lemma extension_test l (fits : string → bool) e :
  text_or_absent l "extension" = true → let v := or_undefined (own l "extension") in
  (if js_truthy v then match v with Val (JString s) => Ok (fits s) | _ => Err e end else Ok true) =
  Ok (field_ok (text_of_field l "extension") fits).
Proof.
  intros Hx. cbv zeta. destruct (text_field _ _ Hx) as [(-> & -> & _)|(u & -> & ->)]; simpl; [done|].
  by destruct (String.eqb u "").
Qed.

Lemma prefix_test l t :
  text_or_absent l "pathPrefix" = true → let p := or_undefined (own l "pathPrefix") in
  js_truthy p && negb (startsWith (ft_virtualPath t) (js_text p)) =
  negb (field_ok (text_of_field l "pathPrefix") (λ p, startsWith (ft_virtualPath t) p)).
Proof.
  intros Hx. cbv zeta. destruct (text_field _ _ Hx) as [(-> & -> & _)|(u & -> & ->)]; simpl; [done|].
  by destruct (String.eqb u "").
Qed.

Lemma conforming_matches rule t :
  conforms_rule rule = true → dyn_matches rule t = Ok (matches (decode_rule rule) t).
Proof.
  destruct rule as [| | | | |l]; try done. cbn [conforms_rule decode_rule].
  destruct (match_fields l) as [m|] eqn:Hm; [|done]. change (default [] (Some m)) with m.
  rewrite !andb_true_iff. intros ((((Hu & He) & Hp) & _) & _).
  unfold dyn_matches. cbn [field result_bind]. rewrite (or_empty_match l m Hm). cbn [field result_bind].
  unfold matches. cbn [rr_username rr_extension rr_pathPrefix].
  rewrite (username_test m t Hu), (extension_test m _ _ He). cbn [result_bind]. rewrite (prefix_test m t Hp).
  by destruct (field_ok _ _), (field_ok _ _), (field_ok _ _).
Qed.

Lemma bucket_value l d :
  text_or_absent l "bucket" = true → let b := or_undefined (own l "bucket") in
  (if js_truthy b then b else Val (JString d)) = Val (JString (or_string (text_of_field l "bucket") d)).
Proof.
  intros Hx. cbv zeta. destruct (text_field _ _ Hx) as [(-> & -> & _)|(u & -> & ->)]; simpl; [done|].
  by destruct (String.eqb u "").
Qed.

Lemma prefix_value l :
  text_or_absent l "prefix" = true → let p := or_undefined (own l "prefix") in
  match p with Undefined | Val JNull => "" | _ => js_text p end = nullish (text_of_field l "prefix") "".
Proof.
  intros Hx. cbv zeta. destruct (text_field _ _ Hx) as [(-> & _ & Hn)|(u & -> & ->)]; [|done].
  by destruct (or_undefined (own l "prefix")) as [|[]|].
Qed.

Lemma conforming_find rules t :
  forallb conforms_rule rules = true →
  ∃ o, dyn_find rules t = Ok o ∧ decode_rule <$> o = List.find (λ r, matches r t) (map decode_rule rules) ∧
    match o with Some r => conforms_rule r = true | None => True end.
Proof.
  induction rules as [|r rules IH]; simpl; [by exists None|]. intros [Hr Hl]%andb_true_iff.
  rewrite (conforming_matches r t Hr). simpl. destruct (matches (decode_rule r) t); [by exists (Some r)|]. by apply IH.
Qed.

(** C39: On rules that conform to their interface, routing is the typed routing.  If every
    parsed rule is an object whose [match] is absent or an object, and whose fields are
    absent or texts, resolving a transfer on the parsed JSON throws nothing and gives the
    bucket and key of [resolve_route] on the decoded rules. *)
Theorem typed_rules_route bucket rules t :
  forallb conforms_rule rules = true →
  let target := resolve_route (mkRoutingConfig bucket (map decode_rule rules)) t in
  dyn_resolve bucket rules t = Ok (Val (JString (rt_bucket target)), rt_key target).
Proof.
  intros Hc target. destruct (conforming_find rules t Hc) as (o & Hf & Hd & Ho).
  unfold dyn_resolve, target, resolve_route. rewrite Hf. simpl. rewrite <- Hd. unfold rule_bucket, rule_prefix.
  destruct o as [rule|]; [|done]. destruct rule as [| | | | |l]; try done.
  cbn [conforms_rule] in Ho. cbn [optional_field field result_bind fmap option_fmap option_map mbind option_bind decode_rule rr_bucket rr_prefix rc_defaultBucket].
  destruct (match_fields l) as [m|]; [|done]. rewrite !andb_true_iff in Ho. destruct Ho as ((_ & Hb) & Hp).
  by rewrite (bucket_value l bucket Hb), (prefix_value l Hp).
Qed.

(** A rule that is [null], reached because no earlier rule matches, makes routing throw. *)
Lemma find_app pre post t : dyn_find pre t = Ok None → dyn_find (pre ++ post) t = dyn_find post t.
Proof.
  induction pre as [|r pre IH]; [done|]. simpl. destruct (dyn_matches r t) as [[]|]; simpl; done || apply IH.
Qed.

Theorem null_rule_stops_routing bucket pre post t :
  dyn_find pre t = Ok None →
  dyn_resolve bucket (pre ++ JNull :: post) t =
    Err (type_error "Cannot read properties of null (reading 'match')").
Proof. intros Hp. unfold dyn_resolve. by rewrite find_app. Qed.

(** ** The tenant map and the quotas ([tenancy/tenant.service.ts], [quota/quota.service.ts]) *)

(** The members of [Array.prototype] that [Object.prototype] does not have. *)
Definition array_members : list string :=
  ["at"; "concat"; "copyWithin"; "entries"; "every"; "fill"; "filter"; "find"; "findIndex"; "findLast";
   "findLastIndex"; "flat"; "flatMap"; "forEach"; "includes"; "indexOf"; "join"; "keys"; "lastIndexOf"; "map";
   "pop"; "push"; "reduce"; "reduceRight"; "reverse"; "shift"; "slice"; "some"; "sort"; "splice"; "toReversed";
   "toSorted"; "toSpliced"; "unshift"; "values"; "with"].

Definition prototype_member (key : string) : jsval :=
  match inherited key with Some _ => Inherited key | None => Undefined end.

(** [map[key]]; what was parsed is an object or an array. *)
Definition entry_of (m : json) (key : string) : jsval :=
  match m with
  | JObject l => match own l key with Some v => Val v | None => prototype_member key end
  | JArray l =>
      match List.find (λ p, String.eqb (pretty p.1) key) (imap pair l) with
      | Some p => Val p.2
      | None => if String.eqb key "length" then Val (JNumber (Finite (inject_Z (Z.of_nat (length l)))))
                else if existsb (String.eqb key) array_members then Inherited key else prototype_member key
      end
  | _ => Undefined
  end.

Definition dyn_tenant (m : json) (defaultTenant username : string) : jsval :=
  match entry_of m username with
  | Undefined | Val JNull => Val (JString defaultTenant)
  | v => v
  end.

(** [t.name ?? fallback] for [t = map[tenantId] ?? {}]; [t] is never nullish. *)
Definition dyn_limit (m : json) (fallback : js_number) (tenantId name : string) : jsval :=
  match field (or_empty (entry_of m tenantId)) name with
  | Ok Undefined | Ok (Val JNull) | Err _ => Val (JNumber fallback)
  | Ok v => v
  end.

(** [Number(v)] *)
Definition js_numeric (v : jsval) : js_number :=
  match v with
  | Val JNull => Finite 0
  | Val (JBool b) => Finite (if b then 1 else 0)
  | Val (JNumber n) => n
  | Val (JString s) => Number s
  | Val (JArray l) => Number (json_text (JArray l))
  | Val (JObject _) | Undefined | Inherited _ => NaN
  end.

(** [a < b] on numbers *)
Definition js_lt (a b : js_number) : bool :=
  match a, b with
  | NaN, _ | _, NaN => false
  | Finite x, Finite y => negb (Qle_bool y x)
  | Infinity na, Infinity nb => na && negb nb
  | Infinity na, Finite _ => na
  | Finite _, Infinity nb => negb nb
  end.

(** [limit > 0 && needed > limit] *)
Definition over (limit : jsval) (needed : Z) : bool :=
  let n := js_numeric limit in js_lt (Finite 0) n && js_lt n (Finite (inject_Z needed)).

(** Whether [assertWithinQuota] throws. *)
Definition dyn_exceeds (m : json) (maxBytes maxObjects : js_number) (tenantId : string) (usage : Usage)
    (additionalBytes : Z) : bool :=
  over (dyn_limit m maxBytes tenantId "maxBytes") (to_double (u_bytesStored usage + additionalBytes)%Z)
  || over (dyn_limit m maxObjects tenantId "maxObjects") (to_double (u_objectCount usage + 1)%Z).

(** *** The interfaces *)
Definition integer_or_absent (l : list (string * json)) (name : string) : bool :=
  match own l name with
  | None | Some JNull => true
  | Some (JNumber (Finite q)) => (Qden q =? 1)%positive
  | _ => false
  end.
Definition integer_of_field (l : list (string * json)) (name : string) : option Z :=
  match own l name with Some (JNumber (Finite q)) => Some (Qnum q) | _ => None end.

Definition conforms_quota (v : json) : bool :=
  match v with
  | JObject e => integer_or_absent e "maxBytes" && integer_or_absent e "maxObjects"
  | _ => false
  end.
Definition decode_quota (v : json) : TenantQuota :=
  match v with
  | JObject e => mkTenantQuota (integer_of_field e "maxBytes") (integer_of_field e "maxObjects")
  | _ => mkTenantQuota None None
  end.

Definition is_text (v : json) : bool := match v with JString _ => true | _ => false end.

(** A parsed object as a map, later entries overriding. *)
Definition decode_map {A} (f : json → A) (l : list (string * json)) : gmap string A :=
  foldl (λ m p, <[p.1 := f p.2]> m) ∅ l.

Lemma decode_map_lookup {A} (f : json → A) l k : decode_map f l !! k = f <$> own l k.
Proof.
  unfold decode_map. enough (Hg : ∀ m : gmap string A,
    foldl (λ m p, <[p.1 := f p.2]> m) m l !! k = match own l k with Some v => Some (f v) | None => m !! k end).
  { rewrite Hg, lookup_empty. by destruct (own l k). }
  induction l as [|[k' v] l IH]; intros m; simpl; [done|]. rewrite IH.
  destruct (own l k); [done|]. destruct (String.eqb_spec k' k) as [->|Hne].
  - by rewrite lookup_insert_eq.
  - by rewrite lookup_insert_ne.
Qed.

Lemma own_elem l k v : own l k = Some v → (k, v) ∈ l.
Proof.
  induction l as [|[k' v'] l IH]; simpl; [done|]. destruct (own l k); [intros; simplify_eq; right; auto|].
  destruct (String.eqb_spec k' k) as [->|]; [|done]. intros [= ->]. left.
Qed.

Lemma own_conforms (c : json → bool) l k v : forallb (λ p, c p.2) l = true → own l k = Some v → c v = true.
Proof.
  intros Hl Hv%own_elem. rewrite forallb_forall in Hl. specialize (Hl (k, v)). apply Hl.
  by apply list_elem_of_In.
Qed.

Lemma js_lt_integers a b : js_lt (Finite (inject_Z a)) (Finite (inject_Z b)) = (a <? b)%Z.
Proof.
  unfold js_lt, Qle_bool. cbn [Qnum Qden inject_Z]. rewrite !Z.mul_1_r.
  destruct (Z.ltb_spec a b), (Z.leb_spec b a); simpl; lia || done.
Qed.

Lemma over_integer z needed : over (Val (JNumber (Finite (inject_Z z)))) needed = ((0 <? z) && (z <? needed))%Z.
Proof. unfold over. cbn [js_numeric]. change (Finite 0) with (Finite (inject_Z 0)). by rewrite !js_lt_integers. Qed.

Lemma limit_typed l fallback tenantId name (f : TenantQuota → option Z) :
  forallb (λ p, conforms_quota p.2) l = true → inherited tenantId = None →
  (∀ e, conforms_quota (JObject e) = true → integer_or_absent e name = true ∧
        f (decode_quota (JObject e)) = integer_of_field e name) → f (mkTenantQuota None None) = None →
  dyn_limit (JObject l) (Finite (inject_Z fallback)) tenantId name =
    Val (JNumber (Finite (inject_Z (nullish
      (f (default (mkTenantQuota None None) (decode_map decode_quota l !! tenantId))) fallback)))).
Proof.
  intros Hl Hin Hf Hnone. unfold dyn_limit, entry_of, prototype_member. rewrite Hin, decode_map_lookup.
  destruct (own l tenantId) as [v|] eqn:Hv; simpl; [|by rewrite Hnone].
  pose proof (own_conforms conforms_quota l tenantId v Hl Hv) as Hc.
  destruct v as [| | | | |e]; try done. destruct (Hf e Hc) as [Hi ->]. simpl.
  unfold integer_or_absent, integer_of_field in *. destruct (own e name) as [[| |[| |q]| | |]|]; try done. simpl.
  destruct q as [n d]. simpl in *. by destruct d.
Qed.

(** On quotas that conform to their interface, the check on the parsed JSON is the typed
    check.  If every entry of [TENANT_QUOTAS] is an object whose limits are absent or
    integers, a transfer exceeds the quota on the parsed map exactly when [quota_error]
    rejects it on the decoded one. *)
Theorem typed_quotas_agree l maxBytes maxObjects tenantId usage additionalBytes :
  forallb (λ p, conforms_quota p.2) l = true → inherited tenantId = None →
  dyn_exceeds (JObject l) (Finite (inject_Z maxBytes)) (Finite (inject_Z maxObjects)) tenantId usage additionalBytes =
  bool_decide (is_Some (quota_error tenantId
    (getQuota (mkQuotaConfig maxBytes maxObjects (decode_map decode_quota l)) tenantId) usage additionalBytes)).
Proof.
  intros Hl Hin. unfold dyn_exceeds.
  rewrite (limit_typed l maxBytes tenantId "maxBytes" tq_maxBytes Hl Hin), (limit_typed l maxObjects tenantId
    "maxObjects" tq_maxObjects Hl Hin); [|by intros e [??]%andb_true_iff|done|by intros e [??]%andb_true_iff|done].
  rewrite !over_integer. unfold quota_error, getQuota. cbn [q_maxBytes q_maxObjects qc_map qc_defaultMaxBytes qc_defaultMaxObjects].
  destruct (_ && _)%Z; [by rewrite bool_decide_eq_true_2 by eauto|]. simpl.
  destruct (_ && _)%Z; [by rewrite bool_decide_eq_true_2 by eauto|]. by rewrite bool_decide_eq_false_2 by (by intros []).
Qed.

(** A limit that is no number limits nothing: the comparison with NaN is false. *)
Theorem unreadable_limit_is_unlimited s needed : Number s = NaN → over (Val (JString s)) needed = false.
Proof. intros Hs. unfold over. simpl. by rewrite Hs. Qed.

(** On a tenant map of texts the service returns the typed tenant. *)
Theorem typed_tenants_agree l d username :
  forallb (λ p, is_text p.2) l = true →
  js_text (dyn_tenant (JObject l) d username) =
    resolve_tenant (mkTenantConfig (decode_map json_text l) d) username.
Proof.
  intros Hl. unfold dyn_tenant, entry_of, prototype_member, resolve_tenant. simpl. rewrite decode_map_lookup.
  destruct (own l username) as [v|] eqn:Hv; simpl.
  - pose proof (own_conforms is_text l username v Hl Hv) as Ht. by destruct v.
  - destruct (inherited username) as [t|] eqn:Hin; [|done]. simpl. by rewrite Hin.
Qed.

(** ** Witnesses *)
Definition demo_rules : list json :=
  [JObject [("match", JObject [("username", JString "bob")]); ("bucket", JString "bobs")];
   JObject [("match", JObject [("extension", JString ".CSV")]); ("bucket", JString "tables"); ("prefix", JString "in/")]].

Definition demo_upload : FileTransfer :=
  mkFileTransfer "t1" "k1" "a.csv" "/x/a.csv" "/srv/data/f" None "default" "2" None None false None
    TransferStatus.PENDING 0 None "acme" "ann" None None 0 0.

(** The rules as the environment holds them, read back by the factory. *)
Example rules_from_environment :
  parseRoutingRules (Some (stringify (JArray demo_rules))) = Some demo_rules ∧
  parseRoutingRules (Some "[null]") = Some [JNull] ∧ parseRoutingRules (Some "oops") = Some [].
Proof. by vm_compute. Qed.

Lemma typed_rules_route_witness :
  dyn_resolve "default" demo_rules demo_upload = Ok (Val (JString "tables"), "in/ann/x/a.csv").
Proof. exact (typed_rules_route "default" demo_rules demo_upload eq_refl). Defined.

Lemma null_rule_stops_routing_witness :
  dyn_resolve "default" [JNull] demo_upload = Err (type_error "Cannot read properties of null (reading 'match')").
Proof. exact (null_rule_stops_routing "default" [] [] demo_upload eq_refl). Defined.

Lemma typed_quotas_agree_witness :
  let l := [("acme", JObject [("maxBytes", JNumber (Finite (inject_Z 100)))])] in
  dyn_exceeds (JObject l) (Finite 0) (Finite 0) "acme" (mkUsageNumbers 1 90) 11 = true.
Proof.
  intros l. change (Finite 0) with (Finite (inject_Z 0)).
  rewrite (typed_quotas_agree l 0 0 "acme" (mkUsageNumbers 1 90) 11 eq_refl eq_refl). vm_compute. reflexivity.
Defined.

(** A quota of [10GB] lets a tenant store any number of bytes. *)
Lemma unreadable_limit_is_unlimited_witness :
  over (dyn_limit (JObject [("acme", JObject [("maxBytes", JString "10GB")])]) (Finite (inject_Z 5)) "acme" "maxBytes")
    (10 ^ 15) = false.
Proof. exact (unreadable_limit_is_unlimited "10GB" (10 ^ 15) eq_refl). Defined.
