(* ===== verification/Storage.v ===== *)
(** * Object storage ([storage/storage.service.ts])

    The facade over the S3 client: one [PutObject] for a known size up to a part, a
    managed multipart upload otherwise, the destination bucket created on demand.
    [s3_only] and [only_object] say what these operations may touch; the theorems:
    a successful upload stored exactly the bytes the body yields under the target key,
    and no upload, failed or not, disturbs another object. *)
From S2P Require Import Prelude JsLang Entities Database Prog World.

Record StorageConfig := mkStorageConfig {
  sc_bucket : string;
  sc_partSizeBytes : Z;
}.

Record UploadResult := mkUploadResult {
  ur_bucket : string;
  ur_key : string;
  ur_etag : option string;
}.

(** The body is a stream: reading it is part of the upload. *)
Record UploadParams := mkUploadParams {
  up_key : string;
  up_body : P bytes;
  up_contentLength : option Z;
  up_contentType : option string;
  up_bucket : option string;
}.

Definition quote_char : Ascii.ascii := Ascii.ascii_of_nat 34.
Definition normalizeEtag (etag : option string) : option string := remove_char quote_char <$> etag.

Definition isNotFound (e : exn) : bool :=
  String.eqb (exn_name e) "NotFound"
  || match e with Infra i => bool_decide (ie_status i = Some 404%Z) | _ => false end.

Definition ensureBucket (bucket : string) : P unit :=
  catch_ (call (HeadBucket bucket))
         (λ e, if isNotFound e then call (CreateBucket bucket) else Throw e).

Definition uploadStream (sc : StorageConfig) (params : UploadParams) : P UploadResult :=
  let size := nullish (up_contentLength params) 0%Z in
  let bucket := nullish (up_bucket params) (sc_bucket sc) in
  (if String.eqb bucket (sc_bucket sc) then Ret tt else ensureBucket bucket) ;;;
  if ((0 <? size) && (size <=? sc_partSizeBytes sc))%Z then
    body <- up_body params ;;
    etag <- call (PutObject bucket (up_key params) body size (up_contentType params)) ;;
    Ret (mkUploadResult bucket (up_key params) (normalizeEtag etag))
  else
    body <- up_body params ;;
    etag <- call (MultipartUpload (sc_partSizeBytes sc) bucket (up_key params) body (up_contentType params)) ;;
    Ret (mkUploadResult bucket (up_key params) (normalizeEtag etag)).

Definition getObject (bucket key : string) : P (bytes * option string) :=
  o <- call (GetObject bucket key) ;; Ret (o_body o, o_contentType o).

Definition objectExists (sc : StorageConfig) (key : string) : P bool :=
  catch_ (call (HeadObject (sc_bucket sc) key) ;;; Ret true)
         (λ e, if isNotFound e then Ret false else Throw e).

Definition checkBucket (sc : StorageConfig) : P unit := call (HeadBucket (sc_bucket sc)).

(** ** What an upload may touch *)

(** Only the object store differs, and in it only the object [bucket]/[key]; buckets
    do not disappear. *)
Definition only_object (bucket key : string) (w w' : world) : Prop :=
  w' = set_s3 (w_s3 w') w ∧
  (∀ b k, (b, k) ≠ (bucket, key) → lookup_object (w_s3 w') b k = lookup_object (w_s3 w) b k) ∧
  (∀ b, is_Some (w_s3 w !! b) → is_Some (w_s3 w' !! b)).

#[export] Instance only_object_preorder b k : PreOrder (only_object b k).
Proof.
  split.
  - intros w. split_and!; [by destruct w|done|done].
  - intros w1 w2 w3 (H1 & Ho1 & Hb1) (H2 & Ho2 & Hb2). split_and!.
    + rewrite H2 at 1. rewrite H1. by destruct w1.
    + intros b' k' Hne. rewrite Ho2, Ho1; auto.
    + auto.
Qed.

Lemma lookup_object_insert s bucket key o objs b k :
  s !! bucket = Some objs →
  lookup_object (<[bucket := <[key := o]> objs]> s) b k =
    if decide ((b, k) = (bucket, key)) then Some o else lookup_object s b k.
Proof.
  intros Hb. unfold lookup_object. destruct (decide (b = bucket)) as [->|Hne].
  - rewrite lookup_insert_eq, Hb. simpl. destruct (decide (k = key)) as [->|Hk].
    + rewrite lookup_insert_eq. by rewrite decide_True.
    + rewrite lookup_insert_ne by done. rewrite decide_False; [done|congruence].
  - rewrite lookup_insert_ne by done. rewrite decide_False; [done|congruence].
Qed.

Section upload.
Context `{!Externals}.

Lemma put_object_only w b k o : only_object b k w (put_object w b k o).2.
Proof.
  unfold put_object. destruct (w_s3 w !! b) as [objs|] eqn:Hb; simpl; [|reflexivity].
  split_and!; [done| |].
  - intros b' k' Hne. simpl. erewrite lookup_object_insert by done. by rewrite decide_False.
  - intros b' Hb'. simpl. destruct (decide (b = b')) as [<-|]; [by rewrite lookup_insert_eq|].
    by rewrite lookup_insert_ne.
Qed.

Lemma create_bucket_only w b k bucket : only_object b k w (handle (CreateBucket bucket) w).2.
Proof.
  simpl. destruct (w_s3 w !! bucket) eqn:Hb; simpl; [reflexivity|].
  split_and!; [done| |].
  - intros b' k' _. unfold lookup_object. simpl. destruct (decide (bucket = b')) as [<-|].
    + by rewrite lookup_insert_eq, Hb.
    + by rewrite lookup_insert_ne.
  - intros b' Hb'. simpl. destruct (decide (bucket = b')) as [<-|]; [by rewrite lookup_insert_eq|].
    by rewrite lookup_insert_ne.
Qed.

(** The operations an upload to [bucket]/[key] may perform besides reading its body. *)
Definition upload_op (bucket key : string) {X} (op : eff X) : Prop :=
  match op with
  | PutObject b k _ _ _ | MultipartUpload _ b k _ _ => b = bucket ∧ k = key
  | HeadBucket _ | CreateBucket _ | ReadFile _ => True
  | _ => False
  end.

Lemma upload_op_only b k {X} (op : eff X) f w :
  upload_op b k op → only_object b k w (perform f op w).2.
Proof.
  intros Hop.
  assert (Hh : only_object b k w (handle op w).2).
  { destruct op; simpl in Hop |- *; try done.
    - by repeat case_match.
    - by case_match.
    - apply create_bucket_only.
    - destruct Hop as [-> ->]. case_match; [apply put_object_only|reflexivity].
    - destruct Hop as [-> ->]. apply put_object_only. }
  unfold perform. destruct (fallible op); [|done]. by destruct f.
Qed.

(** A body read from a file and transformed on the way. *)
Definition file_body (path : string) (g : bytes → bytes) : P bytes :=
  c <- call (ReadFile path) ;; Ret (g c).

Definition target_bucket (sc : StorageConfig) (params : UploadParams) : string :=
  nullish (up_bucket params) (sc_bucket sc).
Definition single_put (sc : StorageConfig) (params : UploadParams) : bool :=
  let size := nullish (up_contentLength params) 0%Z in
  ((0 <? size) && (size <=? sc_partSizeBytes sc))%Z.

(** The object an upload of [c] leaves behind. *)
Definition uploaded (sc : StorageConfig) (params : UploadParams) (body : bytes) : s3_object :=
  mkObject body (up_contentType params)
    (if single_put sc params then single_etag body else multipart_etag (sc_partSizeBytes sc) body).

Definition put_op (sc : StorageConfig) (params : UploadParams) (body : bytes) : eff (option string) :=
  if single_put sc params
  then PutObject (target_bucket sc params) (up_key params) body
         (nullish (up_contentLength params) 0%Z) (up_contentType params)
  else MultipartUpload (sc_partSizeBytes sc) (target_bucket sc params) (up_key params) body
         (up_contentType params).

(** [uploadStream], its two branches read as one. *)
Lemma uploadStream_unfold sc params :
  uploadStream sc params =
    ((if String.eqb (target_bucket sc params) (sc_bucket sc) then Ret tt
      else ensureBucket (target_bucket sc params)) ;;;
     body <- up_body params ;;
     etag <- call (put_op sc params body) ;;
     Ret (mkUploadResult (target_bucket sc params) (up_key params) (normalizeEtag etag))).
Proof.
  unfold uploadStream, put_op, single_put, target_bucket.
  by destruct ((0 <? nullish (up_contentLength params) 0) && _)%Z.
Qed.

Lemma put_op_upload sc params body :
  upload_op (target_bucket sc params) (up_key params) (put_op sc params body).
Proof. unfold put_op. by destruct (single_put sc params). Qed.

(** A write that succeeded left its object. *)
Lemma put_op_stored sc params body f w etag :
  (perform f (put_op sc params body) w).1 = Ok etag →
  etag = o_etag (uploaded sc params body) ∧
  lookup_object (w_s3 (perform f (put_op sc params body) w).2) (target_bucket sc params) (up_key params)
    = Some (uploaded sc params body).
Proof.
  assert (Hput : ∀ o e, (put_object w (target_bucket sc params) (up_key params) o).1 = Ok e →
    e = o_etag o ∧ lookup_object (w_s3 (put_object w (target_bucket sc params) (up_key params) o).2)
      (target_bucket sc params) (up_key params) = Some o).
  { intros o e. unfold put_object. destruct (w_s3 w !! target_bucket sc params) eqn:Hb; simpl; [|done].
    intros [= <-]. split; [done|]. erewrite lookup_object_insert by done. by rewrite decide_True. }
  unfold put_op, uploaded, perform.
  destruct (single_put sc params), f; simpl; try done; try case_match; try done; apply Hput.
Qed.

Lemma ensureBucket_ops bucket key b :
  all_ops (@upload_op bucket key) (ensureBucket b).
Proof. unfold ensureBucket. repeat ops_step; done. Qed.

Lemma uploadStream_rg sc params path g w :
  up_body params = file_body path g →
  rg eq (only_object (target_bucket sc params) (up_key params)) (uploadStream sc params)
    (λ r w', only_object (target_bucket sc params) (up_key params) w w' ∧
       ∀ res, r = Ok res → ∃ c, w_fs w !! path = Some (RegularFile c) ∧
         lookup_object (w_s3 w') (target_bucket sc params) (up_key params)
           = Some (uploaded sc params (g c)) ∧
         res = mkUploadResult (target_bucket sc params) (up_key params)
                 (normalizeEtag (o_etag (uploaded sc params (g c))))) w.
Proof.
  intros Hbody. rewrite uploadStream_unfold, Hbody. rg_step.
  eapply rg_mono with (Q := λ _ w', only_object (target_bucket sc params) (up_key params) w w').
  { eapply (all_ops_rg_trans (@upload_op (target_bucket sc params) (up_key params)));
      [apply _| | | |reflexivity].
    - by intros w1 ? <-.
    - intros. by apply upload_op_only.
    - destruct (String.eqb _ _); [done|apply ensureBucket_ops]. }
  intros [[]|e] w1 Hw1; [|done].
  unfold file_body. rg_step. rg_step. rg_step.
  pose proof (upload_op_only (target_bucket sc params) (up_key params) (ReadFile path) f w1 I) as Hr.
  split; [done|].
  assert (Hread : (perform f (ReadFile path) w1).2 = w1 ∧ ∀ c,
    (perform f (ReadFile path) w1).1 = Ok c → w_fs w !! path = Some (RegularFile c)).
  { destruct Hw1 as (-> & _). unfold perform. simpl.
    destruct (w_fs w !! path) as [[c|]|], f; simpl; split; intros; by simplify_eq. }
  destruct Hread as [-> Hc]. destruct (perform f (ReadFile path) w1).1 as [c|e]; simpl; repeat rg_step; [|done].
  specialize (Hc c eq_refl).
  pose proof (upload_op_only _ _ _ f0 w1 (put_op_upload sc params (g c))) as Hp. split; [done|].
  pose proof (put_op_stored sc params (g c) f0 w1) as Hst.
  destruct (perform f0 _ w1) as [[etag|e] w2]; simpl in *; repeat rg_step;
    (split; [by etrans|]); [|done].
  destruct (Hst etag eq_refl) as [-> Hl]. intros res [= <-]. eauto.
Qed.
End upload.

(** The bucket an upload writes to exists, or is one it creates. *)
Definition bucket_ready (sc : StorageConfig) (params : UploadParams) (w : world) : Prop :=
  target_bucket sc params = sc_bucket sc → is_Some (w_s3 w !! sc_bucket sc).

Lemma ensure_exec `{!Externals} sc params w :
  bucket_ready sc params w →
  ∃ w', exec (if String.eqb (target_bucket sc params) (sc_bucket sc) then Ret tt
              else ensureBucket (target_bucket sc params)) w = (Ok tt, w') ∧
    w_fs w' = w_fs w ∧ is_Some (w_s3 w' !! target_bucket sc params).
Proof.
  intros Hready. destruct (String.eqb_spec (target_bucket sc params) (sc_bucket sc)) as [Heq|Hne].
  { exists w. split_and!; [done|done|]. rewrite Heq. auto. }
  unfold ensureBucket. rewrite exec_catch, exec_call. simpl.
  destruct (w_s3 w !! target_bucket sc params) as [objs|] eqn:Hb; simpl.
  - exists w. eauto.
  - rewrite exec_call. simpl. rewrite Hb. eexists. split_and!; [done|done|].
    simpl. by rewrite lookup_insert_eq.
Qed.

(** Uploads touch one object.  Whatever fails and wherever the process
    dies, [uploadStream] changes nothing but the object under its bucket and key (and may
    create that bucket); when it returns, that object holds the bytes the body
    produced from the file, with the content type given, and the answer names it. *)
Theorem uploadStream_writes_only_target `{!Externals} sc params path g w fs n :
  up_body params = file_body path g →
  let p := uploadStream sc params in
  only_object (target_bucket sc params) (up_key params) w (crash n fs p w) ∧
  only_object (target_bucket sc params) (up_key params) w (final fs p w) ∧
  ∀ res, outcome fs p w = Ok res → ∃ c,
    w_fs w !! path = Some (RegularFile c) ∧
    lookup_object (w_s3 (final fs p w)) (ur_bucket res) (ur_key res) = Some (uploaded sc params (g c)) ∧
    ur_bucket res = target_bucket sc params ∧ ur_key res = up_key params ∧
    ur_etag res = normalizeEtag (o_etag (uploaded sc params (g c))).
Proof.
  intros Hbody p. pose proof (uploadStream_rg sc params path g w Hbody) as Hrg. split_and!.
  - exact (rg_crash_trans eq _ _ _ w n fs Hrg).
  - exact (rg_final_trans eq _ _ _ w fs Hrg).
  - intros res Hres. pose proof (seq_run _ _ _ _ fs Hrg) as [_ Hq].
    destruct (Hq res Hres) as (c & Hc & Hl & ->). by exists c.
Qed.

Lemma uploadStream_exec `{!Externals} sc params path g w c :
  up_body params = file_body path g → bucket_ready sc params w →
  w_fs w !! path = Some (RegularFile c) →
  (single_put sc params = true → up_contentLength params = Some (Z.of_nat (length (g c)))) →
  let r := exec (uploadStream sc params) w in
  r.1 = Ok (mkUploadResult (target_bucket sc params) (up_key params)
              (normalizeEtag (o_etag (uploaded sc params (g c))))) ∧
  lookup_object (w_s3 r.2) (target_bucket sc params) (up_key params) = Some (uploaded sc params (g c)).
Proof.
  intros Hbody Hready Hfs Hlen. destruct (ensure_exec sc params w Hready) as (w1 & Hens & Hf & [objs Hb]).
  rewrite uploadStream_unfold, Hbody. cbv zeta. rewrite exec_bind, Hens. unfold file_body.
  rewrite !exec_bind, exec_call. simpl. rewrite Hf, Hfs. simpl.
  change (exec (Ret (g c)) w1) with (Ok (g c), w1). rewrite exec_bind, exec_call.
  assert (Hh : handle (put_op sc params (g c)) w1 =
    put_object w1 (target_bucket sc params) (up_key params) (uploaded sc params (g c))).
  { unfold put_op, uploaded. destruct (single_put sc params); simpl; [|done].
    rewrite Hlen by done. simpl. by rewrite Z.eqb_refl. }
  rewrite Hh. unfold put_object. rewrite Hb. simpl. split; [done|].
  erewrite lookup_object_insert by done. by rewrite decide_True.
Qed.

(** Uploads succeed.  With the source readable, the default bucket present (any
    other one is created) and, for a single [PutObject], a body of the declared length,
    [uploadStream] returns and the object is stored. *)
Theorem uploadStream_succeeds `{!Externals} sc params path g w c :
  up_body params = file_body path g → bucket_ready sc params w →
  w_fs w !! path = Some (RegularFile c) →
  (single_put sc params = true → up_contentLength params = Some (Z.of_nat (length (g c)))) →
  let r := exec (uploadStream sc params) w in
  r.1 = Ok (mkUploadResult (target_bucket sc params) (up_key params)
              (normalizeEtag (o_etag (uploaded sc params (g c))))) ∧
  lookup_object (w_s3 r.2) (target_bucket sc params) (up_key params) = Some (uploaded sc params (g c)).
Proof. apply uploadStream_exec. Qed.

(** [objectExists] answers for the default bucket and changes nothing: true exactly
    when the object is there, false also when the bucket is missing. *)
Theorem objectExists_spec `{!Externals} sc key w :
  exec (objectExists sc key) w =
    (Ok (bool_decide (is_Some (lookup_object (w_s3 w) (sc_bucket sc) key))), w).
Proof.
  unfold objectExists. rewrite exec_catch, exec_bind, exec_call. simpl.
  by destruct (lookup_object (w_s3 w) (sc_bucket sc) key).
Qed.

Import Demo.

Definition demo_storage : StorageConfig := mkStorageConfig "default" 8.
Definition demo_params : UploadParams :=
  mkUploadParams "ann/a.txt" (file_body "/srv/data/a.txt" (λ c, c)) (Some 2%Z) (Some "text/plain") (Some "new").
Definition file_world : world :=
  set_fs {["/srv/data/a.txt" := RegularFile [Byte.x61; Byte.x62]]} empty_world.

Lemma uploadStream_writes_only_target_witness :
  only_object "new" "ann/a.txt" file_world
    (final [FailAfter (Infra_error "Error" "reset" None None)] (uploadStream demo_storage demo_params) file_world).
Proof.
  exact (proj1 (proj2 (uploadStream_writes_only_target demo_storage demo_params "/srv/data/a.txt" (λ c, c)
    file_world [FailAfter (Infra_error "Error" "reset" None None)] 0 eq_refl))).
Defined.

Lemma uploadStream_succeeds_witness :
  lookup_object (w_s3 (exec (uploadStream demo_storage demo_params) file_world).2) "new" "ann/a.txt"
    = Some (mkObject [Byte.x61; Byte.x62] (Some "text/plain") (Some "md5:97.98")).
Proof.
  refine (eq_trans (proj2 (uploadStream_succeeds demo_storage demo_params "/srv/data/a.txt" (λ c, c)
    file_world [Byte.x61; Byte.x62] eq_refl _ eq_refl (λ _, eq_refl))) _); [|reflexivity].
  intros H. discriminate H.
Defined.
