(* ===== verification/Crypto.v ===== *)
(** * Envelope encryption ([crypto/crypto.service.ts])

    Every object is encrypted with AES-256-GCM under a fresh data key (DEK); the data
    key is wrapped with the master key (KEK) and kept, base64-coded, with the transfer.
    The object layout is [IV(12) || ciphertext || tag(16)].

    AES and GHASH are Node's: [Gcm] has the key stream of a key and IV (GCM encrypts by
    exclusive-or with it, NIST SP 800-38D) and the authentication tag as parameters.
    The streaming transforms are state machines over the chunks they receive; the
    theorems show that chunking does not matter, that what is encrypted decrypts to
    itself, and that decryption succeeds exactly when the tag is the right one. *)
From S2P Require Import Prelude JsLang Entities Database Prog World.

Class Gcm := {
  gcm_keystream : bytes → bytes → nat → Byte.byte;  (** key, IV, position *)
  gcm_tag : bytes → bytes → bytes → bytes;          (** key, IV, ciphertext *)
}.

(** The tag GCM computes has 16 bytes. *)
Class GcmLaws `{!Gcm} : Prop := {
  gcm_tag_length : ∀ k iv c, length (gcm_tag k iv c) = 16;
}.

Definition IV_LEN : nat := 12.
Definition TAG_LEN : nat := 16.
Definition overheadBytes : Z := Z.of_nat (IV_LEN + TAG_LEN).

(** ** Bytes and buffers *)
Definition ascii_xor (a b : Ascii.ascii) : Ascii.ascii :=
  match a, b with
  | Ascii.Ascii a0 a1 a2 a3 a4 a5 a6 a7, Ascii.Ascii b0 b1 b2 b3 b4 b5 b6 b7 =>
      Ascii.Ascii (xorb a0 b0) (xorb a1 b1) (xorb a2 b2) (xorb a3 b3)
                  (xorb a4 b4) (xorb a5 b5) (xorb a6 b6) (xorb a7 b7)
  end.
Definition byte_xor (a b : Byte.byte) : Byte.byte :=
  Ascii.byte_of_ascii (ascii_xor (Ascii.ascii_of_byte a) (Ascii.ascii_of_byte b)).

(** [buf.subarray(start, end)]: negative offsets count from the end, both are clamped. *)
Definition clamp_offset (len o : Z) : Z :=
  if (o <? 0)%Z then Z.max 0 (len + o) else Z.min o len.
Definition subarray (b : bytes) (start end_ : Z) : bytes :=
  let len := Z.of_nat (length b) in
  let s := clamp_offset len start in
  let e := clamp_offset len end_ in
  take (Z.to_nat (e - s)) (drop (Z.to_nat s) b).
Definition subarray_from (b : bytes) (start : Z) : bytes := subarray b start (Z.of_nat (length b)).

(** *** Base64 *)
Definition base64_char (n : N) : Ascii.ascii :=
  Ascii.ascii_of_N (if n <? 26 then 65 + n else if n <? 52 then 71 + n
    else if n <? 62 then n - 4 else if n =? 62 then 43 else 47)%N.

(** The value of a digit; the URL alphabet is accepted too. *)
Definition base64_value (c : Ascii.ascii) : option N :=
  let n := Ascii.N_of_ascii c in
  (if (65 <=? n) && (n <=? 90) then Some (n - 65)
   else if (97 <=? n) && (n <=? 122) then Some (n - 71)
   else if (48 <=? n) && (n <=? 57) then Some (n + 4)
   else if (n =? 43) || (n =? 45) then Some 62
   else if (n =? 47) || (n =? 95) then Some 63
   else None)%N.

Definition byte_val (b : Byte.byte) : N := Ascii.N_of_ascii (Ascii.ascii_of_byte b).
Definition val_byte (n : N) : Byte.byte := Ascii.byte_of_ascii (Ascii.ascii_of_N n).

Fixpoint base64_encode (l : bytes) : string :=
  match l with
  | [] => ""
  | [a] =>
      let n := (byte_val a * 16)%N in
      String (base64_char (n / 64)) (String (base64_char (n mod 64)) "==")
  | [a; b] =>
      let n := ((byte_val a * 256 + byte_val b) * 4)%N in
      String (base64_char (n / 4096)) (String (base64_char (n / 64 mod 64))
        (String (base64_char (n mod 64)) "="))
  | a :: b :: c :: l' =>
      let n := ((byte_val a * 256 + byte_val b) * 256 + byte_val c)%N in
      String (base64_char (n / 262144)) (String (base64_char (n / 4096 mod 64))
        (String (base64_char (n / 64 mod 64)) (String (base64_char (n mod 64)) (base64_encode l'))))
  end.

(** The digits of the text: up to the first [=], other characters skipped. *)
Fixpoint base64_digits (s : string) : list N :=
  match s with
  | EmptyString => []
  | String c s' =>
      if Ascii.eqb c "="%char then []
      else match base64_value c with
           | Some v => v :: base64_digits s'
           | None => base64_digits s'
           end
  end.

Fixpoint undigits (l : list N) : bytes :=
  match l with
  | a :: b :: c :: d :: l' =>
      let n := (((a * 64 + b) * 64 + c) * 64 + d)%N in
      val_byte (n / 65536) :: val_byte (n / 256 mod 256) :: val_byte (n mod 256) :: undigits l'
  | [a; b; c] =>
      let n := ((a * 64 + b) * 64 + c)%N in
      [val_byte (n / 1024); val_byte (n / 4 mod 256)]
  | [a; b] => [val_byte ((a * 64 + b) / 16)]
  | _ => []
  end.

Definition base64_decode (s : string) : bytes := undigits (base64_digits s).

(** ** Node's cipher objects *)
Definition node_error (name message : string) : exn := Infra (Infra_error name message None None).

(** [createCipheriv] and [createDecipheriv] check the key and the IV. *)
Definition check_cipher (key iv : bytes) : result unit :=
  if negb (length key =? 32)%nat then Err (node_error "RangeError" "Invalid key length")
  else if (length iv =? 0)%nat then Err (node_error "TypeError" "Invalid initialization vector")
  else Ok tt.

(** [setAuthTag] accepts the tag lengths of GCM. *)
Definition check_tag (tag : bytes) : result unit :=
  let n := length tag in
  if ((n =? 4) || (n =? 8) || ((12 <=? n) && (n <=? 16)))%nat then Ok tt
  else Err (node_error "TypeError" ("Invalid authentication tag length: " +:+ pretty n)).

Section cipher.
Context `{!Gcm}.

(** Encrypting or decrypting from a position of the key stream on. *)
Definition ctr (k iv : bytes) (pos : nat) (l : bytes) : bytes :=
  imap (λ i b, byte_xor b (gcm_keystream k iv (pos + i))) l.

(** [decipher.final()] for the ciphertext fed and the tag set. *)
Definition decipher_final (k iv text tag : bytes) : result unit :=
  if bool_decide (tag = take (length tag) (gcm_tag k iv text)) then Ok tt
  else Err (node_error "Error" "Unsupported state or unable to authenticate data").

(** *** The encrypting transform *)
Record enc_stream := mkEncStream {
  es_dek : bytes;
  es_iv : bytes;
  es_ivEmitted : bool;
  es_text : bytes;        (** ciphertext produced so far *)
}.

Definition enc_transform (st : enc_stream) (chunk : bytes) : bytes * enc_stream :=
  let out := ctr (es_dek st) (es_iv st) (length (es_text st)) chunk in
  ((if es_ivEmitted st then [] else es_iv st) ++ out,
   mkEncStream (es_dek st) (es_iv st) true (es_text st ++ out)).

Definition enc_flush (st : enc_stream) : bytes :=
  (if es_ivEmitted st then [] else es_iv st) ++ gcm_tag (es_dek st) (es_iv st) (es_text st).

Fixpoint encrypt_all (st : enc_stream) (chunks : list bytes) : bytes :=
  match chunks with
  | [] => enc_flush st
  | c :: cs => let '(out, st') := enc_transform st c in out ++ encrypt_all st' cs
  end.

(** *** The decrypting transform: the bytes it pushed, and how it ended *)
Record dec_stream := mkDecStream {
  ds_dek : bytes;
  ds_decipher : option (bytes * bytes);   (** IV and ciphertext fed *)
  ds_buffered : bytes;
}.

(** The part of [transform] after the decipher exists. *)
Definition dec_feed (dek iv text buffered : bytes) : bytes * dec_stream :=
  if (TAG_LEN <? length buffered)%nat then
    let n := (length buffered - TAG_LEN)%nat in
    let feed := take n buffered in
    (ctr dek iv (length text) feed, mkDecStream dek (Some (iv, text ++ feed)) (drop n buffered))
  else ([], mkDecStream dek (Some (iv, text)) buffered).

Definition dec_transform (st : dec_stream) (chunk : bytes) : result (bytes * dec_stream) :=
  let buffered := ds_buffered st ++ chunk in
  match ds_decipher st with
  | Some (iv, text) => Ok (dec_feed (ds_dek st) iv text buffered)
  | None =>
      if (length buffered <? IV_LEN)%nat then Ok ([], mkDecStream (ds_dek st) None buffered)
      else
        let iv := take IV_LEN buffered in
        match check_cipher (ds_dek st) iv with
        | Err e => Err e
        | Ok _ => Ok (dec_feed (ds_dek st) iv [] (drop IV_LEN buffered))
        end
  end.

Definition dec_flush (st : dec_stream) : result unit :=
  match ds_decipher st with
  | None => Err (plain_error "ciphertext too short")
  | Some (iv, text) =>
      match check_tag (ds_buffered st) with
      | Err e => Err e
      | Ok _ => decipher_final (ds_dek st) iv text (ds_buffered st)
      end
  end.

Fixpoint decrypt_all (st : dec_stream) (chunks : list bytes) : bytes * result unit :=
  match chunks with
  | [] => ([], dec_flush st)
  | c :: cs =>
      match dec_transform st c with
      | Err e => ([], Err e)
      | Ok (out, st') => let '(rest, r) := decrypt_all st' cs in (out ++ rest, r)
      end
  end.

(** *** Whole buffers *)
Definition decrypt_buffer (key b : bytes) : result bytes :=
  let len := Z.of_nat (length b) in
  let iv := subarray b 0 (Z.of_nat IV_LEN) in
  let tag := subarray_from b (len - Z.of_nat TAG_LEN) in
  let text := subarray b (Z.of_nat IV_LEN) (len - Z.of_nat TAG_LEN) in
  match check_cipher key iv with
  | Err e => Err e
  | Ok _ =>
      match check_tag tag with
      | Err e => Err e
      | Ok _ =>
          match decipher_final key iv text tag with
          | Err e => Err e
          | Ok _ => Ok (ctr key iv 0 text)
          end
      end
  end.
End cipher.

(** ** The service *)
Record CryptoConfig := mkCryptoConfig {
  cc_enabled : bool;
  cc_kek : option bytes;
}.

(** The constructor: [encryption.enabled] and [encryption.kek] of the configuration. *)
Definition crypto_init (enabled : bool) (kek : option string) : result CryptoConfig :=
  let with_kek (k : option bytes) :=
    if enabled && bool_decide (k = None)
    then Err (plain_error "ENCRYPTION_ENABLED but ENCRYPTION_KEK is not set")
    else Ok (mkCryptoConfig enabled k) in
  match kek with
  | Some s =>
      if String.eqb s "" then with_kek None
      else if negb (length (base64_decode s) =? 32)%nat
      then Err (plain_error "ENCRYPTION_KEK must decode to 32 bytes (base64)")
      else with_kek (Some (base64_decode s))
  | None => with_kek None
  end.

Definition no_key : exn :=
  node_error "TypeError" "The key argument must be of type string or an instance of Buffer. Received undefined".

Section service.
Context `{!Gcm}.

Definition wrapDek (cc : CryptoConfig) (dek : bytes) : P string :=
  iv <- call (RandomBytes IV_LEN) ;;
  match cc_kek cc with
  | None => Throw no_key
  | Some kek =>
      of_result (check_cipher kek iv) ;;;
      let enc := ctr kek iv 0 dek in
      Ret (base64_encode (iv ++ enc ++ gcm_tag kek iv enc))
  end.

Definition unwrapDek (cc : CryptoConfig) (wrapped : string) : result bytes :=
  match cc_kek cc with
  | None => Err no_key
  | Some kek => decrypt_buffer kek (base64_decode wrapped)
  end.

Definition createEncryptStream (cc : CryptoConfig) : P (enc_stream * string) :=
  dek <- call (RandomBytes 32) ;;
  iv <- call (RandomBytes IV_LEN) ;;
  of_result (check_cipher dek iv) ;;;
  wrapped <- wrapDek cc dek ;;
  Ret (mkEncStream dek iv false [], wrapped).

Definition createDecryptStream (cc : CryptoConfig) (wrapped : string) : result dec_stream :=
  match unwrapDek cc wrapped with
  | Err e => Err e
  | Ok dek => Ok (mkDecStream dek None [])
  end.

Definition decrypt (cc : CryptoConfig) (encrypted : bytes) (wrapped : string) : result bytes :=
  match unwrapDek cc wrapped with
  | Err e => Err e
  | Ok dek => decrypt_buffer dek encrypted
  end.
End service.

(** ** Facts: bytes, base64 *)
Lemma byte_xor_involutive a b : byte_xor (byte_xor a b) b = a.
Proof.
  unfold byte_xor. rewrite Ascii.ascii_of_byte_of_ascii.
  rewrite <- (Ascii.byte_of_ascii_of_byte a) at 2. f_equal.
  generalize (Ascii.ascii_of_byte a) as x, (Ascii.ascii_of_byte b) as y. intros [] [].
  simpl. f_equal; by rewrite xorb_assoc, xorb_nilpotent, xorb_false_r.
Qed.

Lemma byte_val_bound b : (byte_val b < 256)%N.
Proof. apply Ascii.N_ascii_bounded. Qed.

Lemma val_byte_val b : val_byte (byte_val b) = b.
Proof. unfold val_byte, byte_val. by rewrite Ascii.ascii_N_embedding, Ascii.byte_of_ascii_of_byte. Qed.

Lemma base64_char_cases (n : N) :
  (n < 64)%N → Ascii.eqb (base64_char n) "="%char = false ∧ base64_value (base64_char n) = Some n.
Proof.
  intros Hn.
  assert (Hall : forallb (λ k, negb (Ascii.eqb (base64_char (N.of_nat k)) "="%char) &&
    bool_decide (base64_value (base64_char (N.of_nat k)) = Some (N.of_nat k))) (seq 0 64) = true)
    by (vm_compute; reflexivity).
  rewrite forallb_forall in Hall. specialize (Hall (N.to_nat n)).
  rewrite N2Nat.id in Hall. apply andb_true_iff in Hall as [He Hv].
  - split; [by apply negb_true_iff|by apply bool_decide_eq_true in Hv].
  - apply in_seq. lia.
Qed.

Lemma base64_digits_char n s : (n < 64)%N → base64_digits (String (base64_char n) s) = n :: base64_digits s.
Proof. intros Hn. destruct (base64_char_cases n Hn) as [He Hv]. simpl. by rewrite He, Hv. Qed.

Ltac div_bounds := zify; Z.to_euclidean_division_equations; lia.

Lemma list_ind3 {A} (Q : list A → Prop) :
  Q [] → (∀ a, Q [a]) → (∀ a b, Q [a; b]) → (∀ a b c l, Q l → Q (a :: b :: c :: l)) → ∀ l, Q l.
Proof.
  intros H0 H1 H2 H3. fix IH 1. intros [|a [|b [|c l]]]; [exact H0|apply H1|apply H2|apply H3, IH].
Qed.

Lemma val_byte_eq n b : n = byte_val b → val_byte n = b.
Proof. intros ->. apply val_byte_val. Qed.

Lemma base64_roundtrip l : base64_decode (base64_encode l) = l.
Proof.
  unfold base64_decode. induction l as [|a|a b|a b c l IH] using list_ind3; [done|..];
    pose proof (byte_val_bound a); try pose proof (byte_val_bound b); try pose proof (byte_val_bound c);
    cbn [base64_encode]; rewrite !base64_digits_char by div_bounds;
    try change (base64_digits "==") with (@nil N); try change (base64_digits "=") with (@nil N);
    cbn [undigits]; rewrite ?IH;
    repeat (apply (f_equal2 cons); [apply val_byte_eq; div_bounds|]); done.
Qed.

(** ** Facts: the transforms *)
Section facts.
Context `{!Gcm}.

Lemma ctr_length k iv pos l : length (ctr k iv pos l) = length l.
Proof. apply length_imap. Qed.

Lemma ctr_app k iv pos l l' :
  ctr k iv pos (l ++ l') = ctr k iv pos l ++ ctr k iv (pos + length l) l'.
Proof.
  unfold ctr. rewrite imap_app. f_equal. apply imap_ext. intros i x _. simpl. f_equal. f_equal. lia.
Qed.

Lemma ctr_involutive k iv pos l : ctr k iv pos (ctr k iv pos l) = l.
Proof.
  apply list_eq. intros i. unfold ctr. rewrite !list_lookup_imap.
  destruct (l !! i); simpl; [|done]. by rewrite byte_xor_involutive.
Qed.

(** What the encrypting transform emits, from any of its states. *)
Lemma encrypt_all_spec st cs :
  encrypt_all st cs =
    (if es_ivEmitted st then [] else es_iv st) ++
    ctr (es_dek st) (es_iv st) (length (es_text st)) (concat cs) ++
    gcm_tag (es_dek st) (es_iv st)
      (es_text st ++ ctr (es_dek st) (es_iv st) (length (es_text st)) (concat cs)).
Proof.
  revert st. induction cs as [|c cs IH]; intros st; simpl.
  - unfold enc_flush. by rewrite app_nil_r.
  - rewrite IH. simpl. rewrite length_app, ctr_length, ctr_app, <- !app_assoc. done.
Qed.

(** The end of a decryption whose remaining input is [all]: everything but the last 16
    bytes is ciphertext, the rest is the tag. *)
Definition dec_rest (dek iv text all : bytes) : bytes * result unit :=
  let n := (length all - TAG_LEN)%nat in
  (ctr dek iv (length text) (take n all),
   match check_tag (drop n all) with
   | Err e => Err e
   | Ok _ => decipher_final dek iv (text ++ take n all) (drop n all)
   end).

Definition prepend (out : bytes) (r : bytes * result unit) : bytes * result unit := (out ++ r.1, r.2).

Lemma decrypt_all_started dek iv cs text b :
  prepend (dec_feed dek iv text b).1 (decrypt_all (dec_feed dek iv text b).2 cs)
    = dec_rest dek iv text (b ++ concat cs).
Proof.
  revert text b. induction cs as [|c cs IH]; intros text b; unfold dec_feed.
  - rewrite app_nil_r. unfold prepend, dec_rest.
    destruct (Nat.ltb_spec TAG_LEN (length b)) as [Hlt|Hle]; simpl.
    + by rewrite app_nil_r.
    + replace (length b - TAG_LEN)%nat with 0%nat by lia. by rewrite drop_0, app_nil_r.
  - destruct (Nat.ltb_spec TAG_LEN (length b)) as [Hlt|Hle]; simpl.
    + set (n := (length b - TAG_LEN)%nat).
      specialize (IH (text ++ take n b) (drop n b ++ c)).
      unfold prepend in IH |- *. destruct (dec_feed dek iv (text ++ take n b) (drop n b ++ c)) as [out st].
      simpl in *. destruct (decrypt_all st cs) as [rest r]. simpl in *. unfold dec_rest in *.
      rewrite length_app in *.
      assert (Hlen : (length ((drop n b ++ c) ++ concat cs) - TAG_LEN)%nat
        = (length b + length (c ++ concat cs) - TAG_LEN - n)%nat).
      { rewrite !length_app, length_drop. unfold n. lia. }
      rewrite Hlen in IH. injection IH as Ho Hr. rewrite Ho, Hr, <- app_assoc.
      assert (Hsplit : b ++ c ++ concat cs = take n b ++ drop n b ++ c ++ concat cs)
        by (by rewrite (app_assoc (take n b)), take_drop).
      assert (Hn : length (take n b) = n) by (rewrite length_take; unfold n; lia).
      set (all := drop n b ++ c ++ concat cs) in *. rewrite Hsplit.
      set (m := (length b + length (c ++ concat cs) - TAG_LEN)%nat) in *.
      assert (Hm : (n ≤ m)%nat) by (unfold n, m; lia).
      rewrite take_app, drop_app, Hn. rewrite (take_ge (take n b)) by lia.
      rewrite (drop_ge (take n b)) by lia. simpl. rewrite ctr_app, app_assoc, Hn.
      done.
    + specialize (IH text (b ++ c)). unfold prepend in IH |- *.
      destruct (dec_feed dek iv text (b ++ c)) as [out st]. simpl in *.
      destruct (decrypt_all st cs) as [rest r]. simpl in *. by rewrite <- app_assoc in IH.
Qed.

Lemma decrypt_all_fresh dek cs b :
  (length b < IV_LEN)%nat →
  decrypt_all (mkDecStream dek None b) cs =
    let all := b ++ concat cs in
    if (length all <? IV_LEN)%nat then ([], Err (plain_error "ciphertext too short"))
    else match check_cipher dek (take IV_LEN all) with
         | Err e => ([], Err e)
         | Ok _ => dec_rest dek (take IV_LEN all) [] (drop IV_LEN all)
         end.
Proof.
  revert b. induction cs as [|c cs IH]; intros b Hb; cbv zeta.
  - simpl. rewrite app_nil_r. by rewrite (proj2 (Nat.ltb_lt _ _) Hb).
  - simpl. unfold dec_transform. simpl.
    destruct (Nat.ltb_spec (length (b ++ c)) IV_LEN) as [Hlt|Hge].
    + rewrite IH by done. cbv zeta. rewrite <- app_assoc.
      destruct (length (b ++ c ++ concat cs) <? IV_LEN)%nat; [done|].
      destruct (check_cipher _ _); [|done]. by destruct (dec_rest _ _ _ _).
    + assert (Ht : take IV_LEN (b ++ c ++ concat cs) = take IV_LEN (b ++ c))
        by (rewrite app_assoc; by apply take_app_le).
      assert (Hd : drop IV_LEN (b ++ c ++ concat cs) = drop IV_LEN (b ++ c) ++ concat cs)
        by (rewrite app_assoc; by apply drop_app_le).
      rewrite Ht, Hd. destruct (Nat.ltb_spec (length (b ++ c ++ concat cs)) IV_LEN) as [Hbad|_].
      { rewrite !length_app in *. lia. }
      destruct (check_cipher dek (take IV_LEN (b ++ c))) as [[]|e]; [|done].
      rewrite <- decrypt_all_started. unfold prepend.
      destruct (dec_feed _ _ _ _) as [out st]. simpl. by destruct (decrypt_all st cs).
Qed.

(** The encryption of a plaintext as one expression. *)
Definition sealed (k iv p : bytes) : bytes :=
  iv ++ ctr k iv 0 p ++ gcm_tag k iv (ctr k iv 0 p).

Lemma encrypt_sealed dek iv cs : encrypt_all (mkEncStream dek iv false []) cs = sealed dek iv (concat cs).
Proof. by rewrite encrypt_all_spec. Qed.

(** [decrypt_buffer] on a buffer long enough for IV and tag. *)
Lemma decrypt_buffer_long k b :
  (IV_LEN + TAG_LEN ≤ length b)%nat →
  decrypt_buffer k b =
    match check_cipher k (take IV_LEN b) with
    | Err e => Err e
    | Ok _ =>
        let '(out, r) := dec_rest k (take IV_LEN b) [] (drop IV_LEN b) in
        match r with Ok _ => Ok out | Err e => Err e end
    end.
Proof.
  intros Hlen. unfold decrypt_buffer, dec_rest, subarray_from, subarray, clamp_offset.
  unfold IV_LEN, TAG_LEN in *. change (Z.of_nat 12) with 12%Z. change (Z.of_nat 16) with 16%Z.
  replace (0 <? 0)%Z with false by done. replace (12 <? 0)%Z with false by done.
  rewrite (proj2 (Z.ltb_ge (Z.of_nat (length b)) 0)), (proj2 (Z.ltb_ge (Z.of_nat (length b) - 16) 0)) by lia.
  replace (Z.to_nat (Z.min 12 (Z.of_nat (length b)) - Z.min 0 (Z.of_nat (length b)))) with 12%nat by lia.
  replace (Z.to_nat (Z.min 0 (Z.of_nat (length b)))) with 0%nat by lia. rewrite drop_0.
  replace (Z.to_nat (Z.min 12 (Z.of_nat (length b)))) with 12%nat by lia.
  replace (Z.to_nat (Z.min (Z.of_nat (length b) - 16) (Z.of_nat (length b)))) with (length b - 16)%nat by lia.
  replace (Z.to_nat (Z.min (Z.of_nat (length b) - 16) (Z.of_nat (length b)) - Z.min 12 (Z.of_nat (length b))))
    with (length b - 28)%nat by lia.
  rewrite (take_ge (drop (length b - 16) b)) by (rewrite length_drop; lia).
  rewrite length_drop, drop_drop. replace (12 + (length b - 12 - 16))%nat with (length b - 16)%nat by lia.
  replace (length b - 12 - 16)%nat with (length b - 28)%nat by lia. simpl.
  destruct (check_cipher k (take 12 b)); [|done]. destruct (check_tag _); [|done].
  by destruct (decipher_final _ _ _ _).
Qed.

Lemma check_tag_16 t : length t = 16%nat → check_tag t = Ok tt.
Proof. unfold check_tag. by intros ->. Qed.

Lemma check_cipher_ok k iv : length k = 32%nat → length iv = IV_LEN → check_cipher k iv = Ok tt.
Proof. unfold check_cipher. by intros -> ->. Qed.

Context `{!GcmLaws}.

Lemma length_sealed k iv p : length (sealed k iv p) = (length iv + length p + TAG_LEN)%nat.
Proof. unfold sealed. rewrite !length_app, ctr_length, gcm_tag_length. unfold TAG_LEN. lia. Qed.

Lemma decipher_final_ok k iv c : decipher_final k iv c (gcm_tag k iv c) = Ok tt.
Proof.
  unfold decipher_final. rewrite take_ge by lia. by rewrite bool_decide_eq_true_2.
Qed.

Lemma dec_rest_sealed k iv p :
  dec_rest k iv [] (ctr k iv 0 p ++ gcm_tag k iv (ctr k iv 0 p)) = (p, Ok tt).
Proof.
  unfold dec_rest. rewrite length_app, ctr_length, gcm_tag_length. unfold TAG_LEN.
  replace (length p + 16 - 16)%nat with (length (ctr k iv 0 p)) by (rewrite ctr_length; lia).
  rewrite take_app_length, drop_app_length. simpl. rewrite check_tag_16 by apply gcm_tag_length.
  by rewrite ctr_involutive, decipher_final_ok.
Qed.

Lemma decrypt_all_sealed k iv p ds :
  length k = 32%nat → length iv = IV_LEN → concat ds = sealed k iv p →
  decrypt_all (mkDecStream k None []) ds = (p, Ok tt).
Proof.
  intros Hk Hiv Hds. rewrite decrypt_all_fresh by (simpl; unfold IV_LEN; lia). cbv zeta. simpl app. rewrite Hds.
  rewrite (proj2 (Nat.ltb_ge _ _)) by (rewrite length_sealed; lia).
  unfold sealed. rewrite take_app_length', drop_app_length' by done.
  by rewrite check_cipher_ok, dec_rest_sealed.
Qed.

Lemma decrypt_buffer_sealed k iv p :
  length k = 32%nat → length iv = IV_LEN → decrypt_buffer k (sealed k iv p) = Ok p.
Proof.
  intros Hk Hiv. rewrite decrypt_buffer_long by (rewrite length_sealed; lia).
  unfold sealed. rewrite <- Hiv, take_app_length, drop_app_length.
  by rewrite check_cipher_ok, dec_rest_sealed.
Qed.
End facts.

(** The layout of an encrypted object.  However the plaintext is split into chunks,
    the encrypting stream emits the IV, the ciphertext of the whole plaintext and its
    tag: [overheadBytes] more bytes than the plaintext. *)
Theorem encrypt_layout `{!Gcm, !GcmLaws} dek iv cs :
  length iv = IV_LEN →
  let out := encrypt_all (mkEncStream dek iv false []) cs in
  let c := ctr dek iv 0 (concat cs) in
  out = iv ++ c ++ gcm_tag dek iv c ∧ length c = length (concat cs) ∧
  Z.of_nat (length out) = (Z.of_nat (length (concat cs)) + overheadBytes)%Z.
Proof.
  intros Hiv out c. unfold out, c. rewrite encrypt_sealed, length_sealed, ctr_length, Hiv.
  split_and!; [done|done|]. unfold overheadBytes. lia.
Qed.

(** C33: Streaming decryption is buffered decryption.  For an object of at least 28
    bytes, however it is split into chunks, the decrypting stream ends exactly as
    [decrypt] does on the whole buffer: with the same plaintext, or the same error. *)
Theorem decrypt_stream_agrees `{!Gcm} dek ds :
  (IV_LEN + TAG_LEN ≤ length (concat ds))%nat →
  match decrypt_all (mkDecStream dek None []) ds with
  | (out, Ok _) => decrypt_buffer dek (concat ds) = Ok out
  | (_, Err e) => decrypt_buffer dek (concat ds) = Err e
  end.
Proof.
  intros Hlen. rewrite decrypt_all_fresh by (simpl; unfold IV_LEN; lia). cbv zeta. simpl app.
  rewrite decrypt_buffer_long by done.
  rewrite (proj2 (Nat.ltb_ge _ _)) by lia.
  destruct (check_cipher dek (take IV_LEN (concat ds))); [|done].
  by destruct (dec_rest _ _ _ _) as [out [[]|e]].
Qed.

(** The tag a stream may end with: the whole tag, or, where there is nothing between the
    IV and the tag, a beginning of it of a length GCM knows. *)
Definition accepted_tag `{!Gcm} (dek iv c tag : bytes) : Prop :=
  tag = gcm_tag dek iv c ∨
  c = [] ∧ length tag ∈ [4; 8; 12; 13; 14; 15]%nat ∧ tag = take (length tag) (gcm_tag dek iv []).

Lemma check_tag_lengths t : check_tag t = Ok tt ↔ length t ∈ [4; 8; 12; 13; 14; 15; 16]%nat.
Proof.
  unfold check_tag. rewrite !elem_of_cons, elem_of_nil. case_match eqn:Hb.
  - rewrite !orb_true_iff, andb_true_iff, !Nat.eqb_eq, !Nat.leb_le in Hb. split; [lia|done].
  - apply not_true_iff_false in Hb. rewrite !orb_true_iff, andb_true_iff, !Nat.eqb_eq, !Nat.leb_le in Hb.
    split; [done|lia].
Qed.

(** C23: Decryption authenticates.  A decrypting stream ends without error exactly when the
    data key has 32 bytes and the stream is an IV, a ciphertext and its genuine GCM tag; the
    plaintext is then that ciphertext decrypted.  There is one exception: after an IV alone,
    with no ciphertext, a beginning of the tag is accepted too, of 4, 8 or 12 to 15 bytes. *)
Theorem decrypt_stream_authentic `{!Gcm, !GcmLaws} dek ds out :
  decrypt_all (mkDecStream dek None []) ds = (out, Ok tt) ↔
  length dek = 32%nat ∧ ∃ iv c tag, length iv = IV_LEN ∧ concat ds = iv ++ c ++ tag ∧
    accepted_tag dek iv c tag ∧ out = ctr dek iv 0 c.
Proof.
  rewrite decrypt_all_fresh by (simpl; unfold IV_LEN; lia). cbv zeta. simpl app. set (e := concat ds).
  destruct (Nat.ltb_spec (length e) IV_LEN) as [Hlt|Hge].
  { split; [done|]. intros (_ & iv & c & tag & Hiv & He & _). rewrite He, length_app in Hlt. lia. }
  destruct (decide (length dek = 32%nat)) as [Hk|Hk]; last first.
  { unfold check_cipher. destruct (Nat.eqb_spec (length dek) 32); [done|]. simpl. split; [done|]. by intros [? _]. }
  rewrite check_cipher_ok by (done || (rewrite length_take; lia)). split.
  - unfold dec_rest. set (b := drop IV_LEN e). set (n := (length b - TAG_LEN)%nat).
    destruct (check_tag (drop n b)) as [[]|] eqn:Hc; [|by intros [=]]. intros [= <- Hfin]. split; [done|].
    apply check_tag_lengths in Hc. exists (take IV_LEN e), (take n b), (drop n b).
    split_and!; [rewrite length_take; lia|by rewrite take_drop; unfold b; rewrite take_drop| |done].
    unfold decipher_final in Hfin. simpl in Hfin. case_bool_decide as Ht; [|done].
    destruct (decide (length (drop n b) = 16%nat)) as [H16|Hshort].
    + left. rewrite Ht at 1. apply take_ge. rewrite H16, gcm_tag_length. lia.
    + right. assert (Hn : take n b = []).
      { rewrite length_drop in *. unfold n, TAG_LEN in *. destruct (length b - 16)%nat eqn:Hm; [done|lia]. }
      rewrite Hn in Ht. split_and!; [done| |done]. set_solver.
  - intros (_ & iv & c & tag & Hiv & -> & Htag & ->). rewrite <- Hiv, take_app_length, drop_app_length.
    destruct Htag as [-> |(-> & Hl & Htag)].
    + pose proof (dec_rest_sealed dek iv (ctr dek iv 0 c)) as Hs. by rewrite ctr_involutive in Hs.
    + unfold dec_rest. simpl app. replace (length tag - TAG_LEN)%nat with 0%nat by (unfold TAG_LEN; set_solver by lia).
      rewrite take_0, drop_0. rewrite (proj2 (check_tag_lengths tag)) by set_solver.
      unfold decipher_final. simpl. by rewrite bool_decide_eq_true_2.
Qed.

(** A truncated tag is accepted.  The withheld bytes are taken for the tag however few they
    are: an IV followed by the first 4 bytes of a tag is an object the stream accepts, as an
    empty file, although no object shorter than 28 bytes was ever written. *)
Theorem truncated_tag_accepted `{!Gcm, !GcmLaws} dek iv :
  length dek = 32%nat → length iv = IV_LEN →
  let object := iv ++ take 4 (gcm_tag dek iv []) in
  length object = 16%nat ∧ decrypt_all (mkDecStream dek None []) [object] = ([], Ok tt).
Proof.
  intros Hk Hiv object. assert (Hl : length (take 4 (gcm_tag dek iv [])) = 4%nat)
    by (rewrite length_take, gcm_tag_length; lia).
  split; [unfold object; rewrite length_app, Hl, Hiv; done|].
  rewrite decrypt_all_fresh by (simpl; unfold IV_LEN; lia). cbv zeta. simpl app. simpl concat. rewrite app_nil_r.
  rewrite (proj2 (Nat.ltb_ge _ _)) by (unfold object; rewrite length_app, Hl, Hiv; unfold IV_LEN; lia). unfold object.
  rewrite <- Hiv, take_app_length, drop_app_length, check_cipher_ok by done. unfold dec_rest.
  rewrite Hl. simpl Nat.sub. rewrite take_0, drop_0. rewrite (proj2 (check_tag_lengths _)) by (rewrite Hl; set_solver).
  unfold decipher_final. simpl. rewrite Hl, bool_decide_eq_true_2 by done. done.
Qed.

(** The state a service with a usable key is in. *)
Definition kek_loaded (cc : CryptoConfig) : Prop := ∃ kek, cc_kek cc = Some kek ∧ length kek = 32%nat.

(** The next [n] bytes [randomBytes] yields. *)
Definition randoms (w : world) (off n : nat) : bytes := map (w_random w) (seq (w_random_pos w + off) n).

Lemma length_randoms w off n : length (randoms w off n) = n.
Proof. unfold randoms. by rewrite length_map, length_seq. Qed.

Lemma exec_random `{!Externals} {A} n (k : bytes → P A) w :
  exec (x <- call (RandomBytes n) ;; k x) w
    = exec (k (randoms w 0 n)) (set_random_pos (w_random_pos w + n) w).
Proof. rewrite exec_bind, exec_call. unfold randoms. by rewrite Nat.add_0_r. Qed.

Lemma randoms_later w m n off : randoms (set_random_pos (w_random_pos w + m) w) off n = randoms w (m + off) n.
Proof. unfold randoms, set_random_pos. cbn [w_random w_random_pos]. by rewrite Nat.add_assoc. Qed.

Lemma exec_ok `{!Externals} {A} (k : unit → P A) w : exec (x <- of_result (Ok tt) ;; k x) w = exec (k tt) w.
Proof. done. Qed.

(** [createEncryptStream] draws the data key, the IV and the IV of the wrapping. *)
Lemma createEncryptStream_exec `{!Externals, !Gcm} cc kek w :
  cc_kek cc = Some kek → length kek = 32%nat →
  exec (createEncryptStream cc) w =
    (Ok (mkEncStream (randoms w 0 32) (randoms w 32 12) false [],
         base64_encode (sealed kek (randoms w 44 12) (randoms w 0 32))),
     set_random_pos (w_random_pos w + 56) w).
Proof.
  intros Hk Hlen. unfold createEncryptStream, wrapDek. rewrite !exec_random, randoms_later.
  rewrite check_cipher_ok by apply length_randoms. rewrite exec_ok.
  rewrite exec_bind, exec_random, Hk.
  rewrite check_cipher_ok by (done || apply length_randoms). rewrite exec_ok.
  change (set_random_pos ?n (set_random_pos _ w)) with (set_random_pos n w).
  cbn [w_random_pos set_random_pos]. rewrite <- !Nat.add_assoc, randoms_later. reflexivity.
Qed.

(** C22: What is encrypted can be decrypted.  With a 32-byte master key,
    [createEncryptStream] returns a stream and a wrapped key such that, for any chunking
    of the plaintext on the way in and any chunking of the object on the way out,
    [createDecryptStream] on that wrapped key restores the plaintext, and so does
    [decrypt] on the whole object. *)
Theorem envelope_roundtrip `{!Externals, !Gcm, !GcmLaws} cc w cs ds :
  kek_loaded cc →
  ∃ st wrapped w',
    exec (createEncryptStream cc) w = (Ok (st, wrapped), w') ∧
    (concat ds = encrypt_all st cs →
     ∃ dst, createDecryptStream cc wrapped = Ok dst ∧
       decrypt_all dst ds = (concat cs, Ok tt) ∧
       decrypt cc (concat ds) wrapped = Ok (concat cs)).
Proof.
  intros (kek & Hk & Hlen). pose proof (createEncryptStream_exec cc kek w Hk Hlen) as Hexec.
  eexists _, _, _. split; [exact Hexec|]. rewrite encrypt_sealed. intros Hds.
  assert (Hun : unwrapDek cc (base64_encode (sealed kek (randoms w 44 12) (randoms w 0 32)))
    = Ok (randoms w 0 32)).
  { unfold unwrapDek. rewrite Hk, base64_roundtrip. apply decrypt_buffer_sealed; [done|apply length_randoms]. }
  unfold createDecryptStream, decrypt. rewrite Hun. eexists. split; [done|]. rewrite Hds. split.
  - eapply decrypt_all_sealed; [apply length_randoms..|done].
  - apply decrypt_buffer_sealed; apply length_randoms.
Qed.

(** A service that starts can encrypt.  When the constructor accepts a
    configuration with encryption enabled, the master key is loaded, has 32 bytes, and
    [createEncryptStream] succeeds. *)
Theorem crypto_init_usable `{!Externals, !Gcm} enabled kek cc w :
  crypto_init enabled kek = Ok cc →
  (cc_enabled cc = true → kek_loaded cc ∧ is_ok (exec (createEncryptStream cc) w).1 = true) ∧
  (∀ s, kek = Some s → s ≠ "" → kek_loaded cc).
Proof.
  assert (Hload : crypto_init enabled kek = Ok cc → cc_enabled cc = enabled ∧
    (enabled = true → cc_kek cc ≠ None) ∧ (∀ k, cc_kek cc = Some k → length k = 32%nat) ∧
    (∀ s, kek = Some s → s ≠ "" → cc_kek cc ≠ None)).
  { unfold crypto_init. destruct kek as [s|].
    - destruct (String.eqb_spec s "") as [->|Hs].
      + destruct enabled; simpl; [done|]. intros [= <-]. naive_solver.
      + destruct (Nat.eqb_spec (length (base64_decode s)) 32); simpl; [|done].
        rewrite andb_false_r. intros [= <-]. naive_solver.
    - destruct enabled; simpl; [done|]. intros [= <-]. naive_solver. }
  intros (He & Hen & Hlen & Hs)%Hload.
  assert (Hk : cc_kek cc ≠ None → kek_loaded cc).
  { destruct (cc_kek cc) as [k|] eqn:Hk; [|done]. intros _. exists k. eauto. }
  split; [|eauto]. rewrite He. intros Htrue. specialize (Hk (Hen Htrue)). split; [done|].
  destruct Hk as (k & Hk & Hl). by rewrite (createEncryptStream_exec cc k w).
Qed.

(** ** Witnesses: a cipher with a computable key stream *)
Module DemoCipher.
#[export] Instance gcm : Gcm := {
  gcm_keystream k iv n := default Byte.x2a ((k ++ iv) !! n);
  gcm_tag k iv c := take 16 (c ++ iv ++ k ++ replicate 16 Byte.x07);
}.
#[export] Instance gcm_laws : GcmLaws.
Proof.
  split. intros k iv c. change (length (take 16 (c ++ iv ++ k ++ replicate 16 Byte.x07)) = 16%nat).
  rewrite length_take, !length_app, length_replicate. lia.
Qed.

Definition key : bytes := replicate 32 Byte.x05.
Definition iv : bytes := replicate 12 Byte.x09.
Definition plain : list bytes := [[Byte.x61]; [Byte.x62; Byte.x63]].
Definition object : bytes := sealed key iv (concat plain).
Definition config : CryptoConfig := mkCryptoConfig true (Some key).
End DemoCipher.
Import DemoCipher Demo.

Lemma encrypt_layout_witness :
  Z.of_nat (length (encrypt_all (mkEncStream key iv false []) plain)) = (3 + overheadBytes)%Z.
Proof. exact (proj2 (proj2 (encrypt_layout key iv plain eq_refl))). Defined.

Lemma decrypt_stream_agrees_witness :
  match decrypt_all (mkDecStream key None []) [take 5 object; drop 5 object] with
  | (out, Ok _) => decrypt_buffer key (concat [take 5 object; drop 5 object]) = Ok out
  | (_, Err e) => decrypt_buffer key (concat [take 5 object; drop 5 object]) = Err e
  end.
Proof. apply (decrypt_stream_agrees key). vm_compute. lia. Defined.

Lemma decrypt_stream_authentic_witness :
  decrypt_all (mkDecStream key None []) [take 5 object; drop 5 object] = (concat plain, Ok tt).
Proof.
  apply (decrypt_stream_authentic key). split; [reflexivity|].
  exists iv, (ctr key iv 0 (concat plain)), (gcm_tag key iv (ctr key iv 0 (concat plain))).
  split_and!; [reflexivity|vm_compute; reflexivity|by left|vm_compute; reflexivity].
Defined.

Lemma truncated_tag_accepted_witness :
  decrypt_all (mkDecStream key None []) [iv ++ take 4 (gcm_tag key iv [])] = ([], Ok tt).
Proof. apply (truncated_tag_accepted key iv); reflexivity. Defined.

Lemma envelope_roundtrip_witness :
  ∃ st wrapped w', exec (createEncryptStream config) empty_world = (Ok (st, wrapped), w') ∧
    (concat [encrypt_all st plain] = encrypt_all st plain →
     ∃ dst, createDecryptStream config wrapped = Ok dst ∧
       decrypt_all dst [encrypt_all st plain] = (concat plain, Ok tt)).
Proof.
  assert (Hk : kek_loaded config) by (by exists key).
  eexists _, _, _. split; [reflexivity|]. intros Hds.
  destruct (envelope_roundtrip config empty_world plain
    [encrypt_all (mkEncStream (randoms empty_world 0 32) (randoms empty_world 32 12) false []) plain] Hk)
    as (st & wr & w' & Hex & Hdec).
  injection Hex as <- <- <-. destruct (Hdec Hds) as (dst & Hd & Hall & _). eauto.
Defined.

Lemma crypto_init_usable_witness : kek_loaded (mkCryptoConfig true (Some key)).
Proof.
  exact (proj1 (proj1 (crypto_init_usable true (Some (base64_encode key)) (mkCryptoConfig true (Some key))
    empty_world eq_refl) eq_refl)).
Defined.
