(* ===== verification/Pipeline.v ===== *)
(** * The processing pipeline ([ingestion/pipeline/*.ts])

    The ordered steps that run before an upload: validation, quota, antivirus,
    content type.  A step is a record of a name and an operation on the context; the
    pipeline runs a list of them, the first throw ends it.  The clamd client is given
    twice: as the event-driven machine of its socket and file callbacks, and as the
    operation the antivirus step awaits. *)
From S2P Require Import Prelude JsLang NodePath Entities Database Prog World Quota.

(** ** Context and steps *)
Record ProcessingContext := mkContext {
  pc_transfer : FileTransfer;
  pc_sourcePath : string;
  pc_sizeBytes : Z;
  pc_contentType : option string;   (** [metadata.contentType] *)
}.

Definition set_contentType (t : string) (c : ProcessingContext) : ProcessingContext :=
  mkContext (pc_transfer c) (pc_sourcePath c) (pc_sizeBytes c) (Some t).

Record ProcessingStep := mkStep {
  step_name : string;
  step_execute : ProcessingContext → P ProcessingContext;
}.

(** The context is threaded through the steps. *)
Fixpoint run_pipeline (steps : list ProcessingStep) (ctx : ProcessingContext) : P ProcessingContext :=
  match steps with
  | [] => Ret ctx
  | s :: steps' => ctx' <- step_execute s ctx ;; run_pipeline steps' ctx'
  end.

Record PipelineConfig := mkPipelineConfig {
  pl_maxFileSizeBytes : Z;
  pl_avEnabled : bool;
  pl_clamavHost : string;
  pl_clamavPort : Z;
}.

(** ** Validation *)
Definition ValidationStep (pl : PipelineConfig) : ProcessingStep :=
  mkStep "validation" (λ ctx,
    if (pc_sizeBytes ctx <=? 0)%Z then Throw (NonRetryable "File is empty")
    else if ((0 <? pl_maxFileSizeBytes pl) && (pl_maxFileSizeBytes pl <? pc_sizeBytes ctx))%Z
    then Throw (NonRetryable ("File size " +:+ number_to_string (pc_sizeBytes ctx) +:+ " exceeds limit "
                 +:+ number_to_string (pl_maxFileSizeBytes pl) +:+ " bytes"))
    else Ret ctx).

(** ** Quota *)
Definition QuotaStep (qc : QuotaConfig) : ProcessingStep :=
  mkStep "quota" (λ ctx,
    assertWithinQuota qc (ft_tenantId (pc_transfer ctx)) (pc_sizeBytes ctx) ;;; Ret ctx).

(** ** The clamd client *)
Record ScanResult := mkScan { sr_clean : bool; sr_signature : option string }.

Definition INSTREAM : bytes := utf8 "zINSTREAM" ++ [Byte.x00].

Definition writeUInt32BE (n : nat) : bytes :=
  let z := N.of_nat n in
  let byte k := Ascii.byte_of_ascii (Ascii.ascii_of_N ((z / k) mod 256)) in
  [byte 16777216; byte 65536; byte 256; byte 1]%N.

(** What the client writes for one chunk of the file, and for its end. *)
Definition clamd_frame (chunk : bytes) : bytes := writeUInt32BE (length chunk) ++ chunk.
Definition clamd_terminator : bytes := replicate 4 Byte.x00.

(** [.replace(/^stream:\s*/, '')] and [.replace(/\s*FOUND$/, '')] *)
Definition drop_stream (s : string) : string :=
  if startsWith s "stream:" then strip_leading is_ws (String.substring 7 (String.length s - 7) s) else s.
Definition drop_found (s : string) : string :=
  if endsWith s "FOUND"
  then strip_trailing is_ws (String.substring 0 (String.length s - 5) s) else s.

Definition parse_reply (response : string) : result ScanResult :=
  let text := trim response in
  if includes text "FOUND" then Ok (mkScan false (Some (drop_found (drop_stream text))))
  else if includes text "OK" then Ok (mkScan true None)
  else Err (plain_error ("Unexpected clamd response: " +:+ text)).

(** *** The callbacks

    The events the socket and the file deliver, and the closure's variables. *)
Inductive clamd_event :=
  | SocketConnect
  | SocketData (d : string)
  | SocketEnd
  | SocketError (e : exn)
  | SocketTimeout
  | FileData (chunk : bytes)
  | FileEnd
  | FileError (e : exn).

Record clamd_state := mkClamd {
  cl_response : string;
  cl_settled : option (result ScanResult);   (** the promise, once settled *)
  cl_destroyed : bool;
  cl_written : bytes;                        (** written to the socket so far *)
}.

Definition clamd_init : clamd_state := mkClamd "" None false [].

Definition clamd_fail (e : exn) (s : clamd_state) : clamd_state :=
  match cl_settled s with
  | Some _ => s
  | None => mkClamd (cl_response s) (Some (Err e)) true (cl_written s)
  end.

(** A destroyed socket accepts no more data. *)
Definition clamd_write (b : bytes) (s : clamd_state) : clamd_state :=
  if cl_destroyed s then s
  else mkClamd (cl_response s) (cl_settled s) false (cl_written s ++ b).

Definition clamd_step (s : clamd_state) (ev : clamd_event) : clamd_state :=
  match ev with
  | SocketConnect => clamd_write INSTREAM s
  | SocketData d => mkClamd (cl_response s +:+ d) (cl_settled s) (cl_destroyed s) (cl_written s)
  | SocketEnd =>
      match cl_settled s with
      | Some _ => s
      | None => mkClamd (cl_response s) (Some (parse_reply (cl_response s))) (cl_destroyed s) (cl_written s)
      end
  | SocketError e | FileError e => clamd_fail e s
  | SocketTimeout => clamd_fail (plain_error "clamd scan timed out") s
  | FileData chunk => clamd_write (clamd_frame chunk) s
  | FileEnd => clamd_write clamd_terminator s
  end.

Definition clamd_run (evs : list clamd_event) : clamd_state := foldl clamd_step clamd_init evs.

(** *** The operation

    [createReadStream] delivers the file in chunks of 64 KiB. *)
Fixpoint chunks_of (fuel size : nat) (l : bytes) : list bytes :=
  match fuel, l with
  | S fuel', _ :: _ => take size l :: chunks_of fuel' size (drop size l)
  | _, _ => []
  end.
Definition HIGH_WATER_MARK : nat := Z.to_nat 65536.
Definition read_chunks (l : bytes) : list bytes := chunks_of (length l) HIGH_WATER_MARK l.

(** All the client sends for a file. *)
Definition clamd_sent (chunks : list bytes) : bytes :=
  INSTREAM ++ concat (map clamd_frame chunks) ++ clamd_terminator.

Definition scanFileWithClamd (host : string) (port : Z) (filePath : string) : P ScanResult :=
  content <- call (ReadFile filePath) ;;
  response <- call (ClamdSession host port (clamd_sent (read_chunks content))) ;;
  of_result (parse_reply response).

(** ** Antivirus *)
Definition AntivirusStep (pl : PipelineConfig) : ProcessingStep :=
  mkStep "antivirus" (λ ctx,
    if negb (pl_avEnabled pl) then Ret ctx
    else
      result <- scanFileWithClamd (pl_clamavHost pl) (pl_clamavPort pl) (pc_sourcePath ctx) ;;
      if sr_clean result then Ret ctx
      else Throw (NonRetryable ("Virus detected: " +:+ nullish (sr_signature result) "unknown"))).

(** ** Content type *)
Definition MIME_BY_EXT : gmap string string :=
  list_to_map [(".csv", "text/csv"); (".txt", "text/plain"); (".json", "application/json");
    (".xml", "application/xml"); (".pdf", "application/pdf"); (".zip", "application/zip");
    (".gz", "application/gzip"); (".png", "image/png"); (".jpg", "image/jpeg");
    (".jpeg", "image/jpeg")].

Definition content_type (filename : string) : string :=
  nullish (MIME_BY_EXT !! toLowerCase (extname filename)) "application/octet-stream".

Definition ContentTypeStep : ProcessingStep :=
  mkStep "content-type" (λ ctx,
    Ret (set_contentType (content_type (ft_filename (pc_transfer ctx))) ctx)).

(** The order in which [ingestion.module.ts] assembles them. *)
Definition PROCESSING_STEPS (pl : PipelineConfig) (qc : QuotaConfig) : list ProcessingStep :=
  [ValidationStep pl; QuotaStep qc; AntivirusStep pl; ContentTypeStep].

Definition pipeline (pl : PipelineConfig) (qc : QuotaConfig) (ctx : ProcessingContext) : P ProcessingContext :=
  run_pipeline (PROCESSING_STEPS pl qc) ctx.

(** ** The INSTREAM protocol, from the server's side

    The command, then chunks of a four-byte length and that many bytes, then a
    chunk of length zero; [instream_chunks] is the data a server reads. *)
Definition readUInt32BE (b : bytes) : option (N * bytes) :=
  match b with
  | b3 :: b2 :: b1 :: b0 :: rest =>
      let v b := Ascii.N_of_ascii (Ascii.ascii_of_byte b) in
      Some (((v b3 * 256 + v b2) * 256 + v b1) * 256 + v b0, rest)%N
  | _ => None
  end.

Fixpoint instream_chunks (fuel : nat) (b : bytes) : option bytes :=
  match fuel with
  | 0 => None
  | S fuel' =>
      match readUInt32BE b with
      | None => None
      | Some (n, rest) =>
          if (n =? 0)%N then (if bool_decide (rest = []) then Some [] else None)
          else if (N.of_nat (length rest) <? n)%N then None
          else (λ data, take (N.to_nat n) rest ++ data) <$> instream_chunks fuel' (drop (N.to_nat n) rest)
      end
  end.

Definition instream_data (sent : bytes) : option bytes :=
  if bool_decide (take (length INSTREAM) sent = INSTREAM)
  then instream_chunks (length sent) (drop (length INSTREAM) sent) else None.

Lemma uint32_roundtrip n rest :
  (N.of_nat n < 4294967296)%N → readUInt32BE (writeUInt32BE n ++ rest) = Some (N.of_nat n, rest).
Proof.
  intros Hn. unfold readUInt32BE, writeUInt32BE. cbn [app].
  rewrite !Ascii.ascii_of_byte_of_ascii, !Ascii.N_ascii_embedding by (apply N.mod_lt; done).
  do 2 f_equal. zify. Z.to_euclidean_division_equations. lia.
Qed.

Lemma instream_chunks_spec chunks fuel :
  (length chunks < fuel)%nat →
  Forall (λ c, c ≠ [] ∧ (N.of_nat (length c) < 4294967296)%N) chunks →
  instream_chunks fuel (concat (map clamd_frame chunks) ++ clamd_terminator) = Some (concat chunks).
Proof.
  revert chunks. induction fuel as [|fuel IH]; intros chunks Hf Hc; [lia|].
  destruct Hc as [|c chunks [Hne Hlen] Hc]; [done|].
  cbn [map concat instream_chunks]. unfold clamd_frame at 1. rewrite <- !app_assoc.
  rewrite uint32_roundtrip by done.
  destruct (N.eqb_spec (N.of_nat (length c)) 0) as [H0|_]; [destruct c; [done|simpl in H0; lia]|].
  rewrite (proj2 (N.ltb_ge _ _)) by (rewrite length_app; lia).
  rewrite Nat2N.id, take_app_length, drop_app_length. rewrite IH; [done| |done].
  simpl in Hf. lia.
Qed.

Lemma frames_length chunks : (length chunks ≤ length (concat (map clamd_frame chunks)))%nat.
Proof.
  induction chunks as [|c chunks IH]; simpl; [lia|]. rewrite !length_app. simpl. lia.
Qed.

Lemma instream_sent chunks :
  Forall (λ c, c ≠ [] ∧ (N.of_nat (length c) < 4294967296)%N) chunks →
  instream_data (clamd_sent chunks) = Some (concat chunks).
Proof.
  intros Hc. unfold instream_data, clamd_sent. rewrite take_app_length, bool_decide_eq_true_2 by done.
  rewrite drop_app_length. apply instream_chunks_spec; [|done].
  rewrite !length_app. pose proof (frames_length chunks). simpl. lia.
Qed.

Lemma chunks_of_spec fuel size l :
  (0 < size)%nat → (length l ≤ fuel)%nat →
  concat (chunks_of fuel size l) = l ∧
  Forall (λ c, c ≠ [] ∧ (length c ≤ size)%nat) (chunks_of fuel size l).
Proof.
  intros Hs. revert l. induction fuel as [|fuel IH]; intros [|b l] Hl; simpl; try done; [simpl in Hl; lia|].
  destruct (IH (drop size (b :: l))) as [Hcat Hall].
  { rewrite length_drop. simpl in *. lia. }
  split.
  - by rewrite Hcat, take_drop.
  - constructor; [|done]. split; [destruct size; [lia|done]|]. rewrite length_take. lia.
Qed.

Lemma read_chunks_concat l : concat (read_chunks l) = l.
Proof. apply chunks_of_spec; [unfold HIGH_WATER_MARK|]; lia. Qed.

Lemma read_chunks_sizes l :
  Forall (λ c, c ≠ [] ∧ (N.of_nat (length c) < 4294967296)%N) (read_chunks l).
Proof.
  assert (Hs : (0 < HIGH_WATER_MARK)%nat) by (unfold HIGH_WATER_MARK; lia).
  destruct (chunks_of_spec (length l) HIGH_WATER_MARK l Hs) as [_ H]; [lia|].
  eapply Forall_impl; [exact H|]. intros c [Hne Hc]. split; [done|]. unfold HIGH_WATER_MARK in Hc. lia.
Qed.

(** ** The callbacks *)
Definition failing (ev : clamd_event) : bool :=
  match ev with SocketError _ | FileError _ | SocketTimeout => true | _ => false end.
Definition received (evs : list clamd_event) : string :=
  foldr (λ ev acc, match ev with SocketData d => d +:+ acc | _ => acc end) "" evs.

Lemma clamd_settled_stable evs s r :
  cl_settled s = Some r → cl_settled (foldl clamd_step s evs) = Some r.
Proof.
  revert s. induction evs as [|ev evs IH]; intros s Hs; simpl; [done|]. apply IH.
  destruct ev; simpl; unfold clamd_write, clamd_fail; rewrite ?Hs; by try destruct (cl_destroyed s).
Qed.

(** How the promise is settled: by the first failure or the first end of the socket. *)
Lemma clamd_settlement evs s r :
  cl_settled s = None → cl_settled (foldl clamd_step s evs) = Some r →
  ∃ pre ev post, evs = pre ++ ev :: post ∧ forallb (λ e, negb (failing e)) pre = true ∧
    ((failing ev = true ∧ ∃ e, r = Err e) ∨
     (ev = SocketEnd ∧ r = parse_reply (cl_response s +:+ received pre))).
Proof.
  revert s. induction evs as [|ev evs IH]; intros s Hs Hr; simpl in *; [congruence|].
  destruct (failing ev) eqn:Hf.
  { exists [], ev, evs. split_and!; [done|done|]. left. split; [done|].
    destruct ev; try done; simpl in Hr; unfold clamd_fail in Hr; rewrite Hs in Hr;
      erewrite clamd_settled_stable in Hr by done; naive_solver. }
  destruct ev; try done; simpl in Hr.
  3: { exists [], SocketEnd, evs. split_and!; [done|done|]. right. split; [done|].
       rewrite Hs in Hr. erewrite clamd_settled_stable in Hr by done.
       simpl. rewrite string_app_nil_r. by simplify_eq. }
  all: apply IH in Hr as (pre & ev & post & -> & Hpre & Hev); [|unfold clamd_write; by destruct (cl_destroyed s)].
  all: eexists (_ :: pre), ev, post; split_and!; [done|done|].
  all: simpl in Hev |- *; unfold clamd_write in *; rewrite ?string_app_assoc in *;
    try destruct (cl_destroyed s); exact Hev.
Qed.

Lemma clamd_frames_written chunks s :
  cl_destroyed s = false →
  let s' := foldl clamd_step s (map FileData chunks) in
  cl_written s' = cl_written s ++ concat (map clamd_frame chunks) ∧ cl_destroyed s' = false ∧
  cl_response s' = cl_response s ∧ cl_settled s' = cl_settled s.
Proof.
  revert s. induction chunks as [|c chunks IH]; intros s Hd; simpl; [by rewrite app_nil_r|].
  destruct (IH (clamd_write (clamd_frame c) s)) as (Hw & Hd' & Hr & Hs).
  { unfold clamd_write. by rewrite Hd. }
  rewrite Hw, Hd', Hr, Hs. unfold clamd_write. rewrite Hd. simpl. by rewrite <- app_assoc.
Qed.

Lemma clamd_data_received ds s :
  foldl clamd_step s (map SocketData ds) =
    mkClamd (cl_response s +:+ received (map SocketData ds)) (cl_settled s) (cl_destroyed s) (cl_written s).
Proof.
  revert s. induction ds as [|d ds IH]; intros s; simpl.
  - rewrite string_app_nil_r. by destruct s.
  - rewrite IH. simpl. by rewrite string_app_assoc.
Qed.

(** C32: The clamd client fails closed.  Whatever events the socket and the file
    deliver, in whatever order, the scan promise is settled once, and it reports a clean
    file only if the socket ended before any error or timeout with a reply that contains
    [OK] and does not contain [FOUND]. *)
Theorem clamd_fails_closed evs evs' r :
  cl_settled (clamd_run evs) = Some r →
  cl_settled (clamd_run (evs ++ evs')) = Some r ∧
  (∀ sig, r = Ok (mkScan true sig) → ∃ pre post,
     evs = pre ++ SocketEnd :: post ∧ forallb (λ e, negb (failing e)) pre = true ∧
     includes (trim (received pre)) "FOUND" = false ∧ includes (trim (received pre)) "OK" = true).
Proof.
  intros Hr. split.
  { unfold clamd_run. rewrite foldl_app. by apply clamd_settled_stable. }
  intros sig ->. destruct (clamd_settlement _ clamd_init _ eq_refl Hr) as (pre & ev & post & -> & Hpre & Hev).
  destruct Hev as [(_ & e & He)|(-> & Hp)]; [done|]. exists pre, post. split_and!; [done|done|..];
    unfold parse_reply in Hp; simpl in Hp; by repeat case_match.
Qed.

(** The client speaks INSTREAM.  When the connection, the file and the reply
    proceed without errors, the bytes the callbacks write are a well-formed INSTREAM
    session whose data, as a server decodes it, is the file; and the promise is settled
    with the parsed reply. *)
Theorem clamd_session_wellformed content ds :
  let s := clamd_run ([SocketConnect] ++ map FileData (read_chunks content) ++ [FileEnd]
                      ++ map SocketData ds ++ [SocketEnd]) in
  cl_written s = clamd_sent (read_chunks content) ∧
  instream_data (cl_written s) = Some content ∧
  cl_settled s = Some (parse_reply (received (map SocketData ds))).
Proof.
  intros s.
  assert (Hs : cl_written s = clamd_sent (read_chunks content) ∧
               cl_settled s = Some (parse_reply (received (map SocketData ds)))).
  { unfold s, clamd_run. rewrite !foldl_app. cbn [foldl].
    pose proof (clamd_frames_written (read_chunks content) (clamd_step clamd_init SocketConnect) eq_refl) as Hf.
    destruct (foldl clamd_step (clamd_step clamd_init SocketConnect) _) as [resp st d wr].
    simpl in Hf. destruct Hf as (-> & -> & -> & ->). rewrite clamd_data_received.
    unfold clamd_sent. rewrite app_assoc. done. }
  destruct Hs as [Hw Hset]. split_and!; [done| |done].
  rewrite Hw, instream_sent by apply read_chunks_sizes. by rewrite read_chunks_concat.
Qed.

(** ** What passing the pipeline means *)
Section passing.
Context `{!Externals}.

(** The antivirus verdict on the content of a file. *)
Definition av_clean (content : bytes) : Prop :=
  let reply := trim (clamd_session (clamd_sent (read_chunks content))) in
  includes reply "FOUND" = false ∧ includes reply "OK" = true.

Lemma parse_reply_clean s r :
  parse_reply s = Ok r → sr_clean r = true →
  includes (trim s) "FOUND" = false ∧ includes (trim s) "OK" = true.
Proof. unfold parse_reply. intros Hp Hc. repeat case_match; by simplify_eq. Qed.

Lemma read_perform f path (w : world) :
  (perform f (ReadFile path) w).2 = w ∧
  ∀ c, (perform f (ReadFile path) w).1 = Ok c → w_fs w !! path = Some (RegularFile c).
Proof.
  unfold perform. simpl. destruct (w_fs w !! path) as [[c|]|], f; simpl; split; intros; by simplify_eq.
Qed.

(** The operations of the pipeline only read. *)
Definition reading_op {X} (op : eff X) : Prop :=
  match op with
  | Db m => ∀ d, (m d).2 = d
  | ReadFile _ | ClamdSession _ _ _ | Now | Stat _ | GetObject _ _ | HeadObject _ _ | HeadBucket _ => True
  | _ => False
  end.

Lemma transact_reading {A} (m : dbM A) d : (∀ d, (m d).2 = d) → (transact m d).2 = d.
Proof.
  intros Hm. unfold transact. specialize (Hm d). destruct (m d) as [[a|e] d']; simpl in *; subst; by destruct d.
Qed.

Lemma reading_op_same {X} (op : eff X) f w : reading_op op → (perform f op w).2 = w.
Proof.
  intros Hop. assert (Hh : (handle op w).2 = w).
  { destruct op; simpl in Hop |- *; try done; try (by repeat case_match).
    pose proof (transact_reading m (w_db w) Hop) as Ht.
    destruct (transact m (w_db w)) as [r d']. simpl in *. subst. by destruct w. }
  unfold perform. destruct (fallible op); [|done]. by destruct f.
Qed.

Lemma reading_ops_rg {A} (p : P A) w :
  all_ops (@reading_op) p → rg eq (λ w w', w' = w) p (λ _ w', w' = w) w.
Proof.
  intros Hp. assert (PreOrder (λ w w' : world, w' = w)) by (split; [by intros ?|by intros ??? -> ->]).
  apply (all_ops_rg_trans (@reading_op) eq (λ w w' : world, w' = w)); [by intros ?? ->| |done|done].
  intros. by apply reading_op_same.
Qed.

Lemma pipeline_reading pl qc ctx : all_ops (@reading_op) (pipeline pl qc ctx).
Proof.
  unfold pipeline, PROCESSING_STEPS.
  cbn [run_pipeline step_execute ValidationStep QuotaStep AntivirusStep ContentTypeStep].
  unfold assertWithinQuota, getUsage, scanFileWithClamd, sql.
  repeat (ops_step || done).
Qed.

(** The conditions a file meets when it passes, and the context that comes out. *)
Definition passes (pl : PipelineConfig) (qc : QuotaConfig) (ctx : ProcessingContext) (w : world) : Prop :=
  let t := ft_tenantId (pc_transfer ctx) in
  ((0 < pc_sizeBytes ctx)%Z ∧
   (0 < pl_maxFileSizeBytes pl → pc_sizeBytes ctx ≤ pl_maxFileSizeBytes pl)%Z) ∧
  quota_error t (getQuota qc t) (usage_numbers (d_usage (w_db w) !! t)) (pc_sizeBytes ctx) = None ∧
  (pl_avEnabled pl = true →
     ∃ c, w_fs w !! pc_sourcePath ctx = Some (RegularFile c) ∧ av_clean c).

Definition enriched (ctx : ProcessingContext) : ProcessingContext :=
  set_contentType (content_type (ft_filename (pc_transfer ctx))) ctx.

Lemma validation_run pl ctx fs w :
  outcome fs (step_execute (ValidationStep pl) ctx) w = Ok ctx ∧
    (0 < pc_sizeBytes ctx)%Z ∧ (0 < pl_maxFileSizeBytes pl → pc_sizeBytes ctx ≤ pl_maxFileSizeBytes pl)%Z
  ∨ ∃ m, step_execute (ValidationStep pl) ctx = Throw (NonRetryable m).
Proof.
  simpl. destruct (Z.leb_spec (pc_sizeBytes ctx) 0); [eauto|].
  destruct (Z.ltb_spec 0 (pl_maxFileSizeBytes pl)), (Z.ltb_spec (pl_maxFileSizeBytes pl) (pc_sizeBytes ctx));
    simpl; eauto; left; split_and!; (done || lia).
Qed.

Lemma pipeline_rg pl qc ctx w :
  rg eq (λ w w', w' = w) (pipeline pl qc ctx)
    (λ r w', w' = w ∧ ∀ ctx', r = Ok ctx' → ctx' = enriched ctx ∧ passes pl qc ctx w) w.
Proof.
  unfold pipeline, PROCESSING_STEPS. cbn [run_pipeline]. rg_step.
  destruct (validation_run pl ctx [] w) as [(_ & Hsize)|[m ->]]; [|by rg_step].
  assert (Hv : step_execute (ValidationStep pl) ctx = Ret ctx).
  { destruct Hsize as [H1 H2]. simpl. rewrite (proj2 (Z.leb_gt _ _)) by done.
    destruct (Z.ltb_spec 0 (pl_maxFileSizeBytes pl)); simpl; [|done].
    by rewrite (proj2 (Z.ltb_ge _ _)) by auto. }
  rewrite Hv. rg_step. cbn [step_execute QuotaStep]. rg_step. rg_step.
  unfold assertWithinQuota, getUsage, sql. repeat rg_step.
  assert (Hsame : (perform f (Db (find_usage (ft_tenantId (pc_transfer ctx)))) w).2 = w)
    by (apply reading_op_same; done).
  rewrite Hsame. split; [done|].
  destruct (perform f (Db (find_usage (ft_tenantId (pc_transfer ctx)))) w).1 as [row|e] eqn:Hrow;
    simpl; repeat rg_step; [|done].
  assert (Hr : row = d_usage (w_db w) !! ft_tenantId (pc_transfer ctx)).
  { revert Hrow. unfold perform. destruct f; simpl; intros; by simplify_eq. }
  subst row. destruct (quota_error _ _ _ _) as [m|] eqn:Hq; repeat rg_step; [done|].
  cbn [step_execute AntivirusStep]. destruct (pl_avEnabled pl) eqn:Hav; simpl; repeat rg_step.
  2: { split; [done|]. intros ctx' [= <-]. split; [done|].
       split; [exact Hsize|split; [exact Hq|congruence]]. }
  unfold scanFileWithClamd. repeat rg_step. destruct (read_perform f0 (pc_sourcePath ctx) w) as [-> Hread].
  split; [done|]. destruct (perform f0 _ w).1 as [c|e]; simpl; repeat rg_step; [|done].
  rewrite (reading_op_same (ClamdSession _ _ _) f1 w) by done. split; [done|].
  destruct (perform f1 (ClamdSession _ _ _) w).1 as [reply|e] eqn:Hrep; simpl; repeat rg_step; [|done].
  assert (Heq : reply = clamd_session (clamd_sent (read_chunks c))).
  { revert Hrep. unfold perform. destruct f1; simpl; intros; by simplify_eq. }
  subst reply. destruct (parse_reply _) as [res|e] eqn:Hp; simpl; repeat rg_step; [|done].
  destruct (sr_clean res) eqn:Hc; repeat rg_step; [|done].
  split; [done|]. intros ctx' [= <-]. split; [done|].
  split; [exact Hsize|split; [exact Hq|]]. intros _.
  exists c. split; [auto|]. by eapply parse_reply_clean.
Qed.
End passing.

(** C24: The pipeline is a gate.  It never changes anything; when it returns, with any
    failures on the way, the file is neither empty nor over the size limit, the
    tenant's usage admitted it, the scanner (when enabled) was sent the whole file and
    found it clean, and the context carries the content type of the file name and
    nothing else new. *)
Theorem pipeline_gate `{!Externals} pl qc ctx w fs n :
  crash n fs (pipeline pl qc ctx) w = w ∧ final fs (pipeline pl qc ctx) w = w ∧
  ∀ ctx', outcome fs (pipeline pl qc ctx) w = Ok ctx' → ctx' = enriched ctx ∧ passes pl qc ctx w.
Proof.
  pose proof (pipeline_rg pl qc ctx w) as Hrg.
  pose proof (seq_run _ _ _ _ fs Hrg) as [Hf Ho]. split_and!; [|done|done].
  assert (PreOrder (λ w w' : world, w' = w)) by (split; [by intros ?|by intros ??? -> ->]).
  exact (rg_crash_trans eq (λ w w' : world, w' = w) _ _ w n fs Hrg).
Qed.

Lemma pipeline_exec `{!Externals} pl qc ctx w :
  passes pl qc ctx w → exec (pipeline pl qc ctx) w = (Ok (enriched ctx), w).
Proof.
  intros ((H1 & H2) & Hq & Hav). unfold pipeline, PROCESSING_STEPS. cbn [run_pipeline].
  rewrite exec_bind. cbn [step_execute ValidationStep].
  rewrite (proj2 (Z.leb_gt _ _)) by done.
  assert (Hmax : ((0 <? pl_maxFileSizeBytes pl) && (pl_maxFileSizeBytes pl <? pc_sizeBytes ctx))%Z = false).
  { destruct (Z.ltb_spec 0 (pl_maxFileSizeBytes pl)); simpl; [|done]. apply Z.ltb_ge. auto. }
  rewrite Hmax. change (exec (Ret ctx) w) with (Ok ctx, w). cbv iota beta.
  rewrite !exec_bind. cbn [step_execute QuotaStep]. rewrite exec_bind, assertWithinQuota_exec, Hq.
  change (exec (Ret ctx) w) with (Ok ctx, w). cbv iota beta.
  rewrite exec_bind. cbn [step_execute AntivirusStep ContentTypeStep].
  destruct (pl_avEnabled pl); [|done]. destruct Hav as (c & Hc & Hf & Hok); [done|]. simpl negb. cbv iota.
  unfold scanFileWithClamd. rewrite !exec_bind, exec_call. simpl. rewrite Hc. simpl.
  rewrite exec_bind, exec_call. simpl. unfold parse_reply. by rewrite Hf, Hok.
Qed.

(** What passes the pipeline's conditions passes the pipeline: without failures it
    returns the enriched context. *)
Theorem pipeline_complete `{!Externals} pl qc ctx w :
  passes pl qc ctx w → exec (pipeline pl qc ctx) w = (Ok (enriched ctx), w).
Proof. apply pipeline_exec. Qed.

Import Demo.

(** ** Witnesses *)
Definition demo_pipeline : PipelineConfig := mkPipelineConfig 1000 true "clamav" 3310.
Definition scan_world : world :=
  set_fs {["/srv/data/f" := RegularFile [Byte.x61; Byte.x62]]} empty_world.
Definition demo_row : FileTransfer :=
  mkFileTransfer "t1" "k1" "a.csv" "/a.csv" "/srv/data/f" None "default" "2" None None false None
    TransferStatus.PENDING 0 None "acme" "ann" None None 0 0.
Definition demo_ctx : ProcessingContext := mkContext demo_row "/srv/data/f" 2 None.

Lemma clamd_fails_closed_witness :
  cl_settled (clamd_run ([SocketConnect; SocketData "stream: OK"; SocketEnd] ++ [SocketTimeout]))
    = Some (Ok (mkScan true None)).
Proof.
  exact (proj1 (clamd_fails_closed [SocketConnect; SocketData "stream: OK"; SocketEnd] [SocketTimeout]
    (Ok (mkScan true None)) eq_refl)).
Defined.

Lemma pipeline_complete_witness :
  exec (pipeline demo_pipeline demo_quota demo_ctx) scan_world = (Ok (enriched demo_ctx), scan_world) ∧
  pc_contentType (enriched demo_ctx) = Some "text/csv".
Proof.
  split; [|reflexivity]. apply pipeline_complete. split_and!.
  - reflexivity.
  - discriminate.
  - reflexivity.
  - intros _. exists [Byte.x61; Byte.x62]. split; [reflexivity|split; reflexivity].
Defined.
