(* ===== verification/Events.v ===== *)
(** * Outbound events

    [events/event-publisher.service.ts], [events/subscriptions.service.ts],
    [events/webhook-delivery.processor.ts], [kafka/kafka-producer.service.ts],
    [notifications/notification.service.ts]: a tenant's subscriptions, the fan-out of
    an event to Kafka and to one delivery job per subscriber, the signed delivery. *)
From S2P Require Import Prelude JsLang Numbers Json Entities Database Prog World Repository Outbox.

(** ** JSON

    [JSON.stringify] on the values the source sends. *)
Definition json_data (d : event_data) : string :=
  match d with
  | CompletedData bucket objectKey sizeBytes encrypted =>
      "{" +:+ json_field "bucket" (json_string bucket)
      +:+ "," +:+ json_field "objectKey" (json_string objectKey)
      +:+ "," +:+ json_field "sizeBytes" (number_to_string sizeBytes)
      +:+ "," +:+ json_field "encrypted" (json_bool encrypted) +:+ "}"
  | FailedData reason => "{" +:+ json_field "reason" (json_string reason) +:+ "}"
  end.

Definition json_event (e : DomainEvent) : string :=
  "{" +:+ json_field "type" (json_string (event_name (ev_type e)))
  +:+ "," +:+ json_field "transferId" (json_string (ev_transferId e))
  +:+ "," +:+ json_field "tenantId" (json_string (ev_tenantId e))
  +:+ "," +:+ json_field "data" (json_data (ev_data e)) +:+ "}".

(** ** Subscriptions *)
Record CreateSubscriptionDto := mkSubscriptionDto {
  sd_url : string;
  sd_events : list string;
  sd_secret : option string;
}.

(** [@ArrayNotEmpty] and [@IsIn(EVENT_TYPES)]; [valid_url] is [@IsUrl]. *)
Definition subscription_valid (valid_url : string → bool) (dto : CreateSubscriptionDto) : bool :=
  valid_url (sd_url dto) && negb (bool_decide (sd_events dto = []))
  && forallb (λ e, existsb (String.eqb e) [event_name transfer_completed; event_name transfer_failed])
       (sd_events dto).

Definition insert_subscription (mk : string → Z → EventSubscription) : dbM EventSubscription := λ d,
  let id := d_uuid d (d_uuid_pos d) in
  let s := mk id (d_now d) in
  if negb (pg_text (es_tenantId s) && pg_text (es_url s) && pg_text (es_secret s))
  then (Err invalid_byte_sequence, d)
  else if negb (varchar 100 (es_tenantId s) && varchar 2048 (es_url s) && varchar 255 (es_secret s))
  then (Err string_truncation, d)
  else if bool_decide (is_Some (d_subs d !! id)) then (Err unique_violation, d)
  else (Ok s, set_subs (<[id := s]> (d_subs d)) (set_uuid_pos (S (d_uuid_pos d)) d)).

Definition select_subscriptions (where_ : EventSubscription → bool)
    (le : EventSubscription → EventSubscription → bool) : dbM (list EventSubscription) := λ d,
  (Ok (isort le (List.filter where_ (map snd (map_to_list (d_subs d))))), d).

Definition delete_subscription (id : string) : dbM unit := λ d,
  (Ok tt, set_subs (delete id (d_subs d)) d).

Definition subs_newest_first (a b : EventSubscription) : bool :=
  (- es_createdAt a <=? - es_createdAt b)%Z.
Definition any_order (a b : EventSubscription) : bool := true.

(** [randomBytes(24).toString('hex')] *)
Definition hex_of (b : bytes) : string :=
  foldr (λ x acc, let n := code (Ascii.ascii_of_byte x) in
           String (hex_digit (n / 16)) (String (hex_digit (n mod 16)) acc)) "" b.

Definition create_subscription (user : AuthUser) (dto : CreateSubscriptionDto) : P EventSubscription :=
  secret <- match sd_secret dto with
            | Some s => Ret s
            | None => b <- call (RandomBytes 24) ;; Ret (hex_of b)
            end ;;
  sql (insert_subscription (λ id now,
    mkSubscription id (au_tenantId user) (sd_url dto) (sd_events dto) secret true now)).

Definition list_subscriptions (user : AuthUser) : P (list EventSubscription) :=
  sql (select_subscriptions (λ s, String.eqb (es_tenantId s) (au_tenantId user)) subs_newest_first).

Definition remove_subscription (user : AuthUser) (id : string) : P unit :=
  found <- sql (select_subscriptions
    (λ s, String.eqb (es_id s) id && String.eqb (es_tenantId s) (au_tenantId user)) any_order) ;;
  match found with
  | [] => Throw (HttpError 404 ("Subscription " +:+ id +:+ " not found"))
  | _ :: _ => sql (delete_subscription id)
  end.

(** ** Kafka *)
Definition kafka_onModuleInit (enabled : bool) : P unit :=
  if negb enabled then Ret tt
  else catch_ (call KafkaConnect ;;; set_in_proc (set_kafkaReady true)) (λ _, Ret tt).

(** [this.producer] exists when Kafka is enabled; a failure to disconnect is dropped. *)
Definition kafka_onModuleDestroy (enabled : bool) : P unit :=
  if negb enabled then Ret tt else catch_ (call KafkaDisconnect) (λ _, Ret tt).

(** [this.producer] exists once the module is initialized with Kafka enabled. *)
Definition kafka_publish (enabled : bool) (key : string) (value : DomainEvent) : P unit :=
  if negb enabled then Ret tt
  else catch_
    (ready <- in_proc (λ p, (p_kafkaReady p, p)) ;;
     (if (ready : bool) then Ret tt
      else call KafkaConnect ;;; set_in_proc (set_kafkaReady true)) ;;;
     call (KafkaSend key value))
    (λ _, Ret tt).

(** ** Fan-out *)
Definition wants (type : EventType) (s : EventSubscription) : bool :=
  existsb (String.eqb (event_name type)) (es_events s).

Definition delivery_job (e : DomainEvent) (s : EventSubscription) : WebhookDeliveryJob :=
  mkDelivery (es_id s) (es_url s) (es_secret s) e.

Definition active_of (tenant : string) (s : EventSubscription) : bool :=
  String.eqb (es_tenantId s) tenant && es_active s.

Definition publishTransferEvent (kafka : bool) (transfer : FileTransfer) (type : EventType)
    (data : event_data) : P unit :=
  let event := mkEvent type (ft_id transfer) (ft_tenantId transfer) data in
  kafka_publish kafka (ft_tenantId transfer) event ;;;
  subscriptions <- sql (select_subscriptions (active_of (ft_tenantId transfer)) any_order) ;;
  let targets := List.filter (wants type) subscriptions in
  for_each targets (λ s, call (DeliveryAdd (delivery_job event s))).

(** ** Delivery *)
Definition response_ok (status : Z) : bool := ((200 <=? status) && (status <=? 299))%Z.

Section delivery.
Context `{!Externals}.

Definition signature (secret body : string) : string := "sha256=" +:+ hmac_sha256_hex secret body.

Definition delivery_request (job : WebhookDeliveryJob) : http_request :=
  let body := json_event (wd_event job) in
  mkRequest (wd_url job)
    [("Content-Type", "application/json");
     ("X-SyncBridge-Event", event_name (ev_type (wd_event job)));
     ("X-SyncBridge-Signature", signature (wd_secret job) body)] body.

Definition process_delivery (job : WebhookDeliveryJob) : P unit :=
  catch_ (status <- call (Fetch (delivery_request job)) ;;
          (if response_ok status then Ret tt
           else Throw (plain_error ("subscriber returned " +:+ number_to_string status))) ;;;
          set_in_proc (recordWebhookDelivery true))
         (λ err, set_in_proc (recordWebhookDelivery false) ;;; Throw err).
End delivery.

(** ** Alerts

    The two symbols outside Latin-1 are spelled as their UTF-8 bytes. *)
Record NotificationConfig := mkNotificationConfig {
  nc_enabled : bool;
  nc_webhookUrl : option string;
}.

Record FailureAlert := mkAlert {
  fa_transferId : string;
  fa_filename : string;
  fa_reason : string;
}.

Definition newline : string := String (Ascii.ascii_of_nat 10) EmptyString.

Definition alert_text (a : FailureAlert) : string :=
  "🚨 S3-SyncBridge transfer FAILED" +:+ newline +:+ "• file: " +:+ fa_filename a
  +:+ newline +:+ "• id: " +:+ fa_transferId a +:+ newline +:+ "• reason: " +:+ fa_reason a.

Definition notifyFailure (nc : NotificationConfig) (a : FailureAlert) : P unit :=
  if negb (nc_enabled nc) || negb (truthy (nc_webhookUrl nc)) then Ret tt
  else catch_ (call (Fetch (mkRequest (nullish (nc_webhookUrl nc) "") [("Content-Type", "application/json")]
                 ("{" +:+ json_field "text" (json_string (alert_text a)) +:+ "}"))) ;;; Ret tt)
              (λ _, Ret tt).

(** ** The dead-letter worker ([ingestion/dead-letter.processor.ts]) *)
Definition process_dead_letter (nc : NotificationConfig) (job : DeadLetterJobData) : P unit :=
  set_in_proc recordDeadLetter ;;;
  transfer <- findById (dl_transferId job) ;;
  notifyFailure nc (mkAlert (dl_transferId job)
    (nullish (ft_filename <$> transfer) "unknown") (dl_reason job)).

(** ** Facts: JSON *)
Definition data_exact (d : event_data) : Prop :=
  match d with CompletedData _ _ n _ => is_double n | FailedData _ => True end.

Lemma json_data_inj d d' : data_exact d → data_exact d' → json_data d = json_data d' → d = d'.
Proof.
  destruct d as [b k n e|m], d' as [b' k' n' e'|m']; simpl data_exact; intros Hn Hn' Heq; unfold json_data in Heq.
  - apply string_app_inj_l, json_field_inj, json_string_inj_app in Heq as [-> Heq].
    apply string_app_inj_l, json_field_inj, json_string_inj_app in Heq as [-> Heq].
    apply string_app_inj_l, json_field_inj in Heq.
    apply (before_char_inj ","%char) in Heq as [Heqn Heq]; [|apply pretty_Z_no_comma..].
    apply number_to_string_inj in Heqn as ->; [|done..].
    apply json_field_inj in Heq. by destruct e, e'.
  - by apply string_app_inj_l in Heq.
  - by apply string_app_inj_l in Heq.
  - apply string_app_inj_l, json_field_inj, json_string_inj_app in Heq as [-> _]. done.
Qed.

Lemma json_event_inj e e' :
  data_exact (ev_data e) → data_exact (ev_data e') → json_event e = json_event e' → e = e'.
Proof.
  destruct e as [t i u d], e' as [t' i' u' d']. simpl. intros Hd Hd' Heq. unfold json_event in Heq. simpl in Heq.
  apply (string_app_inj_l "{"), json_field_inj, json_string_inj_app in Heq as [Ht Heq].
  apply (string_app_inj_l ","), json_field_inj, json_string_inj_app in Heq as [-> Heq].
  apply (string_app_inj_l ","), json_field_inj, json_string_inj_app in Heq as [-> Heq].
  apply (string_app_inj_l ","), json_field_inj, string_app_char_inj, json_data_inj in Heq as ->; [|done..].
  by destruct t, t'.
Qed.

(** *** The event as a value *)
Definition data_value (d : event_data) : json :=
  match d with
  | CompletedData bucket objectKey sizeBytes encrypted =>
      JObject [("bucket", JString bucket); ("objectKey", JString objectKey);
               ("sizeBytes", JNumber (Finite (QArith_base.inject_Z sizeBytes))); ("encrypted", JBool encrypted)]
  | FailedData reason => JObject [("reason", JString reason)]
  end.

Definition event_value (e : DomainEvent) : json :=
  JObject [("type", JString (event_name (ev_type e))); ("transferId", JString (ev_transferId e));
           ("tenantId", JString (ev_tenantId e)); ("data", data_value (ev_data e))].

Lemma json_data_value d : json_data d = stringify (data_value d).
Proof. destruct d; unfold json_data; simpl; by rewrite <- ?string_app_assoc. Qed.

Lemma json_event_value e : json_event e = stringify (event_value e).
Proof. unfold json_event. rewrite json_data_value. simpl. by rewrite <- ?string_app_assoc. Qed.

(** Sizes are safe integers. *)
Definition data_safe (d : event_data) : Prop :=
  match d with CompletedData _ _ n _ => (Z.abs n < 2 ^ 53)%Z | FailedData _ => True end.

Lemma event_value_printable e : data_safe (ev_data e) → printable (event_value e).
Proof. destruct e as [ty i t [b k n enc|m]]; simpl; [|done]. intros Hn. split_and!; eauto. Qed.

(** ** Facts: the statements, for the invariant of the system *)
Lemma tame_insert_subscription mk : tame (insert_subscription mk).
Proof. intros d. unfold insert_subscription. repeat case_match; eauto. Qed.
Lemma tame_select_subscriptions p le : tame (select_subscriptions p le).
Proof. by apply tame_reader. Qed.
Lemma tame_delete_subscription id : tame (delete_subscription id).
Proof. intros d. simpl. eauto. Qed.
#[export] Hint Resolve tame_insert_subscription tame_select_subscriptions tame_delete_subscription : bridge.

(** ** Facts: fan-out *)
Definition targets_of (d : db) (tenant : string) (type : EventType) : list EventSubscription :=
  List.filter (wants type) (isort any_order (List.filter (active_of tenant) (map snd (map_to_list (d_subs d))))).

Lemma targets_of_spec d tenant type s :
  s ∈ targets_of d tenant type ↔
  (∃ id, d_subs d !! id = Some s) ∧ es_tenantId s = tenant ∧ es_active s = true ∧
  event_name type ∈ es_events s.
Proof.
  unfold targets_of, active_of, wants.
  rewrite list_elem_of_In, filter_In, <- list_elem_of_In, elem_of_isort, list_elem_of_In, filter_In,
    <- list_elem_of_In, list_elem_of_fmap, andb_true_iff, existsb_exists. split.
  - intros [[([i u] & -> & Hin%elem_of_map_to_list) [Ht%String.eqb_eq Ha]] (x & Hx & Heq%String.eqb_eq)].
    subst x. apply list_elem_of_In in Hx. eauto.
  - intros ((i & Hi) & <- & Ha & He). split_and!.
    + exists (i, s). split; [done|]. by apply elem_of_map_to_list.
    + apply String.eqb_refl.
    + done.
    + exists (event_name type). split; [by apply list_elem_of_In|]. apply String.eqb_refl.
Qed.

(** What an activity that only publishes may change: the delivery queue, the Kafka log, and
    of the process the flag of the Kafka producer. *)
Definition publishes (w w' : world) : Prop :=
  w_db w' = w_db w ∧ w_queue w' = w_queue w ∧ w_dlq w' = w_dlq w ∧ w_s3 w' = w_s3 w ∧ w_fs w' = w_fs w ∧
  w_sent w' = w_sent w ∧ w_random w' = w_random w ∧ w_random_pos w' = w_random_pos w ∧
  w_proc w' = set_kafkaReady (p_kafkaReady (w_proc w')) (w_proc w).

#[export] Instance publishes_preorder : PreOrder publishes.
Proof.
  split; [intros w; split_and!; try done; by destruct (w_proc w)|].
  intros w1 w2 w3 (? & ? & ? & ? & ? & ? & ? & ? & Hp) (? & ? & ? & ? & ? & ? & ? & ? & Hp').
  split_and!; try congruence. rewrite Hp', Hp. by destruct (w_proc w1).
Qed.

Lemma publishes_deliveries l w : publishes w (set_deliveries l w).
Proof. split_and!; try done. simpl. by destruct (w_proc w). Qed.
Lemma publishes_kafka l w : publishes w (set_kafka l w).
Proof. split_and!; try done. simpl. by destruct (w_proc w). Qed.

(** The record of an event, once at most, and only with Kafka on. *)
Definition logged (kafka : bool) (key : string) (ev : DomainEvent) (w w' : world) : Prop :=
  w_kafka w' = w_kafka w ∨ kafka = true ∧ w_kafka w' = w_kafka w ++ [(key, ev)].

Section fanout.
Context `{!Externals}.

Lemma kafka_send_rg key ev w w0 :
  publishes w w0 → w_deliveries w0 = w_deliveries w → w_kafka w0 = w_kafka w →
  rg eq publishes (call (KafkaSend key ev))
    (λ _ w', publishes w w' ∧ w_deliveries w' = w_deliveries w ∧ logged true key ev w w') w0.
Proof.
  intros Hp Hd Hk. repeat rg_step.
  pose proof (publishes_kafka (w_kafka w0 ++ [(key, ev)]) w0) as Hs.
  destruct f; unfold perform; simpl; (split; [done || reflexivity|]); repeat rg_step; (split; [by etrans || done|]);
    (split; [done|]); [right|left|right]; simpl; by rewrite ?Hk.
Qed.

Lemma kafka_publish_rg kafka key ev w :
  rg eq publishes (kafka_publish kafka key ev)
    (λ r w', r = Ok tt ∧ publishes w w' ∧ w_deliveries w' = w_deliveries w ∧ logged kafka key ev w w') w.
Proof.
  assert (Hw : publishes w w) by reflexivity.
  unfold kafka_publish, in_proc, set_in_proc. destruct kafka; simpl; [|rg_step; split_and!; [done..|by left]].
  rg_step. rg_step. rg_step. unfold perform at 1 2 3; simpl.
  assert (Hsame : set_proc (w_proc w) w = w) by (by destruct w). rewrite Hsame. split; [done|]. clear f. rg_step.
  assert (Hend : ∀ w0, publishes w w0 → w_deliveries w0 = w_deliveries w → w_kafka w0 = w_kafka w →
    rg eq publishes (call (KafkaSend key ev)) (λ r w', match r with
      | Ok a => Ok a = Ok tt ∧ publishes w w' ∧ w_deliveries w' = w_deliveries w ∧ logged true key ev w w'
      | Err e => rg eq publishes (Ret tt) (λ r0 w'0, r0 = Ok tt ∧ publishes w w'0 ∧
          w_deliveries w'0 = w_deliveries w ∧ logged true key ev w w'0) w'
      end) w0).
  { intros w0 H1 H2 H3. eapply rg_mono; [by apply (kafka_send_rg key ev w w0)|].
    intros [[]|e] w' H'; [done|]. by rg_step. }
  simpl. destruct (p_kafkaReady (w_proc w)); rg_step; rg_step; [by apply Hend|]. rg_step.
  destruct f; unfold perform; simpl; (split; [done|]); rg_step;
    [|rg_step; split_and!; [done..|by left]|rg_step; split_and!; [done..|by left]].
  rg_step. unfold perform; simpl.
  assert (Hr : publishes w (set_proc (set_kafkaReady true (w_proc w)) w)) by (by split_and!).
  split; [done|]. rg_step. by apply Hend.
Qed.

Lemma publish_rg kafka transfer type data w :
  let ev := mkEvent type (ft_id transfer) (ft_tenantId transfer) data in
  let targets := targets_of (w_db w) (ft_tenantId transfer) type in
  rg eq publishes (publishTransferEvent kafka transfer type data)
    (λ r w', publishes w w' ∧ (∃ l, l `prefix_of` targets ∧
       w_deliveries w' = w_deliveries w ++ map (delivery_job ev) l ∧
       (r = Ok tt → l = targets)) ∧ logged kafka (ft_tenantId transfer) ev w w') w.
Proof.
  intros ev targets. unfold publishTransferEvent, sql. rg_step.
  eapply rg_mono; [apply kafka_publish_rg|]. intros r w1 (-> & Hp & Hd & Hk). repeat rg_step.
  assert (Hsel : ∀ f, (perform f (Db (select_subscriptions (active_of (ft_tenantId transfer)) any_order)) w1).2 = w1).
  { intros f'. unfold perform, fallible. simpl.
    assert (Hs : set_db (set_tenant (d_tenant (w_db w1)) (w_db w1)) w1 = w1) by (by destruct w1 as [[]]).
    by destruct f'. }
  rewrite Hsel. split; [done|].
  destruct (perform f _ w1).1 as [subs|e] eqn:Hsubs; simpl; repeat rg_step.
  2: { split; [done|]. split; [|done]. exists []. rewrite app_nil_r. split_and!; [apply prefix_nil|done|done]. }
  assert (Ht : List.filter (wants type) subs = targets).
  { unfold targets, targets_of. destruct Hp as (<- & _).
    revert Hsubs. unfold perform. simpl. destruct f; simpl; intros; by simplify_eq. }
  rewrite Ht. eapply (rg_for_each eq publishes) with (I := λ rest w', (publishes w w' ∧ w_kafka w' = w_kafka w1) ∧
    ∃ l, l ++ rest = targets ∧ w_deliveries w' = w_deliveries w ++ map (delivery_job ev) l).
  - intros s rest w2 ([Hp2 Hk2] & l & Hl & Hd2). repeat rg_step.
    set (w3 := set_deliveries (w_deliveries w2 ++ [delivery_job ev s]) w2).
    pose proof (publishes_deliveries (w_deliveries w2 ++ [delivery_job ev s]) w2 : publishes w2 w3) as H23.
    assert (Hadd : publishes w w3) by (by etrans).
    assert (Hst : w_deliveries w3 = w_deliveries w ++ map (delivery_job ev) (l ++ [s])).
    { simpl. by rewrite Hd2, map_app, <- app_assoc. }
    destruct f0; unfold perform; simpl; (split; [done || reflexivity|]); repeat rg_step; fold w3.
    + split; [done|]. exists (l ++ [s]). by rewrite <- app_assoc.
    + split; [done|]. split; [exists l; split_and!; [by exists (s :: rest)|done|done]|].
      unfold logged. by rewrite Hk2.
    + split; [done|]. split; [exists (l ++ [s]); split_and!; [|done|done]|].
      * exists rest. by rewrite <- app_assoc.
      * unfold logged. simpl. by rewrite Hk2.
  - intros w2 ([Hp2 Hk2] & l & Hl & Hd2). rg_step. rewrite app_nil_r in Hl. subst l.
    split; [done|]. split; [by exists targets|]. unfold logged. by rewrite Hk2.
  - split; [done|]. exists []. by rewrite app_nil_r.
Qed.
End fanout.

(** C34: Events reach exactly the tenant's subscribers.  Whatever fails,
    [publishTransferEvent] appends to the delivery queue jobs for active subscriptions of
    the transfer's own tenant that asked for this event type, each
    carrying the event and the subscription's own URL and secret; when it returns, all of
    them are there.  It adds at most one record, with the event under the tenant's key, to
    the Kafka log, and none when Kafka is off.  Apart from these and the flag of the
    Kafka producer the world is unchanged. *)
Theorem publish_reaches_subscribers `{!Externals} kafka transfer type data w fs :
  let p := publishTransferEvent kafka transfer type data in
  let ev := mkEvent type (ft_id transfer) (ft_tenantId transfer) data in
  publishes w (final fs p w) ∧ logged kafka (ft_tenantId transfer) ev w (final fs p w) ∧
  ∃ l, w_deliveries (final fs p w) = w_deliveries w ++ map (delivery_job ev) l ∧
    (∀ s, s ∈ l → (∃ id, d_subs (w_db w) !! id = Some s) ∧ es_tenantId s = ft_tenantId transfer ∧
                  es_active s = true ∧ event_name type ∈ es_events s) ∧
    (outcome fs p w = Ok tt → ∀ id s, d_subs (w_db w) !! id = Some s →
       es_tenantId s = ft_tenantId transfer → es_active s = true → event_name type ∈ es_events s → s ∈ l).
Proof.
  intros p ev. destruct (seq_run _ _ _ _ fs (publish_rg kafka transfer type data w)) as (Hp & (l & Hl & Hd & Hall) & Hk).
  fold p in Hp, Hd, Hall, Hk. split; [done|]. split; [done|]. exists l. split_and!; [done| |].
  - intros s Hs. apply targets_of_spec. destruct Hl as [k ->]. set_solver.
  - intros Hok id s Hid Ht Ha He. rewrite (Hall Hok). apply targets_of_spec. eauto.
Qed.

(** A delivery is acknowledged only by a 2xx answer.  Whatever fails,
    [process_delivery] sends at most the one signed request of its job and nothing else;
    it returns exactly when the subscriber answered with a status from 200 to 299, and
    counts the delivery as delivered or failed accordingly, once. *)
Theorem delivery_outcome `{!Externals} job w fs :
  let p := process_delivery job in
  let w' := final fs p w in
  w' = set_proc (w_proc w') (set_sent (w_sent w') w) ∧
  (w_sent w' = w_sent w ∨ w_sent w' = w_sent w ++ [delivery_request job]) ∧
  match outcome fs p w with
  | Ok _ => w_sent w' = w_sent w ++ [delivery_request job] ∧
      response_ok (http_status (wd_url job) (json_event (wd_event job))) = true ∧
      w_proc w' = recordWebhookDelivery true (w_proc w)
  | Err _ => w_proc w' = recordWebhookDelivery false (w_proc w)
  end.
Proof.
  eapply (seq_run (λ _ _, True) _ (λ r w', w' = set_proc (w_proc w') (set_sent (w_sent w') w) ∧
    (w_sent w' = w_sent w ∨ w_sent w' = w_sent w ++ [delivery_request job]) ∧
    match r with
    | Ok _ => w_sent w' = w_sent w ++ [delivery_request job] ∧
        response_ok (http_status (wd_url job) (json_event (wd_event job))) = true ∧
        w_proc w' = recordWebhookDelivery true (w_proc w)
    | Err _ => w_proc w' = recordWebhookDelivery false (w_proc w)
    end)).
  unfold process_delivery, set_in_proc. rg_step. rg_step. rg_step. split; [done|].
  destruct f; unfold perform; simpl; rg_step; repeat rg_step;
    [|unfold perform; simpl; split; [done|]; repeat rg_step; destruct w; naive_solver..].
  destruct (response_ok _) eqn:Hok; repeat rg_step; unfold perform; simpl; (split; [done|]); repeat rg_step;
    destruct w; naive_solver.
Qed.

(** C40: A subscriber reads the event it is sent.  The body of a delivery is well-formed
    JSON, and [JSON.parse] of it is the event: its type, transfer, tenant and data,
    whatever characters they contain. *)
Theorem delivered_body_parses `{!Externals} job :
  data_safe (ev_data (wd_event job)) →
  JSON_parse (rq_body (delivery_request job)) = Parsed (event_value (wd_event job)).
Proof. intros Hs. simpl. rewrite json_event_value. by apply parse_stringify, event_value_printable. Qed.

Lemma delivered_body_parses_witness :
  let e := mkEvent transfer_completed "t1" "acme" (CompletedData "b" ("k" +:+ quote +:+ newline) 1024 true) in
  JSON_parse (rq_body (@delivery_request Demo.externals (mkDelivery "s1" "https://x" "secret" e))) =
    Parsed (event_value e).
Proof. intros e. apply (@delivered_body_parses Demo.externals (mkDelivery "s1" "https://x" "secret" e)). reflexivity. Defined.

(** The signed body identifies the event: two events with the same JSON body are the
    same event (sizes are doubles, as every JavaScript number). *)
Theorem signed_body_identifies_event e e' :
  data_exact (ev_data e) → data_exact (ev_data e') → json_event e = json_event e' → e = e'.
Proof. apply json_event_inj. Qed.

Lemma signed_body_identifies_event_witness :
  mkEvent transfer_failed "t1" "acme" (FailedData "a") = mkEvent transfer_failed "t1" "acme" (FailedData "a").
Proof. apply signed_body_identifies_event; [exact I|exact I|reflexivity]. Defined.

(** ** Tenancy of subscriptions *)

(** Subscriptions sit under their id. *)
Definition wf_subs (m : gmap string EventSubscription) : Prop := ∀ id s, m !! id = Some s → es_id s = id.

(** Everything that does not belong to [tenant] is as it was. *)
Definition others_kept (tenant : string) (d d' : db) : Prop :=
  ∀ id s, es_tenantId s ≠ tenant → d_subs d !! id = Some s ↔ d_subs d' !! id = Some s.

Lemma others_kept_refl t d : others_kept t d d.
Proof. by intros ???. Qed.

Lemma others_kept_trans t d1 d2 d3 : others_kept t d1 d2 → others_kept t d2 d3 → others_kept t d1 d3.
Proof. intros H1 H2 id s Hs. by rewrite (H1 id s Hs), (H2 id s Hs). Qed.

Lemma transact_others {A} t (m : dbM A) d :
  others_kept t d (m d).2 → others_kept t d (transact m d).2.
Proof. unfold transact. destruct (m d) as [[a|e] d']; [done|]. intros _. apply others_kept_refl. Qed.

Lemma insert_subscription_others mk t d :
  (∀ id now, es_tenantId (mk id now) = t) → others_kept t d (insert_subscription mk d).2.
Proof.
  intros Hmk. unfold insert_subscription. destruct (negb _); [apply others_kept_refl|].
  destruct (negb _); [apply others_kept_refl|]. case_bool_decide as Hn; [apply others_kept_refl|].
  intros i s Hne. simpl. rewrite lookup_insert. case_decide as Hi; [|done]. subst i.
  split; [|intros [= <-]; by rewrite Hmk in Hne]. intros Hs. exfalso. eauto.
Qed.

Lemma delete_subscription_others id t d s :
  d_subs d !! id = Some s → es_tenantId s = t → others_kept t d (delete_subscription id d).2.
Proof.
  intros Hs Ht i u Hu. simpl. rewrite lookup_delete. case_decide as Hi; [|done]. subst i.
  split; [|done]. intros. by simplify_eq.
Qed.

Section tenancy.
Context `{!Externals}.

Lemma db_perform_others {A} t (m : dbM A) f w :
  others_kept t (w_db w) (m (w_db w)).2 → others_kept t (w_db w) (w_db (perform f (Db m) w).2).
Proof.
  intros Hm%transact_others. unfold perform. simpl.
  destruct f; simpl; try apply others_kept_refl; by destruct (transact m (w_db w)).
Qed.

Lemma create_subscription_rg user dto w :
  rg eq (λ _ _, True) (create_subscription user dto)
    (λ _ w', others_kept (au_tenantId user) (w_db w) (w_db w')) w.
Proof.
  assert (Hins : ∀ secret w0, w_db w0 = w_db w → rg eq (λ _ _, True)
    (sql (insert_subscription (λ id now, mkSubscription id (au_tenantId user) (sd_url dto) (sd_events dto)
       secret true now))) (λ _ w', others_kept (au_tenantId user) (w_db w) (w_db w')) w0).
  { intros secret w0 <-. unfold sql. rg_step. split; [done|].
    pose proof (db_perform_others (au_tenantId user) _ f w0 (insert_subscription_others
      (λ id now, mkSubscription id (au_tenantId user) (sd_url dto) (sd_events dto) secret true now)
      (au_tenantId user) (w_db w0) (λ _ _, eq_refl))) as Ho.
    destruct (perform f _ w0) as [[s|e] w1]; simpl in *; by rg_step. }
  unfold create_subscription. rg_step. destruct (sd_secret dto) as [s|].
  - rg_step. by apply Hins.
  - rg_step. rg_step. split; [done|]. unfold perform; simpl. rg_step. rg_step. by apply Hins.
Qed.

Lemma remove_subscription_rg user id w :
  wf_subs (d_subs (w_db w)) →
  rg eq (λ _ _, True) (remove_subscription user id)
    (λ _ w', others_kept (au_tenantId user) (w_db w) (w_db w')) w.
Proof.
  intros Hwf. unfold remove_subscription, sql. rg_step. rg_step. split; [done|].
  set (sel := select_subscriptions _ any_order).
  assert (Hsel : ∀ f, (perform f (Db sel) w).2 = w).
  { intros f'. unfold perform. simpl.
    assert (Hs : set_db (set_tenant (d_tenant (w_db w)) (w_db w)) w = w) by (by destruct w as [[]]).
    by destruct f'. }
  rewrite Hsel. destruct (perform f (Db sel) w).1 as [found|e] eqn:Hf; simpl; rg_step;
    [|apply others_kept_refl].
  destruct found as [|s found]; [rg_step; apply others_kept_refl|].
  assert (Hin : ∃ i, d_subs (w_db w) !! i = Some s ∧ es_id s = id ∧ es_tenantId s = au_tenantId user).
  { assert (Hmem : s ∈ isort any_order (List.filter
      (λ s, String.eqb (es_id s) id && String.eqb (es_tenantId s) (au_tenantId user))
      (map snd (map_to_list (d_subs (w_db w)))))).
    { revert Hf. unfold perform. simpl. destruct f; simpl; intros; simplify_eq.
      match goal with H : _ = s :: found |- _ => rewrite H end. apply list_elem_of_here. }
    rewrite elem_of_isort, list_elem_of_In, filter_In, <- list_elem_of_In, list_elem_of_fmap in Hmem.
    destruct Hmem as [([i u] & -> & Hu%elem_of_map_to_list) [H1%String.eqb_eq H2%String.eqb_eq]%andb_true_iff].
    exists i. done. }
  destruct Hin as (i & Hi & Hid & Ht). rewrite (Hwf _ _ Hi) in Hid. subst i.
  rg_step. split; [done|].
  pose proof (db_perform_others (au_tenantId user) _ f0 w
    (delete_subscription_others id _ _ s Hi Ht)) as Ho.
  destruct (perform f0 (Db (delete_subscription id)) w) as [[[]|e] w1]; simpl in *; by rg_step.
Qed.
End tenancy.

(** Subscriptions are tenant-scoped.  Whatever fails, creating or removing a
    subscription leaves every subscription of every other tenant as it was, and a
    listing returns exactly the caller's own, newest first. *)
Theorem subscriptions_tenant_scoped `{!Externals} user dto id w fs :
  wf_subs (d_subs (w_db w)) →
  others_kept (au_tenantId user) (w_db w) (w_db (final fs (create_subscription user dto) w)) ∧
  others_kept (au_tenantId user) (w_db w) (w_db (final fs (remove_subscription user id) w)) ∧
  ∃ l, exec (list_subscriptions user) w = (Ok l, w) ∧
    StronglySorted (λ a b, (- es_createdAt a ≤ - es_createdAt b)%Z) l ∧
    ∀ s, s ∈ l ↔ (∃ i, d_subs (w_db w) !! i = Some s) ∧ es_tenantId s = au_tenantId user.
Proof.
  intros Hwf. split_and!.
  - exact (seq_run _ _ _ _ fs (create_subscription_rg user dto w)).
  - exact (seq_run _ _ _ _ fs (remove_subscription_rg user id w Hwf)).
  - eexists. split.
    { unfold list_subscriptions, sql. rewrite exec_call. simpl. by destruct w as [[]]. }
    split; [apply isort_StronglySorted|]. intros s.
    rewrite elem_of_isort, list_elem_of_In, filter_In, <- list_elem_of_In, list_elem_of_fmap, String.eqb_eq.
    split.
    + intros [([i u] & -> & Hu%elem_of_map_to_list) Ht]. eauto.
    + intros [[i Hi] Ht]. split; [|done]. exists (i, s). split; [done|]. by apply elem_of_map_to_list.
Qed.

Import Demo.

Definition demo_user : AuthUser := mkAuthUser "u1" "ann" [OPERATOR] "acme".
Definition subs_world : world :=
  set_db (set_subs {["s1" := mkSubscription "s1" "acme" "http://a/" ["transfer.failed"] "k" true 1]}
    empty_db) empty_world.

Lemma subscriptions_tenant_scoped_witness :
  others_kept "acme" (w_db subs_world) (w_db (final [] (remove_subscription demo_user "s1") subs_world)).
Proof.
  apply (subscriptions_tenant_scoped demo_user (mkSubscriptionDto "" [] None) "s1" subs_world []).
  intros i s Hi. unfold subs_world in Hi. simpl in Hi. by apply lookup_singleton_Some in Hi as [<- <-].
Defined.
