(* ===== verification/Processor.v ===== *)
(** * The transfer worker ([ingestion/ingestion.processor.ts], [common/checksum.util.ts])

    [runTransfer] moves one accepted upload to the object store: claim the row, run the
    pipeline, hash, route, optionally encrypt, upload, verify, record.  Permanent
    failures finalize the row and go to the dead-letter queue, anything else is thrown
    back to BullMQ; [onFailed] finalizes when the attempts are used up.

    The theorems: a row is SUCCESS only with its object stored; an acknowledged
    job has a terminal row (or no row); what happens on each path; and the places where
    the code leaves a row, a gauge or a file descriptor in another state than intended. *)
From S2P Require Import Prelude JsLang NodePath Entities Database Prog World Repository Outbox.
From S2P Require Import Quota Routing Storage Crypto Pipeline Events.

Record ProcessorConfig := mkProcessorConfig {
  ps_storage : StorageConfig;
  ps_pipeline : PipelineConfig;
  ps_quota : QuotaConfig;
  ps_routing : RoutingConfig;
  ps_crypto : CryptoConfig;
  ps_kafka : bool;
}.

Record FileChecksums := mkChecksums { md5 : string; sha256 : string }.

(** [/^[0-9a-f]{32}$/i] *)
Fixpoint all_chars (p : Ascii.ascii → bool) (s : string) : bool :=
  match s with
  | EmptyString => true
  | String c s' => p c && all_chars p s'
  end.
Definition is_hex (c : Ascii.ascii) : bool :=
  let n := code c in
  (((48 <=? n) && (n <=? 57)) || ((97 <=? n) && (n <=? 102)) || ((65 <=? n) && (n <=? 70)))%nat.
Definition SINGLE_PART_ETAG (s : string) : bool := (String.length s =? 32)%nat && all_chars is_hex s.

Definition verifyIntegrity (etag : option string) (expectedMd5 : string) : result unit :=
  match etag with
  | Some e =>
      if truthy etag && SINGLE_PART_ETAG e && negb (String.eqb (toLowerCase e) (toLowerCase expectedMd5))
      then Err (plain_error ("Integrity check failed: ETag " +:+ e +:+ " != source MD5 " +:+ expectedMd5))
      else Ok tt
  | None => Ok tt
  end.

Definition errMessage (e : exn) : string := exn_name e +:+ ": " +:+ exn_message e.

Definition toDeadLetter (transferId reason : string) : P unit := call (DlqAdd (mkDeadLetter transferId reason)).

Section worker.
Context `{!Externals, !Gcm}.

Definition computeFileChecksums (path : string) : P FileChecksums :=
  c <- call (ReadFile path) ;; Ret (mkChecksums (md5_hex c) (sha256_hex c)).

(** The bytes the upload streams: the file, or the file through the encrypting
    transform. *)
Definition upload_bytes (enc : option (enc_stream * string)) (c : bytes) : bytes :=
  match enc with
  | Some (st, _) => encrypt_all st (read_chunks c)
  | None => c
  end.

(** The [try] block of [runTransfer]. *)
Definition transfer_body (ps : ProcessorConfig) (transfer : FileTransfer) : P unit :=
  stats <- catch_ (call (Stat (ft_sourcePath transfer))) (λ _, Ret None) ;;
  match stats with
  | Some (true, size) =>
      ctx <- pipeline (ps_pipeline ps) (ps_quota ps) (mkContext transfer (ft_sourcePath transfer) size None) ;;
      checksums <- computeFileChecksums (pc_sourcePath ctx) ;;
      let target := resolve_route (ps_routing ps) transfer in
      enc <- (if cc_enabled (ps_crypto ps)
              then e <- createEncryptStream (ps_crypto ps) ;; Ret (Some e) else Ret None) ;;
      let wrappedDek := snd <$> enc in
      result <- uploadStream (ps_storage ps)
        (mkUploadParams (rt_key target) (file_body (pc_sourcePath ctx) (upload_bytes enc))
           (Some (match enc with Some _ => pc_sizeBytes ctx + overheadBytes | None => pc_sizeBytes ctx end)%Z)
           (Some (nullish (pc_contentType ctx) "application/octet-stream")) (Some (rt_bucket target))) ;;
      of_result (if truthy wrappedDek then Ok tt else verifyIntegrity (ur_etag result) (md5 checksums)) ;;;
      markSuccess (ft_id transfer) (ur_bucket result) (ur_key result) (ur_etag result)
        (Some (sha256 checksums)) (truthy wrappedDek) wrappedDek ;;;
      set_in_proc (recordSuccess (pc_sizeBytes ctx)) ;;;
      recordUsage (ft_tenantId transfer) (pc_sizeBytes ctx) ;;;
      publishTransferEvent (ps_kafka ps) transfer transfer_completed
        (CompletedData (ur_bucket result) (ur_key result) (pc_sizeBytes ctx) (truthy wrappedDek))
  | _ => Throw (NonRetryable ("Source unreadable: " +:+ ft_sourcePath transfer))
  end.

(** The permanent branch of its [catch]. *)
Definition reject (ps : ProcessorConfig) (transfer : FileTransfer) (message : string) : P unit :=
  markFailed (ft_id transfer) message ;;;
  set_in_proc recordFailure ;;;
  publishTransferEvent (ps_kafka ps) transfer transfer_failed (FailedData message) ;;;
  toDeadLetter (ft_id transfer) message.

Definition runTransfer (ps : ProcessorConfig) (job : Job) : P unit :=
  found <- findById (tj_transferId (job_data job)) ;;
  match found with
  | None => Ret tt
  | Some transfer =>
      if bool_decide (ft_status transfer = TransferStatus.SUCCESS) then Ret tt
      else
        set_in_proc incInFlight ;;;
        markProcessing (ft_id transfer) ;;;
        finally_
          (catch_ (transfer_body ps transfer)
             (λ err, match err with
                     | NonRetryable m => reject ps transfer m
                     | _ => Throw err
                     end))
          (set_in_proc decInFlight ;;; set_in_proc endTimer)
  end.

(** The span around it changes nothing. *)
Definition process (ps : ProcessorConfig) (job : Job) : P unit :=
  catch_ (runTransfer ps job) (λ err, Throw err).

Definition onFailed (ps : ProcessorConfig) (job : Job) (err : exn) : P unit :=
  let totalAttempts := nullish (job_attempts job) 1%Z in
  let id := tj_transferId (job_data job) in
  if (job_attemptsMade job <? totalAttempts)%Z then Ret tt
  else
    let message := "Exhausted " +:+ number_to_string totalAttempts +:+ " attempts. Last error: "
                   +:+ errMessage err in
    markFailed id message ;;;
    set_in_proc recordFailure ;;;
    transfer <- findById id ;;
    (match transfer with
     | Some t => publishTransferEvent (ps_kafka ps) t transfer_failed (FailedData message)
     | None => Ret tt
     end) ;;;
    toDeadLetter id message.

(** One attempt of a job.  Both handlers are the worker's; how they are called is BullMQ's
    documented behaviour: when the processor throws, the listener of the [failed] event gets
    the job with the attempt counted. *)
Definition failed_job (job : Job) : Job :=
  mkJob (job_name job) (job_data job) (job_attempts job) (job_attemptsMade job + 1).

Definition attempt (ps : ProcessorConfig) (job : Job) : P unit :=
  catch_ (process ps job) (λ err, onFailed ps (failed_job job) err).
End worker.

(** ** Facts: updates of a row as the worker sees them *)
Section facts.
Context `{!Externals, !Gcm}.

(** An update in the worker's session, whatever happens to it: the statement changes
    at most the row, and a success means the row was updated. *)
Lemma update_perform id patch f w r :
  d_transfers (w_db w) !! id = Some r → d_tenant (w_db w) = None →
  let res := perform f (Db (update_transfer id patch)) w in
  ∃ d', res.2 = set_db d' w ∧ d_tenant d' = None ∧ d_usage d' = d_usage (w_db w) ∧
    d_subs d' = d_subs (w_db w) ∧ d_outbox d' = d_outbox (w_db w) ∧ d_now d' = d_now (w_db w) ∧
    (d_transfers d' = d_transfers (w_db w) ∧ res.1 ≠ Ok tt ∨
     d_transfers d' = <[id := touch (d_now (w_db w)) (patch r)]> (d_transfers (w_db w))).
Proof.
  intros Hr Ht res.
  assert (Hv : tenant_isolation (w_db w) r = true) by (unfold tenant_isolation; rewrite Ht; apply orb_true_r).
  assert (Hsame : set_db (w_db w) w = w) by (by destruct w).
  assert (Hcase : ∃ r' d', transact (update_transfer id patch) (w_db w) = (r', d') ∧ d_tenant d' = None ∧
    d_usage d' = d_usage (w_db w) ∧ d_subs d' = d_subs (w_db w) ∧ d_outbox d' = d_outbox (w_db w) ∧
    d_now d' = d_now (w_db w) ∧
    (d_transfers d' = d_transfers (w_db w) ∧ r' ≠ Ok tt ∨
     d_transfers d' = <[id := touch (d_now (w_db w)) (patch r)]> (d_transfers (w_db w)))).
  { unfold transact. destruct (update_transfer_cases id patch (w_db w)) as [[e ->]|[[_ Hhid]|(r' & Hr' & _ & _ & ->)]].
    - eexists _, _. split; [done|]. naive_solver.
    - by rewrite (Hhid _ Hr) in Hv.
    - simplify_eq. eexists _, _. split; [done|]. simpl. naive_solver. }
  destruct Hcase as (r' & d' & Htr & Hrest). unfold res, perform. simpl.
  destruct f; simpl; rewrite ?Htr; simpl.
  - exists d'. done.
  - exists (w_db w). rewrite Hsame. naive_solver.
  - exists d'. naive_solver.
Qed.

Lemma find_perform id f w :
  (perform f (Db (find_transfer id)) w).2 = w ∧
  (d_tenant (w_db w) = None → ∀ o, (perform f (Db (find_transfer id)) w).1 = Ok o →
     o = d_transfers (w_db w) !! id).
Proof.
  assert (Hs : set_db (set_tenant (d_tenant (w_db w)) (w_db w)) w = w) by (by destruct w as [[]]).
  assert (Hf : d_tenant (w_db w) = None →
    (r ← d_transfers (w_db w) !! id; if tenant_isolation (w_db w) r then Some r else None)
      = d_transfers (w_db w) !! id).
  { intros Ht. destruct (d_transfers (w_db w) !! id) as [r|]; simpl; [|done].
    unfold tenant_isolation. by rewrite Ht, orb_true_r. }
  unfold perform. simpl. destruct f; simpl; rewrite ?Hs; split; try done; intros Ht o Ho; simplify_eq; auto.
Qed.

Lemma usage_perform t b f w :
  let w' := (perform f (Db (record_usage_statement t b)) w).2 in
  ∃ u, w' = set_db (set_usage u (w_db w)) w.
Proof.
  assert (Ht : ∃ r u, transact (record_usage_statement t b) (w_db w) = (r, set_usage u (w_db w))).
  { unfold transact, record_usage_statement. repeat case_match; simplify_eq; simpl.
    all: try (eexists _, _; f_equal; by destruct (w_db w)).
    all: eexists _, (d_usage (w_db w)); f_equal; by destruct (w_db w). }
  destruct Ht as (r & u & Ht). unfold perform. simpl. destruct f; simpl; rewrite ?Ht; simpl; eauto.
  exists (d_usage (w_db w)). by destruct w as [[]].
Qed.

(** ** The encryption the worker uses

    A fresh stream, and its key sealed under the master key in base64. *)
Definition enc_valid (cc : CryptoConfig) (enc : option (enc_stream * string)) : Prop :=
  match enc with
  | None => cc_enabled cc = false
  | Some (st, wrapped) => cc_enabled cc = true ∧
      ∃ kek dek iv wiv, cc_kek cc = Some kek ∧ length kek = 32%nat ∧
        st = mkEncStream dek iv false [] ∧ length dek = 32%nat ∧ length iv = IV_LEN ∧
        length wiv = IV_LEN ∧ wrapped = base64_encode (sealed kek wiv dek)
  end.

Lemma base64_nonempty l : l ≠ [] → base64_encode l ≠ "".
Proof. by destruct l as [|a [|b [|c l]]]. Qed.

Lemma enc_valid_unwrap `{!GcmLaws} cc st wrapped :
  enc_valid cc (Some (st, wrapped)) →
  wrapped ≠ "" ∧ ∃ dek iv, st = mkEncStream dek iv false [] ∧ length dek = 32%nat ∧ length iv = IV_LEN ∧
    unwrapDek cc wrapped = Ok dek.
Proof.
  intros (_ & kek & dek & iv & wiv & Hk & Hlen & -> & Hd & Hiv & Hwiv & ->). split.
  - apply base64_nonempty. by destruct wiv.
  - exists dek, iv. split_and!; [done..|]. unfold unwrapDek. rewrite Hk, base64_roundtrip. by apply decrypt_buffer_sealed.
Qed.

Lemma random_perform n f w :
  perform f (RandomBytes n) w = (Ok (randoms w 0 n), set_random_pos (w_random_pos w + n) w).
Proof. unfold perform. simpl. unfold randoms. by rewrite Nat.add_0_r. Qed.

Lemma createEncryptStream_rg `{!GcmLaws} cc w :
  cc_enabled cc = true →
  rg eq (λ w0 w', ∃ n, w' = set_random_pos n w0) (createEncryptStream cc)
    (λ r w', (∃ n, w' = set_random_pos n w) ∧ ∀ e, r = Ok e → enc_valid cc (Some e)) w.
Proof.
  intros Hen. unfold createEncryptStream, wrapDek.
  rg_step. rg_step. rewrite random_perform. split; [eauto|]. cbn [fst snd of_result]. rg_step.
  rg_step. rg_step. rewrite random_perform. split; [eauto|]. cbn [fst snd of_result]. rg_step.
  rewrite check_cipher_ok by apply length_randoms. rg_step. cbn [of_result]. rg_step.
  rg_step. rg_step. rg_step. rewrite random_perform. split; [eauto|]. cbn [fst snd of_result]. rg_step.
  destruct (cc_kek cc) as [kek|] eqn:Hk; [|rg_step; split; [by eexists|done]].
  lazymatch goal with |- context [check_cipher kek ?x] =>
    assert (Hwiv : length x = IV_LEN) by apply length_randoms; revert Hwiv; generalize x as wiv end.
  assert (Hdek : length (randoms w 0 32) = 32%nat) by apply length_randoms.
  revert Hdek. generalize (randoms w 0 32) as dek. intros dek Hdek wiv Hwiv.
  rg_step. destruct (check_cipher kek wiv) as [[]|e] eqn:Hc; cbn [of_result]; repeat rg_step;
    [|split; [by eexists|done]].
  split; [by eexists|]. intros e [= <-]. split; [done|].
  exists kek, dek. eexists _, wiv. split_and!; [done| |done|done|apply length_randoms|done|done].
  unfold check_cipher in Hc. destruct (Nat.eqb_spec (length kek) 32); [done|]. done.
Qed.
End facts.

(** ** What a SUCCESS row means *)
Section invariant.
Context `{!Externals, !Gcm, !GcmLaws}.
Context (ps : ProcessorConfig) (transfer : FileTransfer).

(** The row names the object the routing chose; the object holds the file, encrypted
    under the key the row carries if encryption is on; the row has the hash of the file
    and the ETag of the object. *)
Definition stored (fs : gmap string fs_node) (s3 : s3_store) (r : FileTransfer) : Prop :=
  let target := resolve_route (ps_routing ps) transfer in
  ∃ c enc obj,
    fs !! ft_sourcePath transfer = Some (RegularFile c) ∧ enc_valid (ps_crypto ps) enc ∧
    lookup_object s3 (rt_bucket target) (rt_key target) = Some obj ∧
    o_body obj = upload_bytes enc c ∧
    ft_bucket r = rt_bucket target ∧ ft_objectKey r = Some (rt_key target) ∧
    ft_etag r = normalizeEtag (o_etag obj) ∧ ft_checksumSha256 r = Some (sha256_hex c) ∧
    ft_encrypted r = bool_decide (is_Some enc) ∧ ft_wrappedDek r = snd <$> enc.

Definition row_of (w : world) : option FileTransfer := d_transfers (w_db w) !! ft_id transfer.

(** The state of the transfer between two operations of its worker. *)
Definition worker_inv (fs : gmap string fs_node) (w : world) : Prop :=
  d_tenant (w_db w) = None ∧ w_fs w = fs ∧
  ∃ r, row_of w = Some r ∧ (ft_status r = TransferStatus.SUCCESS → stored fs (w_s3 w) r).

Definition claimed (fs : gmap string fs_node) (w : world) : Prop :=
  d_tenant (w_db w) = None ∧ w_fs w = fs ∧
  ∃ r, row_of w = Some r ∧ ft_status r ≠ TransferStatus.SUCCESS.

Lemma claimed_inv fs w : claimed fs w → worker_inv fs w.
Proof. intros (? & ? & r & ? & ?). split_and!; [done|done|]. by exists r. Qed.

Lemma claimed_ext fs w w' : w_db w' = w_db w → w_fs w' = w_fs w → claimed fs w → claimed fs w'.
Proof. unfold claimed, row_of. by intros -> ->. Qed.

Lemma inv_ext fs w w' :
  d_tenant (w_db w') = d_tenant (w_db w) → d_transfers (w_db w') = d_transfers (w_db w) →
  w_fs w' = w_fs w → w_s3 w' = w_s3 w → worker_inv fs w → worker_inv fs w'.
Proof. unfold worker_inv, row_of. by intros -> -> -> ->. Qed.

Lemma publishes_inv fs w w' : publishes w w' → worker_inv fs w → worker_inv fs w'.
Proof. intros (Hd & _ & _ & Hs & Hf & _). apply inv_ext; congruence. Qed.

Lemma truthy_enc enc : enc_valid (ps_crypto ps) enc → truthy (snd <$> enc) = bool_decide (is_Some enc).
Proof.
  destruct enc as [[st wr]|]; [|done]. intros [Hne _]%enc_valid_unwrap. simpl.
  by destruct (String.eqb_spec wr "").
Qed.

(** From the stored object to the end of the [try] block. *)
Lemma finish_rg fs w c enc obj size etag md5s :
  claimed fs w → fs !! ft_sourcePath transfer = Some (RegularFile c) → enc_valid (ps_crypto ps) enc →
  let target := resolve_route (ps_routing ps) transfer in
  lookup_object (w_s3 w) (rt_bucket target) (rt_key target) = Some obj →
  o_body obj = upload_bytes enc c → etag = normalizeEtag (o_etag obj) →
  rg eq (λ _ w', worker_inv fs w')
    (of_result (if truthy (snd <$> enc) then Ok tt else verifyIntegrity etag md5s) ;;;
     markSuccess (ft_id transfer) (rt_bucket target) (rt_key target) etag (Some (sha256_hex c))
       (truthy (snd <$> enc)) (snd <$> enc) ;;;
     set_in_proc (recordSuccess size) ;;;
     recordUsage (ft_tenantId transfer) size ;;;
     publishTransferEvent (ps_kafka ps) transfer transfer_completed
       (CompletedData (rt_bucket target) (rt_key target) size (truthy (snd <$> enc))))
    (λ res w', worker_inv fs w' ∧
       (res = Ok tt → ∃ r, row_of w' = Some r ∧ ft_status r = TransferStatus.SUCCESS)) w.
Proof.
  intros Hcl Hc Henc target Hobj Hbody Hetag. pose proof (claimed_inv _ _ Hcl) as Hinv.
  rg_step. destruct (if truthy (snd <$> enc) then Ok tt else verifyIntegrity etag md5s) as [[]|e];
    cbn [of_result]; rg_step; [|done].
  unfold markSuccess, set_in_proc, recordUsage, sql. rg_step. rg_step.
  destruct Hcl as (Ht & Hfs & r0 & Hr0 & Hst0).
  destruct (update_perform (ft_id transfer) (upd_stored (rt_bucket target) (rt_key target) etag
    (Some (sha256_hex c)) (truthy (snd <$> enc)) (snd <$> enc)) f w r0 Hr0 Ht)
    as (d' & Hw & Ht' & Hu & Hs & Ho & Hn & Hcase). rewrite Hw.
  set (r1 := touch (d_now (w_db w)) (upd_stored (rt_bucket target) (rt_key target) etag
    (Some (sha256_hex c)) (truthy (snd <$> enc)) (snd <$> enc) r0)) in Hcase.
  assert (Hstored : stored fs (w_s3 w) r1).
  { exists c, enc, obj. simpl. rewrite (truthy_enc _ Henc). done. }
  assert (Hi : worker_inv fs (set_db d' w)).
  { split_and!; [done|done|]. unfold row_of. simpl. destruct Hcase as [[-> _]| ->].
    - by exists r0.
    - exists r1. by rewrite lookup_insert_eq. }
  split; [done|]. clear Hw.
  destruct (perform f _ w).1 as [[]|e]; cbn [of_result]; rg_step; [|done].
  destruct Hcase as [[_ Hbad]|Hrow]; [done|].
  assert (Hdone : row_of (set_db d' w) = Some r1) by (unfold row_of; simpl; by rewrite Hrow, lookup_insert_eq).
  rg_step. rg_step. unfold perform at 1 2 3. simpl.
  set (w2 := set_proc (recordSuccess size (w_proc w)) (set_db d' w)).
  assert (Hi2 : worker_inv fs w2) by (by eapply inv_ext; [..|exact Hi]).
  split; [done|]. rg_step. rg_step. rg_step.
  destruct (usage_perform (ft_tenantId transfer) size f1 w2) as [u Hw3].
  rewrite Hw3. set (w3 := set_db (set_usage u (w_db w2)) w2) in *.
  assert (Hi3 : worker_inv fs w3) by (by eapply inv_ext; [..|exact Hi2]).
  split; [done|]. destruct (perform f1 _ w2).1 as [[]|e]; cbn [of_result]; rg_step; [|done].
  eapply rg_mono.
  - eapply (seq_condition publishes); [apply publish_rg|reflexivity|].
    intros w1 Hp. by eapply publishes_inv.
  - intros res w4 (Hp & _). split; [by eapply publishes_inv|]. intros _. exists r1. split; [|done].
    unfold row_of. destruct Hp as (-> & _). exact Hdone.
Qed.

Lemma reading_condition {A} (p : P A) (C : world → Prop) Q w :
  C w → rg eq (λ w w', w' = w) p Q w → rg eq (λ _ w', C w') p Q w.
Proof.
  intros HC Hp. assert (PreOrder (λ w w' : world, w' = w)) by (split; [by intros ?|by intros ??? -> ->]).
  eapply (seq_condition (λ w w' : world, w' = w)); [exact Hp|done|]. by intros ? ->.
Qed.

Lemma checksums_rg path w :
  rg eq (λ w w', w' = w) (computeFileChecksums path)
    (λ r w', w' = w ∧ ∀ s, r = Ok s → ∃ c, w_fs w !! path = Some (RegularFile c) ∧
       s = mkChecksums (md5_hex c) (sha256_hex c)) w.
Proof.
  unfold computeFileChecksums. rg_step. rg_step. destruct (read_perform f path w) as [-> Hr].
  split; [done|]. destruct (perform f (ReadFile path) w).1 as [c|e]; cbn [of_result]; repeat rg_step; [|done].
  split; [done|]. intros s [= <-]. eauto.
Qed.

Lemma encryption_rg w :
  rg eq (λ w0 w', ∃ n, w' = set_random_pos n w0)
    (if cc_enabled (ps_crypto ps) then e <- createEncryptStream (ps_crypto ps) ;; Ret (Some e) else Ret None)
    (λ r w', (∃ n, w' = set_random_pos n w) ∧ ∀ enc, r = Ok enc → enc_valid (ps_crypto ps) enc) w.
Proof.
  destruct (cc_enabled (ps_crypto ps)) eqn:Hen.
  - rg_step. eapply rg_mono; [by apply createEncryptStream_rg|].
    intros [e|x] w' [Hn He]; [|done]. rg_step. split; [done|]. intros enc [= <-]. auto.
  - rg_step. split; [exists (w_random_pos w); by destruct w|]. by intros enc [= <-].
Qed.

#[local] Instance random_preorder : PreOrder (λ w w' : world, ∃ n, w' = set_random_pos n w).
Proof.
  split.
  - intros w. exists (w_random_pos w). by destruct w.
  - intros w1 w2 w3 [n ->] [m ->]. by exists m.
Qed.

(** The [try] block keeps the invariant at every point, whatever fails; when it
    completes, the row is SUCCESS. *)
Lemma body_rg fs w :
  claimed fs w →
  rg eq (λ _ w', worker_inv fs w') (transfer_body ps transfer)
    (λ res w', worker_inv fs w' ∧
       (res = Ok tt → ∃ r, row_of w' = Some r ∧ ft_status r = TransferStatus.SUCCESS)) w.
Proof.
  intros Hcl. pose proof (claimed_inv _ _ Hcl) as Hinv. unfold transfer_body.
  rg_step. rg_step. rg_step. rewrite (reading_op_same (Stat _) f w) by done. split; [done|].
  set (Q := λ (r : result unit) (w' : world), worker_inv fs w' ∧
    (r = Ok tt → ∃ r, row_of w' = Some r ∧ ft_status r = TransferStatus.SUCCESS)).
  assert (Hbad : ∀ e : exn, rg eq (λ _ w', worker_inv fs w') (Throw e : P unit) Q w) by (intros e; by rg_step).
  destruct (perform f (Stat _) w).1 as [[[[] size]|]|e]; cbn [of_result]; repeat rg_step; try done.
  eapply rg_mono; [apply reading_condition; [done|apply pipeline_rg]|].
  intros [ctx|e] w1 [-> Hctx]; [|done]. destruct (Hctx ctx eq_refl) as [-> _]. rg_step.
  eapply rg_mono; [apply reading_condition; [done|apply checksums_rg]|].
  intros [sums|e] w1 [-> Hsums]; [|done]. destruct (Hsums sums eq_refl) as (c & Hc & ->). simpl in Hc.
  rg_step. eapply rg_mono.
  { eapply (seq_condition (λ w w' : world, ∃ n, w' = set_random_pos n w) (worker_inv fs) _ _ w);
      [apply encryption_rg| |].
    { exists (w_random_pos w). by destruct w. }
    intros w1 [n ->]. by eapply inv_ext; [..|exact Hinv]. }
  intros [enc|e] w1 [[n ->] Henc]; [|split; [by eapply inv_ext; [..|exact Hinv]|done]].
  specialize (Henc enc eq_refl). set (w1 := set_random_pos n w).
  assert (Hcl1 : claimed fs w1) by (by eapply claimed_ext; [..|exact Hcl]).
  rg_step. set (params := mkUploadParams _ _ _ _ _).
  assert (Hcond : ∀ w2, only_object (target_bucket (ps_storage ps) params) (up_key params) w1 w2 → claimed fs w2).
  { intros w2 (-> & _). by eapply claimed_ext; [..|exact Hcl1]. }
  eapply rg_mono.
  { eapply (seq_condition (only_object (target_bucket (ps_storage ps) params) (up_key params)));
      [by apply (uploadStream_rg _ params (ft_sourcePath transfer) (upload_bytes enc))|reflexivity|].
    intros w2 H2. by apply claimed_inv, Hcond. }
  intros [res|e] w2 [Honly Hres]; [|split; [by apply claimed_inv, Hcond|done]].
  destruct (Hres res eq_refl) as (c' & Hc' & Hobj & ->). simpl in Hc'. simplify_eq.
  cbn [ur_bucket ur_key ur_etag md5 sha256]. destruct Hcl as (_ & Hfs & _).
  refine (finish_rg fs w2 c enc _ size _ _ (Hcond _ Honly) _ Henc Hobj eq_refl eq_refl). by rewrite <- Hfs.
Qed.

(** The row is FAILED with this message, and the dead-letter queue has the transfer. *)
Definition rejected (m : string) (w : world) : Prop :=
  (∃ r, row_of w = Some r ∧ ft_status r = TransferStatus.FAILED ∧ ft_errorLog r = Some m) ∧
  mkDeadLetter (ft_id transfer) m ∈ w_dlq w.

Lemma set_in_proc_rg (C : world → Prop) f (Q : result unit → world → Prop) w :
  C (set_proc (f (w_proc w)) w) → Q (Ok tt) (set_proc (f (w_proc w)) w) →
  rg eq (λ _ w', C w') (set_in_proc f) Q w.
Proof.
  intros HC HQ. unfold set_in_proc. rg_step. unfold perform; simpl. split; [done|]. by rg_step.
Qed.

Lemma mark_rg fs w patch (C : world → Prop) :
  worker_inv fs w → (∀ r, ft_status (patch r) ≠ TransferStatus.SUCCESS) →
  (∀ w', worker_inv fs w' → C w') →
  rg eq (λ _ w', C w') (sql (update_transfer (ft_id transfer) patch))
    (λ res w', worker_inv fs w' ∧ (∃ d, w' = set_db d w) ∧
       (res = Ok tt → claimed fs w' ∧ ∃ r0, row_of w' = Some (touch (d_now (w_db w)) (patch r0)))) w.
Proof.
  intros (Ht & Hfs & r0 & Hr0 & Hst) Hpatch HC. unfold sql. rg_step.
  destruct (update_perform (ft_id transfer) patch f w r0 Hr0 Ht) as (d' & Hw & Ht' & _ & _ & _ & _ & Hcase).
  rewrite Hw.
  assert (Hi : worker_inv fs (set_db d' w)).
  { split_and!; [done|done|]. unfold row_of. simpl. destruct Hcase as [[-> _]| ->]; [by exists r0|].
    eexists. rewrite lookup_insert_eq. split; [done|]. intros Hs. by destruct (Hpatch r0). }
  split; [by apply HC|]. clear Hw. destruct (perform f _ w).1 as [[]|e]; cbn [of_result]; rg_step;
    (split_and!; [done|by eexists|]); [|done].
  intros _. destruct Hcase as [[_ Hbad]|Hrow]; [done|].
  assert (Hrow' : row_of (set_db d' w) = Some (touch (d_now (w_db w)) (patch r0)))
    by (unfold row_of; simpl; by rewrite Hrow, lookup_insert_eq).
  split; [|by exists r0]. split_and!; [done|done|]. eexists. split; [exact Hrow'|]. apply Hpatch.
Qed.

Lemma reject_rg fs w m :
  worker_inv fs w →
  rg eq (λ _ w', worker_inv fs w') (reject ps transfer m)
    (λ res w', worker_inv fs w' ∧ (res = Ok tt → rejected m w')) w.
Proof.
  intros Hinv. unfold reject, markFailed. rg_step.
  eapply rg_mono; [by apply (mark_rg fs)|].
  intros [[]|e] w1 (Hi1 & [d ->] & Hrow); [|done]. destruct (Hrow eq_refl) as (_ & r0 & Hr).
  set (w2 := set_proc (recordFailure (w_proc w)) (set_db d w)).
  assert (Hi2 : worker_inv fs w2) by (by eapply inv_ext; [..|exact Hi1]).
  rg_step. apply set_in_proc_rg; [done|]. rg_step.
  eapply rg_mono.
  { eapply (seq_condition publishes); [apply publish_rg|reflexivity|]. intros w3 Hp. by eapply publishes_inv. }
  intros [[]|e] w3 [Hp _]; [|split; [by eapply publishes_inv|done]].
  assert (Hi3 : worker_inv fs w3) by (by eapply publishes_inv).
  assert (Hr3 : row_of w3 = row_of (set_db d w)) by (unfold row_of; by destruct Hp as (-> & _)).
  unfold toDeadLetter. rg_step.
  set (w4 := set_dlq (w_dlq w3 ++ [mkDeadLetter (ft_id transfer) m]) w3).
  assert (Hi4 : worker_inv fs w4) by (by eapply inv_ext; [..|exact Hi3]).
  destruct f; unfold perform; simpl; fold w4; (split; [done|]); rg_step; (split; [done|]); try done.
  intros _. split; [|simpl; set_solver]. eexists. split; [by rewrite <- Hr, <- Hr3|]. done.
Qed.

(** How an acknowledged job has left its transfer. *)
Definition finished (w : world) : Prop :=
  (∃ r, row_of w = Some r ∧ ft_status r = TransferStatus.SUCCESS) ∨ ∃ m, rejected m w.

Lemma runTransfer_rg job w :
  d_tenant (w_db w) = None → d_transfers (w_db w) !! tj_transferId (job_data job) = Some transfer →
  ft_id transfer = tj_transferId (job_data job) → ft_status transfer ≠ TransferStatus.SUCCESS →
  rg eq (λ _ w', worker_inv (w_fs w) w') (runTransfer ps job)
    (λ res w', worker_inv (w_fs w) w' ∧ (res = Ok tt → finished w')) w.
Proof.
  intros Ht Hrow Hid Hst.
  assert (Hinv : worker_inv (w_fs w) w).
  { apply claimed_inv. split_and!; [done|done|]. exists transfer. unfold row_of. by rewrite Hid. }
  unfold runTransfer, findById, sql. rg_step. rg_step.
  destruct (find_perform (tj_transferId (job_data job)) f w) as [-> Hfound]. split; [done|].
  destruct (perform f _ w).1 as [o|e]; cbn [of_result]; rg_step; [|done].
  rewrite (Hfound Ht o eq_refl), Hrow. rewrite bool_decide_eq_false_2 by done.
  set (w1 := set_proc (incInFlight (w_proc w)) w).
  assert (Hi1 : worker_inv (w_fs w) w1) by (by eapply inv_ext; [..|exact Hinv]).
  rg_step. apply set_in_proc_rg; [done|]. rg_step. unfold markProcessing.
  eapply rg_mono; [by apply (mark_rg (w_fs w))|].
  intros [[]|e] w2 (Hi2 & _ & Hcl); [|done]. destruct (Hcl eq_refl) as [Hcl2 _].
  rg_step. rg_step. eapply rg_mono; [by apply body_rg|].
  assert (Hfin : ∀ res w3, worker_inv (w_fs w) w3 → (res = Ok tt → finished w3) →
    rg eq (λ _ w', worker_inv (w_fs w) w') (set_in_proc decInFlight ;;; set_in_proc endTimer)
      (λ r' w'', match r' with
                 | Ok _ => rg eq (λ _ w', worker_inv (w_fs w) w') (of_result res)
                     (λ res w', worker_inv (w_fs w) w' ∧ (res = Ok tt → finished w')) w''
                 | Err e => worker_inv (w_fs w) w'' ∧ (Err e = Ok tt → finished w'')
                 end) w3).
  { intros res w3 Hi3 Hf3. rg_step. apply set_in_proc_rg; [by eapply inv_ext; [..|exact Hi3]|].
    apply set_in_proc_rg; [by eapply inv_ext; [..|exact Hi3]|].
    destruct res as [[]|e]; cbn [of_result]; rg_step; (split; [by eapply inv_ext; [..|exact Hi3]|]); done. }
  intros [[]|e] w3 [Hi3 Hs3].
  - apply Hfin; [done|]. intros _. left. auto.
  - destruct e as [m|st m|i]; [|rg_step; by apply Hfin..].
    eapply rg_mono; [by apply reject_rg|]. intros res w4 [Hi4 Hr4]. apply Hfin; [done|]. right. eauto.
Qed.
End invariant.

Lemma runTransfer_stored `{!Externals, !Gcm, !GcmLaws} ps job transfer w fs n :
  wf_transfers (d_transfers (w_db w)) → d_tenant (w_db w) = None →
  d_transfers (w_db w) !! tj_transferId (job_data job) = Some transfer →
  ft_status transfer ≠ TransferStatus.SUCCESS →
  ∀ w' r, w' = crash n fs (runTransfer ps job) w ∨ w' = final fs (runTransfer ps job) w →
    d_transfers (w_db w') !! tj_transferId (job_data job) = Some r →
    ft_status r = TransferStatus.SUCCESS → stored ps transfer (w_fs w) (w_s3 w') r.
Proof.
  intros Hwf Ht Hrow Hst w' r Hw' Hr Hs. pose proof (wf_ids _ Hwf _ _ Hrow) as Hid.
  pose proof (runTransfer_rg ps transfer job w Ht Hrow Hid Hst) as Hrg.
  assert (Hinv : worker_inv ps transfer (w_fs w) w').
  { destruct Hw' as [->| ->].
    - eapply (seq_crash (worker_inv ps transfer (w_fs w))); [|exact Hrg]. apply claimed_inv.
      split_and!; [done|done|]. exists transfer. unfold row_of. by rewrite Hid.
    - by destruct (seq_run _ _ _ _ fs Hrg). }
  destruct Hinv as (_ & _ & r' & Hr' & Himp). unfold row_of in Hr'. rewrite Hid, Hr in Hr'.
  simplify_eq. auto.
Qed.

(** C6: SUCCESS means stored.  Run [runTransfer] alone on a transfer that is not yet
    SUCCESS, with any faults, and stop it after any number of operations or let it end:
    if the row is then SUCCESS, the object is in the bucket under the routed key and
    holds the source file (or its encryption, with the wrapped key that decrypts it in
    the row), and the row carries the object's ETag and the file's SHA-256. *)
Theorem success_means_stored `{!Externals, !Gcm, !GcmLaws} ps job transfer w fs n :
  wf_transfers (d_transfers (w_db w)) → d_tenant (w_db w) = None →
  d_transfers (w_db w) !! tj_transferId (job_data job) = Some transfer →
  ft_status transfer ≠ TransferStatus.SUCCESS →
  ∀ w' r, w' = crash n fs (runTransfer ps job) w ∨ w' = final fs (runTransfer ps job) w →
    d_transfers (w_db w') !! tj_transferId (job_data job) = Some r →
    ft_status r = TransferStatus.SUCCESS → stored ps transfer (w_fs w) (w_s3 w') r.
Proof. apply runTransfer_stored. Qed.

(** C7: An acknowledged job is a finished transfer.  If [runTransfer] returns, whatever
    failed on the way, the row is SUCCESS, or it is FAILED with its reason and the
    dead-letter queue has the transfer with the same reason. *)
Theorem acknowledged_is_finished `{!Externals, !Gcm, !GcmLaws} ps job transfer w fs :
  wf_transfers (d_transfers (w_db w)) → d_tenant (w_db w) = None →
  d_transfers (w_db w) !! tj_transferId (job_data job) = Some transfer →
  ft_status transfer ≠ TransferStatus.SUCCESS →
  outcome fs (runTransfer ps job) w = Ok tt →
  ∃ r, d_transfers (w_db (final fs (runTransfer ps job) w)) !! tj_transferId (job_data job) = Some r ∧
    (ft_status r = TransferStatus.SUCCESS ∨
     ft_status r = TransferStatus.FAILED ∧ ∃ m, ft_errorLog r = Some m ∧
       mkDeadLetter (tj_transferId (job_data job)) m ∈ w_dlq (final fs (runTransfer ps job) w)).
Proof.
  intros Hwf Ht Hrow Hst Hok. pose proof (wf_ids _ Hwf _ _ Hrow) as Hid.
  destruct (seq_run _ _ _ _ fs (runTransfer_rg ps transfer job w Ht Hrow Hid Hst)) as [_ Hfin].
  destruct (Hfin Hok) as [(r & Hr & Hs)|(m & (r & Hr & Hs & Hm) & Hdl)]; unfold row_of in Hr;
    rewrite Hid in *; eauto 10.
Qed.

(** ** The successful run *)
Section success.
Context `{!Externals, !Gcm, !GcmLaws}.
Context (ps : ProcessorConfig) (transfer : FileTransfer) (c : bytes).

Definition transfer_target : RouteTarget := resolve_route (ps_routing ps) transfer.

Definition upload_params (enc : option (enc_stream * string)) : UploadParams :=
  mkUploadParams (rt_key transfer_target) (file_body (ft_sourcePath transfer) (upload_bytes enc))
    (Some (match enc with
           | Some _ => Z.of_nat (length c) + overheadBytes
           | None => Z.of_nat (length c)
           end)%Z)
    (Some (content_type (ft_filename transfer))) (Some (rt_bucket transfer_target)).

Definition upload_etag (enc : option (enc_stream * string)) : option string :=
  normalizeEtag (o_etag (uploaded (ps_storage ps) (upload_params enc) (upload_bytes enc c))).

Definition processing_row (now : Z) (r : FileTransfer) : FileTransfer :=
  touch now (upd_lifecycle TransferStatus.PROCESSING (ft_attempts r + 1) None r).

Definition success_row (now : Z) (enc : option (enc_stream * string)) (r : FileTransfer) : FileTransfer :=
  touch now (upd_stored (rt_bucket transfer_target) (rt_key transfer_target) (upload_etag enc)
    (Some (sha256_hex c)) (bool_decide (is_Some enc)) (snd <$> enc) r).

(** The stream and the wrapped key the service makes from the next random bytes, when
    encryption is on. *)
Definition encryption (w : world) : option (enc_stream * string) :=
  if cc_enabled (ps_crypto ps)
  then match (exec (createEncryptStream (ps_crypto ps)) w).1 with Ok e => Some e | Err _ => None end
  else None.

(** Everything a run without failures needs of the world: the file, the pipeline's
    conditions, the master key, the bucket, a plausible ETag, and rows that fit. *)
Record ready (w : world) : Prop := {
  rd_tenant : d_tenant (w_db w) = None;
  rd_file : w_fs w !! ft_sourcePath transfer = Some (RegularFile c);
  rd_passes : passes (ps_pipeline ps) (ps_quota ps)
    (mkContext transfer (ft_sourcePath transfer) (Z.of_nat (length c)) None) w;
  rd_kek : cc_enabled (ps_crypto ps) = true → kek_loaded (ps_crypto ps);
  rd_bucket : rt_bucket transfer_target = sc_bucket (ps_storage ps) → is_Some (w_s3 w !! sc_bucket (ps_storage ps));
  rd_etag : cc_enabled (ps_crypto ps) = false → verifyIntegrity (upload_etag None) (md5_hex c) = Ok tt;
  rd_processing : check_transfer (processing_row (d_now (w_db w)) transfer) = Ok tt;
  rd_success : check_transfer (success_row (d_now (w_db w)) (encryption w)
    (processing_row (d_now (w_db w)) transfer)) = Ok tt;
  rd_usage : ∃ d', record_usage_statement (ft_tenantId transfer) (Z.of_nat (length c)) (w_db w) = (Ok tt, d');
}.

Lemma exec_outcome {A} (p : P A) w : outcome [] p w = (exec p w).1 ∧ final [] p w = (exec p w).2.
Proof. unfold outcome, final. rewrite exec_run. done. Qed.

Lemma encryption_ext w w' :
  (cc_enabled (ps_crypto ps) = true → kek_loaded (ps_crypto ps)) →
  w_random w' = w_random w → w_random_pos w' = w_random_pos w → encryption w' = encryption w.
Proof.
  intros Hk Hr Hp. unfold encryption. destruct (cc_enabled (ps_crypto ps)); [|done].
  destruct (Hk eq_refl) as (kek & Hkek & Hlen). rewrite !(createEncryptStream_exec _ kek _ Hkek Hlen).
  unfold randoms. by rewrite Hr, Hp.
Qed.

Lemma encryption_exec w :
  (cc_enabled (ps_crypto ps) = true → kek_loaded (ps_crypto ps)) →
  ∃ n, exec (if cc_enabled (ps_crypto ps)
             then e <- createEncryptStream (ps_crypto ps) ;; Ret (Some e) else Ret None) w
         = (Ok (encryption w), set_random_pos n w) ∧ enc_valid (ps_crypto ps) (encryption w).
Proof.
  intros Hk. unfold encryption. destruct (cc_enabled (ps_crypto ps)) eqn:Hen.
  - destruct (Hk eq_refl) as (kek & Hkek & Hlen). rewrite exec_bind, (createEncryptStream_exec _ kek w Hkek Hlen).
    eexists. split; [reflexivity|]. split; [done|].
    eexists kek, _, _, _. split_and!; [done|done|reflexivity|apply length_randoms..|reflexivity].
  - exists (w_random_pos w). split; [by destruct w|done].
Qed.

Lemma upload_length enc :
  enc_valid (ps_crypto ps) enc →
  up_contentLength (upload_params enc) = Some (Z.of_nat (length (upload_bytes enc c))).
Proof.
  destruct enc as [[st wr]|]; [|done]. intros (_ & dek & iv & -> & _ & Hiv & _)%enc_valid_unwrap. simpl.
  rewrite encrypt_sealed, read_chunks_concat, length_sealed, Hiv. do 2 f_equal. unfold overheadBytes. lia.
Qed.

Lemma update_exec id patch w r :
  d_transfers (w_db w) !! id = Some r → d_tenant (w_db w) = None →
  check_transfer (touch (d_now (w_db w)) (patch r)) = Ok tt →
  exec (sql (update_transfer id patch)) w =
    (Ok tt, set_db (set_transfers (<[id := touch (d_now (w_db w)) (patch r)]> (d_transfers (w_db w))) (w_db w)) w).
Proof.
  intros Hr Ht Hc. unfold sql. rewrite exec_call. simpl. unfold transact, update_transfer. rewrite Hr.
  assert (Hv : ∀ r, tenant_isolation (w_db w) r = true)
    by (intros r'; unfold tenant_isolation; rewrite Ht; apply orb_true_r).
  rewrite !Hv, Hc. simpl. by destruct w as [[]].
Qed.

Lemma publish_ok kafka t type data w : (exec (publishTransferEvent kafka t type data) w).1 = Ok tt.
Proof.
  unfold publishTransferEvent. rewrite exec_bind.
  destruct (seq_run _ _ _ _ [] (kafka_publish_rg kafka (ft_tenantId t)
    (mkEvent type (ft_id t) (ft_tenantId t) data) w)) as [Hk _].
  rewrite (proj1 (exec_outcome _ _)) in Hk. destruct (exec (kafka_publish _ _ _) w) as [r w1]. simpl in Hk. subst r.
  rewrite exec_bind. unfold sql. rewrite exec_call. simpl.
  generalize (set_db (set_tenant (d_tenant (w_db w1)) (w_db w1)) w1) as w2.
  induction (List.filter (wants type) _) as [|s l IH]; intros w2; simpl; [done|].
  rewrite exec_bind, exec_call. simpl. apply IH.
Qed.

(** The [try] block on a claimed row. *)
Lemma body_exec w now :
  ready w → d_now (w_db w) = now →
  ∀ w1, row_of transfer w1 = Some (processing_row now transfer) → d_tenant (w_db w1) = None →
  d_now (w_db w1) = now → w_fs w1 = w_fs w → w_s3 w1 = w_s3 w → d_usage (w_db w1) = d_usage (w_db w) →
  w_random w1 = w_random w → w_random_pos w1 = w_random_pos w →
  ∃ w2, exec (transfer_body ps transfer) w1 = (Ok tt, w2) ∧
    row_of transfer w2 = Some (success_row now (encryption w) (processing_row now transfer)) ∧
    w_dlq w2 = w_dlq w1.
Proof.
  intros Hrd Hnow w1 Hrow Ht Hn Hfs Hs3 Hu Hrnd Hpos. pose proof (rd_file _ Hrd) as Hfile. rewrite <- Hfs in Hfile.
  unfold transfer_body. rewrite exec_bind, exec_catch, exec_call. simpl. rewrite Hfile.
  rewrite exec_bind, pipeline_exec; last first.
  { destruct (rd_passes _ Hrd) as (Hsz & Hq & Hav). split; [exact Hsz|].
    split; [by rewrite Hu|]. by rewrite Hfs. }
  rewrite exec_bind. unfold computeFileChecksums. rewrite exec_bind, exec_call. simpl. rewrite Hfile.
  change (exec (Ret ?x) w1) with (Ok x, w1). cbv iota beta. rewrite exec_bind.
  destruct (encryption_exec w1 (rd_kek _ Hrd)) as (n & -> & Henc).
  pose proof (encryption_ext w w1 (rd_kek _ Hrd) Hrnd Hpos) as Hsame. rewrite Hsame in Henc |- *.
  pose proof (rd_success _ Hrd) as Hchk. clear Hsame. revert Henc Hchk. generalize (encryption w) as enc. intros enc Henc Hchk.
  set (w2 := set_random_pos n w1). rewrite exec_bind.
  change (mkUploadParams _ _ _ _ _) with (upload_params enc).
  destruct (uploadStream_exec (ps_storage ps) (upload_params enc) (ft_sourcePath transfer)
    (upload_bytes enc) w2 c eq_refl) as [Hok Hobj].
  { intros Hb. simpl. rewrite Hs3. by apply (rd_bucket _ Hrd). }
  { done. }
  { intros _. by apply upload_length. }
  destruct (seq_run _ _ _ _ [] (uploadStream_rg (ps_storage ps) (upload_params enc) (ft_sourcePath transfer)
    (upload_bytes enc) w2 eq_refl)) as [(Hw3 & _) _].
  rewrite (proj2 (exec_outcome _ _)) in Hw3.
  destruct (exec (uploadStream (ps_storage ps) (upload_params enc)) w2) as [res w3]. simpl in Hok, Hobj, Hw3. subst res.
  set (s3' := w_s3 w3) in *. clearbody s3'. subst w3. cbn [ur_bucket ur_key ur_etag md5 sha256].
  rewrite exec_bind. change (normalizeEtag (o_etag (uploaded (ps_storage ps) (upload_params enc)
    (upload_bytes enc c)))) with (upload_etag enc).
  assert (Hint : (if truthy (snd <$> enc) then Ok tt else verifyIntegrity (upload_etag enc) (md5_hex c)) = Ok tt).
  { rewrite (truthy_enc ps _ Henc). destruct enc; [done|]. by apply (rd_etag _ Hrd). }
  lazymatch goal with |- context [of_result ?x] => change x with (if truthy (snd <$> enc) then Ok tt
    else verifyIntegrity (upload_etag enc) (md5_hex c)) end.
  rewrite Hint. cbn [of_result]. change (exec (Ret ?x) ?w) with (Ok x, w). cbv iota beta.
  rewrite exec_bind. unfold markSuccess. rewrite (truthy_enc ps _ Henc).
  erewrite update_exec; [|exact Hrow|exact Ht|simpl; rewrite Hn, <- Hnow; exact Hchk].
  unfold set_in_proc. rewrite exec_bind, exec_call. simpl. rewrite exec_bind. unfold recordUsage, sql.
  rewrite exec_call. simpl. destruct (rd_usage _ Hrd) as [d' Hd'].
  unfold transact, record_usage_statement in *. simpl. rewrite Hu.
  destruct (negb (varchar 100 (ft_tenantId transfer))); [done|].
  destruct (int8 _ && int8 _); [|done]. simpl.
  match goal with |- context [exec (publishTransferEvent ?k ?t ?ty ?dt) ?w4] =>
    pose proof (publish_ok k t ty dt w4) as Hpub;
    pose proof (seq_run _ _ _ _ [] (publish_rg k t ty dt w4)) as [(Hdb & _ & Hdl & _) _];
    rewrite (proj2 (exec_outcome _ _)) in Hdb, Hdl;
    destruct (exec (publishTransferEvent k t ty dt) w4) as [rp w5] end.
  simpl in Hpub, Hdb, Hdl. subst rp. exists w5. split_and!; [done| |done].
  unfold row_of. rewrite Hdb. simpl. rewrite lookup_insert_eq. unfold success_row. by rewrite Hn.
Qed.
End success.

Lemma runTransfer_exec `{!Externals, !Gcm, !GcmLaws} ps job transfer c w :
  wf_transfers (d_transfers (w_db w)) →
  d_transfers (w_db w) !! tj_transferId (job_data job) = Some transfer →
  ft_status transfer ≠ TransferStatus.SUCCESS → ready ps transfer c w →
  let now := d_now (w_db w) in
  let w' := (exec (runTransfer ps job) w).2 in
  (exec (runTransfer ps job) w).1 = Ok tt ∧ w_dlq w' = w_dlq w ∧
  enc_valid (ps_crypto ps) (encryption ps w) ∧
  d_transfers (w_db w') !! tj_transferId (job_data job) =
    Some (success_row ps transfer c now (encryption ps w) (processing_row now transfer)).
Proof.
  intros Hwf Hrow Hst Hrd now. pose proof (wf_ids _ Hwf _ _ Hrow) as Hid.
  pose proof (rd_tenant _ _ _ _ Hrd) as Ht.
  unfold runTransfer, findById, sql. rewrite exec_bind, exec_call. simpl.
  assert (Hsame : set_db (set_tenant (d_tenant (w_db w)) (w_db w)) w = w) by (by destruct w as [[]]).
  rewrite Hsame, Hrow. simpl. unfold tenant_isolation. rewrite Ht, orb_true_r.
  rewrite bool_decide_eq_false_2 by done.
  unfold set_in_proc. rewrite exec_bind, exec_call. simpl. rewrite exec_bind. unfold markProcessing.
  set (w1 := set_proc (incInFlight (w_proc w)) w).
  assert (Hrow1 : d_transfers (w_db w1) !! ft_id transfer = Some transfer) by (by rewrite Hid).
  rewrite (update_exec _ (λ r, upd_lifecycle TransferStatus.PROCESSING (ft_attempts r + 1) None r)
    w1 transfer Hrow1 Ht (rd_processing _ _ _ _ Hrd)).
  rewrite exec_finally, exec_catch.
  match goal with |- context [exec (transfer_body ps transfer) ?w2] =>
    destruct (body_exec ps transfer c w now Hrd eq_refl w2) as (w3 & -> & Hrow3 & Hdl3) end;
    try done.
  { unfold row_of. simpl. by rewrite lookup_insert_eq. }
  rewrite exec_bind, exec_call. simpl. split_and!; [done|done| |].
  - destruct (encryption_exec ps w (rd_kek _ _ _ _ Hrd)) as (n & _ & Henc). exact Henc.
  - unfold row_of in Hrow3. by rewrite Hid in Hrow3.
Qed.

(** C19: Transfers succeed.  In a world that is [ready] for a transfer that is not yet
    SUCCESS, with encryption on or off, [runTransfer] without failures returns, the row is
    SUCCESS and carries the routed bucket and key, the ETag of the object, the hash of
    the file and, when encryption is on, the data key drawn for it, sealed under the master
    key; nothing is sent to the dead-letter queue. *)
Theorem transfer_succeeds `{!Externals, !Gcm, !GcmLaws} ps job transfer c w :
  wf_transfers (d_transfers (w_db w)) →
  d_transfers (w_db w) !! tj_transferId (job_data job) = Some transfer →
  ft_status transfer ≠ TransferStatus.SUCCESS → ready ps transfer c w →
  let now := d_now (w_db w) in
  let w' := (exec (runTransfer ps job) w).2 in
  (exec (runTransfer ps job) w).1 = Ok tt ∧ w_dlq w' = w_dlq w ∧
  enc_valid (ps_crypto ps) (encryption ps w) ∧
  d_transfers (w_db w') !! tj_transferId (job_data job) =
    Some (success_row ps transfer c now (encryption ps w) (processing_row now transfer)).
Proof. apply runTransfer_exec. Qed.

(** ** Finalization by BullMQ's [failed] event *)
Definition exhausted_message (job : Job) (err : exn) : string :=
  "Exhausted " +:+ number_to_string (nullish (job_attempts job) 1%Z) +:+ " attempts. Last error: "
  +:+ errMessage err.

Lemma onFailed_exec `{!Externals, !Gcm} ps job err r w :
  d_tenant (w_db w) = None →
  d_transfers (w_db w) !! tj_transferId (job_data job) = Some r →
  check_transfer (touch (d_now (w_db w))
    (upd_lifecycle TransferStatus.FAILED (ft_attempts r) (Some (exhausted_message job err)) r)) = Ok tt →
  if (job_attemptsMade job <? nullish (job_attempts job) 1)%Z
  then exec (onFailed ps job err) w = (Ok tt, w)
  else
    let w' := (exec (onFailed ps job err) w).2 in
    (exec (onFailed ps job err) w).1 = Ok tt ∧
    d_transfers (w_db w') !! tj_transferId (job_data job) =
      Some (touch (d_now (w_db w)) (upd_lifecycle TransferStatus.FAILED (ft_attempts r)
              (Some (exhausted_message job err)) r)) ∧
    w_dlq w' = w_dlq w ++ [mkDeadLetter (tj_transferId (job_data job)) (exhausted_message job err)].
Proof.
  intros Ht Hr Hc. unfold onFailed.
  destruct (job_attemptsMade job <? nullish (job_attempts job) 1)%Z; [done|].
  fold (exhausted_message job err). cbv zeta. rewrite exec_bind. unfold markFailed.
  rewrite (update_exec _ (λ r, upd_lifecycle TransferStatus.FAILED (ft_attempts r)
    (Some (exhausted_message job err)) r) w r Hr Ht Hc).
  unfold set_in_proc, findById, sql. rewrite exec_bind, exec_call. simpl.
  rewrite exec_bind, exec_call. simpl. rewrite lookup_insert_eq. simpl.
  unfold tenant_isolation. simpl. rewrite Ht, orb_true_r. rewrite exec_bind.
  match goal with |- context [exec (publishTransferEvent ?k ?t ?ty ?dt) ?w4] =>
    pose proof (publish_ok k t ty dt w4) as Hpub;
    pose proof (seq_run _ _ _ _ [] (publish_rg k t ty dt w4)) as [(Hdb & _ & Hdl & _) _];
    rewrite (proj2 (exec_outcome _ _)) in Hdb, Hdl;
    destruct (exec (publishTransferEvent k t ty dt) w4) as [rp w5] end.
  simpl in Hpub, Hdb, Hdl. subst rp. unfold toDeadLetter. rewrite exec_call. simpl.
  rewrite Hdb, Hdl. simpl. by rewrite lookup_insert_eq.
Qed.

(** C11: The [failed] event finalizes exactly when the attempts are used up.  With
    attempts left, [onFailed] does nothing; otherwise, when nothing fails, it marks the
    row FAILED with the last error and sends the transfer, with the same message, to the
    dead-letter queue. *)
Theorem onFailed_finalizes `{!Externals, !Gcm} ps job err r w :
  d_tenant (w_db w) = None →
  d_transfers (w_db w) !! tj_transferId (job_data job) = Some r →
  check_transfer (touch (d_now (w_db w))
    (upd_lifecycle TransferStatus.FAILED (ft_attempts r) (Some (exhausted_message job err)) r)) = Ok tt →
  if (job_attemptsMade job <? nullish (job_attempts job) 1)%Z
  then exec (onFailed ps job err) w = (Ok tt, w)
  else
    let w' := (exec (onFailed ps job err) w).2 in
    (exec (onFailed ps job err) w).1 = Ok tt ∧
    d_transfers (w_db w') !! tj_transferId (job_data job) =
      Some (touch (d_now (w_db w)) (upd_lifecycle TransferStatus.FAILED (ft_attempts r)
              (Some (exhausted_message job err)) r)) ∧
    w_dlq w' = w_dlq w ++ [mkDeadLetter (tj_transferId (job_data job)) (exhausted_message job err)].
Proof. apply onFailed_exec. Qed.

(** A job that came through the outbox is finalized by its first failure.  Whatever the
    configured number of attempts: a job the relay published has no setting of its own, so
    the listener takes its first failed attempt for the last. *)
Theorem relayed_job_finalized_at_once `{!Externals, !Gcm} ps evt err r w :
  let job := failed_job (event_job evt) in
  d_tenant (w_db w) = None → d_transfers (w_db w) !! tj_transferId (ob_payload evt) = Some r →
  check_transfer (touch (d_now (w_db w))
    (upd_lifecycle TransferStatus.FAILED (ft_attempts r) (Some (exhausted_message job err)) r)) = Ok tt →
  let w' := (exec (onFailed ps job err) w).2 in
  d_transfers (w_db w') !! tj_transferId (ob_payload evt) =
    Some (touch (d_now (w_db w)) (upd_lifecycle TransferStatus.FAILED (ft_attempts r)
            (Some (exhausted_message job err)) r)) ∧
  w_dlq w' = w_dlq w ++ [mkDeadLetter (tj_transferId (ob_payload evt)) (exhausted_message job err)].
Proof. intros job Ht Hr Hc. exact (proj2 (onFailed_exec ps job err r w Ht Hr Hc)). Qed.

(** ** Concrete runs *)
Import Demo DemoCipher.

Definition demo_config : ProcessorConfig :=
  mkProcessorConfig (mkStorageConfig "default" 1000) (mkPipelineConfig 1000 false "clamav" 3310)
    (mkQuotaConfig 0 0 ∅) (mkRoutingConfig "default" []) (mkCryptoConfig false None) false.

Definition demo_world : world :=
  set_s3 {["default" := ∅]}
    (set_db (set_transfers {["t1" := demo_row]} empty_db) scan_world).

Definition demo_job : Job := mkJob TRANSFER_JOB (mkTransferJob "t1" []) None 0.

Lemma demo_row_wf : wf_transfers (d_transfers (w_db demo_world)).
Proof.
  change (d_transfers (w_db demo_world)) with ({["t1" := demo_row]} : gmap string FileTransfer). split.
  - by intros id r [<- <-]%lookup_singleton_Some.
  - by intros i j r s [<- <-]%lookup_singleton_Some [<- <-]%lookup_singleton_Some.
  - by intros id r [<- <-]%lookup_singleton_Some.
Qed.

Lemma success_means_stored_witness :
  let w' := final [] (runTransfer demo_config demo_job) demo_world in
  ∃ r, d_transfers (w_db w') !! "t1" = Some r ∧ ft_status r = TransferStatus.SUCCESS ∧
       stored demo_config demo_row (w_fs demo_world) (w_s3 w') r.
Proof.
  intros w'.
  assert (Hst : ft_status <$> (d_transfers (w_db w') !! "t1") = Some TransferStatus.SUCCESS)
    by (vm_compute; reflexivity).
  destruct (d_transfers (w_db w') !! "t1") as [r|] eqn:Hr; [|discriminate Hst].
  injection Hst as Hst. exists r. split; [reflexivity|]. split; [exact Hst|].
  refine (success_means_stored demo_config demo_job demo_row demo_world [] 0 demo_row_wf eq_refl _ _
    w' r (or_intror eq_refl) Hr Hst); [reflexivity|discriminate].
Defined.

Lemma acknowledged_is_finished_witness :
  ∃ r, d_transfers (w_db (final [] (runTransfer demo_config demo_job) demo_world)) !! "t1" = Some r ∧
    (ft_status r = TransferStatus.SUCCESS ∨
     ft_status r = TransferStatus.FAILED ∧ ∃ m, ft_errorLog r = Some m ∧
       mkDeadLetter "t1" m ∈ w_dlq (final [] (runTransfer demo_config demo_job) demo_world)).
Proof.
  apply (acknowledged_is_finished demo_config demo_job demo_row demo_world [] demo_row_wf eq_refl).
  - reflexivity.
  - discriminate.
  - vm_compute. reflexivity.
Defined.

Lemma demo_ready : ready demo_config demo_row [Byte.x61; Byte.x62] demo_world.
Proof.
  split; try reflexivity; try discriminate.
  - split_and!; [reflexivity|discriminate|reflexivity|discriminate].
  - intros _. eexists. reflexivity.
  - eexists. reflexivity.
Qed.

(** The same worker with encryption. *)
Definition sealing_config : ProcessorConfig :=
  mkProcessorConfig (mkStorageConfig "default" 1000) (mkPipelineConfig 1000 false "clamav" 3310)
    (mkQuotaConfig 0 0 ∅) (mkRoutingConfig "default" []) DemoCipher.config false.

Lemma sealing_ready : ready sealing_config demo_row [Byte.x61; Byte.x62] demo_world.
Proof.
  split; try reflexivity; try discriminate.
  - split_and!; [reflexivity|discriminate|reflexivity|discriminate].
  - intros _. by exists DemoCipher.key.
  - intros _. eexists. reflexivity.
  - eexists. reflexivity.
Qed.

(** Without encryption, and with it: the row has a key then. *)
Lemma transfer_succeeds_witness :
  (exec (runTransfer demo_config demo_job) demo_world).1 = Ok tt ∧
  (exec (runTransfer sealing_config demo_job) demo_world).1 = Ok tt ∧
  enc_valid DemoCipher.config (encryption sealing_config demo_world) ∧
  is_Some (encryption sealing_config demo_world).
Proof.
  assert (Hst : ft_status demo_row ≠ TransferStatus.SUCCESS) by discriminate.
  destruct (transfer_succeeds sealing_config demo_job demo_row [Byte.x61; Byte.x62] demo_world
    demo_row_wf eq_refl Hst sealing_ready) as (Hok & _ & Henc & _).
  split; [|split; [exact Hok|split; [exact Henc|vm_compute; eexists; reflexivity]]].
  exact (proj1 (transfer_succeeds demo_config demo_job demo_row [Byte.x61; Byte.x62] demo_world
    demo_row_wf eq_refl Hst demo_ready)).
Defined.

Lemma onFailed_finalizes_witness :
  w_dlq (exec (onFailed demo_config (mkJob TRANSFER_JOB (mkTransferJob "t1" []) (Some 2%Z) 2)
           (plain_error "boom")) demo_world).2
    = [mkDeadLetter "t1" "Exhausted 2 attempts. Last error: Error: boom"].
Proof.
  exact (proj2 (proj2 (onFailed_finalizes demo_config (mkJob TRANSFER_JOB (mkTransferJob "t1" []) (Some 2%Z) 2)
    (plain_error "boom") demo_row demo_world eq_refl eq_refl eq_refl))).
Defined.

Lemma relayed_job_finalized_at_once_witness :
  let evt := mkOutboxEvent "e1" "t1" TRANSFER_JOB (mkTransferJob "t1" []) OutboxStatus.PENDING 0 500 None in
  w_dlq (exec (onFailed demo_config (failed_job (event_job evt)) (plain_error "boom")) demo_world).2
    = [mkDeadLetter "t1" "Exhausted 1 attempts. Last error: Error: boom"].
Proof.
  intros evt. exact (proj2 (relayed_job_finalized_at_once demo_config evt (plain_error "boom") demo_row demo_world
    eq_refl eq_refl eq_refl)).
Defined.

Definition timeout_error : infra_error := Infra_error "Error" "Connection terminated" None None.

(** The fault list that lets [n] operations through and fails the next one. *)
Definition fail_at (n : nat) : list fault := replicate n NoFault ++ [FailBefore timeout_error].

(** A stored transfer can end FAILED.  When the statement that meters the usage
    fails after the row was marked SUCCESS, the attempt of a relayed job marks the row
    FAILED and dead-letters the transfer although its object is in the bucket, its hash
    and key are in the row and the success was counted. *)
Theorem stored_transfer_marked_failed :
  let w' := final (fail_at 8) (attempt demo_config demo_job) demo_world in
  outcome (fail_at 8) (attempt demo_config demo_job) demo_world = Ok tt ∧
  (ft_status <$> d_transfers (w_db w') !! "t1") = Some TransferStatus.FAILED ∧
  (o_body <$> lookup_object (w_s3 w') "default" "ann/a.csv") = Some [Byte.x61; Byte.x62] ∧
  m_success (w_proc w') = 1%Z ∧ m_failed (w_proc w') = 1%Z ∧ length (w_dlq w') = 1%nat.
Proof. vm_compute. done. Qed.

(** Two jobs of one transfer are both processed.  [markProcessing] does not test the
    state of the row: two workers that picked up the same transfer both upload it and
    the tenant is charged for two objects. *)
Theorem duplicate_jobs_metered_twice :
  ∃ w', rtc pool_step ([runTransfer demo_config demo_job; runTransfer demo_config demo_job], demo_world)
                      ([Ret tt; Ret tt], w') ∧
    stored_usage (w_db w') "acme" = mkUsage 2 4 ∧
    (ft_attempts <$> d_transfers (w_db w') !! "t1") = Some 2%Z.
Proof.
  set (start := ([runTransfer demo_config demo_job; runTransfer demo_config demo_job], demo_world)).
  set (l := concat (replicate 14 [0; 1]%nat)).
  assert (Hend : (schedule l start).1 = [Ret tt; Ret tt] ∧
    stored_usage (w_db (schedule l start).2) "acme" = mkUsage 2 4 ∧
    (ft_attempts <$> d_transfers (w_db (schedule l start).2) !! "t1") = Some 2%Z) by (vm_compute; done).
  pose proof (schedule_steps l start) as Hs. revert Hend Hs. clearbody l. generalize (schedule l start) as c.
  intros [ts w'] (Hts & Hu & Ha) Hs. simpl in Hts. subst ts. by exists w'.
Qed.

(** A failure between the gauge and the [try] block leaks.  When [markProcessing]
    fails, the in-flight gauge stays one too high and no duration is observed. *)
Theorem inflight_gauge_leaks :
  let w' := final (fail_at 1) (runTransfer demo_config demo_job) demo_world in
  outcome (fail_at 1) (runTransfer demo_config demo_job) demo_world = Err (Infra timeout_error) ∧
  m_inFlight (w_proc w') = 1%Z ∧ m_observed (w_proc w') = 0%Z.
Proof. vm_compute. done. Qed.

(** clamd terminates the reply to a [z] command with a NUL character. *)
Definition infected_externals : Externals := {|
  md5_hex := @md5_hex Demo.externals; sha256_hex := @sha256_hex Demo.externals;
  hmac_sha256_hex := @hmac_sha256_hex Demo.externals; single_etag := @single_etag Demo.externals;
  multipart_etag := @multipart_etag Demo.externals;
  clamd_session := λ _, "stream: Eicar-Signature FOUND" +:+ String (Ascii.ascii_of_nat 0) "";
  http_status := @http_status Demo.externals |}.

Definition scanning_config : ProcessorConfig :=
  mkProcessorConfig (mkStorageConfig "default" 1000) (mkPipelineConfig 1000 true "clamav" 3310)
    (mkQuotaConfig 0 0 ∅) (mkRoutingConfig "default" []) (mkCryptoConfig false None) false.

(** An infected file is not finalized as such.  The NUL that ends clamd's reply is
    kept in the error message, PostgreSQL refuses it, and the permanent rejection
    becomes a database error thrown back to BullMQ: the row stays PROCESSING, nothing
    is dead-lettered.  The file is not uploaded. *)
Theorem infected_file_not_finalized :
  let run := @outcome _ _ (@world_handler infected_externals) in
  let w' := @final _ _ (@world_handler infected_externals) _ []
              (@runTransfer infected_externals _ scanning_config demo_job) demo_world in
  run _ [] (@runTransfer infected_externals _ scanning_config demo_job) demo_world = Err invalid_byte_sequence ∧
  (ft_status <$> d_transfers (w_db w') !! "t1") = Some TransferStatus.PROCESSING ∧
  w_dlq w' = [] ∧ lookup_object (w_s3 w') "default" "ann/a.csv" = None.
Proof. vm_compute. done. Qed.
