(* ===== verification/Transfers.v ===== *)
(** * The management API ([ingestion/transfers.service.ts], [ingestion/transfers.controller.ts])

    List, inspect, download and retry.  A handler's database work is a program of
    statements; [scoped] runs it statement by statement for an admin, and for anybody
    else in one transaction that first sets [app.current_tenant], under which the
    row-level security policy filters.  The theorems: a tenant user sees and changes
    rows of the own tenant only; a retry does what it says on every branch; what the
    worker stored is what a download returns. *)
From S2P Require Import Prelude JsLang Json Entities Database Prog World Repository Outbox.
From S2P Require Import Routing Storage Crypto Pipeline Events Quota Processor.

(** ** Scoped work *)
Inductive stmt : Type → Type :=
  | Stmt {A} (m : dbM A) : stmt A.

Definition stmt_op (X : Type) (s : stmt X) : eff X :=
  match s in stmt X return eff X with Stmt m => Db m end.

(** The statements of a program one after the other; the first failure ends it. *)
Fixpoint in_transaction {A} (p : prog stmt A) : dbM A :=
  match p with
  | Ret a => db_ret a
  | Throw e => db_throw e
  | Call op k => λ d, (match op in stmt X return (result X → prog stmt A) → _ with
                       | Stmt m => λ k, match m d with (r, d') => in_transaction (k r) d' end
                       end) k
  end.

Definition set_config (tenant : string) : dbM unit := λ d, (Ok tt, set_tenant (Some tenant) d).

Definition is_admin (user : AuthUser) : bool := bool_decide (ADMIN ∈ au_roles user).

Definition scoped {A} (user : AuthUser) (work : prog stmt A) : P A :=
  if is_admin user then hoist stmt_op work
  else sql (db_bind (set_config (au_tenantId user)) (λ _, in_transaction work)).

(** ** Operations *)
Record ListTransfersQueryDto := mkListQuery {
  lq_status : option TransferStatus.t;
  lq_limit : Z;
  lq_offset : Z;
}.

(** The [class-validator] bounds and defaults. *)
Definition list_query_valid (q : ListTransfersQueryDto) : bool :=
  ((1 <=? lq_limit q) && (lq_limit q <=? 200) && (0 <=? lq_offset q))%Z.

Record PaginatedTransfers := mkPage {
  pg_items : list FileTransfer;
  pg_total : Z;
  pg_limit : Z;
  pg_offset : Z;
}.

Definition list_scoped (query : ListTransfersQueryDto) (user : AuthUser) : P PaginatedTransfers :=
  scoped user
    (r <- call (Stmt (list_statement (lq_status query) (lq_limit query) (lq_offset query))) ;;
     Ret (mkPage r.1 r.2 (lq_limit query) (lq_offset query))).

Definition not_found (id : string) : exn := HttpError 404 ("Transfer " +:+ id +:+ " not found").

Definition getById (id : string) (user : AuthUser) : P FileTransfer :=
  transfer <- scoped user (call (Stmt (find_transfer id))) ;;
  match transfer with
  | None => Throw (not_found id)
  | Some t => Ret t
  end.

(** What a download hands to the HTTP layer: the bytes the stream yields and how it
    ends. *)
Record DownloadResult := mkDownload {
  dr_stream : bytes * result unit;
  dr_filename : string;
  dr_contentType : string;
}.

Definition no_object (id : string) (status : TransferStatus.t) : exn :=
  HttpError 409 ("Transfer " +:+ id +:+ " has no stored object (status "
                 +:+ TransferStatus.to_string status +:+ ")").

(** [queue.add(TRANSFER_JOB, { transferId })] through the queue of [IngestionModule],
    whose [defaultJobOptions] set the attempts. *)
Definition retry_job (maxAttempts : Z) (id : string) : Job :=
  mkJob TRANSFER_JOB (mkTransferJob id []) (Some maxAttempts) 0.

(** [findOneOrFail] *)
Definition find_or_fail (id : string) : prog stmt FileTransfer :=
  r <- call (Stmt (find_transfer id)) ;;
  match r with
  | Some t => Ret t
  | None => Throw (Infra (Infra_error "EntityNotFoundError" "Could not find any entity" None None))
  end.

Definition retry_work (id : string) : prog stmt FileTransfer :=
  found <- call (Stmt (find_transfer id)) ;;
  match found with
  | None => Throw (not_found id)
  | Some t =>
      if bool_decide (ft_status t = TransferStatus.SUCCESS)
      then Throw (HttpError 409 ("Transfer " +:+ id +:+ " already succeeded; nothing to retry"))
      else call (Stmt (update_transfer id reset_patch)) ;;; find_or_fail id
  end.

Definition retry (maxAttempts : Z) (id : string) (user : AuthUser) : P FileTransfer :=
  transfer <- scoped user (retry_work id) ;;
  call (QueueAdd (retry_job maxAttempts id)) ;;;
  Ret transfer.

Record RetryBatchDto := mkRetryBatch {
  rb_status : option TransferStatus.t;
  rb_before : option Z;
  rb_limit : Z;
}.

Definition batch_work (status : TransferStatus.t) (before : option Z) (limit : Z) : prog stmt (list string) :=
  matched <- call (Stmt (select_transfers (retry_where status before) by_createdAt (Z.to_nat limit) 0)) ;;
  for_collect matched (λ t, call (Stmt (update_transfer (ft_id t) reset_patch)) ;;; Ret (ft_id t)).

Definition retryBatch (maxAttempts : Z) (dto : RetryBatchDto) (user : AuthUser) : P (Z * list string) :=
  let status := nullish (rb_status dto) TransferStatus.FAILED in
  if bool_decide (status = TransferStatus.SUCCESS)
  then Throw (HttpError 409 "Cannot batch-retry SUCCESS transfers")
  else
    ids <- scoped user (batch_work status (rb_before dto) (rb_limit dto)) ;;
    for_each ids (λ id, call (QueueAdd (retry_job maxAttempts id))) ;;;
    Ret (Z.of_nat (length ids), ids).

Section download.
Context `{!Gcm}.

(** [network] is how the object's bytes arrive in chunks. *)
Definition download (cc : CryptoConfig) (network : bytes → list bytes) (id : string) (user : AuthUser)
    : P DownloadResult :=
  transfer <- getById id user ;;
  if negb (bool_decide (ft_status transfer = TransferStatus.SUCCESS)) || negb (truthy (ft_objectKey transfer))
  then Throw (no_object id (ft_status transfer))
  else
    obj <- getObject (ft_bucket transfer) (nullish (ft_objectKey transfer) "") ;;
    stream <- (if ft_encrypted transfer && truthy (ft_wrappedDek transfer)
               then dst <- of_result (createDecryptStream cc (nullish (ft_wrappedDek transfer) "")) ;;
                    Ret (decrypt_all dst (network obj.1))
               else Ret (obj.1, Ok tt)) ;;
    Ret (mkDownload stream (ft_filename transfer) (nullish obj.2 "application/octet-stream")).
End download.

(** The header of the controller's answer: quotes are removed from the name. *)
Definition content_disposition (filename : string) : string :=
  "attachment; filename=" +:+ quote +:+ remove_char quote_char filename +:+ quote.

(** ** Confinement to a tenant *)
Definition rows_of_others_kept (t : string) (d d' : db) : Prop :=
  ∀ id r, ft_tenantId r ≠ t → d_transfers d !! id = Some r ↔ d_transfers d' !! id = Some r.

(** The session of a tenant's transaction. *)
Definition tenant_session (t : string) (d : db) : Prop := d_tenant d = Some t ∧ d_superuser d = false ∧ t ≠ "".

(** A statement that, in such a session, keeps it and the rows of other tenants, and
    whose answers satisfy [Q]. *)
Definition confined (t : string) {A} (Q : A → Prop) (m : dbM A) : Prop :=
  ∀ d, tenant_session t d → tenant_session t (m d).2 ∧ rows_of_others_kept t d (m d).2 ∧
    ∀ a, (m d).1 = Ok a → Q a.

Lemma others_refl t d : rows_of_others_kept t d d.
Proof. by intros ???. Qed.

Lemma others_trans t d1 d2 d3 :
  rows_of_others_kept t d1 d2 → rows_of_others_kept t d2 d3 → rows_of_others_kept t d1 d3.
Proof. intros H1 H2 id r Hr. by rewrite (H1 id r Hr), (H2 id r Hr). Qed.

Lemma visible_tenant t d r : tenant_session t d → tenant_isolation d r = true → ft_tenantId r = t.
Proof.
  intros (Ht & Hs & Hne). unfold tenant_isolation. rewrite Ht, Hs. simpl.
  destruct (String.eqb_spec t ""); [done|]. simpl. by intros Heq%String.eqb_eq.
Qed.

Lemma confined_update t id patch : keeps_identity patch → confined t (λ _, True) (update_transfer id patch).
Proof.
  intros Hp d Hd. destruct (update_transfer_cases id patch d) as [[e ->]|[[-> _]|(r & Hr & Hv & _ & ->)]];
    simpl; try (split_and!; [done|apply others_refl|done]).
  split_and!; [done| |done]. pose proof (visible_tenant t d r Hd Hv) as Hrt. destruct (Hp r) as (_ & _ & Hpt).
  intros i s Hs. simpl. rewrite lookup_insert. case_decide as Hi; [|done]. subst i.
  split; intros; simplify_eq; exfalso; apply Hs; simpl; congruence.
Qed.

Lemma confined_find t id : confined t (λ o, ∀ r, o = Some r → ft_tenantId r = t) (find_transfer id).
Proof.
  intros d Hd. simpl. split_and!; [done|apply others_refl|]. intros o [= <-] r Hr.
  destruct (d_transfers d !! id) as [s|]; simpl in Hr; [|done].
  destruct (tenant_isolation d s) eqn:Hv; [|done]. simplify_eq. by eapply visible_tenant.
Qed.

Lemma confined_select t p le n k :
  confined t (λ l, ∀ r, r ∈ l → ft_tenantId r = t) (select_transfers p le n k).
Proof.
  intros d Hd. split_and!; [done|apply others_refl|]. intros l Hl r Hr.
  pose proof (select_transfers_elem p le n k d r) as Hsel. rewrite Hl in Hsel.
  destruct (Hsel Hr) as (_ & Hv & _). by eapply visible_tenant.
Qed.

Lemma confined_bind t {A B} (Q : A → Prop) (Q' : B → Prop) (m : dbM A) (f : A → dbM B) :
  confined t Q m → (∀ a, Q a → confined t Q' (f a)) → confined t Q' (db_bind m f).
Proof.
  intros Hm Hf d Hd. destruct (Hm d Hd) as (Hs & Ho & HQ). unfold db_bind.
  destruct (m d) as [[a|e] d']; simpl in *; [|done].
  destruct (Hf a (HQ a eq_refl) d' Hs) as (Hs' & Ho' & HQ'). split_and!; [done|by eapply others_trans|done].
Qed.

Lemma confined_ret t {A} (Q : A → Prop) a : Q a → confined t Q (db_ret a).
Proof. intros Ha d Hd. split_and!; [done|apply others_refl|]. by intros ? [= <-]. Qed.

Lemma confined_list t status limit offset :
  confined t (λ p, ∀ r, r ∈ p.1 → ft_tenantId r = t) (list_statement status limit offset).
Proof.
  unfold list_statement. eapply confined_bind; [apply confined_select|]. intros items Hi.
  eapply (confined_bind t (λ _ : nat, True)); [|intros total _; by apply confined_ret].
  intros d Hd. split_and!; [done|apply others_refl|done].
Qed.

(** A program of confined statements, run in the transaction. *)
Fixpoint confined_prog (t : string) {A} (Q : A → Prop) (p : prog stmt A) : Prop :=
  match p with
  | Ret a => Q a
  | Throw _ => True
  | Call op k => (match op in stmt X return (result X → prog stmt A) → Prop with
                  | Stmt m => λ k, ∃ Qm, confined t Qm m ∧
                      (∀ a, Qm a → confined_prog t Q (k (Ok a))) ∧ ∀ e, confined_prog t Q (k (Err e))
                  end) k
  end.

Lemma in_transaction_confined t {A} (Q : A → Prop) (p : prog stmt A) :
  confined_prog t Q p → confined t Q (in_transaction p).
Proof.
  induction p as [a|e|X op k IH]; simpl.
  - apply confined_ret.
  - intros _ d Hd. by split_and!; [|apply others_refl|].
  - destruct op as [X m]. intros (Qm & Hm & Hok & Herr) d Hd. destruct (Hm d Hd) as (Hs & Ho & HQ).
    destruct (m d) as [r d']. simpl in *.
    assert (Hr : confined_prog t Q (k r)) by (destruct r; [apply Hok, HQ|apply Herr]; done).
    destruct (IH r Hr d' Hs) as (Hs' & Ho' & HQ'). split_and!; [done|by eapply others_trans|done].
Qed.

Lemma confined_prog_mono t {A} (Q Q' : A → Prop) (p : prog stmt A) :
  (∀ a, Q a → Q' a) → confined_prog t Q p → confined_prog t Q' p.
Proof.
  intros HQ. induction p as [a|e|X op k IH]; simpl; [auto|done|]. destruct op as [X m].
  intros (Qm & Hm & Hok & Herr). exists Qm. split_and!; auto.
Qed.

Lemma confined_prog_bind t {A B} (Q : A → Prop) (Q' : B → Prop) (p : prog stmt A) (f : A → prog stmt B) :
  confined_prog t Q p → (∀ a, Q a → confined_prog t Q' (f a)) → confined_prog t Q' (bind p f).
Proof.
  intros Hp Hf. revert Hp. induction p as [a|e|X op k IH]; [apply Hf|done|]. destruct op as [X m].
  intros (Qm & Hm & Hok & Herr). exists Qm. split_and!; [done| |]; intros; apply IH; auto.
Qed.

Lemma confined_prog_call t {A} (Q : A → Prop) (m : dbM A) : confined t Q m → confined_prog t Q (call (Stmt m)).
Proof. intros Hm. exists Q. by split_and!. Qed.

Lemma confined_collect t {X} (l : list X) (f : X → prog stmt string) :
  (∀ x, confined_prog t (λ _, True) (f x)) → confined_prog t (λ _, True) (for_collect l f).
Proof.
  intros Hf. induction l as [|x l IH]; [done|]. simpl.
  eapply confined_prog_bind; [apply Hf|]. intros y _.
  eapply confined_prog_bind; [apply IH|]. done.
Qed.

Lemma retry_work_confined t id : confined_prog t (λ r, ft_tenantId r = t) (retry_work id).
Proof.
  unfold retry_work. eapply confined_prog_bind; [apply confined_prog_call, confined_find|].
  intros [r|] Hr; [|done]. case_bool_decide; [done|].
  eapply (confined_prog_bind t (λ _, True)).
  { by apply confined_prog_call, confined_update, reset_patch_identity. }
  intros _ _. unfold find_or_fail. eapply confined_prog_bind; [apply confined_prog_call, confined_find|].
  intros [r'|] Hr'; simpl; auto.
Qed.

Lemma batch_work_confined t status before limit : confined_prog t (λ _, True) (batch_work status before limit).
Proof.
  unfold batch_work. eapply confined_prog_bind; [apply confined_prog_call, confined_select|].
  intros l _. apply confined_collect. intros r.
  eapply (confined_prog_bind t (λ _, True)); [|done].
  by apply confined_prog_call, confined_update, reset_patch_identity.
Qed.

Section isolation.
Context `{!Externals}.

(** A tenant user whose session the policy applies to. *)
Definition tenant_user (user : AuthUser) (w : world) : Prop :=
  is_admin user = false ∧ au_tenantId user ≠ "" ∧ d_superuser (w_db w) = false.

Lemma scoped_rg {A} (user : AuthUser) (Q : A → Prop) (work : prog stmt A) w :
  tenant_user user w → confined_prog (au_tenantId user) Q work →
  rg eq (λ _ _, True) (scoped user work)
    (λ r w', rows_of_others_kept (au_tenantId user) (w_db w) (w_db w') ∧ ∀ a, r = Ok a → Q a) w.
Proof.
  intros (Had & Hne & Hsu) Hc. unfold scoped. rewrite Had. unfold sql. rg_step. split; [done|].
  set (m := db_bind (set_config (au_tenantId user)) (λ _, in_transaction work)).
  pose proof (in_transaction_confined _ _ _ Hc) as Hconf.
  destruct (Hconf (set_tenant (Some (au_tenantId user)) (w_db w))) as (_ & Ho & HQ); [done|].
  assert (Hm : m (w_db w) = in_transaction work (set_tenant (Some (au_tenantId user)) (w_db w))) by done.
  assert (Htx : rows_of_others_kept (au_tenantId user) (w_db w) (transact m (w_db w)).2 ∧
    ∀ a, (transact m (w_db w)).1 = Ok a → Q a).
  { unfold transact. rewrite Hm. destruct (in_transaction work _) as [[a|e] d']; simpl in *.
    - split; [exact Ho|]. intros a' [= <-]. auto.
    - split; [apply others_refl|done]. }
  destruct Htx as [Hto HtQ]. unfold perform. simpl.
  destruct f; simpl; try (repeat rg_step; split; [apply others_refl|done]).
  - destruct (transact m (w_db w)) as [[a|e] d']; simpl in *; rg_step; (split; [done|]); [|done].
    intros a' [= <-]. auto.
  - destruct (transact m (w_db w)) as [[a|e'] d']; simpl in *; rg_step; by split.
Qed.

Lemma queue_rg t d j (Q : result unit → world → Prop) w :
  rows_of_others_kept t d (w_db w) → (∀ r w', rows_of_others_kept t d (w_db w') → Q r w') →
  rg eq (λ _ _, True) (call (QueueAdd j)) Q w.
Proof.
  intros Ho HQ. rg_step. split; [done|]. destruct f; unfold perform; simpl; rg_step; by apply HQ.
Qed.
End isolation.

(** C15: Tenants are isolated.  For a user who is not an admin, with a non-empty tenant
    and a database role the policy applies to, and whatever fails: a page of the
    listing, an inspected transfer and a retried transfer belong to the user's tenant;
    and neither a retry nor a batch retry changes, adds or removes a row of another
    tenant. *)
Theorem tenant_isolated `{!Externals} user w fs query id maxAttempts dto :
  tenant_user user w →
  let t := au_tenantId user in
  (∀ p, outcome fs (list_scoped query user) w = Ok p → ∀ r, r ∈ pg_items p → ft_tenantId r = t) ∧
  (∀ r, outcome fs (getById id user) w = Ok r → ft_tenantId r = t) ∧
  (∀ r, outcome fs (retry maxAttempts id user) w = Ok r → ft_tenantId r = t) ∧
  rows_of_others_kept t (w_db w) (w_db (final fs (retry maxAttempts id user) w)) ∧
  rows_of_others_kept t (w_db w) (w_db (final fs (retryBatch maxAttempts dto user) w)).
Proof.
  intros Hu t. split_and!.
  - intros p Hp.
    refine (proj2 (seq_run _ _ _ _ fs (scoped_rg user (λ p, ∀ r, r ∈ pg_items p → ft_tenantId r = t)
      (r <- call (Stmt (list_statement (lq_status query) (lq_limit query) (lq_offset query))) ;;
       Ret (mkPage r.1 r.2 (lq_limit query) (lq_offset query))) w Hu _)) p Hp).
    eapply confined_prog_bind; [apply confined_prog_call, confined_list|]. done.
  - intros r Hr. revert r Hr.
    refine (seq_run (λ _ _, True) _ (λ res _, ∀ r, res = Ok r → ft_tenantId r = t) _ fs _).
    unfold getById. rg_step. eapply rg_mono; [eapply scoped_rg; [exact Hu|apply confined_prog_call, confined_find]|].
    intros [[r|]|e] w' [_ Ha]; [|by rg_step|done]. rg_step. intros r' [= <-]. by apply (Ha (Some r)).
  - intros r Hr. revert r Hr.
    refine (seq_run (λ _ _, True) _ (λ res _, ∀ r, res = Ok r → ft_tenantId r = t) _ fs _).
    unfold retry. rg_step. eapply rg_mono; [eapply scoped_rg; [exact Hu|apply retry_work_confined]|].
    intros [r|e] w' [Ho Ha]; [|done]. rg_step. apply (queue_rg t (w_db w)); [done|].
    intros [[]|e] w'' _; [|done]. rg_step. intros r' [= <-]. auto.
  - refine (seq_run (λ _ _, True) _ (λ _ w', rows_of_others_kept t (w_db w) (w_db w')) _ fs _).
    unfold retry. rg_step. eapply rg_mono; [eapply scoped_rg; [exact Hu|apply retry_work_confined]|].
    intros [r|e] w' [Ho Ha]; [|done]. rg_step. apply (queue_rg t (w_db w)); [done|].
    intros [[]|e] w'' Ho'; [|done]. by rg_step.
  - refine (seq_run (λ _ _, True) _ (λ _ w', rows_of_others_kept t (w_db w) (w_db w')) _ fs _).
    unfold retryBatch. case_bool_decide; [rg_step; apply others_refl|]. rg_step.
    eapply rg_mono; [eapply scoped_rg; [exact Hu|apply batch_work_confined]|].
    intros [ids|e] w' [Ho _]; [|done]. rg_step.
    eapply (rg_for_each eq (λ _ _, True)) with (I := λ _ w', rows_of_others_kept t (w_db w) (w_db w')).
    + intros x l' w'' Ho''. apply (queue_rg t (w_db w)); [done|]. by intros [[]|?] w3 Ho3.
    + intros w'' Ho''. rg_step. by rg_step.
    + done.
Qed.

(** ** Reading a row *)
Section reading.
Context `{!Externals}.

(** Who may see a row: an admin, a user of its tenant (and one without a tenant). *)
Definition may_see (user : AuthUser) (r : FileTransfer) : Prop :=
  is_admin user = true ∨ au_tenantId user = ft_tenantId r ∨ au_tenantId user = "".

Lemma getById_exec id user r w :
  d_tenant (w_db w) = None → d_transfers (w_db w) !! id = Some r → may_see user r →
  exec (getById id user) w = (Ok r, w).
Proof.
  intros Ht Hr Hsee. unfold getById, scoped. rewrite exec_bind.
  assert (Hs : ∀ r, tenant_isolation (w_db w) r = true)
    by (intros; unfold tenant_isolation; rewrite Ht; apply orb_true_r).
  destruct (is_admin user) eqn:Had.
  - change (hoist stmt_op (call (Stmt (find_transfer id)))) with
      (Call (Db (find_transfer id)) (λ r, hoist stmt_op (of_result r)) : P (option FileTransfer)).
    unfold exec. simpl. rewrite Hr. simpl. rewrite Hs. simpl. by destruct w as [[]].
  - unfold sql. rewrite exec_call. simpl. unfold transact, db_bind. simpl. rewrite Hr. simpl.
    assert (Hv : tenant_isolation (set_tenant (Some (au_tenantId user)) (w_db w)) r = true).
    { unfold tenant_isolation. simpl. destruct Hsee as [?|[Heq|Heq]]; [congruence|..]; rewrite Heq.
      - by rewrite String.eqb_refl, !orb_true_r.
      - apply orb_true_r. }
    rewrite Hv. simpl. by destruct w as [[]].
Qed.
End reading.

(** A user without a tenant sees every tenant.  [createUser] stores an empty tenant
    as given, and under the empty setting the policy hides nothing: any row is returned
    to such a user, whatever its tenant. *)
Theorem empty_tenant_sees_all `{!Externals} id user r w :
  au_tenantId user = "" → d_tenant (w_db w) = None → d_transfers (w_db w) !! id = Some r →
  exec (getById id user) w = (Ok r, w).
Proof. intros Hu Ht Hr. apply getById_exec; [done|done|]. right. by right. Qed.

Section roundtrip.
Context `{!Externals, !Gcm, !GcmLaws}.

Lemma object_key_nonempty prefix t : truthy (Some (object_key prefix t)) = true.
Proof.
  unfold object_key. simpl. destruct prefix; simpl; [|done]. by destruct (ft_username t).
Qed.

(** Downloading what the worker stored. *)
Lemma download_exec ps transfer fs c network id user r w :
  d_tenant (w_db w) = None → d_transfers (w_db w) !! id = Some r → may_see user r →
  ft_status r = TransferStatus.SUCCESS → stored ps transfer fs (w_s3 w) r →
  fs !! ft_sourcePath transfer = Some (RegularFile c) → (∀ b, concat (network b) = b) →
  ∃ ct, exec (download (ps_crypto ps) network id user) w = (Ok (mkDownload (c, Ok tt) (ft_filename r) ct), w).
Proof.
  intros Ht Hr Hsee Hst (c' & enc & obj & Hc' & Henc & Hobj & Hbody & Hb & Hk & _ & _ & Hen & Hdek) Hc Hnet.
  rewrite Hc in Hc'. simplify_eq. unfold download. rewrite exec_bind, (getById_exec id user r w) by done.
  rewrite bool_decide_eq_true_2 by done. rewrite Hk.
  unfold resolve_route in *. cbn [rt_key rt_bucket] in *. rewrite object_key_nonempty. simpl.
  rewrite exec_bind. unfold getObject. rewrite exec_bind, exec_call. simpl. rewrite Hb, Hobj. simpl.
  change (exec (Ret ?x) w) with (Ok x, w). cbv iota beta. rewrite exec_bind, Hen, Hdek, Hbody. simpl.
  destruct enc as [[st wr]|]; simpl in *.
  - destruct (enc_valid_unwrap _ _ _ Henc) as (Hne & dek & iv & -> & Hl & Hiv & Hun). destruct (String.eqb_spec wr ""); [done|].
    simpl. unfold createDecryptStream. rewrite Hun. rewrite exec_bind. cbn [of_result].
    change (exec (Ret ?x) w) with (Ok x, w). cbv iota beta.
    rewrite (decrypt_all_sealed dek iv c'); [by eexists|done|done|].
    rewrite Hnet, encrypt_sealed. by rewrite read_chunks_concat.
  - by eexists.
Qed.
End roundtrip.

(** A download after the worker's run. *)
Lemma download_after_run `{!Externals, !Gcm, !GcmLaws} ps job transfer c w network user :
  wf_transfers (d_transfers (w_db w)) →
  d_transfers (w_db w) !! tj_transferId (job_data job) = Some transfer →
  ft_status transfer ≠ TransferStatus.SUCCESS → ready ps transfer c w →
  may_see user transfer → (∀ b, concat (network b) = b) →
  let w' := (exec (runTransfer ps job) w).2 in
  ∃ ct, exec (download (ps_crypto ps) network (tj_transferId (job_data job)) user) w' =
    (Ok (mkDownload (c, Ok tt) (ft_filename transfer) ct), w').
Proof.
  intros Hwf Hrow Hst Hrd Hsee Hnet w'. pose proof (rd_tenant _ _ _ _ Hrd) as Ht.
  destruct (runTransfer_exec ps job transfer c w Hwf Hrow Hst Hrd) as (_ & _ & _ & Hrow').
  fold w' in Hrow'. set (r := success_row ps transfer c _ _ _) in Hrow'.
  assert (Hw' : w' = final [] (runTransfer ps job) w) by (by rewrite (proj2 (exec_outcome _ _))).
  pose proof (runTransfer_stored ps job transfer w [] 0 Hwf Ht Hrow Hst w' r (or_intror Hw') Hrow' eq_refl) as Hstored.
  assert (Ht' : d_tenant (w_db w') = None).
  { rewrite Hw'. pose proof (wf_ids _ Hwf _ _ Hrow) as Hid.
    by destruct (seq_run _ _ _ _ [] (runTransfer_rg ps transfer job w Ht Hrow Hid Hst)) as [(? & _) _]. }
  by apply (download_exec ps transfer (w_fs w) c network _ user r w' Ht' Hrow'); [..|apply (rd_file _ _ _ _ Hrd)|].
Qed.

(** C8: What goes in comes out.  In a world that is ready for a transfer, after the
    worker ran, every user who may see the row downloads exactly the bytes of the source
    file, encrypted at rest or not, however the object's bytes arrive in chunks; the
    stream ends without error. *)
Theorem upload_download_roundtrip `{!Externals, !Gcm, !GcmLaws} ps job transfer c w network user :
  wf_transfers (d_transfers (w_db w)) →
  d_transfers (w_db w) !! tj_transferId (job_data job) = Some transfer →
  ft_status transfer ≠ TransferStatus.SUCCESS → ready ps transfer c w →
  may_see user transfer → (∀ b, concat (network b) = b) →
  let w' := (exec (runTransfer ps job) w).2 in
  ∃ ct, exec (download (ps_crypto ps) network (tj_transferId (job_data job)) user) w' =
    (Ok (mkDownload (c, Ok tt) (ft_filename transfer) ct), w').
Proof. apply download_after_run. Qed.

(** A retry on every branch.  For an admin: an unknown transfer is a 404, a
    transfer that is SUCCESS is a 409, and both change nothing; any other transfer is
    reset to PENDING with no attempts and no error, and one job for it, with the
    configured attempts, is added to the queue. *)
Theorem retry_branches `{!Externals} maxAttempts id user w :
  is_admin user = true → d_tenant (w_db w) = None →
  match d_transfers (w_db w) !! id with
  | None => exec (retry maxAttempts id user) w = (Err (not_found id), w)
  | Some r =>
      if bool_decide (ft_status r = TransferStatus.SUCCESS)
      then ∃ m, exec (retry maxAttempts id user) w = (Err (HttpError 409 m), w)
      else
        let r' := touch (d_now (w_db w)) (reset_patch r) in
        check_transfer r' = Ok tt →
        exec (retry maxAttempts id user) w =
          (Ok r', set_queue (w_queue w ++ [retry_job maxAttempts id])
                    (set_db (set_transfers (<[id := r']> (d_transfers (w_db w))) (w_db w)) w))
  end.
Proof.
  intros Had Ht. unfold retry, scoped. rewrite Had, exec_bind.
  assert (Hs : ∀ r, tenant_isolation (w_db w) r = true)
    by (intros; unfold tenant_isolation; rewrite Ht; apply orb_true_r).
  destruct (d_transfers (w_db w) !! id) as [r|] eqn:Hr.
  2: { unfold retry_work, exec, call, bind. simpl. rewrite Hr. simpl. by destruct w as [[]]. }
  unfold retry_work, find_or_fail, call, bind, exec. simpl. rewrite Hr. simpl. rewrite Hs. simpl.
  destruct (bool_decide (ft_status r = TransferStatus.SUCCESS)); simpl.
  { eexists. by destruct w as [[]]. }
  intros Hc. unfold transact, update_transfer. simpl. rewrite Hr.
  assert (Hs' : ∀ r, tenant_isolation (set_tenant (d_tenant (w_db w)) (w_db w)) r = true)
    by (intros; unfold tenant_isolation; simpl; rewrite Ht; apply orb_true_r).
  rewrite !Hs', Hc. simpl. rewrite lookup_insert_eq. simpl. unfold tenant_isolation. simpl.
  rewrite Ht, orb_true_r. simpl. destruct w as [[]]. simpl in Ht. by subst.
Qed.

(** ** Witnesses *)
Import Demo DemoCipher.

Definition acme_viewer : AuthUser := mkAuthUser "u1" "ann" [VIEWER] "acme".
Definition root_user : AuthUser := mkAuthUser "u0" "root" [ADMIN] "default".

Lemma tenant_isolated_witness :
  (∀ r, outcome [] (getById "t1" acme_viewer) demo_world = Ok r → ft_tenantId r = "acme") ∧
  outcome [] (getById "t1" acme_viewer) demo_world = Ok demo_row.
Proof.
  split; [|vm_compute; reflexivity].
  apply (tenant_isolated acme_viewer demo_world [] (mkListQuery None 20 0) "t1" 3 (mkRetryBatch None None 10)).
  split; [reflexivity|]. split; [discriminate|reflexivity].
Defined.

Lemma empty_tenant_sees_all_witness :
  exec (getById "t1" (mkAuthUser "u2" "eve" [VIEWER] "")) demo_world = (Ok demo_row, demo_world).
Proof. apply (empty_tenant_sees_all "t1" (mkAuthUser "u2" "eve" [VIEWER] "")); reflexivity. Defined.

(** A worker without and one with encryption. *)
Lemma upload_download_roundtrip_witness :
  Forall (λ ps, ∃ ct, exec (download (ps_crypto ps) (λ b, [take 1 b; drop 1 b]) "t1" acme_viewer)
                        (exec (runTransfer ps demo_job) demo_world).2 =
    (Ok (mkDownload ([Byte.x61; Byte.x62], Ok tt) "a.csv" ct), (exec (runTransfer ps demo_job) demo_world).2))
    [demo_config; sealing_config].
Proof.
  assert (Hrd : Forall (λ ps, ready ps demo_row [Byte.x61; Byte.x62] demo_world) [demo_config; sealing_config])
    by (constructor; [exact demo_ready|constructor; [exact sealing_ready|constructor]]).
  eapply Forall_impl; [exact Hrd|]. intros ps Hps.
  refine (upload_download_roundtrip ps demo_job demo_row [Byte.x61; Byte.x62] demo_world
    (λ b, [take 1 b; drop 1 b]) acme_viewer demo_row_wf eq_refl _ Hps _ _).
  - discriminate.
  - right. left. reflexivity.
  - intros b. simpl. rewrite app_nil_r. destruct b; reflexivity.
Defined.

(** The object of the encrypting worker is not the file. *)
Example sealed_at_rest :
  (o_body <$> lookup_object (w_s3 (exec (runTransfer sealing_config demo_job) demo_world).2) "default" "ann/a.csv")
    ≠ Some [Byte.x61; Byte.x62].
Proof. vm_compute. discriminate. Qed.

Lemma retry_branches_witness :
  exec (retry 3 "t9" root_user) demo_world = (Err (not_found "t9"), demo_world).
Proof. exact (retry_branches 3 "t9" root_user demo_world eq_refl eq_refl). Defined.
