(* ===== verification/Delivery.v ===== *)
(** * From the webhook to the download

    The components in sequence.  The relay runs once a second ([@Interval] of
    [outbox/outbox.service.ts]); each pass may be hit by faults.  [relay_drains]: as soon as
    enough passes went through undisturbed, the backlog is empty and every event has its
    job.  [accepted_upload_is_delivered]: an upload answered ACCEPTED has, after the
    backlog is drained, a job; the worker that processes it acknowledges it, and the
    file can be downloaded. *)
From S2P Require Import Prelude JsLang NodePath Entities Database Prog World Repository Outbox Ingestion.
From S2P Require Import Quota Routing Storage Crypto Pipeline Events Processor Transfers.

(** ** Undisturbed runs *)
Definition clean (fs : list fault) : bool :=
  forallb (λ f, match f with NoFault => true | _ => false end) fs.

Lemma clean_run `{!Externals} {A} (p : P A) fs w :
  clean fs = true → outcome fs p w = (exec p w).1 ∧ final fs p w = (exec p w).2.
Proof.
  unfold outcome, final. revert fs w. induction p as [a|e|X op k IH]; intros fs w Hfs; [done..|].
  change (run fs (Call op k) w) with
    (run (if fallible op then tail fs else fs) (k (perform (next_fault fs) op w).1) (perform (next_fault fs) op w).2).
  assert (Hp : perform (next_fault fs) op w = handle op w).
  { unfold perform. destruct (fallible op); [|done]. destruct fs as [|[] fs]; try done. }
  rewrite Hp. apply IH. destruct (fallible op); [|done]. destruct fs as [|[] fs]; done.
Qed.

(** ** Passes of the relay *)
Definition backlog (w : world) : nat := length (pending_events (w_db w)).

Section passes.
Context `{!Externals}.

Fixpoint relay_passes (fss : list (list fault)) (w : world) : world :=
  match fss with
  | [] => w
  | fs :: fss' => relay_passes fss' (final fs relay w)
  end.

(** What any operation of the relay does: no event becomes PENDING, transfers and session
    stay. *)
Definition relays (w w' : world) : Prop :=
  (∀ i e, d_outbox (w_db w') !! i = Some e → ob_status e = OutboxStatus.PENDING →
     d_outbox (w_db w) !! i = Some e) ∧
  d_transfers (w_db w') = d_transfers (w_db w) ∧ d_tenant (w_db w') = d_tenant (w_db w) ∧
  d_now (w_db w') = d_now (w_db w).

#[local] Instance relays_preorder : PreOrder relays.
Proof.
  split; [by intros w|]. intros w1 w2 w3 (Hp & Ht & Hs & Hn) (Hp' & Ht' & Hs' & Hn').
  split_and!; [eauto|congruence..].
Qed.

Lemma relays_same_db w w' : w_db w' = w_db w → relays w w'.
Proof. intros Hd. unfold relays. by rewrite Hd. Qed.

Lemma publish_relays id now w : relays w (handle (Db (update_outbox id (publish_patch now))) w).2.
Proof.
  simpl. unfold transact, update_outbox. destruct (d_outbox (w_db w) !! id) as [e|] eqn:He; simpl; [|done].
  destruct (int4 _); simpl; [|by apply relays_same_db]. split_and!; [|done..].
  intros i e'. simpl. rewrite lookup_insert. case_decide; [intros; by simplify_eq|done].
Qed.

Lemma relay_ops : all_ops (λ X (op : eff X), ∀ f w, relays w (perform f op w).2) relay.
Proof.
  assert (Hh : ∀ X (op : eff X) f w, relays w (handle op w).2 → relays w (perform f op w).2).
  { intros X op f w Hop. unfold perform. destruct (fallible op); [|done]. by destruct f. }
  unfold relay, relay_event, in_proc, set_in_proc, sql.
  repeat ops_step; intros f w; apply Hh; first [apply publish_relays | by apply relays_same_db | done].
Qed.

Lemma relay_relays fs w : relays w (final fs relay w).
Proof.
  eapply (rg_final_trans eq relays). eapply (all_ops_rg (λ X (op : eff X), ∀ f w, relays w (perform f op w).2)).
  - intros X op Hop f w'. apply Hop.
  - exact relay_ops.
Qed.

Lemma relay_releases fs w : p_relaying (w_proc w) = false → p_relaying (w_proc (final fs relay w)) = false.
Proof.
  intros Hb.
  apply (seq_run (λ _ _, True) relay (λ _ w', p_relaying (w_proc w') = false)).
  unfold relay, in_proc. rg_step. rg_step. unfold perform; simpl. split; [done|]. rewrite Hb. cbn [of_result].
  rg_step. rg_step.
  assert (Htop : ∀ A (p : P A) w0, rg eq (λ _ _, True) p (λ _ _, True) w0).
  { intros A p. induction p as [a|e|X op k IH]; intros w0; [by rg_step..|]. rg_step. split; [done|]. apply IH. }
  eapply rg_mono; [apply Htop|]. intros r w1 _. unfold set_in_proc. rg_step. unfold perform; simpl.
  split; [done|]. rg_step. destruct r; cbn [of_result]; by rg_step.
Qed.

Lemma pending_NoDup w : sys_inv w → NoDup (pending_events (w_db w)).
Proof. intros (_ & Hwo & _). apply (NoDup_fmap_1 ob_id), (pending_events_NoDup _ Hwo). Qed.

Lemma relays_pending w w' e :
  sys_inv w' → relays w w' → e ∈ pending_events (w_db w') → e ∈ pending_events (w_db w).
Proof.
  intros (_ & Hwo & _) (Hp & _) He. destruct (pending_events_elem _ _ Hwo He) as (Hl & Hs & _).
  eapply pending_events_complete; [|exact Hs]. by apply Hp.
Qed.

Lemma pass_inv fs w : sys_inv w → sys_inv (final fs relay w).
Proof. intros Hinv. by apply (rg_final_trans _ _ _ _ _ fs (relay_rg w Hinv)). Qed.

(** A pass never adds to the backlog, and an undisturbed one works off a batch. *)
Lemma pass_backlog fs w :
  sys_inv w → p_relaying (w_proc w) = false →
  (backlog (final fs relay w) ≤ backlog w - (if clean fs then RELAY_BATCH else 0))%nat.
Proof.
  intros Hinv Hb. pose proof (pass_inv fs w Hinv) as Hinv'. pose proof (relay_relays fs w) as Hrel.
  assert (Hsub : pending_events (w_db (final fs relay w)) ⊆+
    drop (if clean fs then RELAY_BATCH else 0) (pending_events (w_db w))).
  { apply NoDup_submseteq; [by apply pending_NoDup|]. intros e He.
    pose proof (relays_pending _ _ _ Hinv' Hrel He) as Hin.
    destruct (clean fs) eqn:Hc; [|done].
    rewrite <- (take_drop RELAY_BATCH (pending_events (w_db w))) in Hin.
    apply elem_of_app in Hin as [Hin|Hin]; [exfalso|done].
    destruct (relay_exec w Hinv Hb) as (Hnd & Hel & Hexec).
    rewrite (proj2 (clean_run relay fs w Hc)), Hexec in He, Hinv'. simpl in He, Hinv'.
    destruct Hinv' as (_ & Hwo' & _). destruct (pending_events_elem _ _ Hwo' He) as (Hl & Hs & _). simpl in Hl.
    rewrite publish_all_lookup in Hl by done. destruct (list_find _ _) as [[k e']|] eqn:Hf; simplify_eq/=.
    apply list_find_None in Hf. by eapply Forall_forall in Hf. }
  unfold backlog. apply submseteq_length in Hsub. by rewrite length_drop in Hsub.
Qed.

Definition clean_passes (fss : list (list fault)) : nat := length (List.filter clean fss).

Lemma passes_spec fss w :
  sys_inv w → p_relaying (w_proc w) = false →
  let w' := relay_passes fss w in
  sys_inv w' ∧ evolve w w' ∧ relays w w' ∧ (backlog w' ≤ backlog w - RELAY_BATCH * clean_passes fss)%nat.
Proof.
  revert w. induction fss as [|fs fss IH]; intros w Hinv Hb; cbn [relay_passes].
  { split_and!; [done|reflexivity|reflexivity|]. unfold clean_passes. simpl. lia. }
  pose proof (pass_backlog fs w Hinv Hb) as Hlog.
  destruct (IH (final fs relay w) (pass_inv fs w Hinv) (relay_releases fs w Hb)) as (Hi & He & Hr & Hl).
  split_and!; [done| | |].
  - etrans; [|exact He]. exact (rg_final_trans _ _ _ _ _ fs (relay_rg w Hinv)).
  - etrans; [|exact Hr]. apply relay_relays.
  - unfold clean_passes in *. cbn [List.filter]. destruct (clean fs); cbn [length]; rewrite ?Nat.mul_succ_r; lia.
Qed.

(** A drained outbox: every event that was there has its job. *)
Lemma drained_job w w' i e :
  sys_inv w' → evolve w w' → backlog w' = 0 → d_outbox (w_db w) !! i = Some e →
  ∃ j, j ∈ w_queue w' ∧ job_data j = ob_payload e.
Proof.
  intros (_ & _ & _ & Hpub) (_ & _ & Hkept) Hz He. destruct (Hkept _ _ He) as (e' & He' & Hpay).
  destruct (ob_status e') eqn:Hs.
  - exfalso. pose proof (pending_events_complete _ _ _ He' Hs) as Hin. unfold backlog in Hz.
    apply nil_length_inv in Hz. rewrite Hz in Hin. set_solver.
  - destruct (Hpub _ _ He' Hs) as (j & Hj & Hd). exists j. by rewrite Hd.
Qed.
End passes.

(** The relay drains the outbox.  Let the relay run any number of times, each pass with
    its own faults.  Once the undisturbed passes among them, at [RELAY_BATCH] events each,
    suffice for the backlog, no event is PENDING and every event that was in the outbox has
    its job in the queue. *)
Theorem relay_drains `{!Externals} fss w :
  sys_inv w → p_relaying (w_proc w) = false → (backlog w ≤ RELAY_BATCH * clean_passes fss)%nat →
  backlog (relay_passes fss w) = 0 ∧
  ∀ i e, d_outbox (w_db w) !! i = Some e → ∃ j, j ∈ w_queue (relay_passes fss w) ∧ job_data j = ob_payload e.
Proof.
  intros Hinv Hb Hn. destruct (passes_spec fss w Hinv Hb) as (Hi & He & _ & Hl).
  assert (Hz : backlog (relay_passes fss w) = 0) by lia. split; [done|].
  intros i e Hev. by eapply drained_job.
Qed.

(** ** The whole way *)
Section delivery.
Context `{!Externals, !Gcm, !GcmLaws}.

Lemma process_exec ps job transfer c w :
  wf_transfers (d_transfers (w_db w)) →
  d_transfers (w_db w) !! tj_transferId (job_data job) = Some transfer →
  ft_status transfer ≠ TransferStatus.SUCCESS → ready ps transfer c w →
  exec (process ps job) w = (Ok tt, (exec (runTransfer ps job) w).2).
Proof.
  intros Hwf Hrow Hst Hrd. destruct (runTransfer_exec ps job transfer c w Hwf Hrow Hst Hrd) as (Hok & _).
  unfold process. rewrite exec_catch. destruct (exec (runTransfer ps job) w) as [r w']. simpl in Hok. by subst r.
Qed.

(** An ACCEPTED upload: its row and its event, in a world that satisfies the invariant. *)
Lemma accepted_stored ic carrier p w fs :
  sys_inv w → outcome fs (accept ic carrier p) w = Ok ACCEPTED →
  ∃ src t d', actionable ic p = Some src ∧ created (pending_input ic p src) carrier (w_db w) d' t ∧
    final fs (accept ic carrier p) w = set_db d' w ∧ sys_inv (set_db d' w).
Proof.
  intros Hinv Hout. destruct (actionable ic p) as [src|] eqn:Ha; last first.
  { unfold outcome in Hout. by rewrite accept_unfold, Ha in Hout. }
  pose proof (seq_run _ _ _ _ fs (accept_spec ic carrier p src w Ha)) as Hs. simpl in Hs. rewrite Hout in Hs.
  destruct Hs as (t & d' & Hc & ->). exists src, t, d'. split_and!; [done|done|done|].
  by apply (evolve_created _ _ _ _ _ Hc).
Qed.
End delivery.

(** C2: An accepted upload is delivered.  Let a webhook be answered ACCEPTED, under whatever
    faults, and let the relay run, under whatever faults, until its undisturbed passes
    suffice for the backlog.  Then the row of the upload is in the table as the payload
    describes it and a job for it is in the queue; and in a world that is ready for it, with
    encryption on or off, the worker processes that job without error, and every user who
    may see the row downloads the bytes of the source file. *)
Theorem accepted_upload_is_delivered `{!Externals, !Gcm, !GcmLaws} ic carrier p w fs fss :
  sys_inv w → p_relaying (w_proc w) = false →
  outcome fs (accept ic carrier p) w = Ok ACCEPTED →
  let w1 := final fs (accept ic carrier p) w in
  (backlog w1 ≤ RELAY_BATCH * clean_passes fss)%nat →
  let w2 := relay_passes fss w1 in
  ∃ src row j,
    resolveWithinRoot ic (wh_path p) = Some src ∧
    row = new_transfer (pending_input ic p src) (ft_id row) (d_now (w_db w)) ∧
    d_transfers (w_db w2) !! ft_id row = Some row ∧
    j ∈ w_queue w2 ∧ tj_transferId (job_data j) = ft_id row ∧
    ∀ ps c user network, ready ps row c w2 → may_see user row → (∀ b, concat (network b) = b) →
      let w3 := (exec (process ps j) w2).2 in
      (exec (process ps j) w2).1 = Ok tt ∧
      ∃ ct, exec (download (ps_crypto ps) network (ft_id row) user) w3 =
        (Ok (mkDownload (c, Ok tt) (ft_filename row) ct), w3).
Proof.
  intros Hinv Hb Hout w1 Hn w2.
  destruct (accepted_stored ic carrier p w fs Hinv Hout) as (src & t & d' & Ha & Hc & Hw1 & Hinv1).
  fold w1 in Hw1. rewrite <- Hw1 in Hinv1.
  assert (Hb1 : p_relaying (w_proc w1) = false) by (by rewrite Hw1).
  destruct (passes_spec fss w1 Hinv1 Hb1) as (Hi2 & He2 & (_ & Htr & _) & Hl). fold w2 in Hi2, He2, Htr, Hl.
  destruct Hc as (id & eid & -> & _ & _ & Ht & Ho & _).
  set (row := new_transfer (pending_input ic p src) id (d_now (w_db w))) in *.
  assert (Hz : backlog w2 = 0) by lia.
  destruct (drained_job w1 w2 eid (new_event row carrier eid (d_now (w_db w))) Hi2 He2 Hz) as (j & Hj & Hd).
  { rewrite Hw1. simpl. by rewrite Ho, lookup_insert_eq. }
  assert (Hid : tj_transferId (job_data j) = ft_id row) by (by rewrite Hd).
  assert (Hrow : d_transfers (w_db w2) !! ft_id row = Some row)
    by (rewrite Htr, Hw1; simpl; by rewrite Ht, lookup_insert_eq).
  exists src, row, j. split_and!; [|done|done|done|done|].
  { unfold actionable in Ha. by case_match. }
  intros ps c user network Hrd Hsee Hnet w3. destruct Hi2 as [Hwf _]. rewrite <- Hid in Hrow |- *.
  unfold w3. rewrite (process_exec ps j row c w2 Hwf Hrow) by done. split; [done|].
  by apply (download_after_run ps j row c w2 network user Hwf Hrow).
Qed.

(** ** Witnesses *)
Import Demo DemoCipher.

Lemma relay_drains_witness :
  backlog (relay_passes [[NoFault; FailBefore timeout_error]; []] one_event_world) = 0 ∧
  ∃ j, j ∈ w_queue (relay_passes [[NoFault; FailBefore timeout_error]; []] one_event_world) ∧
       job_data j = mkTransferJob "t1" [].
Proof.
  destruct (relay_drains [[NoFault; FailBefore timeout_error]; []] one_event_world one_event_inv eq_refl)
    as [Hz Hj].
  - vm_compute. lia.
  - split; [exact Hz|]. apply (Hj "e1" (mkOutboxEvent "e1" "t1" TRANSFER_JOB (mkTransferJob "t1" [])
      OutboxStatus.PENDING 0 500 None)). reflexivity.
Defined.

(** An empty orchestrator on whose volume the file of the demo payload lies. *)
Definition fresh_world : world :=
  set_s3 {["default" := ∅]} (set_fs {["/srv/sftpgo/data/alice/report.csv" := RegularFile [Byte.x61; Byte.x62]]}
    empty_world).

Lemma fresh_inv : sys_inv fresh_world.
Proof.
  split; [split; simpl; intros *; rewrite ?lookup_empty; done|].
  split_and!; intros i *; simpl; by rewrite lookup_empty.
Qed.

(** The relay's first pass fails, the second goes through. *)
Definition fresh_passes : list (list fault) := [[FailBefore timeout_error]; []].

Lemma fresh_ready ps id :
  ps ∈ [demo_config; sealing_config] →
  ready ps
    (new_transfer (pending_input demo_ingestion demo_payload "/srv/sftpgo/data/alice/report.csv") id 1000)
    [Byte.x61; Byte.x62]
    (relay_passes fresh_passes (final [] (accept demo_ingestion [] demo_payload) fresh_world)).
Proof.
  intros [<-|[<-|[]]]%list_elem_of_In; (split; try (vm_compute; reflexivity); try discriminate).
  - split_and!; [vm_compute; reflexivity|vm_compute; discriminate|vm_compute; reflexivity|discriminate].
  - intros _. eexists. vm_compute. reflexivity.
  - eexists. vm_compute. reflexivity.
  - split_and!; [vm_compute; reflexivity|vm_compute; discriminate|vm_compute; reflexivity|discriminate].
  - intros _. by exists DemoCipher.key.
  - intros _. eexists. vm_compute. reflexivity.
  - eexists. vm_compute. reflexivity.
Qed.

(** A worker without and one with encryption. *)
Lemma accepted_upload_is_delivered_witness :
  let w2 := relay_passes fresh_passes (final [] (accept demo_ingestion [] demo_payload) fresh_world) in
  ∃ id j, j ∈ w_queue w2 ∧ Forall (λ ps, (exec (process ps j) w2).1 = Ok tt ∧
    ∃ ct, (exec (download (ps_crypto ps) (λ b, [b]) id root_user) (exec (process ps j) w2).2).1 =
      Ok (mkDownload ([Byte.x61; Byte.x62], Ok tt) "report.csv" ct)) [demo_config; sealing_config].
Proof.
  intros w2.
  destruct (accepted_upload_is_delivered demo_ingestion [] demo_payload fresh_world [] fresh_passes)
    as (src & row & j & Hsrc & Hrow & _ & Hj & _ & Hall).
  - exact fresh_inv.
  - reflexivity.
  - vm_compute. reflexivity.
  - vm_compute. lia.
  - injection Hsrc as <-. exists (ft_id row), j. split; [exact Hj|].
    apply Forall_forall. intros ps Hps.
    destruct (Hall ps [Byte.x61; Byte.x62] root_user (λ b, [b])) as (Hok & ct & Hdl).
    + rewrite Hrow. exact (fresh_ready ps (ft_id row) Hps).
    + left. reflexivity.
    + intros b. simpl. apply app_nil_r.
    + split; [exact Hok|]. exists ct. fold w2 in Hdl. rewrite Hdl. rewrite Hrow. reflexivity.
Defined.
