(* ===== verification/Recovery.v ===== *)
(** * Recovery and retention ([ingestion/recovery.service.ts], [ingestion/retention.service.ts])

    The sweep that re-drives transfers abandoned by a crash, and the daily purge of old
    terminal rows. *)
From S2P Require Import Prelude JsLang Entities Database Prog World Repository Outbox.
From S2P Require Import Routing Storage Crypto Pipeline Events Quota Processor Transfers.

Record RecoveryConfig := mkRecoveryConfig {
  rv_enabled : bool;
  rv_staleMs : Z;
  rv_batchSize : Z;
  rv_maxAttempts : Z;
}.

Definition exhausted_note (attempts : Z) : string :=
  "Recovered after interruption but retries (" +:+ number_to_string attempts +:+ ") already exhausted".

Definition recover (rv : RecoveryConfig) (transfer : FileTransfer) : P unit :=
  if (rv_maxAttempts rv <=? ft_attempts transfer)%Z
  then markFailed (ft_id transfer) (exhausted_note (ft_attempts transfer))
  else call (QueueAdd (retry_job (rv_maxAttempts rv) (ft_id transfer))).

Definition sweep (rv : RecoveryConfig) : P unit :=
  if negb (rv_enabled rv) then Ret tt
  else
    busy <- in_proc (λ p, (p_running p, set_running true p)) ;;
    if (busy : bool) then Ret tt
    else
      finally_
        (catch_ (now <- call Now ;;
                 stuck <- findStuck (now - rv_staleMs rv) (rv_batchSize rv) ;;
                 for_each stuck (recover rv))
                (λ _, Ret tt))
        (set_in_proc (set_running false)).

Definition MS_PER_DAY : Z := 24 * 60 * 60 * 1000.

Definition purge (retentionDays : Z) : P unit :=
  if (retentionDays <=? 0)%Z then Ret tt
  else
    now <- call Now ;;
    deleteTerminalOlderThan (now - retentionDays * MS_PER_DAY) ;;; Ret tt.

(** ** The sweep without failures *)
Definition stuck_rows (d : db) (rv : RecoveryConfig) : list FileTransfer :=
  take (Z.to_nat (rv_batchSize rv))
    (isort by_updatedAt (List.filter (stuck_where (d_now d - rv_staleMs rv)) (visible_transfers d))).

Definition hopeless (rv : RecoveryConfig) (r : FileTransfer) : bool := (rv_maxAttempts rv <=? ft_attempts r)%Z.

Definition recovered_row (rv : RecoveryConfig) (now : Z) (r : FileTransfer) : FileTransfer :=
  touch now (upd_lifecycle TransferStatus.FAILED (ft_attempts r) (Some (exhausted_note (ft_attempts r))) r).

Definition fail_all (rv : RecoveryConfig) (now : Z) (l : list FileTransfer)
    (m : gmap string FileTransfer) : gmap string FileTransfer :=
  foldl (λ m r, if hopeless rv r then <[ft_id r := recovered_row rv now r]> m else m) m l.

Section sweeping.
Context `{!Externals}.

Lemma sweep_loop_exec rv l w :
  d_tenant (w_db w) = None → NoDup (map ft_id l) →
  (∀ r, r ∈ l → d_transfers (w_db w) !! ft_id r = Some r ∧
     (hopeless rv r = true → check_transfer (recovered_row rv (d_now (w_db w)) r) = Ok tt)) →
  exec (for_each l (recover rv)) w =
    (Ok tt, set_db (set_transfers (fail_all rv (d_now (w_db w)) l (d_transfers (w_db w))) (w_db w))
              (set_queue (w_queue w ++ map (λ r, retry_job (rv_maxAttempts rv) (ft_id r))
                            (List.filter (λ r, negb (hopeless rv r)) l)) w)).
Proof.
  revert w. induction l as [|r l IH]; intros w Ht Hnd Hl.
  { simpl. rewrite app_nil_r. by destruct w as [[]]. }
  inversion_clear Hnd as [|? ? Hni Hnd']. destruct (Hl r) as [Hr Hc]; [set_solver|].
  simpl. rewrite exec_bind. unfold recover at 1. fold (hopeless rv r).
  assert (Hother : ∀ r', r' ∈ l → ft_id r' ≠ ft_id r).
  { intros r' Hin Heq. apply Hni. rewrite <- Heq. by apply list_elem_of_fmap_2. }
  destruct (hopeless rv r) eqn:Hh; simpl.
  - unfold markFailed. rewrite (update_exec _ (λ r0, upd_lifecycle TransferStatus.FAILED (ft_attempts r0)
      (Some (exhausted_note (ft_attempts r))) r0) w r Hr Ht (Hc eq_refl)).
    rewrite IH; [by destruct w as [[]]|done|done|].
    intros r' Hin. destruct (Hl r') as [Hr' Hc']; [set_solver|]. split; [|done]. simpl.
    rewrite lookup_insert_ne; [done|]. intros Heq. by apply (Hother r').
  - rewrite ?exec_call. simpl. rewrite IH; [|done|done|].
    + simpl. rewrite <- app_assoc. by destruct w as [[]].
    + intros r' Hin. destruct (Hl r') as [Hr' Hc']; [set_solver|]. done.
Qed.

Lemma stuck_rows_spec d rv r :
  wf_transfers (d_transfers d) → r ∈ stuck_rows d rv →
  d_transfers d !! ft_id r = Some r ∧ TransferStatus.terminal (ft_status r) = false ∧
  (ft_updatedAt r < d_now d - rv_staleMs rv)%Z.
Proof.
  intros Hwf Hr%subseteq_take. rewrite elem_of_isort, list_elem_of_In, filter_In, <- list_elem_of_In,
    elem_of_visible in Hr. destruct Hr as [[[id Hid] _] Hw]. unfold stuck_where in Hw.
  apply andb_true_iff in Hw as [Hs Hu%Z.ltb_lt]. rewrite (wf_ids _ Hwf _ _ Hid).
  split_and!; [done| |done]. apply orb_true_iff in Hs as [Hs%bool_decide_eq_true|Hs%bool_decide_eq_true]; by rewrite Hs.
Qed.

(** A stuck row that is not among them: there are as many as the batch holds, none younger. *)
Lemma stuck_rows_oldest d rv id r :
  d_tenant d = None → d_transfers d !! id = Some r → TransferStatus.terminal (ft_status r) = false →
  (ft_updatedAt r < d_now d - rv_staleMs rv)%Z →
  r ∈ stuck_rows d rv ∨
  length (stuck_rows d rv) = Z.to_nat (rv_batchSize rv) ∧
  ∀ s, s ∈ stuck_rows d rv → (ft_updatedAt s ≤ ft_updatedAt r)%Z.
Proof.
  intros Ht Hr Hop Hold. unfold stuck_rows.
  set (l := isort by_updatedAt (List.filter (stuck_where (d_now d - rv_staleMs rv)) (visible_transfers d))).
  set (n := Z.to_nat (rv_batchSize rv)).
  assert (Hin : r ∈ l).
  { unfold l. rewrite elem_of_isort, list_elem_of_In, filter_In, <- list_elem_of_In, elem_of_visible.
    split; [split; [by exists id|]|].
    - unfold tenant_isolation. rewrite Ht. apply orb_true_r.
    - unfold stuck_where. apply andb_true_iff. split; [|by apply Z.ltb_lt].
      destruct (ft_status r); try done; by rewrite !bool_decide_true. }
  rewrite <- (take_drop n l) in Hin. apply elem_of_app in Hin as [Hin|Hin]; [by left|right]. split.
  - rewrite length_take. assert (Hd : length (drop n l) ≠ 0%nat)
      by (intros Hd%nil_length_inv; rewrite Hd in Hin; by apply not_elem_of_nil in Hin).
    rewrite length_drop in Hd. lia.
  - intros s Hs. assert (Hsort : StronglySorted (λ a b, (ft_updatedAt a ≤ ft_updatedAt b)%Z) l) by apply isort_StronglySorted.
    rewrite <- (take_drop n l) in Hsort. by apply (StronglySorted_app_1_elem_of _ _ _ _ _ Hsort).
Qed.

Lemma stuck_rows_NoDup d rv : wf_transfers (d_transfers d) → NoDup (map ft_id (stuck_rows d rv)).
Proof.
  intros Hwf. unfold stuck_rows. rewrite <- firstn_map. eapply sublist_NoDup; [|apply sublist_take].
  rewrite (isort_perm _ _). unfold visible_transfers.
  assert (H1 : NoDup (map ft_id (map snd (map_to_list (d_transfers d))))).
  { rewrite map_map. erewrite map_ext_in; [apply NoDup_fst_map_to_list|].
    intros [i r] Hin%list_elem_of_In%elem_of_map_to_list. simpl. by apply (wf_ids _ Hwf). }
  eapply sublist_NoDup; [exact H1|]. clear H1.
  induction (map snd (map_to_list (d_transfers d))) as [|r l IH]; simpl; [constructor|].
  destruct (tenant_isolation d r); simpl; [|by constructor].
  destruct (stuck_where _ r); simpl; by constructor.
Qed.

Lemma fail_all_other rv now l m id :
  id ∉ map ft_id l → fail_all rv now l m !! id = m !! id.
Proof.
  revert m. induction l as [|y l IH]; intros m Hni; [done|]. unfold fail_all in *. simpl.
  rewrite IH by set_solver. destruct (hopeless rv y); [|done].
  rewrite lookup_insert_ne; [done|]. set_solver.
Qed.

Lemma fail_all_lookup rv now l m r :
  NoDup (map ft_id l) → m !! ft_id r = Some r →
  (∀ r', r' ∈ l → m !! ft_id r' = Some r') →
  fail_all rv now l m !! ft_id r =
    Some (if bool_decide (r ∈ l) && hopeless rv r then recovered_row rv now r else r).
Proof.
  revert m. induction l as [|x l IH]; intros m Hnd Hm Hl; [done|].
  inversion_clear Hnd as [|? ? Hni Hnd'].
  change (fail_all rv now (x :: l) m) with
    (fail_all rv now l (if hopeless rv x then <[ft_id x := recovered_row rv now x]> m else m)).
  destruct (decide (ft_id x = ft_id r)) as [Heq|Hne].
  - assert (Hx : m !! ft_id x = Some x) by (apply Hl; set_solver). rewrite Heq, Hm in Hx. simplify_eq.
    rewrite fail_all_other by done. rewrite bool_decide_eq_true_2 by set_solver. simpl.
    destruct (hopeless rv x); [by rewrite lookup_insert_eq|done].
  - rewrite IH; [|done| |].
    + assert (Hb : bool_decide (r ∈ x :: l) = bool_decide (r ∈ l)) by (apply bool_decide_ext; set_solver).
      by rewrite Hb.
    + destruct (hopeless rv x); [|done]. by rewrite lookup_insert_ne.
    + intros r' Hr'. destruct (hopeless rv x); [|apply Hl; set_solver].
      rewrite lookup_insert_ne; [apply Hl; set_solver|]. intros Heq. apply Hni. rewrite Heq.
      by apply list_elem_of_fmap_2.
Qed.

(** A sweep without failures, as one step. *)
Definition swept (rv : RecoveryConfig) (w : world) : world :=
  set_proc (set_running false (set_running true (w_proc w)))
    (set_db (set_transfers (fail_all rv (d_now (w_db w)) (stuck_rows (w_db w) rv) (d_transfers (w_db w))) (w_db w))
      (set_queue (w_queue w ++ map (λ r, retry_job (rv_maxAttempts rv) (ft_id r))
         (List.filter (λ r, negb (hopeless rv r)) (stuck_rows (w_db w) rv))) w)).

Lemma sweep_exec rv w :
  wf_transfers (d_transfers (w_db w)) → d_tenant (w_db w) = None →
  rv_enabled rv = true → p_running (w_proc w) = false →
  (∀ r, r ∈ stuck_rows (w_db w) rv → hopeless rv r = true →
     check_transfer (recovered_row rv (d_now (w_db w)) r) = Ok tt) →
  exec (sweep rv) w = (Ok tt, swept rv w).
Proof.
  intros Hwf Ht Hen Hrun Hchk. unfold sweep, swept. rewrite Hen. simpl. unfold in_proc, set_in_proc, findStuck, sql.
  rewrite exec_bind, exec_call. simpl. rewrite Hrun. rewrite exec_finally, exec_catch, exec_bind, exec_call. simpl.
  rewrite exec_bind, exec_call. simpl.
  change (take (Z.to_nat (rv_batchSize rv)) (drop 0 ?l)) with (take (Z.to_nat (rv_batchSize rv)) l).
  change (take (Z.to_nat (rv_batchSize rv)) (isort by_updatedAt (List.filter
    (stuck_where (d_now (w_db w) - rv_staleMs rv)) (visible_transfers (w_db w))))) with (stuck_rows (w_db w) rv).
  rewrite sweep_loop_exec; [by destruct w as [[]]|done|by apply stuck_rows_NoDup|].
  intros r Hr. split; [|by apply Hchk]. by apply (stuck_rows_spec _ rv r Hwf Hr).
Qed.

Lemma fail_all_none rv now l m : forallb (λ r, negb (hopeless rv r)) l = true → fail_all rv now l m = m.
Proof.
  unfold fail_all. revert m. induction l as [|r l IH]; intros m; [done|]. simpl.
  intros [Hr Hl]%andb_prop. destruct (hopeless rv r); [done|]. auto.
Qed.
End sweeping.

(** C31: The sweep re-drives what is stuck.  When it is enabled, no other sweep of the process
    runs and nothing fails, it returns and releases its flag; of the oldest [batchSize] rows
    that are PENDING or PROCESSING and were not touched for [staleMs], those whose attempts
    are used up become FAILED and each of the others gets one job with the configured
    attempts; every other row is unchanged, and nothing is sent to the dead-letter queue or
    to subscribers.  A stuck row is left out only when the batch is full of rows that are at
    least as old. *)
Theorem sweep_redrives `{!Externals} rv w :
  wf_transfers (d_transfers (w_db w)) → d_tenant (w_db w) = None →
  rv_enabled rv = true → p_running (w_proc w) = false →
  (∀ r, r ∈ stuck_rows (w_db w) rv → hopeless rv r = true →
     check_transfer (recovered_row rv (d_now (w_db w)) r) = Ok tt) →
  let w' := (exec (sweep rv) w).2 in
  let stuck := stuck_rows (w_db w) rv in
  (exec (sweep rv) w).1 = Ok tt ∧ p_running (w_proc w') = false ∧
  w_queue w' = w_queue w ++ map (λ r, retry_job (rv_maxAttempts rv) (ft_id r))
                              (List.filter (λ r, negb (hopeless rv r)) stuck) ∧
  (∀ id r, d_transfers (w_db w) !! id = Some r → d_transfers (w_db w') !! id =
     Some (if bool_decide (r ∈ stuck) && hopeless rv r then recovered_row rv (d_now (w_db w)) r else r)) ∧
  w_dlq w' = w_dlq w ∧ w_deliveries w' = w_deliveries w ∧
  (∀ r, r ∈ stuck → TransferStatus.terminal (ft_status r) = false ∧
     (ft_updatedAt r < d_now (w_db w) - rv_staleMs rv)%Z) ∧
  (∀ id r, d_transfers (w_db w) !! id = Some r → TransferStatus.terminal (ft_status r) = false →
     (ft_updatedAt r < d_now (w_db w) - rv_staleMs rv)%Z →
     r ∈ stuck ∨ length stuck = Z.to_nat (rv_batchSize rv) ∧ ∀ s, s ∈ stuck → (ft_updatedAt s ≤ ft_updatedAt r)%Z).
Proof.
  intros Hwf Ht Hen Hrun Hchk.
  assert (Hspec : ∀ r, r ∈ stuck_rows (w_db w) rv → d_transfers (w_db w) !! ft_id r = Some r ∧
    TransferStatus.terminal (ft_status r) = false ∧ (ft_updatedAt r < d_now (w_db w) - rv_staleMs rv)%Z)
    by (intros r; by apply stuck_rows_spec).
  rewrite (sweep_exec rv w Hwf Ht Hen Hrun Hchk). cbn [fst snd w_proc w_queue w_db w_dlq w_deliveries set_proc set_db set_queue].
  split_and!; [done|done|done| |done|done|by intros r Hr; apply (Hspec r Hr)|by intros id r; apply stuck_rows_oldest].
  intros id r Hr. simpl. rewrite <- (wf_ids _ Hwf _ _ Hr). apply fail_all_lookup.
  - by apply stuck_rows_NoDup.
  - by rewrite (wf_ids _ Hwf _ _ Hr).
  - intros r' Hr'. by apply Hspec.
Qed.

(** A row that is re-queued is not touched.  While no worker takes them, every sweep finds
    the same rows: each gets another job, and rows beyond the batch are not reached. *)
Theorem sweep_requeues_again `{!Externals} rv w :
  wf_transfers (d_transfers (w_db w)) → d_tenant (w_db w) = None →
  rv_enabled rv = true → p_running (w_proc w) = false →
  forallb (λ r, negb (hopeless rv r)) (stuck_rows (w_db w) rv) = true →
  let jobs := map (λ r, retry_job (rv_maxAttempts rv) (ft_id r)) (stuck_rows (w_db w) rv) in
  let w1 := (exec (sweep rv) w).2 in
  let w2 := (exec (sweep rv) w1).2 in
  stuck_rows (w_db w1) rv = stuck_rows (w_db w) rv ∧ w_queue w2 = w_queue w ++ jobs ++ jobs.
Proof.
  intros Hwf Ht Hen Hrun Hall jobs w1 w2.
  assert (Hno : ∀ r, r ∈ stuck_rows (w_db w) rv → hopeless rv r = true → False).
  { intros r Hr Hh. rewrite forallb_forall in Hall. specialize (Hall r (proj1 (list_elem_of_In _ _) Hr)).
    by rewrite Hh in Hall. }
  assert (Hf : List.filter (λ r, negb (hopeless rv r)) (stuck_rows (w_db w) rv) = stuck_rows (w_db w) rv).
  { clear -Hall. induction (stuck_rows (w_db w) rv) as [|r l IH]; [done|]. simpl in *.
    apply andb_prop in Hall as [-> Hl]. by rewrite IH. }
  assert (H1 : w1 = swept rv w) by (unfold w1; rewrite sweep_exec; [done..|]; intros r Hr Hh; by destruct (Hno r Hr Hh)).
  assert (Hdb : w_db w1 = w_db w) by (rewrite H1; simpl; rewrite fail_all_none by done; by destruct w as [[]]).
  split; [by rewrite Hdb|]. unfold w2. rewrite sweep_exec; rewrite ?Hdb; try done; [|by rewrite H1|].
  - simpl. rewrite Hdb, Hf, H1. simpl. rewrite Hf. by rewrite <- app_assoc.
  - intros r Hr Hh. by destruct (Hno r Hr Hh).
Qed.

(** The purge removes old terminal rows only.  With retention on, [purge] removes
    exactly the SUCCESS and FAILED rows last touched before the cutoff; PENDING and
    PROCESSING rows, and the outbox, are never touched; with retention off it does
    nothing. *)
Theorem purge_removes_old_terminal `{!Externals} days w :
  d_tenant (w_db w) = None →
  let w' := (exec (purge days) w).2 in
  (exec (purge days) w).1 = Ok tt ∧ d_outbox (w_db w') = d_outbox (w_db w) ∧
  ∀ id r, d_transfers (w_db w') !! id = Some r ↔
    d_transfers (w_db w) !! id = Some r ∧
    ((0 < days)%Z → TransferStatus.terminal (ft_status r) = true →
       (d_now (w_db w) - days * MS_PER_DAY ≤ ft_updatedAt r)%Z).
Proof.
  intros Ht. unfold purge. destruct (Z.leb_spec days 0) as [Hd|Hd].
  { split_and!; [done|done|]. intros id r. simpl. split; [|tauto]. intros Hr. split; [done|]. lia. }
  unfold deleteTerminalOlderThan, sql. rewrite exec_bind, exec_call. simpl.
  split_and!; [done|done|]. intros id r. rewrite map_lookup_filter_Some. simpl.
  assert (Hv : tenant_isolation (w_db w) r = true)
    by (unfold tenant_isolation; rewrite Ht; apply orb_true_r).
  rewrite Hv. simpl. unfold purge_where.
  destruct (Z.ltb_spec (ft_updatedAt r) (d_now (w_db w) - days * MS_PER_DAY)) as [Hlt|Hge];
    rewrite ?andb_true_r, ?andb_false_r.
  - split; intros [Hr Hc]; (split; [done|]).
    + intros _ Hterm. exfalso. by destruct (ft_status r).
    + specialize (Hc Hd). destruct (ft_status r); simpl in *; try done; specialize (Hc eq_refl); lia.
  - split; intros [Hr Hc]; (split; [done|]); done.
Qed.

Import Demo DemoCipher.

Definition demo_recovery : RecoveryConfig := mkRecoveryConfig true 100 10 3.

Lemma demo_stuck : stuck_rows (w_db demo_world) demo_recovery = [demo_row].
Proof. vm_compute. reflexivity. Qed.

Lemma sweep_redrives_witness :
  w_queue (exec (sweep demo_recovery) demo_world).2 = [retry_job 3 "t1"].
Proof.
  destruct (sweep_redrives demo_recovery demo_world demo_row_wf eq_refl eq_refl eq_refl) as (_ & _ & Hq & _).
  - rewrite demo_stuck. intros r Hr Hh. apply list_elem_of_singleton in Hr. subst r. reflexivity.
  - rewrite Hq, demo_stuck. reflexivity.
Defined.

Lemma purge_removes_old_terminal_witness :
  d_transfers (w_db (exec (purge 1) demo_world).2) !! "t1" = Some demo_row.
Proof.
  apply (purge_removes_old_terminal 1 demo_world eq_refl). split; [reflexivity|discriminate].
Defined.

Lemma sweep_requeues_again_witness :
  w_queue (exec (sweep demo_recovery) (exec (sweep demo_recovery) demo_world).2).2 = [retry_job 3 "t1"; retry_job 3 "t1"].
Proof.
  destruct (sweep_requeues_again demo_recovery demo_world demo_row_wf eq_refl eq_refl eq_refl) as [_ Hq].
  - rewrite demo_stuck. reflexivity.
  - rewrite Hq, demo_stuck. reflexivity.
Defined.
