(* ===== verification/Auth.v ===== *)
(** * Accounts, tokens and guards ([auth/], [ingestion/guards/webhook-auth.guard.ts])

    [createUser] and the bootstrap seed write accounts, [login] exchanges a password
    for a signed token, [validate] turns the payload of a verified token into the
    principal of a request, [RolesGuard] compares its roles with those a handler
    requires, [WebhookAuthGuard] compares a shared secret.

    bcrypt and jsonwebtoken are libraries: they are the fields of [Credentials], and
    [CredentialLaws] is what their documentation promises. *)
From S2P Require Import Prelude JsLang Entities Database Prog World Outbox.

Record JwtPayload := mkPayload {
  jp_sub : string;
  jp_username : string;
  jp_roles : list Role;
  jp_tenantId : string;
}.

Class Credentials := {
  bcrypt_hash : string → bytes → string;        (** password, salt *)
  bcrypt_compare : string → string → bool;      (** password, hash *)
  jwt_sign : string → string → Z → JwtPayload → string;  (** secret, expiresIn, now *)
  jwt_verify : string → Z → string → option JwtPayload;  (** secret, now, token *)
  jwt_lifetime : string → Z;                    (** [expiresIn] in seconds *)
}.

Class CredentialLaws `{!Credentials} : Prop := {
  bcrypt_complete p salt : bcrypt_compare p (bcrypt_hash p salt) = true;
  bcrypt_text p salt : pg_text (bcrypt_hash p salt) = true;
  bcrypt_length p salt : varchar 255 (bcrypt_hash p salt) = true;
  (** [iat], [exp] and the clock are compared in whole seconds. *)
  jwt_complete secret exp issued now p :
    (issued ≤ now)%Z → (now / 1000 < issued / 1000 + jwt_lifetime exp)%Z →
    jwt_verify secret now (jwt_sign secret exp issued p) = Some p;
}.

(** ** The users table

    A [simple-array] is written with [join(',')] and read with [split(',')], the empty
    text as the empty array.  A stored name that is no [Role] equals none of them and
    is left out. *)
Definition comma : string := ",".
Definition roles_to_db (l : list Role) : string := join comma (map role_name l).

Definition role_of_name (s : string) : option Role :=
  if String.eqb s "admin" then Some ADMIN
  else if String.eqb s "operator" then Some OPERATOR
  else if String.eqb s "viewer" then Some VIEWER
  else None.

Definition roles_from_db (s : string) : list Role :=
  if String.eqb s "" then [] else omap role_of_name (split_char ","%char s).

Definition users_list (d : db) : list User := map snd (map_to_list (d_users d)).

(** [findOne({ where: { username } })] *)
Definition find_user (username : string) : dbM (option User) := λ d,
  if negb (pg_text username) then (Err invalid_byte_sequence, d)
  else (Ok (List.find (λ u, String.eqb (u_username u) username) (users_list d)), d).

Definition count_users : dbM nat := λ d, (Ok (length (users_list d)), d).

(** [save] of a new entity: the columns of [CreateUsers] and [AddTenancyRls], the
    primary key and [uq_users_username]. *)
Definition insert_user (mk : string → Z → User) : dbM User := λ d,
  let id := d_uuid d (d_uuid_pos d) in
  let u := mk id (d_now d) in
  if negb (pg_text (u_username u) && pg_text (u_passwordHash u) && pg_text (u_tenantId u))
  then (Err invalid_byte_sequence, d)
  else if negb (varchar 255 (u_username u) && varchar 255 (u_passwordHash u)
                && varchar 100 (u_tenantId u))
  then (Err string_truncation, d)
  else if bool_decide (is_Some (d_users d !! id))
          || existsb (λ v, String.eqb (u_username v) (u_username u)) (users_list d)
  then (Err unique_violation, d)
  else (Ok u, set_users (<[id := u]> (d_users d)) (set_uuid_pos (S (d_uuid_pos d)) d)).

(** ** The service *)
Record AuthConfig := mkAuthConfig {
  ac_jwtSecret : string;
  ac_jwtExpiresIn : string;
  ac_adminUsername : string;
  ac_adminPassword : string;
  ac_defaultTenant : string;
}.

Record LoginResult := mkLogin {
  lr_access_token : string;
  lr_token_type : string;
  lr_expires_in : string;
  lr_roles : list Role;
}.

Record CreateUserDto := mkCreateUser {
  cu_username : string;
  cu_password : string;
  cu_roles : list Role;
  cu_tenantId : option string;
}.

Record CreatedUser := mkCreated {
  cr_id : string;
  cr_username : string;
  cr_roles : list Role;
  cr_tenantId : string;
}.

(** [@IsNotEmpty], [@MinLength(8)], [@ArrayNotEmpty]; [@IsEnum] is the type. *)
Definition create_user_valid (dto : CreateUserDto) : bool :=
  negb (String.eqb (cu_username dto) "") && (8 <=? String.length (cu_password dto))%nat
  && negb (bool_decide (cu_roles dto = [])).

Record LoginDto := mkLoginDto { ld_username : string; ld_password : string }.

Definition login_valid (dto : LoginDto) : bool :=
  negb (String.eqb (ld_username dto) "") && negb (String.eqb (ld_password dto) "").

(** The default of the column [tenant_id]. *)
Definition TENANT_COLUMN_DEFAULT : string := "default".

Section service.
Context `{!Externals, !Credentials}.

(** [bcrypt.hash(password, BCRYPT_ROUNDS)] draws its own salt of 16 bytes. *)
Definition hash_password (password : string) : P string :=
  salt <- call (RandomBytes 16) ;; Ret (bcrypt_hash password salt).

Definition seed_admin (ac : AuthConfig) : P unit :=
  n <- sql count_users ;;
  if (0 <? n)%nat then Ret tt
  else
    passwordHash <- hash_password (ac_adminPassword ac) ;;
    sql (insert_user (λ id now, mkUser id (ac_adminUsername ac) passwordHash TENANT_COLUMN_DEFAULT
                                  (roles_to_db [ADMIN]) now now)) ;;;
    Ret tt.

Definition validateUser (username password : string) : P (option AuthUser) :=
  user <- sql (find_user username) ;;
  match user with
  | None => Ret None
  | Some u =>
      if bcrypt_compare password (u_passwordHash u)
      then Ret (Some (mkAuthUser (u_id u) (u_username u) (roles_from_db (u_roles u)) (u_tenantId u)))
      else Ret None
  end.

Definition login (ac : AuthConfig) (username password : string) : P LoginResult :=
  user <- validateUser username password ;;
  match user with
  | None => Throw (HttpError 401 "Invalid credentials")
  | Some u =>
      now <- call Now ;;
      let token := jwt_sign (ac_jwtSecret ac) (ac_jwtExpiresIn ac) now
                     (mkPayload (au_userId u) (au_username u) (au_roles u) (au_tenantId u)) in
      Ret (mkLogin token "Bearer" (ac_jwtExpiresIn ac) (au_roles u))
  end.

Definition user_exists (username : string) : string := "User " +:+ String (Ascii.ascii_of_nat 34)
  (username +:+ String (Ascii.ascii_of_nat 34) " already exists").

Definition createUser (ac : AuthConfig) (input : CreateUserDto) : P CreatedUser :=
  existing <- sql (find_user (cu_username input)) ;;
  match existing with
  | Some _ => Throw (HttpError 409 (user_exists (cu_username input)))
  | None =>
      passwordHash <- hash_password (cu_password input) ;;
      let tenant := nullish (cu_tenantId input) (ac_defaultTenant ac) in
      user <- sql (insert_user (λ id now,
                mkUser id (cu_username input) passwordHash tenant (roles_to_db (cu_roles input)) now now)) ;;
      Ret (mkCreated (u_id user) (u_username user) (cu_roles input) (u_tenantId user))
  end.

(** ** Guards *)

(** [JwtStrategy.validate] *)
Definition validate (payload : JwtPayload) : AuthUser :=
  mkAuthUser (jp_sub payload) (jp_username payload) (jp_roles payload) (jp_tenantId payload).

(** [JwtAuthGuard]: the token of the [Authorization] header, its signature and its
    expiry; [ignoreExpiration] is false. *)
Definition jwt_guard (ac : AuthConfig) (now : Z) (bearer : option string) : option AuthUser :=
  token ← bearer; validate <$> jwt_verify (ac_jwtSecret ac) now token.

Definition roles_guard (required : list Role) (user : option AuthUser) : result unit :=
  if bool_decide (required = []) then Ok tt
  else
    let roles := match user with Some u => au_roles u | None => [] end in
    if negb (existsb (λ r, bool_decide (r ∈ roles)) required)
    then Err (HttpError 403 ("Requires one of roles: " +:+ join ", " (map role_name required)))
    else Ok tt.

(** [timingSafeEqual] is equality of the bytes. *)
Definition secret_matches (secret provided : string) : bool :=
  let a := utf8 provided in
  let b := utf8 secret in
  if negb (length a =? length b)%nat then false else bool_decide (a = b).

Definition webhook_guard (secret : string) (headerToken queryToken : option string) : result unit :=
  let provided := match headerToken with Some t => Some t | None => queryToken end in
  match provided with
  | Some t =>
      if String.eqb t "" || negb (secret_matches secret t)
      then Err (HttpError 401 "Invalid webhook token") else Ok tt
  | None => Err (HttpError 401 "Invalid webhook token")
  end.
End service.

(** ** Facts *)
Lemma role_name_plain r : no_char ","%char (role_name r) = true.
Proof. by destruct r. Qed.

Lemma role_of_role_name r : role_of_name (role_name r) = Some r.
Proof. by destruct r. Qed.

(** What a role list is written as is read back as the same list. *)
Lemma roles_roundtrip l : roles_from_db (roles_to_db l) = l.
Proof.
  unfold roles_from_db, roles_to_db. destruct l as [|r l]; [done|].
  assert (Hs : split_char ","%char (join comma (map role_name (r :: l))) = map role_name (r :: l)).
  { apply (split_join ","%char); [done|]. apply Forall_forall.
    intros s (x & -> & _)%list_elem_of_fmap. apply role_name_plain. }
  destruct (String.eqb_spec (join comma (map role_name (r :: l))) "") as [E|_].
  - rewrite E in Hs. destruct r, l; discriminate Hs.
  - rewrite Hs. clear Hs. induction (r :: l) as [|x k IH]; [done|].
    change (omap role_of_name (map role_name (x :: k)))
      with (match role_of_name (role_name x) with
            | Some y => y :: omap role_of_name (map role_name k)
            | None => omap role_of_name (map role_name k)
            end). by rewrite role_of_role_name, IH.
Qed.

(** The constant-time comparison decides equality of the strings. *)
Lemma secret_matches_spec secret provided : secret_matches secret provided = true ↔ provided = secret.
Proof.
  unfold secret_matches. split.
  - destruct (negb _); [done|]. intros H%bool_decide_eq_true. by apply utf8_inj.
  - intros ->. rewrite Nat.eqb_refl. simpl. by apply bool_decide_eq_true.
Qed.

Lemma roles_guard_ok required user :
  roles_guard required user = Ok tt →
  required = [] ∨ ∃ u r, user = Some u ∧ r ∈ required ∧ r ∈ au_roles u.
Proof.
  unfold roles_guard. case_bool_decide as Hr; [by left|].
  destruct (existsb _ required) eqn:Hex; [|done]. intros _. right.
  apply existsb_exists in Hex as (r & Hin%list_elem_of_In & Hb%bool_decide_eq_true).
  destruct user as [u|]; [eauto|]. by apply not_elem_of_nil in Hb.
Qed.

(** The table is keyed by id and no two rows share a username. *)
Definition wf_users (m : gmap string User) : Prop :=
  (∀ id u, m !! id = Some u → u_id u = id) ∧
  (∀ i j u v, m !! i = Some u → m !! j = Some v → u_username u = u_username v → i = j).

Lemma users_list_spec d u : u ∈ users_list d ↔ ∃ id, d_users d !! id = Some u.
Proof.
  unfold users_list. rewrite list_elem_of_fmap. split.
  - intros ([id v] & -> & H%elem_of_map_to_list). eauto.
  - intros (id & H). exists (id, u). by rewrite elem_of_map_to_list.
Qed.

Lemma find_user_exec username d :
  (find_user username d).2 = d ∧
  match (find_user username d).1 with
  | Ok (Some u) => u_username u = username ∧ ∃ id, d_users d !! id = Some u
  | _ => True
  end.
Proof.
  unfold find_user. destruct (negb _); [done|]. simpl. split; [done|].
  destruct (List.find _ _) as [u|] eqn:Hf; [|done].
  apply List.find_some in Hf as [Hin%list_elem_of_In He%String.eqb_eq].
  by apply users_list_spec in Hin.
Qed.

(** [INSERT] succeeds for a new username only, and then adds exactly that row. *)
Lemma insert_user_spec mk d u :
  (insert_user mk d).1 = Ok u →
  u = mk (d_uuid d (d_uuid_pos d)) (d_now d) ∧
  d_users (insert_user mk d).2 = <[d_uuid d (d_uuid_pos d) := u]> (d_users d) ∧
  d_users d !! d_uuid d (d_uuid_pos d) = None ∧
  (∀ id v, d_users d !! id = Some v → u_username v ≠ u_username u) ∧
  pg_text (u_username u) = true.
Proof.
  unfold insert_user. set (id := d_uuid d (d_uuid_pos d)). set (r := mk id (d_now d)).
  destruct (negb (pg_text _ && _ && _)) eqn:Ht; [done|].
  destruct (negb (varchar _ _ && _ && _)) eqn:Hv; [done|].
  case_bool_decide as Hid; [done|]. simpl.
  destruct (existsb _ _) eqn:Hex; [done|]. intros [= <-]. split_and!; [done|done|by apply eq_None_not_Some|..].
  - intros i v Hi He. apply not_true_iff_false in Hex. apply Hex. apply existsb_exists.
    exists v. split; [apply list_elem_of_In, users_list_spec; eauto|]. by apply String.eqb_eq.
  - by apply negb_false_iff, andb_true_iff in Ht as [[Ht _]%andb_true_iff _].
Qed.

Lemma insert_user_same mk d e : (insert_user mk d).1 = Err e → (insert_user mk d).2 = d.
Proof. unfold insert_user. by repeat case_match. Qed.

Lemma insert_user_wf mk d :
  (∀ id now, u_id (mk id now) = id) → wf_users (d_users d) → wf_users (d_users (insert_user mk d).2).
Proof.
  intros Hid [Hk Hu]. destruct ((insert_user mk d).1) as [u|e] eqn:E; [|by erewrite insert_user_same].
  apply insert_user_spec in E as (-> & -> & Hnew & Hfresh & _).
  set (id := d_uuid d (d_uuid_pos d)) in *. split.
  - intros i v [[<- <-]|[Hne Hv]]%lookup_insert_Some; eauto.
  - intros i j u v [[<- <-]|[Hi Hiu]]%lookup_insert_Some [[<- <-]|[Hj Hjv]]%lookup_insert_Some Heq;
      [done|..]; [by apply Hfresh in Hjv as []|by apply Hfresh in Hiu|eauto].
Qed.

Lemma tame_insert_user mk : tame (insert_user mk).
Proof. intros d. unfold insert_user. repeat case_match; simpl; eauto. Qed.

Lemma tame_find_user name : tame (find_user name).
Proof. apply tame_reader. intros d. apply find_user_exec. Qed.

Lemma tame_count_users : tame count_users.
Proof. by apply tame_reader. Qed.

#[export] Hint Resolve tame_insert_user tame_find_user tame_count_users : bridge.

(** ** Logging in *)
Section logins.
Context `{!Externals, !Credentials}.

Definition stored_user (w : world) (u : User) : Prop := ∃ id, d_users (w_db w) !! id = Some u.

Definition principal (u : User) : AuthUser :=
  mkAuthUser (u_id u) (u_username u) (roles_from_db (u_roles u)) (u_tenantId u).

Definition token_of (ac : AuthConfig) (now : Z) (u : AuthUser) : string :=
  jwt_sign (ac_jwtSecret ac) (ac_jwtExpiresIn ac) now
    (mkPayload (au_userId u) (au_username u) (au_roles u) (au_tenantId u)).

Lemma find_user_perform username f w :
  (perform f (Db (find_user username)) w).2 = w ∧
  match (perform f (Db (find_user username)) w).1 with
  | Ok (Some u) => u_username u = username ∧ stored_user w u
  | _ => True
  end.
Proof.
  destruct (find_user_exec username (w_db w)) as [Hd Hr].
  assert (Ht : transact (find_user username) (w_db w) = ((find_user username (w_db w)).1, w_db w)).
  { unfold transact. destruct (find_user username (w_db w)) as [[a|e] d]; simpl in *; subst d;
      by destruct (w_db w). }
  assert (Hs : set_db (w_db w) w = w) by (by destruct w).
  unfold perform. destruct f; simpl; rewrite ?Ht; simpl; rewrite ?Hs; auto.
Qed.

Lemma validateUser_rg username password w :
  rg eq (λ w w', w' = w) (validateUser username password)
    (λ r w', w' = w ∧ match r with
      | Ok (Some p) => ∃ u, stored_user w u ∧ u_username u = username ∧
                            bcrypt_compare password (u_passwordHash u) = true ∧ p = principal u
      | _ => True
      end) w.
Proof.
  unfold validateUser, sql. rg_step. unfold call. apply seq_call. intros f.
  destruct (find_user_perform username f w) as [Hw Hr]. split; [done|]. rewrite Hw.
  destruct (perform f _ w).1 as [[u|]|e]; simpl; intros w0 <-; [|by intros w1 <-|done].
  destruct (bcrypt_compare password (u_passwordHash u)) eqn:Hc; intros w1 <-; [|done].
  split; [done|]. exists u. naive_solver.
Qed.

Lemma login_rg ac username password w :
  rg eq (λ w w', w' = w) (login ac username password)
    (λ r w', w' = w ∧ match r with
      | Ok res => ∃ u, stored_user w u ∧ u_username u = username ∧
          bcrypt_compare password (u_passwordHash u) = true ∧
          lr_access_token res = token_of ac (d_now (w_db w)) (principal u)
      | Err _ => True
      end) w.
Proof.
  unfold login. rg_step. eapply rg_mono; [apply validateUser_rg|].
  intros [[p|]|e] w' [-> Hp]; [|by intros w0 <-|done].
  destruct Hp as (u & Hu & Hn & Hc & ->). rg_step. rg_step.
  destruct f; cbn -[token_of]; (split; [done|]); intros w0 <- w1 <-; split; eauto 6.
Qed.
End logins.

#[export] Instance unchanged_preorder : PreOrder (λ w w' : world, w' = w).
Proof. split; [done|]. by intros x y z -> ->. Qed.

(** A program none of whose operations changes the world leaves it as it was, also when
    it dies on the way. *)
Lemma seq_unchanged `{!Externals} {A} (p : P A) Q w fs n :
  rg eq (λ w w', w' = w) p Q w → crash n fs p w = w ∧ final fs p w = w.
Proof.
  intros Hp. split; [exact (rg_crash_trans eq (λ w w', w' = w) p Q w n fs Hp)|].
  exact (rg_final_trans eq (λ w w', w' = w) p Q w fs Hp).
Qed.

(** A token is issued for a right password only.  Whatever fails, [login] leaves the
    world as it was, and when it returns, the token is the signature, at the present
    time, of the id, name, roles and tenant of a stored account with the given username
    whose hash matches the given password. *)
Theorem login_sound `{!Externals, !Credentials} ac username password w fs n :
  crash n fs (login ac username password) w = w ∧
  final fs (login ac username password) w = w ∧
  ∀ res, outcome fs (login ac username password) w = Ok res →
    ∃ u, stored_user w u ∧ u_username u = username ∧
         bcrypt_compare password (u_passwordHash u) = true ∧
         lr_access_token res = token_of ac (d_now (w_db w)) (principal u).
Proof.
  pose proof (login_rg ac username password w) as Hl.
  destruct (seq_unchanged _ _ _ fs n Hl) as [Hc Hf]. split_and!; [done|done|].
  intros res Hres. destruct (seq_run _ _ _ _ fs Hl) as [_ Hr]. by rewrite Hres in Hr.
Qed.

Section accounts.
Context `{!Externals, !Credentials}.

(** The one row an account operation may add. *)
Definition users_step (w w' : world) : Prop :=
  wf_users (d_users (w_db w)) → wf_users (d_users (w_db w')).

#[export] Instance users_step_preorder : PreOrder users_step.
Proof. split; unfold users_step; [intros w|intros x y z]; auto. Qed.

Definition users_op (X : Type) (op : eff X) : Prop :=
  match op with
  | Db m => ∀ d, wf_users (d_users d) → wf_users (d_users (m d).2)
  | RandomBytes _ | Now => True
  | _ => False
  end.

Lemma users_op_step X (op : eff X) f w : users_op X op → users_step w (perform f op w).2.
Proof.
  intros Hop. assert (Hh : users_step w (world_handle op w).2).
  { destruct op; simpl in *; try done; intros Hw; [|exact Hw..]. simpl. unfold transact.
    specialize (Hop _ Hw). destruct (m (w_db w)) as [[a|e] d]; [exact Hop|exact Hw]. }
  unfold perform. destruct (fallible op), f; simpl; auto. reflexivity.
Qed.

Lemma users_find name d : wf_users (d_users d) → wf_users (d_users (find_user name d).2).
Proof. by rewrite (proj1 (find_user_exec name d)). Qed.

Lemma createUser_ops ac input : all_ops users_op (createUser ac input).
Proof.
  unfold createUser, hash_password, sql. repeat ops_step; simpl; try done.
  - apply users_find.
  - intros d. by apply insert_user_wf.
Qed.

Lemma seed_ops ac : all_ops users_op (seed_admin ac).
Proof.
  unfold seed_admin, hash_password, sql. repeat ops_step; simpl; try done.
  intros d. by apply insert_user_wf.
Qed.

Lemma users_ops_rg {A} (p : P A) w : all_ops users_op p → rg users_step users_step p (λ _ _, True) w.
Proof. apply all_ops_rg. intros X op Hop f w'. by apply users_op_step. Qed.
End accounts.

(** The activities that write accounts: creations by admins and the seeds of starting
    instances. *)
Inductive account_activity `{!Externals, !Credentials} : P unit → Prop :=
  | A_create ac input : account_activity (createUser ac input ;;; Ret tt)
  | A_seed ac : account_activity (seed_admin ac).

(** Usernames identify accounts.  Any number of account creations and bootstrap seeds,
    interleaved in any order, with failures, lost acknowledgements and deaths anywhere,
    leave no two accounts with the same username. *)
Theorem usernames_unique `{!Externals, !Credentials} ts ts' w w' :
  wf_users (d_users (w_db w)) → Forall account_activity ts →
  rtc pool_step (ts, w) (ts', w') → wf_users (d_users (w_db w')).
Proof.
  intros Hw Hts Hsteps.
  assert (Hok : pool_ok users_step (λ _ _, True) (ts, w)).
  { unfold pool_ok. simpl. eapply Forall_impl; [exact Hts|]. intros p Hp. apply users_ops_rg.
    destruct Hp; [apply all_ops_bind; [apply createUser_ops|done]|apply seed_ops]. }
  destruct (pool_sound users_step (λ _ _, True) _ _ Hsteps Hok) as [_ Hs]. by apply Hs.
Qed.

(** A statement without failure. *)
Lemma exec_sql `{!Externals} {A} (m : dbM A) w :
  exec (sql m) w =
  match m (w_db w) with
  | (Ok a, d) => (Ok a, set_db (set_tenant (d_tenant (w_db w)) d) w)
  | (Err e, _) => (Err e, w)
  end.
Proof.
  unfold sql. rewrite exec_call. simpl. unfold transact.
  destruct (m (w_db w)) as [[a|e] d]; [done|]. by destruct w.
Qed.

Lemma find_user_present d u id :
  pg_text (u_username u) = true → d_users d !! id = Some u →
  (∀ i v, d_users d !! i = Some v → u_username v = u_username u → v = u) →
  find_user (u_username u) d = (Ok (Some u), d).
Proof.
  intros Ht Hu Huniq. unfold find_user. rewrite Ht. simpl. f_equal. f_equal.
  destruct (List.find _ _) as [v|] eqn:Hf.
  - apply List.find_some in Hf as [(i & Hi)%list_elem_of_In%users_list_spec He%String.eqb_eq].
    f_equal. eauto.
  - exfalso. eapply List.find_none in Hf; [by rewrite string_eqb_refl in Hf|].
    apply list_elem_of_In, users_list_spec. eauto.
Qed.

(** What a successful creation leaves behind. *)
Lemma createUser_exec `{!Externals, !Credentials} ac input c w w' :
  exec (createUser ac input) w = (Ok c, w') →
  ∃ salt u, let d := w_db w' in
    d_users d !! u_id u = Some u ∧
    (∀ i v, d_users d !! i = Some v → u_username v = u_username u → v = u) ∧
    pg_text (u_username u) = true ∧
    u_username u = cu_username input ∧ u_passwordHash u = bcrypt_hash (cu_password input) salt ∧
    u_roles u = roles_to_db (cu_roles input) ∧
    u_tenantId u = nullish (cu_tenantId input) (ac_defaultTenant ac) ∧
    c = mkCreated (u_id u) (u_username u) (cu_roles input) (u_tenantId u).
Proof.
  unfold createUser. rewrite exec_bind, exec_sql.
  destruct (find_user (cu_username input) (w_db w)) as [[[v|]|e] d] eqn:Hf; [done| |done].
  set (w1 := set_db _ w). unfold hash_password. rewrite exec_bind, exec_bind, exec_call.
  set (r := handle (RandomBytes 16) w1). destruct r as [[salt|e] w2] eqn:Hr; [|done].
  change (exec (Ret ?a) w2) with (@Ok string a, w2). cbv iota beta.
  rewrite exec_bind, exec_sql. set (mk := λ (id : string) (now : Z), mkUser _ _ _ _ _ _ _).
  destruct (insert_user mk (w_db w2)) as [[u|e] d2] eqn:Hi; [|done].
  change (exec (Ret ?a) ?x) with (@Ok CreatedUser a, x). intros [= <- <-].
  destruct (insert_user_spec mk (w_db w2) u) as (Hu & Hd & Hnew & Hfresh & Ht); [by rewrite Hi|].
  rewrite Hi in Hd. simpl in Hd. exists salt, u. simpl. rewrite Hd.
  assert (Hid : u_id u = d_uuid (w_db w2) (d_uuid_pos (w_db w2))) by (by rewrite Hu).
  split_and!; [by rewrite Hid, lookup_insert_eq| |done|by rewrite Hu..|done].
  intros i v [[_ ->]|[_ Hv]]%lookup_insert_Some He; [done|]. by apply Hfresh in Hv.
Qed.

(** An account that was created can be used.  When [createUser] returns, [login] with
    the same name and password succeeds, and until the token expires the guard turns
    it into the principal with the new id, the requested roles and the account's tenant. *)
Theorem created_user_can_login `{!Externals, !Credentials, !CredentialLaws} ac input c w w' :
  exec (createUser ac input) w = (Ok c, w') →
  cr_username c = cu_username input ∧ cr_roles c = cu_roles input ∧
  cr_tenantId c = nullish (cu_tenantId input) (ac_defaultTenant ac) ∧
  ∃ res, exec (login ac (cu_username input) (cu_password input)) w' = (Ok res, w') ∧
    ∀ now, (d_now (w_db w') ≤ now)%Z →
      (now / 1000 < d_now (w_db w') / 1000 + jwt_lifetime (ac_jwtExpiresIn ac))%Z →
      jwt_guard ac now (Some (lr_access_token res)) =
        Some (mkAuthUser (cr_id c) (cu_username input) (cu_roles input) (cr_tenantId c)).
Proof.
  intros (salt & u & Hu & Huniq & Ht & Hn & Hp & Hr & Htn & ->)%createUser_exec. simpl.
  split_and!; [done|done|done|]. rewrite <- Hn.
  assert (Hlogin : exec (login ac (u_username u) (cu_password input)) w' =
    (Ok (mkLogin (token_of ac (d_now (w_db w')) (principal u)) "Bearer" (ac_jwtExpiresIn ac)
           (au_roles (principal u))), w')).
  { unfold login, validateUser. rewrite exec_bind, exec_bind, exec_sql.
    rewrite (find_user_present _ _ _ Ht Hu Huniq). rewrite Hp, bcrypt_complete.
    assert (Hs : set_db (set_tenant (d_tenant (w_db w')) (w_db w')) w' = w') by (by destruct w' as [[]]).
    rewrite Hs. done. }
  eexists. split; [exact Hlogin|]. intros now Hge Hlt. unfold jwt_guard, token_of. simpl.
  rewrite jwt_complete by done. unfold validate. simpl. by rewrite Hr, roles_roundtrip.
Qed.

(** ** Concrete credentials

    A password hash that is the password in the clear, a token that spells its content
    in binary. *)
Module DemoCredentials.
#[export] Instance role_countable : Countable Role.
Proof.
  refine (inj_countable' (λ r, match r with ADMIN => 0 | OPERATOR => 1 | VIEWER => 2 end)%nat
    (λ n, match n with 0 => ADMIN | 1 => OPERATOR | _ => VIEWER end)%nat _).
  by intros [].
Defined.

Fixpoint bits (p : positive) : string :=
  match p with
  | xH => EmptyString
  | xO q => String "0"%char (bits q)
  | xI q => String "1"%char (bits q)
  end.
Fixpoint unbits (s : string) : positive :=
  match s with
  | EmptyString => xH
  | String c s' => if Ascii.eqb c "0"%char then xO (unbits s') else xI (unbits s')
  end.

Lemma unbits_bits p : unbits (bits p) = p.
Proof. induction p; simpl; by f_equal. Qed.

Definition token : Type := string * Z * (string * string * list Role * string).
Definition wire (secret : string) (issued : Z) (p : JwtPayload) : token :=
  (secret, issued, (jp_sub p, jp_username p, jp_roles p, jp_tenantId p)).

Definition hash (p : string) : string :=
  "$2b$10$" +:+ (if pg_text p && (String.length p <=? 200)%nat then p else "").

Definition verify (secret : string) (now : Z) (t : string) : option JwtPayload :=
  match decode (unbits t) : option token with
  | Some (k, issued, (a, b, c, d)) =>
      if String.eqb k secret && (issued <=? now)%Z && (now / 1000 <? issued / 1000 + 3600)%Z
      then Some (mkPayload a b c d) else None
  | None => None
  end.

#[export] Instance credentials : Credentials := {
  bcrypt_hash p _ := hash p;
  bcrypt_compare p h := String.eqb (hash p) h;
  jwt_sign secret _ issued p := bits (encode (wire secret issued p));
  jwt_verify := verify;
  jwt_lifetime _ := 3600%Z;
}.

#[export] Instance credential_laws : CredentialLaws.
Proof.
  split; simpl.
  - intros p _. apply string_eqb_refl.
  - intros p _. unfold hash, pg_text. destruct (no_char _ p) eqn:Hp; [|done]. rewrite andb_true_l.
    destruct (_ <=? _)%nat; [|done]. by rewrite no_char_app, Hp.
  - intros p _. unfold hash. destruct (pg_text p); [|done]. simpl.
    destruct (Nat.leb_spec (String.length p) 200) as [Hl|_]; [|done].
    unfold varchar. apply Nat.leb_le. apply (Nat.le_trans _ (7 + String.length p)); [done|lia].
  - intros secret _ issued now p Hge Hlt. unfold verify.
    rewrite unbits_bits, decode_encode. destruct p as [a b c d]. unfold wire. simpl.
    rewrite string_eqb_refl. apply Z.leb_le in Hge as ->. by apply Z.ltb_lt in Hlt as ->.
Qed.

Definition auth_config : AuthConfig := mkAuthConfig "jwt-secret" "1h" "admin" "change-me" "default".
Definition new_user : CreateUserDto := mkCreateUser "ann" "correct horse" [VIEWER; OPERATOR] (Some "acme").
End DemoCredentials.

Import Demo DemoCredentials.

Lemma usernames_unique_witness :
  let ts := [seed_admin auth_config; seed_admin auth_config; createUser auth_config new_user ;;; Ret tt] in
  let c := schedule [0; 1; 0; 1; 0; 1; 2; 2; 2]%nat (ts, empty_world) in
  wf_users (d_users (w_db c.2)).
Proof.
  intros ts c. apply (usernames_unique ts c.1 empty_world c.2).
  - split; by intros *.
  - repeat constructor.
  - rewrite <- surjective_pairing. apply schedule_steps.
Defined.

Lemma created_user_can_login_witness :
  let r := exec (createUser auth_config new_user) empty_world in
  ∃ c, r.1 = Ok c ∧ cr_tenantId c = "acme" ∧
    ∃ res, exec (login auth_config "ann" "correct horse") r.2 = (Ok res, r.2).
Proof.
  intros r. exists (mkCreated "uuid-0" "ann" [VIEWER; OPERATOR] "acme"). split; [by vm_compute|].
  destruct (created_user_can_login auth_config new_user
    (mkCreated "uuid-0" "ann" [VIEWER; OPERATOR] "acme") empty_world r.2) as (_ & _ & Ht & res & Hres & _).
  { by rewrite (surjective_pairing (exec _ _)). }
  split; [exact Ht|]. exists res. exact Hres.
Defined.

(** Two instances that start on an empty database both find no account: one seed ends in
    the unique violation, which aborts that instance's start. *)
Theorem seed_race :
  (schedule [0; 1; 0; 1; 0; 1]%nat
     ([seed_admin auth_config; seed_admin auth_config], empty_world)).1 = [Ret tt; Throw unique_violation].
Proof. by vm_compute. Qed.
