(* ===== verification/Http.v ===== *)
(** * The HTTP surface (the controllers, [common/filters/all-exceptions.filter.ts], [health/])

    A request passes the global rate limiter, the guards of its route, the pipes that
    validate its parameters and its handler, in the order NestJS runs them; whatever is
    thrown on the way is answered by [AllExceptionsFilter].  [dispatch] composes the
    parts.  The rate limiter's count and the texts of class-validator belong to the
    framework: a request arrives with the limiter's verdict, and [Validators] holds the
    framework's checks.  It also arrives with its route resolved: [Routes] adds the way from
    the request line to the route. *)
From S2P Require Import Prelude JsLang Entities Database Prog World Repository Outbox.
From S2P Require Import Ingestion Quota Storage Crypto Events Transfers Auth.

(** ** Requests *)

(** The routes behind [JwtAuthGuard] and [RolesGuard]. *)
Inductive managed_call :=
  | CreateUser (dto : CreateUserDto)
  | ListTransfers (query : ListTransfersQueryDto)
  | GetTransfer (id : string)
  | DownloadTransfer (id : string)
  | RetryBatch (dto : RetryBatchDto)
  | RetryTransfer (id : string)
  | CreateSubscription (dto : CreateSubscriptionDto)
  | ListSubscriptions
  | RemoveSubscription (id : string)
  | GetUsage (tenant : option string).

Inductive api_call :=
  | OnUpload (payload : SftpgoWebhookDto)
  | Login (dto : LoginDto)
  | HealthLive
  | HealthReady
  | Managed (c : managed_call).

Record request := mkHttpRequest {
  hr_url : string;
  hr_bearer : option string;        (** token of the [Authorization: Bearer] header *)
  hr_headerToken : option string;   (** [X-SyncBridge-Token] *)
  hr_queryToken : option string;    (** [?token=], when it is one string *)
  hr_carrier : list (string * string);
  hr_limited : bool;                (** verdict of the [ThrottlerGuard] *)
  hr_call : api_call;
}.

(** The [@Roles] of each handler; none on the usage route. *)
Definition required_roles (c : managed_call) : list Role :=
  match c with
  | CreateUser _ => [ADMIN]
  | ListTransfers _ | GetTransfer _ | DownloadTransfer _ | ListSubscriptions => [VIEWER; OPERATOR; ADMIN]
  | RetryBatch _ | RetryTransfer _ | CreateSubscription _ | RemoveSubscription _ => [OPERATOR; ADMIN]
  | GetUsage _ => []
  end.

(** ** Errors *)
Inductive message_text := One (s : string) | Many (l : list string).

(** What an exception's [getResponse()] is: [TExn] is an error of the code; NestJS's
    [HttpException]s made from a text carry that text and the name of their status;
    [TBare] is one made without a text; [TText] one whose response is a bare
    string; [TValidation] that of the [ValidationPipe]; [THealth] the report of a
    failed health check, whose [error] lists the indicators that are down. *)
Inductive thrown :=
  | TExn (e : exn)
  | TBare (status : Z) (name description : string)
  | TText (status : Z) (text : string)
  | TValidation (messages : list string)
  | THealth (down : list (string * string)).

Inductive error_text := Name (s : string) | Indicators (down : list (string * string)).

Record ErrorBody := mkErrorBody {
  eb_statusCode : Z;
  eb_error : error_text;
  eb_message : message_text;
  eb_path : string;
  eb_timestamp : Z;
}.

(** The short names NestJS gives the statuses it throws. *)
Definition status_name (status : Z) : string :=
  match status with
  | 400%Z => "Bad Request"
  | 401%Z => "Unauthorized"
  | 403%Z => "Forbidden"
  | 404%Z => "Not Found"
  | 409%Z => "Conflict"
  | _ => "Error"
  end.

Definition exception_status (t : thrown) : Z :=
  match t with
  | TExn (HttpError status _) | TBare status _ _ | TText status _ => status
  | TExn _ => 500
  | TValidation _ => 400
  | THealth _ => 503
  end.

Definition exception_body (t : thrown) (url : string) (now : Z) : ErrorBody :=
  let initial_message := One "Internal server error" in
  let initial_error := Name "InternalServerError" in
  let '(error, message) :=
    match t with
    | TExn (HttpError status m) => (Name (status_name status), One m)
    | TExn _ => (initial_error, initial_message)
    | TBare _ name description => (Name name, One description)
    | TText _ text => (initial_error, One text)
    | TValidation messages => (Name "Bad Request", Many messages)
    | THealth down => (Indicators down, One "Service Unavailable Exception")
    end in
  mkErrorBody (exception_status t) error message url now.

(** ** Responses *)
Inductive body :=
  | BOutcome (o : AcceptOutcome)
  | BLogin (r : LoginResult)
  | BUser (u : CreatedUser)
  | BPage (p : PaginatedTransfers)
  | BTransfer (t : FileTransfer)
  | BFile (headers : list (string * string)) (stream : bytes * result unit)
  | BRequeued (requeued : Z) (ids : list string)
  | BSubscription (s : EventSubscription)
  | BSubscriptions (l : list EventSubscription)
  | BUsage (tenant : string) (usage : Usage) (quota : Quota)
  | BStatus (status : string)
  | BHealth (up : list string)
  | BEmpty
  | BError (e : ErrorBody).

Record response := mkResponse { rs_status : Z; rs_body : body }.

(** The [@HttpCode] of the handlers. *)
Definition success_status (c : api_call) : Z :=
  match c with
  | Managed (CreateUser _) | Managed (CreateSubscription _) => 201
  | Managed (RemoveSubscription _) => 204
  | _ => 200
  end.

(** ** Validation *)
Class Validators := {
  is_url : string → bool;                     (** [@IsUrl] *)
  is_uuid : string → bool;                    (** [ParseUUIDPipe] *)
  constraint_texts : api_call → list string;  (** the texts of a failed validation *)
}.

Section surface.
Context `{!Externals, !Gcm, !Credentials, !Validators}.

Definition retry_batch_valid (dto : RetryBatchDto) : bool :=
  ((1 <=? rb_limit dto) && (rb_limit dto <=? 1000))%Z.

Definition uuid_or_fail (id : string) : option thrown :=
  if is_uuid id then None else Some (TExn (HttpError 400 "Validation failed (uuid is expected)")).

Definition pipes (c : api_call) : option thrown :=
  let dto (valid : bool) := if valid then None else Some (TValidation (constraint_texts c)) in
  match c with
  | OnUpload payload => dto (webhook_valid payload)
  | Login d => dto (login_valid d)
  | HealthLive | HealthReady => None
  | Managed (CreateUser d) => dto (create_user_valid d)
  | Managed (ListTransfers q) => dto (list_query_valid q)
  | Managed (RetryBatch d) => dto (retry_batch_valid d)
  | Managed (CreateSubscription d) => dto (subscription_valid is_url d)
  | Managed (GetTransfer id) | Managed (DownloadTransfer id) | Managed (RetryTransfer id)
  | Managed (RemoveSubscription id) => uuid_or_fail id
  | Managed ListSubscriptions | Managed (GetUsage _) => None
  end.

(** ** Health *)

(** An indicator: its key, and the message of the error when it is down. *)
Definition indicator (key : string) (probe : P unit) : P (string * option string) :=
  catch_ (probe ;;; Ret (key, None)) (λ e, Ret (key, Some (exn_message e))).

Definition ping_database : P unit := sql (db_ret tt).

Definition s3_isHealthy (sc : StorageConfig) (key : string) : P (string * option string) :=
  indicator key (checkBucket sc).

Definition redis_isHealthy (key : string) : P (string * option string) := indicator key (call RedisPing).

Definition ready (sc : StorageConfig) : P (list (string * option string)) :=
  db <- indicator "postgres" ping_database ;;
  s3 <- s3_isHealthy sc "object-storage" ;;
  redis <- redis_isHealthy "redis" ;;
  Ret [db; s3; redis].

Definition down_of (l : list (string * option string)) : list (string * string) :=
  omap (λ p, (λ m, (p.1, m)) <$> p.2) l.

(** ** Handlers *)
Record HttpConfig := mkHttpConfig {
  hc_webhookSecret : string;
  hc_auth : AuthConfig;
  hc_ingestion : IngestionConfig;
  hc_quota : QuotaConfig;
  hc_storage : StorageConfig;
  hc_crypto : CryptoConfig;
  hc_maxAttempts : Z;
  hc_network : bytes → list bytes;
}.

(** [UsersController] *)
Definition users_create (hc : HttpConfig) (dto : CreateUserDto) : P body :=
  u <- createUser (hc_auth hc) dto ;; Ret (BUser u).

(** [TransfersController] *)
Definition transfers_list (user : AuthUser) (query : ListTransfersQueryDto) : P body :=
  p <- list_scoped query user ;; Ret (BPage p).

Definition transfers_getOne (user : AuthUser) (id : string) : P body :=
  t <- getById id user ;; Ret (BTransfer t).

Definition transfers_download (hc : HttpConfig) (user : AuthUser) (id : string) : P body :=
  d <- download (hc_crypto hc) (hc_network hc) id user ;;
  Ret (BFile [("Content-Type", dr_contentType d);
              ("Content-Disposition", content_disposition (dr_filename d))] (dr_stream d)).

Definition transfers_retryBatch (hc : HttpConfig) (user : AuthUser) (dto : RetryBatchDto) : P body :=
  r <- retryBatch (hc_maxAttempts hc) dto user ;; Ret (BRequeued r.1 r.2).

Definition transfers_retry (hc : HttpConfig) (user : AuthUser) (id : string) : P body :=
  t <- retry (hc_maxAttempts hc) id user ;; Ret (BTransfer t).

(** [SubscriptionsController] *)
Definition subscriptions_create (user : AuthUser) (dto : CreateSubscriptionDto) : P body :=
  s <- create_subscription user dto ;; Ret (BSubscription s).

Definition subscriptions_list (user : AuthUser) : P body :=
  l <- list_subscriptions user ;; Ret (BSubscriptions l).

Definition subscriptions_remove (user : AuthUser) (id : string) : P body :=
  remove_subscription user id ;;; Ret BEmpty.

(** [UsageController] *)
Definition usage_get (hc : HttpConfig) (user : AuthUser) (tenant : option string) : P body :=
  r <- usage_endpoint (hc_quota hc) user tenant ;; Ret (BUsage r.1.1 r.1.2 r.2).

Definition managed_handler (hc : HttpConfig) (user : AuthUser) (c : managed_call) : P body :=
  match c with
  | CreateUser dto => users_create hc dto
  | ListTransfers q => transfers_list user q
  | GetTransfer id => transfers_getOne user id
  | DownloadTransfer id => transfers_download hc user id
  | RetryBatch dto => transfers_retryBatch hc user dto
  | RetryTransfer id => transfers_retry hc user id
  | CreateSubscription dto => subscriptions_create user dto
  | ListSubscriptions => subscriptions_list user
  | RemoveSubscription id => subscriptions_remove user id
  | GetUsage tenant => usage_get hc user tenant
  end.

(** [AuthController], [IngestionController], [HealthController.live] *)
Definition auth_login (hc : HttpConfig) (dto : LoginDto) : P body :=
  r <- login (hc_auth hc) (ld_username dto) (ld_password dto) ;; Ret (BLogin r).

Definition handleWebhook (hc : HttpConfig) (carrier : list (string * string)) (payload : SftpgoWebhookDto)
    : P body :=
  outcome_ <- accept (hc_ingestion hc) carrier payload ;; Ret (BOutcome outcome_).

Definition health_live : P body := Ret (BStatus "ok").

(** The filter's answer. *)
Definition error_response (url : string) (t : thrown) : P response :=
  now <- call Now ;;
  Ret (mkResponse (exception_status t) (BError (exception_body t url now))).

(** Pipes, handler, filter. *)
Definition respond (req : request) (handler : P (thrown + body)) : P response :=
  match pipes (hr_call req) with
  | Some t => error_response (hr_url req) t
  | None =>
      r <- catch_ handler (λ e, Ret (inl (TExn e))) ;;
      match r with
      | inl t => error_response (hr_url req) t
      | inr b => Ret (mkResponse (success_status (hr_call req)) b)
      end
  end.

Definition plain (p : P body) : P (thrown + body) := b <- p ;; Ret (inr b).

Definition health_report (sc : StorageConfig) : P (thrown + body) :=
  l <- ready sc ;;
  match down_of l with
  | [] => Ret (inr (BHealth (map fst l)))
  | down => Ret (inl (THealth down))
  end.

Definition throttled (req : request) : bool :=
  hr_limited req && match hr_call req with HealthLive | HealthReady => false | _ => true end.

(** [@UseGuards(WebhookAuthGuard)] *)
Definition webhook_route (hc : HttpConfig) (req : request) (payload : SftpgoWebhookDto) : P response :=
  match webhook_guard (hc_webhookSecret hc) (hr_headerToken req) (hr_queryToken req) with
  | Err e => error_response (hr_url req) (TExn e)
  | Ok _ => respond req (plain (handleWebhook hc (hr_carrier req) payload))
  end.

(** [@UseGuards(JwtAuthGuard, RolesGuard)] *)
Definition managed_route (hc : HttpConfig) (req : request) (c : managed_call) : P response :=
  now <- call Now ;;
  match jwt_guard (hc_auth hc) now (hr_bearer req) with
  | None => error_response (hr_url req) (TBare 401 "UnauthorizedException" "Unauthorized")
  | Some user =>
      match roles_guard (required_roles c) (Some user) with
      | Err e => error_response (hr_url req) (TExn e)
      | Ok _ => respond req (plain (managed_handler hc user c))
      end
  end.

Definition dispatch (hc : HttpConfig) (req : request) : P response :=
  if throttled req
  then error_response (hr_url req) (TText 429 "ThrottlerException: Too Many Requests")
  else
    match hr_call req with
    | OnUpload payload => webhook_route hc req payload
    | Login dto => respond req (plain (auth_login hc dto))
    | HealthLive => respond req (plain health_live)
    | HealthReady => respond req (health_report (hc_storage hc))
    | Managed c => managed_route hc req c
    end.
End surface.

(** ** What handlers may throw

    [polite p]: every error [p] can end in, whatever its operations answer, is an
    internal one or an [HttpException] with a status the services use. *)
Definition client_error (e : exn) : Prop :=
  match e with HttpError s _ => s ∈ [400; 401; 403; 404; 409]%Z | _ => True end.

Section politeness.
Context {E : Type → Type} (Op : ∀ X, E X → Prop).

Fixpoint polite {A} (p : prog E A) : Prop :=
  match p with
  | Ret _ => True
  | Throw e => client_error e
  | Call op k => Op _ op ∧ ∀ r, (∀ e, r = Err e → client_error e) → polite (k r)
  end.

Lemma polite_bind {A B} (p : prog E A) (f : A → prog E B) :
  polite p → (∀ a, polite (f a)) → polite (bind p f).
Proof.
  intros Hp Hf. induction p as [a|e|X op k IH]; [apply Hf|exact Hp|].
  destruct Hp as [Hop Hk]. split; [done|]. intros r Hr. apply IH. by apply Hk.
Qed.

Lemma polite_call {X} (op : E X) : Op X op → polite (call op).
Proof. intros Hop. split; [done|]. intros [a|e] Hr; simpl; auto. Qed.

Lemma polite_of_result {A} (r : result A) : (∀ e, r = Err e → client_error e) → polite (of_result r).
Proof. destruct r; simpl; auto. Qed.

Lemma polite_for_each {X} (l : list X) (b : X → prog E unit) : (∀ x, polite (b x)) → polite (for_each l b).
Proof. intros Hb. induction l; simpl; [done|]. by apply polite_bind. Qed.

Lemma polite_for_collect {X Y} (l : list X) (b : X → prog E Y) :
  (∀ x, polite (b x)) → polite (for_collect l b).
Proof. intros Hb. induction l; simpl; [done|]. apply polite_bind; [done|]. intros y. by apply polite_bind. Qed.

Lemma polite_catch {A} (p : prog E A) (h : exn → prog E A) :
  polite p → (∀ e, client_error e → polite (h e)) → polite (catch_ p h).
Proof.
  intros Hp Hh. induction p as [a|e|X op k IH]; [done|by apply Hh|].
  destruct Hp as [Hop Hk]. split; [done|]. intros r Hr. apply IH. by apply Hk.
Qed.
End politeness.

(** A statement whose errors are the server's. *)
Definition polite_db {A} (m : dbM A) : Prop := ∀ d e, (m d).1 = Err e → client_error e.
Definition polite_stmt (X : Type) (s : stmt X) : Prop := match s with Stmt m => polite_db m end.

Section operations.
Context `{!Externals}.

Definition polite_op (X : Type) (op : eff X) : Prop :=
  ∀ f w e, (perform f op w).1 = Err e → client_error e.

(** The run of a polite program ends in a client error at worst. *)
Lemma polite_rg {A} (p : P A) w :
  polite polite_op p → rg eq (λ _ _, True) p (λ r _, ∀ e, r = Err e → client_error e) w.
Proof.
  revert w. induction p as [a|e|X op k IH]; intros w Hp w0 <-; simpl.
  - done.
  - by intros e' [= <-].
  - intros f. split; [done|]. destruct Hp as [Hop Hk]. apply IH, Hk. intros e. apply Hop.
Qed.

Lemma polite_db_op {A} (m : dbM A) : polite_db m → polite_op A (Db m).
Proof.
  intros Hm f w e. unfold perform. simpl. destruct f; simpl; [|by intros [= <-]..]. unfold transact.
  destruct (m (w_db w)) as [[a|e'] d] eqn:E; simpl; [done|]. intros [= <-].
  apply (Hm (w_db w)). by rewrite E.
Qed.

(** Every other operation throws errors of the infrastructure. *)
Lemma polite_infra {X} (op : eff X) : match op with Db _ => False | _ => True end → polite_op X op.
Proof.
  intros Hop f w e He.
  assert (Hh : ∀ e, (world_handle op w).1 = Err e → client_error e).
  { intros e'. destruct op; simpl; unfold put_object, s3_error; repeat case_match; simpl; try done;
      intros; by simplify_eq. }
  revert He. unfold perform. destruct (fallible op); [|apply Hh].
  destruct f; simpl; [apply Hh|by intros [= <-]..].
Qed.

Lemma in_transaction_polite {A} (p : prog stmt A) : polite polite_stmt p → polite_db (in_transaction p).
Proof.
  induction p as [a|e|X op k IH]; [done|by intros He d e' [= <-]|].
  destruct op as [X m]. intros [Hm Hk] d e. simpl. destruct (m d) as [r d'] eqn:E.
  apply IH, Hk. intros e' ->. apply (Hm d). by rewrite E.
Qed.

Lemma scoped_polite {A} user (p : prog stmt A) : polite polite_stmt p → polite polite_op (scoped user p).
Proof.
  intros Hp. unfold scoped. destruct (is_admin user).
  - induction p as [a|e|X op k IH]; [done..|]. destruct op as [X m]. destruct Hp as [Hm Hk].
    split; [by apply polite_db_op|]. intros r Hr. apply IH. by apply Hk.
  - apply polite_call, polite_db_op. intros d e. unfold db_bind, set_config.
    by apply in_transaction_polite.
Qed.
End operations.

(** Statements: unfold down to the errors of the server. *)
Ltac polite_statement :=
  let d := fresh in let e := fresh in
  intros d e; unfold db_bind, db_ret; repeat case_match; simpl; intros; by simplify_eq.

Ltac polite_step :=
  lazymatch goal with
  | |- polite _ (bind _ _) => apply polite_bind; [|intros ?]
  | |- polite _ (catch_ _ _) => apply polite_catch; [|intros ? ?]
  | |- polite _ (for_each _ _) => apply polite_for_each; intros ?
  | |- polite _ (for_collect _ _) => apply polite_for_collect; intros ?
  | |- polite polite_stmt (call _) => apply polite_call; simpl
  | |- polite polite_op (call (Db _)) => apply polite_call, polite_db_op
  | |- polite polite_op (call _) => apply polite_call, polite_infra; exact I
  | |- polite _ (scoped _ _) => apply scoped_polite
  | |- polite _ (Ret _) => exact I
  | |- polite _ (Throw _) => simpl; set_solver
  | |- polite _ (let _ := _ in _) => cbv zeta
  | |- polite _ (match ?x with _ => _ end) => destruct x
  end.

Section statements.
Lemma polite_find id : polite_db (find_transfer id).
Proof. polite_statement. Qed.
Lemma polite_select p le n k : polite_db (select_transfers p le n k).
Proof. polite_statement. Qed.
Lemma polite_update id patch : polite_db (update_transfer id patch).
Proof.
  intros d e. unfold update_transfer. repeat case_match; simpl; intros; simplify_eq; try done.
  revert select (check_transfer _ = Err _). unfold check_transfer. repeat case_match; intros; by simplify_eq.
Qed.
Lemma polite_list status n k : polite_db (list_statement status n k).
Proof. done. Qed.
Lemma polite_insert_transfer mk : polite_db (insert_transfer mk).
Proof.
  intros d e. unfold insert_transfer. repeat case_match; simpl; intros; simplify_eq; try done.
  revert select (check_transfer _ = Err _). unfold check_transfer. repeat case_match; intros; by simplify_eq.
Qed.
Lemma polite_create input carrier : polite_db (create_statement input carrier).
Proof.
  intros d e. unfold create_statement, db_bind.
  destruct (insert_transfer _ d) as [[r|e'] d'] eqn:E; simpl.
  - unfold insert_outbox. repeat case_match; simpl; intros; by simplify_eq.
  - intros [= <-]. eapply (polite_insert_transfer _ d). by rewrite E.
Qed.
Lemma polite_find_user n : polite_db (find_user n).
Proof. intros d e. unfold find_user. repeat case_match; simpl; intros; by simplify_eq. Qed.
Lemma polite_insert_user mk : polite_db (insert_user mk).
Proof. intros d e. unfold insert_user. repeat case_match; simpl; intros; by simplify_eq. Qed.
Lemma polite_insert_subscription mk : polite_db (insert_subscription mk).
Proof. intros d e. unfold insert_subscription. repeat case_match; simpl; intros; by simplify_eq. Qed.
End statements.

#[export] Hint Resolve polite_find polite_select polite_update polite_list polite_create polite_find_user
  polite_insert_user polite_insert_subscription : bridge.

Ltac polite_ops :=
  repeat polite_step; auto with bridge; try done; try by intros ? ? [=].

(** ** Every handler is polite *)
Section handlers.
Context `{!Externals, !Gcm, !Credentials, !Validators}.

Lemma createDecryptStream_polite cc wrapped e : createDecryptStream cc wrapped = Err e → client_error e.
Proof.
  unfold createDecryptStream, unwrapDek, decrypt_buffer, check_cipher, check_tag, decipher_final, node_error, no_key.
  repeat case_match; simpl; intros; simplify_eq; try done.
Qed.

Lemma getById_polite id user : polite polite_op (getById id user).
Proof. unfold getById. polite_ops. Qed.

Lemma download_polite cc network id user : polite polite_op (download cc network id user).
Proof.
  unfold download, getObject. apply polite_bind; [apply getById_polite|]. intros t.
  repeat polite_step. apply polite_of_result. intros e. apply createDecryptStream_polite.
Qed.

Lemma managed_polite hc user c : polite polite_op (managed_handler hc user c).
Proof.
  destruct c; unfold managed_handler, users_create, transfers_list, transfers_getOne, transfers_download,
    transfers_retryBatch, transfers_retry, subscriptions_create, subscriptions_list, subscriptions_remove, usage_get;
    polite_step; try exact I.
  - unfold createUser, hash_password, sql. polite_ops.
  - unfold list_scoped. polite_ops.
  - apply getById_polite.
  - apply download_polite.
  - unfold retryBatch, batch_work. polite_ops.
  - unfold retry, retry_work, find_or_fail. polite_ops.
  - unfold create_subscription, sql. polite_ops.
  - unfold list_subscriptions, sql. polite_ops.
  - unfold remove_subscription, sql. polite_ops.
  - unfold usage_endpoint, summary, getUsage, sql. polite_ops.
Qed.

Lemma login_polite ac u p : polite polite_op (login ac u p).
Proof. unfold login, validateUser, sql. polite_ops. Qed.

Lemma accept_polite ic carrier payload : polite polite_op (accept ic carrier payload).
Proof. unfold accept, createTransferWithOutbox, sql. polite_ops. Qed.

(** ** Answers *)
Definition statuses : list Z := [200; 201; 204; 400; 401; 403; 404; 409; 429; 500; 503]%Z.

Definition proper (resp : response) : Prop :=
  rs_status resp ∈ statuses ∧
  (rs_status resp = 500%Z → ∃ e, rs_body resp = BError e ∧
     eb_error e = Name "InternalServerError" ∧ eb_message e = One "Internal server error").

Definition answered (r : result response) (w : world) : Prop := ∃ resp, r = Ok resp ∧ proper resp.

Definition known (t : thrown) : Prop :=
  match t with
  | TExn e => client_error e
  | TBare s _ _ | TText s _ => s ∈ [401; 429]%Z
  | TValidation _ | THealth _ => True
  end.

Lemma known_proper t url now :
  known t → proper (mkResponse (exception_status t) (BError (exception_body t url now))).
Proof.
  unfold proper, statuses. destruct t as [[m|s m|i]|s n d|s x|l|l]; simpl; intros Hk;
    (split; [set_solver|]); intros Hs; try done; try (exfalso; subst s; set_solver); eauto.
Qed.

Lemma error_response_rg url t w : known t → rg eq (λ _ _, True) (error_response url t) answered w.
Proof.
  intros Hk. unfold error_response. rg_step. rg_step. split; [done|].
  unfold perform; simpl. rg_step. rg_step. eexists. split; [done|]. by apply known_proper.
Qed.

Lemma pipes_known c t : pipes c = Some t → known t.
Proof.
  unfold pipes, uuid_or_fail. repeat case_match; intros; simplify_eq; simpl; try done; set_solver.
Qed.

(** A handler that ends in a body or in a known error. *)
Definition sound_handler (h : P (thrown + body)) : Prop :=
  ∀ w, rg eq (λ _ _, True) h (λ r _, match r with
                                     | Ok (inl t) => known t
                                     | Ok (inr _) => True
                                     | Err e => client_error e
                                     end) w.

Lemma plain_sound p : polite polite_op p → sound_handler (plain p).
Proof.
  intros Hp w. unfold plain. rg_step. eapply rg_mono; [by apply polite_rg|].
  intros [b|e] w' He; [by rg_step|]. by apply He.
Qed.

Lemma respond_rg req h w : sound_handler h → rg eq (λ _ _, True) (respond req h) answered w.
Proof.
  intros Hh. unfold respond. destruct (pipes (hr_call req)) as [t|] eqn:Ht.
  { by apply error_response_rg, (pipes_known (hr_call req)). }
  rg_step. rg_step. eapply rg_mono; [apply Hh|]. intros [[t|b]|e] w' Hr.
  - by apply error_response_rg.
  - rg_step. eexists. split; [done|]. unfold proper, statuses. simpl.
    destruct (hr_call req) as [| | | |[]]; simpl; (split; [set_solver|done]).
  - rg_step. by apply error_response_rg.
Qed.

Lemma indicator_rg key probe w :
  rg eq (λ _ _, True) (indicator key probe) (λ r _, is_ok r = true) w.
Proof.
  unfold indicator. rg_step. rg_step.
  assert (Ht : ∀ (p : P unit) w, rg eq (λ _ _, True) p (λ _ _, True) w).
  { intros p. induction p as [a|e|X op k IH]; intros v v0 <-; [done..|]. intros f. split; [done|]. apply IH. }
  eapply rg_mono; [apply Ht|]. intros [[]|e] w' _; by repeat rg_step.
Qed.

Lemma health_sound sc : sound_handler (health_report sc).
Proof.
  intros w. unfold health_report, ready. do 2 rg_step.
  eapply rg_mono; [apply indicator_rg|]. intros [a|e] w1 Ha; [|done]. rg_step.
  eapply rg_mono; [apply indicator_rg|]. intros [b|e] w2 Hb; [|done]. rg_step.
  eapply rg_mono; [apply indicator_rg|]. intros [c|e] w3 Hc; [|done]. rg_step.
  destruct (down_of [a; b; c]); by rg_step.
Qed.
End handlers.

(** C27: Every request is answered.  Whatever it asks for and whatever fails behind it,
    [dispatch] returns a response with one of the statuses the API uses; and the body
    of a 500 is the fixed text, so that no message of the database, the queue, the
    object store or the cipher reaches the caller. *)
Theorem every_request_answered `{!Externals, !Gcm, !Credentials, !Validators} hc req w fs :
  ∃ resp, outcome fs (dispatch hc req) w = Ok resp ∧ rs_status resp ∈ statuses ∧
    (rs_status resp = 500%Z → ∃ e, rs_body resp = BError e ∧
       eb_error e = Name "InternalServerError" ∧ eb_message e = One "Internal server error").
Proof.
  refine (seq_run (λ _ _, True) _ answered w fs _). unfold dispatch, webhook_route, managed_route.
  destruct (throttled req); [apply error_response_rg; simpl; set_solver|].
  destruct (hr_call req) as [payload|dto| | |c].
  - unfold webhook_guard. repeat case_match; try (apply error_response_rg; simplify_eq; simpl; set_solver).
    all: apply respond_rg, plain_sound, polite_bind; [apply accept_polite|done].
  - apply respond_rg, plain_sound, polite_bind; [apply login_polite|done].
  - by apply respond_rg, plain_sound.
  - apply respond_rg, health_sound.
  - rg_step. rg_step. split; [done|]. unfold perform; simpl. rg_step.
    destruct (jwt_guard _ _ _) as [user|]; [|apply error_response_rg; simpl; set_solver].
    destruct (roles_guard _ _) as [[]|e] eqn:Hg.
    + apply respond_rg, plain_sound, managed_polite.
    + apply error_response_rg. revert Hg. unfold roles_guard. repeat case_match; intros [= <-]. simpl. set_solver.
Qed.

(** ** Access *)
Section access.
Context `{!Externals, !Gcm, !Credentials, !Validators}.

(** The credentials a route asks for: the shared secret, or a token that is valid now
    and whose roles meet the handler's. *)
Definition authorized (hc : HttpConfig) (req : request) (now : Z) : Prop :=
  match hr_call req with
  | OnUpload _ =>
      hc_webhookSecret hc ≠ "" ∧
      (hr_headerToken req = Some (hc_webhookSecret hc) ∨
       hr_headerToken req = None ∧ hr_queryToken req = Some (hc_webhookSecret hc))
  | Managed c =>
      ∃ token payload, hr_bearer req = Some token ∧
        jwt_verify (ac_jwtSecret (hc_auth hc)) now token = Some payload ∧
        (required_roles c = [] ∨ ∃ r, r ∈ required_roles c ∧ r ∈ jp_roles payload)
  | _ => True
  end.

Definition refused (r : result response) (w : world) : Prop :=
  ∃ resp, r = Ok resp ∧ rs_status resp ∈ [401; 403; 429]%Z.

Lemma refused_rg url t w :
  exception_status t ∈ [401; 403; 429]%Z →
  rg eq (λ w w', w' = w) (error_response url t) refused w.
Proof.
  intros Hs. unfold error_response. rg_step. rg_step. split; [done|].
  unfold perform; simpl. rg_step. rg_step. eexists. by split.
Qed.

Lemma webhook_guard_ok secret header query :
  webhook_guard secret header query = Ok tt →
  secret ≠ "" ∧ (header = Some secret ∨ header = None ∧ query = Some secret).
Proof.
  unfold webhook_guard.
  destruct header as [t|]; [|destruct query as [t|]; [|done]];
    (destruct (String.eqb_spec t "") as [|Hne]; [done|]);
    (destruct (secret_matches secret t) eqn:Hm; [|done]);
    apply secret_matches_spec in Hm; subst t; auto.
Qed.

Lemma webhook_guard_error secret header query e :
  webhook_guard secret header query = Err e → exception_status (TExn e) = 401%Z.
Proof. unfold webhook_guard. repeat case_match; intros; by simplify_eq. Qed.

Lemma roles_guard_error required user e :
  roles_guard required user = Err e → exception_status (TExn e) = 403%Z.
Proof. unfold roles_guard. repeat case_match; intros; by simplify_eq. Qed.
End access.

(** C16: Access is controlled on every route.  A request without the credentials its
    route asks for -- the shared secret for the webhook, for the management API a
    token that verifies at the present time and carries one of the handler's roles -- is
    refused with 401, 403 or 429, whatever fails, and leaves the whole world as it was,
    at the end and at every point on the way. *)
Theorem access_controlled `{!Externals, !Gcm, !Credentials, !Validators} hc req w fs n :
  ¬ authorized hc req (d_now (w_db w)) →
  crash n fs (dispatch hc req) w = w ∧ final fs (dispatch hc req) w = w ∧
  ∃ resp, outcome fs (dispatch hc req) w = Ok resp ∧ rs_status resp ∈ [401; 403; 429]%Z.
Proof.
  intros Hna. assert (Hd : rg eq (λ w w', w' = w) (dispatch hc req) refused w).
  { unfold dispatch, webhook_route, managed_route, authorized in *. destruct (throttled req); [apply refused_rg; simpl; set_solver|].
    destruct (hr_call req) as [payload|dto| | |c]; [|by destruct Hna..|].
    - destruct (webhook_guard _ _ _) as [[]|e] eqn:Hg.
      + by apply webhook_guard_ok in Hg.
      + apply refused_rg. rewrite (webhook_guard_error _ _ _ _ Hg). set_solver.
    - rg_step. rg_step. split; [done|]. unfold perform; simpl. rg_step. unfold jwt_guard.
      destruct (hr_bearer req) as [token|] eqn:Hb; simpl; [|apply refused_rg; simpl; set_solver].
      destruct (jwt_verify _ _ token) as [payload|] eqn:Hv; simpl; [|apply refused_rg; simpl; set_solver].
      destruct (roles_guard _ _) as [[]|e] eqn:Hg.
      + destruct Hna. exists token, payload. split_and!; [done|done|].
        apply roles_guard_ok in Hg as [?|(u & r & [= <-] & ? & ?)]; eauto.
      + apply refused_rg. rewrite (roles_guard_error _ _ _ Hg). set_solver. }
  destruct (seq_unchanged _ _ _ fs n Hd) as [Hc Hf]. split_and!; [done|done|].
  exact (seq_run _ _ _ _ fs Hd).
Qed.

Import Demo DemoCipher DemoCredentials.

Definition demo_validators : Validators := {|
  is_url u := startsWith u "http";
  is_uuid _ := true;
  constraint_texts _ := ["invalid"];
|}.
#[local] Existing Instance demo_validators.

Definition demo_http : HttpConfig :=
  mkHttpConfig "hook-secret" auth_config
    (mkIngestionConfig "/app" "/srv/data" "default" (mkTenantConfig ∅ "default"))
    (mkQuotaConfig 0 0 ∅) demo_storage config 3 (λ b, [b]).

Definition viewer_token : string :=
  jwt_sign "jwt-secret" "1h" 1000 (mkPayload "u1" "ann" [VIEWER] "acme").

Definition api_request (bearer : option string) (limited : bool) (c : api_call) : request :=
  mkHttpRequest "/v1/transfers" bearer None None [] limited c.

(** A viewer may list, and may not retry. *)
Lemma access_controlled_witness :
  let req := api_request (Some viewer_token) false (Managed (RetryTransfer "t1")) in
  final [] (dispatch demo_http req) empty_world = empty_world ∧
  ∃ resp, outcome [] (dispatch demo_http req) empty_world = Ok resp ∧ rs_status resp ∈ [401; 403; 429]%Z.
Proof.
  intros req. destruct (access_controlled demo_http req empty_world [] 0) as (_ & Hf & Hr); [|by split].
  intros (token & payload & [= <-] & Hv & Hroles).
  assert (Hp : jwt_verify "jwt-secret" 1000 viewer_token = Some (mkPayload "u1" "ann" [VIEWER] "acme"))
    by (vm_compute; reflexivity).
  assert (payload = mkPayload "u1" "ann" [VIEWER] "acme") as ->
    by (pose proof (eq_trans (eq_sym Hp) Hv); congruence).
  destruct Hroles as [|(r & H1 & H2)]; [done|]. apply list_elem_of_singleton in H2. subst r.
  apply list_elem_of_In in H1. simpl in H1. naive_solver.
Defined.

Example viewer_lists :
  rs_status <$> (match outcome [] (dispatch demo_http (api_request (Some viewer_token) false
    (Managed (ListTransfers (mkListQuery None 20 0))))) empty_world with Ok r => Some r | Err _ => None end)
  = Some 200%Z.
Proof. by vm_compute. Qed.

(** The rate limiter's exception carries a bare string, and for that the filter keeps
    its initial [error]: a refused client reads 429 with the name of a server error. *)
Theorem throttled_reads_internal_error :
  ∃ e, outcome [] (dispatch demo_http (api_request None true (Login (mkLoginDto "a" "b")))) empty_world
         = Ok (mkResponse 429 (BError e)) ∧ eb_error e = Name "InternalServerError".
Proof. eexists. split; vm_compute; reflexivity. Qed.
