(* ===== verification/Isolation.v ===== *)
(** * One tenant's view of the service

    Row-level security promises more than that answers hold own rows only
    ([Transfers.tenant_isolated]): what a tenant can learn through the API does not
    depend on the other tenants at all.  This file states it as noninterference.
    Two worlds are [alike] for a tenant when they agree on the tenant's transfers,
    subscriptions, usage and stored objects, whatever else they hold; a tenant's
    requests get the same responses in both, add the same jobs to the queue and leave
    worlds that are alike again.  What the requests [needs] of the worlds: those that list,
    that no two rows of the tenant have one date; those that create, that both worlds draw
    the same ids and random bytes.  [twin] relates the runs of two programs under the same
    faults. *)
From S2P Require Import Prelude JsLang Entities Database Prog World Repository Outbox.
From S2P Require Import Ingestion Quota Storage Crypto Events Processor Transfers Auth Http.

(** ** Two runs under the same faults *)
Section twins.
Context {E : Type → Type} {W : Type} `{!Handler E W}.

Definition twin {A} (p1 p2 : prog E A) (Q : result A → W → result A → W → Prop) (w1 w2 : W) : Prop :=
  ∀ fs, ∃ r1 v1 r2 v2 fs', run fs p1 w1 = (r1, v1, fs') ∧ run fs p2 w2 = (r2, v2, fs') ∧ Q r1 v1 r2 v2.

Lemma twin_ret {A} (a1 a2 : A) (Q : result A → W → result A → W → Prop) w1 w2 :
  Q (Ok a1) w1 (Ok a2) w2 → twin (Ret a1) (Ret a2) Q w1 w2.
Proof. intros H fs. by do 5 eexists. Qed.

Lemma twin_throw {A} e1 e2 (Q : result A → W → result A → W → Prop) w1 w2 :
  Q (Err e1) w1 (Err e2) w2 → twin (Throw e1) (Throw e2) Q w1 w2.
Proof. intros H fs. by do 5 eexists. Qed.

Lemma twin_call {X} (op : E X) (Q : result X → W → result X → W → Prop) w1 w2 :
  (∀ f, Q (perform f op w1).1 (perform f op w1).2 (perform f op w2).1 (perform f op w2).2) →
  twin (call op) (call op) Q w1 w2.
Proof.
  intros H fs. specialize (H (next_fault fs)). unfold call, run.
  destruct (perform (next_fault fs) op w1) as [[a1|e1] v1], (perform (next_fault fs) op w2) as [[a2|e2] v2];
    by do 5 eexists.
Qed.

Lemma twin_mono {A} (p1 p2 : prog E A) (Q Q' : result A → W → result A → W → Prop) w1 w2 :
  twin p1 p2 Q w1 w2 → (∀ r1 v1 r2 v2, Q r1 v1 r2 v2 → Q' r1 v1 r2 v2) → twin p1 p2 Q' w1 w2.
Proof. intros H HQ fs. destruct (H fs) as (r1 & v1 & r2 & v2 & fs' & ? & ? & ?). do 5 eexists. eauto. Qed.

(** Both runs end alike: with values to go on from, or with the same error. *)
Lemma twin_bind {A B} (p1 p2 : prog E A) (f1 f2 : A → prog E B) (Q : result B → W → result B → W → Prop) w1 w2 :
  twin p1 p2 (λ r1 v1 r2 v2,
    match r1, r2 with
    | Ok a1, Ok a2 => twin (f1 a1) (f2 a2) Q v1 v2
    | Err e1, Err e2 => Q (Err e1) v1 (Err e2) v2
    | _, _ => False
    end) w1 w2 →
  twin (bind p1 f1) (bind p2 f2) Q w1 w2.
Proof.
  intros H fs. rewrite !run_bind.
  destruct (H fs) as ([a1|e1] & v1 & [a2|e2] & v2 & fs' & -> & -> & HQ); [exact (HQ fs')|done|done|].
  by do 5 eexists.
Qed.

Lemma twin_catch {A} (p1 p2 : prog E A) h1 h2 (Q : result A → W → result A → W → Prop) w1 w2 :
  twin p1 p2 (λ r1 v1 r2 v2,
    match r1, r2 with
    | Ok a1, Ok a2 => Q (Ok a1) v1 (Ok a2) v2
    | Err e1, Err e2 => twin (h1 e1) (h2 e2) Q v1 v2
    | _, _ => False
    end) w1 w2 →
  twin (catch_ p1 h1) (catch_ p2 h2) Q w1 w2.
Proof.
  intros H fs. rewrite !run_catch.
  destruct (H fs) as ([a1|e1] & v1 & [a2|e2] & v2 & fs' & -> & -> & HQ); [|done|done|exact (HQ fs')].
  by do 5 eexists.
Qed.

Context (I : W → W → Prop).

(** The same answer, and the invariant again. *)
Definition same {A} (r1 : result A) (v1 : W) (r2 : result A) (v2 : W) : Prop := r1 = r2 ∧ I v1 v2.

(** [p] cannot tell worlds related by [I] apart. *)
Definition indistinct {A} (p : prog E A) : Prop := ∀ w1 w2, I w1 w2 → twin p p same w1 w2.

Lemma indistinct_ret {A} (a : A) : indistinct (Ret a).
Proof. intros w1 w2 Hw. by apply twin_ret. Qed.

Lemma indistinct_throw {A} e : indistinct (Throw e : prog E A).
Proof. intros w1 w2 Hw. by apply twin_throw. Qed.

Lemma indistinct_bind {A B} (p : prog E A) (f : A → prog E B) :
  indistinct p → (∀ a, indistinct (f a)) → indistinct (bind p f).
Proof.
  intros Hp Hf w1 w2 Hw. apply twin_bind. eapply twin_mono; [by apply Hp|].
  intros [a1|e1] v1 [a2|e2] v2 [Hr Hv]; simplify_eq; [by apply Hf|done].
Qed.

Lemma indistinct_catch {A} (p : prog E A) h :
  indistinct p → (∀ e, indistinct (h e)) → indistinct (catch_ p h).
Proof.
  intros Hp Hh w1 w2 Hw. apply twin_catch. eapply twin_mono; [by apply Hp|].
  intros [a1|e1] v1 [a2|e2] v2 [Hr Hv]; simplify_eq; [done|by apply Hh].
Qed.

Lemma indistinct_for_each {X} (l : list X) (body : X → prog E unit) :
  (∀ x, indistinct (body x)) → indistinct (for_each l body).
Proof.
  intros H. induction l as [|x l IH]; [apply indistinct_ret|]. by apply indistinct_bind.
Qed.

Lemma indistinct_run {A} (p : prog E A) fs w1 w2 :
  indistinct p → I w1 w2 → outcome fs p w1 = outcome fs p w2 ∧ I (final fs p w1) (final fs p w2).
Proof.
  intros Hp Hw. destruct (Hp w1 w2 Hw fs) as (r1 & v1 & r2 & v2 & fs' & H1 & H2 & HQ).
  unfold outcome, final. by rewrite H1, H2.
Qed.
End twins.

(** ** Databases and worlds that agree on a tenant

    [dated]: no two rows of the tenant were created at the same instant, and no subscription
    in the future.  [ORDER BY
    created_at] leaves the order of such rows to the server, so a page is determined
    only without them. *)
Record dated (t : string) (d : db) : Prop := {
  dt_rows : ∀ i j r s, d_transfers d !! i = Some r → d_transfers d !! j = Some s →
    ft_tenantId r = t → ft_tenantId s = t → ft_createdAt r = ft_createdAt s → i = j;
  dt_subs : ∀ i j r s, d_subs d !! i = Some r → d_subs d !! j = Some s →
    es_tenantId r = t → es_tenantId s = t → es_createdAt r = es_createdAt s → i = j;
  dt_past : ∀ i s, d_subs d !! i = Some s → es_tenantId s = t → (es_createdAt s ≤ d_now d)%Z;
}.

(** Both databases draw the same ids from now on, each once, and none that is in use. *)
Record same_draws (d1 d2 : db) : Prop := {
  sd_ids : ∀ i, d_uuid d1 (d_uuid_pos d1 + i) = d_uuid d2 (d_uuid_pos d2 + i);
  sd_once : ∀ i j, d_uuid d1 (d_uuid_pos d1 + i) = d_uuid d1 (d_uuid_pos d1 + j) → i = j;
  sd_unused : ∀ i, d_subs d1 !! d_uuid d1 (d_uuid_pos d1 + i) = None ∧ d_subs d2 !! d_uuid d1 (d_uuid_pos d1 + i) = None;
}.

(** What requests need of the worlds: an order of rows, the same draws. *)
Record needs := mkNeeds { nd_order : bool; nd_draws : bool }.

(** [s1] and [s2] are the object stores. *)
Record near (t : string) (o : needs) (s1 s2 : s3_store) (d1 d2 : db) : Prop := {
  nr_rows : ∀ id r, ft_tenantId r = t → d_transfers d1 !! id = Some r ↔ d_transfers d2 !! id = Some r;
  nr_subs : ∀ id s, es_tenantId s = t → d_subs d1 !! id = Some s ↔ d_subs d2 !! id = Some s;
  nr_usage : d_usage d1 !! t = d_usage d2 !! t;
  nr_now : d_now d1 = d_now d2;
  nr_role : d_superuser d1 = false ∧ d_superuser d2 = false;
  nr_objects : ∀ id r k, d_transfers d1 !! id = Some r → ft_tenantId r = t → ft_objectKey r = Some k →
    lookup_object s1 (ft_bucket r) k = lookup_object s2 (ft_bucket r) k;
  nr_dated : nd_order o = true → dated t d1;
  nr_draws : nd_draws o = true → same_draws d1 d2;
}.

Lemma near_set_tenant t o s1 s2 d1 d2 u1 u2 :
  near t o s1 s2 d1 d2 → near t o s1 s2 (set_tenant u1 d1) (set_tenant u2 d2).
Proof.
  intros []. split; try done.
  - intros Ho. by destruct (nr_dated0 Ho).
  - intros Ho. by destruct (nr_draws0 Ho).
Qed.

(** The worlds; the jobs added since the queues were [q1] and [q2] are the same. *)
Record alike (t : string) (o : needs) (q1 q2 : list Job) (w1 w2 : world) : Prop := {
  al_near : near t o (w_s3 w1) (w_s3 w2) (w_db w1) (w_db w2);
  al_jobs : ∃ jobs, w_queue w1 = q1 ++ jobs ∧ w_queue w2 = q2 ++ jobs;
  al_random : nd_draws o = true → ∀ i, w_random w1 (w_random_pos w1 + i) = w_random w2 (w_random_pos w2 + i);
}.

Lemma alike_set_db t o q1 q2 w1 w2 d1 d2 :
  alike t o q1 q2 w1 w2 → near t o (w_s3 w1) (w_s3 w2) d1 d2 →
  alike t o q1 q2 (set_db d1 w1) (set_db d2 w2).
Proof. intros [] ?. by split. Qed.

(** ** Tables that agree on the rows a condition selects *)
Lemma list_filter_perm {A} (p : A → bool) (l1 l2 : list A) :
  l1 ≡ₚ l2 → List.filter p l1 ≡ₚ List.filter p l2.
Proof.
  induction 1 as [|x l1 l2 _ IH|x y l|l1 l2 l3 _ IH1 _ IH2]; simpl.
  - done.
  - destruct (p x); by rewrite ?IH.
  - destruct (p x), (p y); try done. apply Permutation_swap.
  - by etrans.
Qed.

Lemma filter_values {A} (p : A → bool) (l : list (string * A)) :
  List.filter p (map snd l) = map snd (List.filter (λ x, p x.2) l).
Proof. induction l as [|[k a] l IH]; simpl; [done|]. destruct (p a); simpl; by rewrite IH. Qed.

Lemma rows_perm {A} (p : A → bool) (m1 m2 : gmap string A) :
  (∀ id a, p a = true → m1 !! id = Some a ↔ m2 !! id = Some a) →
  List.filter p (map snd (map_to_list m1)) ≡ₚ List.filter p (map snd (map_to_list m2)).
Proof.
  intros H. rewrite !filter_values. apply Permutation_map, NoDup_Permutation.
  1-2: apply NoDup_ListNoDup, List.NoDup_filter, NoDup_ListNoDup, NoDup_map_to_list.
  intros [id a]. rewrite !list_elem_of_In, !filter_In, <- !list_elem_of_In, !elem_of_map_to_list. simpl.
  destruct (p a) eqn:Hp; [|naive_solver]. by rewrite (H id a Hp).
Qed.

(** Sorting by a key that tells the elements apart forgets the order of the input. *)
Lemma isort_unique {A} (key : A → Z) (l1 l2 : list A) :
  l1 ≡ₚ l2 → (∀ a b, a ∈ l1 → b ∈ l1 → key a = key b → a = b) →
  isort (λ a b, key a <=? key b)%Z l1 = isort (λ a b, key a <=? key b)%Z l2.
Proof.
  intros Hp Hkey. eapply StronglySorted_unique_strong; [|apply isort_StronglySorted..|].
  - intros a b Ha Hb Hab Hba. rewrite elem_of_isort in Ha, Hb. rewrite <- Hp in Hb.
    apply Hkey; [done|done|]. simpl in *. lia.
  - by rewrite !isort_perm.
Qed.

(** ** Statements in the tenant's session *)
Section statements.
Context (t : string) (o : needs) (s1 s2 : s3_store).

Definition blind {A} (m : dbM A) : Prop :=
  ∀ d1 d2, near t o s1 s2 d1 d2 → tenant_session t d1 → tenant_session t d2 →
  (m d1).1 = (m d2).1 ∧ near t o s1 s2 (m d1).2 (m d2).2 ∧
  tenant_session t (m d1).2 ∧ tenant_session t (m d2).2.

Lemma session_sees d r : tenant_session t d → tenant_isolation d r = String.eqb (ft_tenantId r) t.
Proof.
  intros (Ht & Hs & Hne). unfold tenant_isolation. rewrite Ht, Hs.
  by destruct (String.eqb_spec t "").
Qed.

Lemma own_row d1 d2 id :
  near t o s1 s2 d1 d2 →
  (∃ r, d_transfers d1 !! id = Some r ∧ d_transfers d2 !! id = Some r ∧ ft_tenantId r = t) ∨
  ((∀ r, d_transfers d1 !! id = Some r → ft_tenantId r ≠ t) ∧
   (∀ r, d_transfers d2 !! id = Some r → ft_tenantId r ≠ t)).
Proof.
  intros Hn. pose proof (nr_rows _ _ _ _ _ _ Hn id) as Hid.
  destruct (d_transfers d1 !! id) as [r|] eqn:H1.
  - destruct (decide (ft_tenantId r = t)) as [Hr|Hr].
    + left. exists r. split_and!; [done|by apply Hid|done].
    + right. split; [by intros ? [= <-]|]. intros s Hs Hst. apply Hid in Hs as [= <-]; done.
  - right. split; [done|]. intros s Hs Hst. by apply Hid in Hs.
Qed.

Lemma blind_ret {A} (a : A) : blind (db_ret a).
Proof. by intros d1 d2 ???. Qed.

Lemma blind_throw {A} e : blind (db_throw e : dbM A).
Proof. by intros d1 d2 ???. Qed.

Lemma blind_bind {A B} (m : dbM A) (f : A → dbM B) :
  blind m → (∀ a, blind (f a)) → blind (db_bind m f).
Proof.
  intros Hm Hf d1 d2 Hn H1 H2. destruct (Hm d1 d2 Hn H1 H2) as (Hr & Hn' & H1' & H2').
  unfold db_bind. destruct (m d1) as [[a1|e1] d1'], (m d2) as [[a2|e2] d2']; simplify_eq/=; [|done].
  by apply Hf.
Qed.

Lemma blind_find id : blind (find_transfer id).
Proof.
  intros d1 d2 Hn H1 H2. split_and!; [|done..]. unfold find_transfer. simpl.
  destruct (own_row d1 d2 id Hn) as [(r & -> & -> & Hr)|[Ho1 Ho2]]; simpl.
  - rewrite !session_sees by done. by rewrite Hr, String.eqb_refl.
  - assert (Hide : ∀ d, tenant_session t d → (∀ r, d_transfers d !! id = Some r → ft_tenantId r ≠ t) →
      (r ← d_transfers d !! id; if tenant_isolation d r then Some r else None) = None); [|by rewrite !Hide].
    intros d Hd Hd'. destruct (d_transfers d !! id) as [r|] eqn:Hr; [|done]. simpl.
    rewrite session_sees by done. destruct (String.eqb_spec (ft_tenantId r) t); [|done]. by destruct (Hd' r).
Qed.

(** A patch that leaves where a row belongs, its date and its object alone. *)
Definition discreet (patch : FileTransfer → FileTransfer) : Prop :=
  ∀ r, ft_tenantId (patch r) = ft_tenantId r ∧ ft_createdAt (patch r) = ft_createdAt r ∧
       ft_bucket (patch r) = ft_bucket r ∧ ft_objectKey (patch r) = ft_objectKey r.

Lemma near_patched id r r' d1 d2 :
  near t o s1 s2 d1 d2 → d_transfers d1 !! id = Some r → ft_tenantId r = t →
  ft_tenantId r' = t → ft_createdAt r' = ft_createdAt r →
  ft_bucket r' = ft_bucket r → ft_objectKey r' = ft_objectKey r →
  near t o s1 s2 (set_transfers (<[id := r']> (d_transfers d1)) d1)
                 (set_transfers (<[id := r']> (d_transfers d2)) d2).
Proof.
  intros Hn Hr Ht Ht' Hc Hb Hk. destruct Hn. split; simpl; try done.
  - intros i s Hs. rewrite !lookup_insert. case_decide; [done|]. by apply nr_rows0.
  - intros i s k Hi Hs Hk'. rewrite lookup_insert in Hi. case_decide; simplify_eq; [|by eapply nr_objects0].
    rewrite Hb. rewrite Hk in Hk'. by eapply nr_objects0.
  - intros Ho. destruct (nr_dated0 Ho) as [Hd Hs Hp]. split; [|done..]. simpl.
    intros i j x y. rewrite !lookup_insert.
    repeat case_decide; intros; simplify_eq; eauto; rewrite ?Hc in *; eauto.
  - intros Ho. by destruct (nr_draws0 Ho).
Qed.

Lemma blind_update id patch : discreet patch → blind (update_transfer id patch).
Proof.
  intros Hp d1 d2 Hn H1 H2. unfold update_transfer.
  destruct (own_row d1 d2 id Hn) as [(r & Hr1 & Hr2 & Hr)|[Ho1 Ho2]].
  - rewrite Hr1, Hr2, <- (nr_now _ _ _ _ _ _ Hn), !session_sees by done.
    set (r' := touch (d_now d1) (patch r)). destruct (Hp r) as (Ht & Hc & Hb & Hk).
    assert (Hr' : ft_tenantId r' = t) by (simpl; congruence).
    rewrite Hr', Hr, String.eqb_refl. destruct (check_transfer r') as [[]|e]; [|done].
    split_and!; [done| |done|done]. by eapply near_patched.
  - assert (Hide : ∀ d, tenant_session t d → (∀ r, d_transfers d !! id = Some r → ft_tenantId r ≠ t) →
      update_transfer id patch d = (Ok tt, d)).
    { intros d Hd Hd'. unfold update_transfer. destruct (d_transfers d !! id) as [r|] eqn:Hr; [|done].
      rewrite session_sees by done. destruct (String.eqb_spec (ft_tenantId r) t); [|done]. by destruct (Hd' r). }
    pose proof (Hide d1 H1 Ho1) as E1. pose proof (Hide d2 H2 Ho2) as E2.
    unfold update_transfer in E1, E2. rewrite E1, E2. done.
Qed.

(** The rows a query sees, in whatever order either table yields them. *)
Lemma seen_rows d1 d2 :
  near t o s1 s2 d1 d2 → tenant_session t d1 → tenant_session t d2 →
  visible_transfers d1 ≡ₚ visible_transfers d2.
Proof.
  intros Hn H1 H2. unfold visible_transfers.
  rewrite (filter_ext _ _ (λ r, session_sees d1 r H1)), (filter_ext _ _ (λ r, session_sees d2 r H2)).
  apply rows_perm. intros id r Hr%String.eqb_eq. by apply (nr_rows _ _ _ _ _ _ Hn).
Qed.

Lemma blind_count p : blind (count_transfers p).
Proof.
  intros d1 d2 Hn H1 H2. split_and!; [|done..]. simpl. f_equal.
  apply Permutation_length, list_filter_perm. by apply seen_rows.
Qed.

(** A page sorted by the date of creation, in either direction. *)
Lemma blind_select p (key : FileTransfer → Z) n k :
  nd_order o = true → (∀ a b, key a = key b → ft_createdAt a = ft_createdAt b) →
  blind (select_transfers p (λ a b, key a <=? key b)%Z n k).
Proof.
  intros Ho Hkey d1 d2 Hn H1 H2. split_and!; [|done..]. simpl. do 3 f_equal.
  apply isort_unique; [by apply list_filter_perm, seen_rows|].
  intros a b. rewrite !list_elem_of_In, !filter_In, <- !list_elem_of_In, !elem_of_visible.
  intros [[[i Hi] Ha] _] [[[j Hj] Hb] _] Hk. rewrite session_sees in Ha, Hb by done.
  apply String.eqb_eq in Ha, Hb.
  assert (i = j); [|by simplify_eq]. eapply (dt_rows t d1); eauto. by apply (nr_dated _ _ _ _ _ _ Hn).
Qed.

Lemma blind_list status limit offset : nd_order o = true → blind (list_statement status limit offset).
Proof.
  intros Ho. unfold list_statement. apply blind_bind.
  - apply (blind_select _ (λ r, - ft_createdAt r)%Z); [done|]. intros. lia.
  - intros items. apply blind_bind; [apply blind_count|]. intros n. apply blind_ret.
Qed.

(** The statements of a transaction. *)
Definition blind_stmt (X : Type) (s : stmt X) : Prop := match s with Stmt m => blind m end.

Lemma blind_transaction {A} (p : prog stmt A) : all_ops blind_stmt p → blind (in_transaction p).
Proof.
  induction p as [a|e|X op k IH]; simpl; [intros _; apply blind_ret|intros _; apply blind_throw|].
  destruct op as [X m]. intros [Hm Hk] d1 d2 Hn H1 H2.
  destruct (Hm d1 d2 Hn H1 H2) as (Hr & Hn' & H1' & H2').
  destruct (m d1) as [r1 d1'], (m d2) as [r2 d2']. simplify_eq/=. by apply IH.
Qed.
End statements.

(** ** Handlers *)
Section handlers.
Context (t : string) (o : needs).

(** A statement that reads and writes nothing but what the tenant owns. *)
Definition steady (s1 s2 : s3_store) {A} (m : dbM A) : Prop :=
  ∀ d1 d2, near t o s1 s2 d1 d2 → (m d1).1 = (m d2).1 ∧ near t o s1 s2 (m d1).2 (m d2).2.

Lemma steady_transact s1 s2 {A} (m : dbM A) : steady s1 s2 m → steady s1 s2 (transact m).
Proof.
  intros Hm d1 d2 Hn. destruct (Hm d1 d2 Hn) as [Hr Hn'].
  unfold transact. destruct (m d1) as [[a1|e1] d1'], (m d2) as [[a2|e2] d2']; simplify_eq/=; [|done].
  split; [done|]. by apply near_set_tenant.
Qed.

Lemma steady_tenant s1 s2 {A} (m : dbM A) :
  t ≠ "" → blind t o s1 s2 m → steady s1 s2 (db_bind (set_config t) (λ _, m)).
Proof.
  intros Hne Hm d1 d2 Hn. unfold db_bind, set_config. simpl. destruct (nr_role _ _ _ _ _ _ Hn).
  destruct (Hm (set_tenant (Some t) d1) (set_tenant (Some t) d2)) as (Hr & Hn' & _); [|done..].
  by apply near_set_tenant.
Qed.

Context `{!Externals} (q1 q2 : list Job).
Abbreviation unseen := (indistinct (alike t o q1 q2)).

Lemma steady_perform {A} (m : dbM A) f w1 w2 :
  (∀ s1 s2, steady s1 s2 m) → alike t o q1 q2 w1 w2 →
  same (alike t o q1 q2) (perform f (Db m) w1).1 (perform f (Db m) w1).2
                         (perform f (Db m) w2).1 (perform f (Db m) w2).2.
Proof.
  intros Hm Hw. unfold perform, same. simpl.
  destruct (steady_transact _ _ m (Hm _ _) (w_db w1) (w_db w2) (al_near _ _ _ _ _ _ Hw)) as [Hr Hn].
  destruct (transact m (w_db w1)) as [r1 d1], (transact m (w_db w2)) as [r2 d2]. simplify_eq/=.
  destruct f; simpl; (split; [done|]); try done; by apply alike_set_db.
Qed.

Lemma unseen_sql {A} (m : dbM A) : (∀ s1 s2, steady s1 s2 m) → unseen (sql m).
Proof. intros Hm w1 w2 Hw. apply twin_call. intros f. by apply steady_perform. Qed.

Lemma unseen_now : unseen (call Now).
Proof.
  intros w1 w2 Hw. apply twin_call. intros f. unfold perform, same. simpl.
  by rewrite (nr_now _ _ _ _ _ _ (al_near _ _ _ _ _ _ Hw)).
Qed.

Lemma unseen_queue j : unseen (call (QueueAdd j)).
Proof.
  intros w1 w2 Hw. apply twin_call. intros f.
  assert (Hadd : alike t o q1 q2 (set_queue (w_queue w1 ++ [j]) w1) (set_queue (w_queue w2 ++ [j]) w2)).
  { destruct Hw as [Hn (jobs & H1 & H2) Hr]. split; [done| |done]. exists (jobs ++ [j]).
    simpl. by rewrite H1, H2, !app_assoc. }
  by destruct f.
Qed.

(** A tenant user's transaction. *)
Lemma unseen_scoped {A} user (work : prog stmt A) :
  is_admin user = false → au_tenantId user = t → t ≠ "" →
  (∀ s1 s2, all_ops (blind_stmt t o s1 s2) work) → unseen (scoped user work).
Proof.
  intros Had Hu Hne Hw. unfold scoped. rewrite Had, Hu. apply unseen_sql. intros s1 s2.
  apply steady_tenant; [done|]. by apply blind_transaction.
Qed.

Context (user : AuthUser) (Hadmin : is_admin user = false) (Htenant : au_tenantId user = t) (Hne : t ≠ "").

Lemma unseen_list query : nd_order o = true → unseen (list_scoped query user).
Proof.
  intros Ho. apply unseen_scoped; [done..|]. intros s1 s2. repeat ops_step. by apply blind_list.
Qed.

Lemma reset_discreet : discreet reset_patch.
Proof. by intros r. Qed.

Lemma retry_work_blind s1 s2 id : all_ops (blind_stmt t o s1 s2) (retry_work id).
Proof.
  unfold retry_work, find_or_fail.
  repeat ops_step; first [apply blind_find | apply blind_update, reset_discreet].
Qed.

Lemma batch_work_blind s1 s2 status before limit :
  nd_order o = true → all_ops (blind_stmt t o s1 s2) (batch_work status before limit).
Proof.
  intros Ho. unfold batch_work. repeat ops_step; [|apply blind_update, reset_discreet].
  by apply (blind_select _ _ _ _ _ ft_createdAt).
Qed.

Lemma unseen_retry n id : unseen (retry n id user).
Proof.
  apply indistinct_bind; [apply unseen_scoped; [done..|]; intros; apply retry_work_blind|].
  intros r. apply indistinct_bind; [apply unseen_queue|]. intros _. apply indistinct_ret.
Qed.

Lemma unseen_retryBatch n dto : nd_order o = true → unseen (retryBatch n dto user).
Proof.
  intros Ho. unfold retryBatch. destruct (bool_decide _); [apply indistinct_throw|].
  apply indistinct_bind; [apply unseen_scoped; [done..|]; intros; by apply batch_work_blind|].
  intros ids. apply indistinct_bind; [apply indistinct_for_each; intros; apply unseen_queue|].
  intros _. apply indistinct_ret.
Qed.

(** The lookup of a tenant user. *)
Definition find_own (id : string) : dbM (option FileTransfer) :=
  db_bind (set_config t) (λ _, in_transaction (call (Stmt (find_transfer id)))).

Lemma find_own_steady id s1 s2 : steady s1 s2 (find_own id).
Proof. apply steady_tenant; [done|]. apply blind_transaction. ops_step. apply blind_find. Qed.

(** What it answers is the tenant's row, which the database still holds. *)
Lemma find_own_holds id f w r :
  d_superuser (w_db w) = false → (perform f (Db (find_own id)) w).1 = Ok (Some r) →
  d_transfers (w_db (perform f (Db (find_own id)) w).2) !! id = Some r ∧ ft_tenantId r = t.
Proof.
  intros Hs Hr. unfold perform in *. destruct f; [|done|done]. simpl in *.
  unfold find_own, transact, db_bind in *. simpl in *.
  destruct (d_transfers (w_db w) !! id) as [x|] eqn:Hx; [|done]. simpl in *.
  rewrite (session_sees t) in Hr by done. destruct (String.eqb_spec (ft_tenantId x) t); [|done].
  simpl in Hr. by simplify_eq.
Qed.

Lemma getById_twin id w1 w2 :
  alike t o q1 q2 w1 w2 →
  twin (getById id user) (getById id user) (λ r1 v1 r2 v2,
    same (alike t o q1 q2) r1 v1 r2 v2 ∧
    ∀ r, r1 = Ok r → d_transfers (w_db v1) !! id = Some r ∧ ft_tenantId r = t) w1 w2.
Proof.
  intros Hw. unfold getById, scoped. rewrite Hadmin, Htenant. fold (find_own id). apply twin_bind, twin_call.
  intros f. destruct (steady_perform _ f w1 w2 (find_own_steady id) Hw) as [Hr Hv].
  pose proof (find_own_holds id f w1) as Hh. revert Hr Hv Hh.
  destruct (perform f (Db (find_own id)) w1) as [[[r1|]|e1] v1],
    (perform f (Db (find_own id)) w2) as [[r2|e2] v2]; simpl; intros Hr Hv Hh; simplify_eq.
  - apply twin_ret. split; [done|]. intros r [= <-]. apply Hh; [|done].
    by apply (nr_role _ _ _ _ _ _ (al_near _ _ _ _ _ _ Hw)).
  - by apply twin_throw.
  - done.
Qed.

(** A download reads the object of such a row only. *)
Lemma getObject_twin bucket key w1 w2 :
  alike t o q1 q2 w1 w2 → lookup_object (w_s3 w1) bucket key = lookup_object (w_s3 w2) bucket key →
  twin (getObject bucket key) (getObject bucket key) (same (alike t o q1 q2)) w1 w2.
Proof.
  intros Hw Hobj. unfold getObject. apply twin_bind, twin_call. intros f. unfold perform. simpl.
  rewrite Hobj. destruct (lookup_object (w_s3 w2) bucket key), f; simpl; by try apply twin_ret.
Qed.

Lemma unseen_download `{!Gcm} cc network id : unseen (download cc network id user).
Proof.
  intros w1 w2 Hw. unfold download. apply twin_bind. eapply twin_mono; [by apply getById_twin|].
  intros [r'|e] v1 [r|e'] v2 [[[= <-] Hv] Hown]; [|done].
  destruct (negb _ || negb _) eqn:Hguard; [by apply twin_throw|]. apply twin_bind.
  apply orb_false_iff in Hguard as [_ Hkey]. destruct (Hown r' eq_refl) as [Hrow Ht].
  destruct (ft_objectKey r') as [k|] eqn:Hk; [|done].
  eapply twin_mono; [apply getObject_twin; [done|]|].
  { by eapply (nr_objects _ _ _ _ _ _ (al_near _ _ _ _ _ _ Hv)). }
  intros [obj|e] u1 [obj'|e'] u2 [[= <-] Hu]; [|done].
  apply indistinct_bind; [| |done].
  - destruct (ft_encrypted r' && _); [|apply indistinct_ret].
    apply indistinct_bind; [|intros; apply indistinct_ret].
    destruct (createDecryptStream cc _); [apply indistinct_ret|apply indistinct_throw].
  - intros; apply indistinct_ret.
Qed.

(** Subscriptions are kept apart by the conditions of the queries. *)
Lemma owned_subs s1 s2 d1 d2 (p : EventSubscription → bool) :
  near t o s1 s2 d1 d2 → (∀ s, p s = true → es_tenantId s = t) →
  List.filter p (map snd (map_to_list (d_subs d1))) ≡ₚ List.filter p (map snd (map_to_list (d_subs d2))).
Proof. intros Hn Hp. apply rows_perm. intros id s Hs. apply (nr_subs _ _ _ _ _ _ Hn). auto. Qed.

Lemma unseen_list_subscriptions : nd_order o = true → unseen (list_subscriptions user).
Proof.
  intros Ho. apply unseen_sql. intros s1 s2 d1 d2 Hn. split; [|done]. simpl. rewrite Htenant. f_equal.
  apply (isort_unique (λ s, - es_createdAt s)%Z).
  - eapply owned_subs; [done|]. by intros s Hs%String.eqb_eq.
  - intros a b. rewrite !list_elem_of_In, !filter_In, <- !list_elem_of_In, !list_elem_of_fmap.
    intros [([i a'] & -> & Hi%elem_of_map_to_list) Ha%String.eqb_eq]
           [([j b'] & -> & Hj%elem_of_map_to_list) Hb%String.eqb_eq] Hk. simpl in *.
    assert (i = j); [|congruence]. eapply (dt_subs t d1); eauto; [by apply (nr_dated _ _ _ _ _ _ Hn)|lia].
Qed.

Lemma delete_subscription_steady s1 s2 id : steady s1 s2 (delete_subscription id).
Proof.
  intros d1 d2 []. split; [done|]. split; simpl; try done.
  - intros i s Hs. rewrite !lookup_delete. case_decide; [done|]. by apply nr_subs0.
  - intros Ho. destruct (nr_dated0 Ho). split; simpl; [done| |].
    + intros i j r s [_ ?]%lookup_delete_Some [_ ?]%lookup_delete_Some. eauto.
    + intros i s [_ ?]%lookup_delete_Some. eauto.
  - intros Ho. destruct (nr_draws0 Ho) as [Hi Hj Hu]. split; simpl; [done..|].
    intros i. rewrite !lookup_delete. case_decide; [done|]. apply Hu.
Qed.

Lemma unseen_remove_subscription id : unseen (remove_subscription user id).
Proof.
  intros w1 w2 Hw. unfold remove_subscription. rewrite Htenant. apply twin_bind, twin_call. intros f.
  set (p := λ s : EventSubscription, _).
  assert (Hp : isort any_order (List.filter p (map snd (map_to_list (d_subs (w_db w1))))) ≡ₚ
               isort any_order (List.filter p (map snd (map_to_list (d_subs (w_db w2)))))).
  { rewrite !isort_perm. eapply owned_subs; [apply Hw|]. by intros s [_ Hs%String.eqb_eq]%andb_true_iff. }
  assert (Hsame : ∀ w, set_db (set_tenant (d_tenant (w_db w)) (w_db w)) w = w) by (by intros [[]]).
  unfold perform. simpl. rewrite !Hsame. destruct f; simpl; [|by split..].
  destruct (isort any_order (List.filter p (map snd (map_to_list (d_subs (w_db w1)))))) as [|x l].
  - apply Permutation_nil_l in Hp as <-. by apply twin_throw.
  - destruct (isort any_order (List.filter p (map snd (map_to_list (d_subs (w_db w2)))))) as [|y l'].
    { by apply Permutation_nil_r in Hp. }
    apply unseen_sql; [|done]. intros s1 s2. apply delete_subscription_steady.
Qed.

Lemma usage_own tenant : usage_target user tenant = t.
Proof.
  unfold usage_target. unfold is_admin in Hadmin. by rewrite Hadmin, andb_false_r.
Qed.

Lemma unseen_usage qc tenant : unseen (usage_endpoint qc user tenant).
Proof.
  unfold usage_endpoint, summary, getUsage. rewrite usage_own.
  apply indistinct_bind; [|intros; apply indistinct_ret].
  apply indistinct_bind; [|intros; apply indistinct_ret].
  apply unseen_sql. intros s1 s2 d1 d2 Hn. split; [|done]. simpl. by rewrite (nr_usage _ _ _ _ _ _ Hn).
Qed.

(** A new subscription, later than those there are. *)
Definition later (d : db) : Prop :=
  ∀ i s, d_subs d !! i = Some s → es_tenantId s = t → (es_createdAt s < d_now d)%Z.

Lemma near_subscribed s1 s2 d1 d2 (mk : string → Z → EventSubscription) :
  nd_draws o = true → (nd_order o = true → later d1) →
  (∀ id now, es_tenantId (mk id now) = t ∧ es_createdAt (mk id now) = now) → near t o s1 s2 d1 d2 →
  (insert_subscription mk d1).1 = (insert_subscription mk d2).1 ∧
  near t o s1 s2 (insert_subscription mk d1).2 (insert_subscription mk d2).2.
Proof.
  intros Hd Hlater Hmk []. destruct (nr_draws0 Hd) as [Hids Honce Hfree].
  pose proof (Hids 0%nat) as Hid. destruct (Hfree 0%nat) as [Hf1 Hf2]. rewrite !Nat.add_0_r in *.
  unfold insert_subscription. rewrite <- Hid, <- nr_now0, Hf1, Hf2.
  set (id := d_uuid d1 (d_uuid_pos d1)) in *. destruct (Hmk id (d_now d1)) as [Ht Hc].
  destruct (negb (_ && _ && _)); [by split|]. destruct (negb (_ && _ && _)); [by split|].
  rewrite !bool_decide_eq_false_2 by (by intros []). split; [done|]. split; simpl; try done.
  - intros i x Hx. rewrite !lookup_insert. case_decide; [done|]. by apply nr_subs0.
  - intros Ho. destruct (nr_dated0 Ho) as [Hr Hs Hp]. specialize (Hlater Ho). split; simpl; [done| |].
    + intros i j x y. rewrite !lookup_insert. repeat case_decide; intros Hx Hy Htx Hty Heq; simplify_eq; [done|..].
      * specialize (Hlater _ _ Hy Hty). rewrite Hc in Heq. lia.
      * specialize (Hlater _ _ Hx Htx). rewrite Hc in Heq. lia.
      * by eapply Hs.
    + intros i x. rewrite lookup_insert. case_decide; intros; simplify_eq; [by rewrite Hc|]. by eapply Hp.
  - intros _. split; simpl.
    + intros i. rewrite <- !Nat.add_succ_r. apply Hids.
    + intros i j. rewrite <- !Nat.add_succ_r. intros Heq%Honce. lia.
    + intros i. rewrite <- Nat.add_succ_r, !lookup_insert.
      assert (id ≠ d_uuid d1 (d_uuid_pos d1 + S i)).
      { unfold id. rewrite <- (Nat.add_0_r (d_uuid_pos d1)) at 1. intros Heq%Honce. lia. }
      rewrite !decide_False by done. apply Hfree.
Qed.

Lemma subscribe_twin dto secret w1 w2 :
  nd_draws o = true → (nd_order o = true → later (w_db w1)) → alike t o q1 q2 w1 w2 →
  let stmt := insert_subscription (λ id now,
    mkSubscription id (au_tenantId user) (sd_url dto) (sd_events dto) secret true now) in
  twin (sql stmt) (sql stmt) (same (alike t o q1 q2)) w1 w2.
Proof.
  intros Hd Hl Hw stmt. apply twin_call. intros f. unfold perform, same. simpl.
  destruct (near_subscribed (w_s3 w1) (w_s3 w2) (w_db w1) (w_db w2) (λ id now,
    mkSubscription id (au_tenantId user) (sd_url dto) (sd_events dto) secret true now) Hd Hl) as [Hr Hn];
    [done|apply Hw|]. fold stmt in Hr, Hn. unfold transact.
  destruct (stmt (w_db w1)) as [[x1|e1] d1], (stmt (w_db w2)) as [[x2|e2] d2]; simplify_eq/=;
    destruct f; simpl; (split; [done|]); try done; apply alike_set_db; try done; first [by apply near_set_tenant | apply Hw].
Qed.

Lemma random_twin n w1 w2 :
  nd_draws o = true → alike t o q1 q2 w1 w2 →
  twin (call (RandomBytes n)) (call (RandomBytes n))
    (λ r1 v1 r2 v2, same (alike t o q1 q2) r1 v1 r2 v2 ∧ w_db v1 = w_db w1) w1 w2.
Proof.
  intros Hd Hw. apply twin_call. intros f. unfold perform, same. simpl.
  pose proof (al_random _ _ _ _ _ _ Hw Hd) as Hrand.
  assert (Hg : ∀ p1 p2, (∀ i, w_random w1 (p1 + i) = w_random w2 (p2 + i)) →
    map (w_random w1) (seq p1 n) = map (w_random w2) (seq p2 n)).
  { clear. induction n as [|n IH]; intros p1 p2 Hp; [done|]. simpl. f_equal.
    - specialize (Hp 0%nat). by rewrite !Nat.add_0_r in Hp.
    - apply IH. intros i. specialize (Hp (S i)). by rewrite !Nat.add_succ_r in Hp. }
  rewrite (Hg _ _ Hrand). split; [|done]. split; [done|]. destruct Hw as [Hn Hj Hr]. split; [done|done|].
  intros _ i. simpl. rewrite <- !Nat.add_assoc. apply Hrand.
Qed.

Lemma create_twin dto w1 w2 :
  nd_draws o = true → (nd_order o = true → later (w_db w1)) → alike t o q1 q2 w1 w2 →
  twin (create_subscription user dto) (create_subscription user dto) (same (alike t o q1 q2)) w1 w2.
Proof.
  intros Hd Hl Hw. unfold create_subscription. apply twin_bind. destruct (sd_secret dto) as [secret|].
  { apply twin_ret. by apply subscribe_twin. }
  apply twin_bind. eapply twin_mono; [by apply random_twin|].
  intros [b1|e1] v1 [b2|e2] v2 [[Hr Hv] Hdb]; simplify_eq; [|done].
  apply twin_ret, subscribe_twin; [done|by rewrite Hdb|done].
Qed.

(** The requests that list, and so need an order. *)
Definition lists (c : managed_call) : bool :=
  match c with ListTransfers _ | RetryBatch _ | ListSubscriptions => true | _ => false end.

(** The request that draws an id and a secret. *)
Definition creates (c : managed_call) : bool :=
  match c with CreateSubscription _ => true | _ => false end.

Lemma handler_twin `{!Gcm, !Credentials} hc c w1 w2 :
  (lists c = true → nd_order o = true) →
  (creates c = true → nd_draws o = true ∧ (nd_order o = true → later (w_db w1))) →
  roles_guard (required_roles c) (Some user) = Ok tt → alike t o q1 q2 w1 w2 →
  twin (managed_handler hc user c) (managed_handler hc user c) (same (alike t o q1 q2)) w1 w2.
Proof.
  intros Hlists Hcr Hroles Hw.
  assert (Hdone : ∀ X (p : P X) (g : X → body), twin p p (same (alike t o q1 q2)) w1 w2 →
    twin (x <- p ;; Ret (g x)) (x <- p ;; Ret (g x)) (same (alike t o q1 q2)) w1 w2).
  { intros X p g Hp. apply twin_bind. eapply twin_mono; [exact Hp|].
    intros [x1|e1] v1 [x2|e2] v2 [Hr Hv]; simplify_eq; [by apply twin_ret|by split]. }
  destruct c; simpl; apply Hdone.
  - exfalso. revert Hroles. unfold is_admin in Hadmin. unfold roles_guard. simpl. by rewrite Hadmin.
  - by apply unseen_list; [auto|].
  - eapply twin_mono; [by apply getById_twin|]. by intros ???? [? _].
  - by apply unseen_download.
  - by apply unseen_retryBatch; [auto|].
  - by apply unseen_retry.
  - by apply create_twin; [apply Hcr..|].
  - by apply unseen_list_subscriptions; [auto|].
  - by apply unseen_remove_subscription.
  - by apply unseen_usage.
Qed.
End handlers.

(** ** Requests *)
Section requests.
Context `{!Externals, !Gcm, !Credentials, !Validators}.

(** A request of the management API that carries a token of a user of the tenant who
    is not an admin, or no token that is valid at any time. *)
Definition on_behalf (hc : HttpConfig) (t : string) (req : request) : Prop :=
  ∃ c, hr_call req = Managed c ∧
    ∀ now user, jwt_guard (hc_auth hc) now (hr_bearer req) = Some user →
      is_admin user = false ∧ au_tenantId user = t.

Definition listing (req : request) : bool :=
  match hr_call req with Managed c => lists c | _ => false end.
Definition creating (req : request) : bool :=
  match hr_call req with Managed c => creates c | _ => false end.

(** Requests served one after the other, each after a pause and under its own faults. *)
Record visit := mkVisit { vi_pause : Z; vi_request : request; vi_faults : list fault }.

Definition pass (pause : Z) (w : world) : world := set_clock (d_now (w_db w) + pause) w.

Fixpoint conversation (hc : HttpConfig) (l : list visit) (w : world) : list (result response) * world :=
  match l with
  | [] => ([], w)
  | v :: l' =>
      let w0 := pass (vi_pause v) w in
      let rest := conversation hc l' (final (vi_faults v) (dispatch hc (vi_request v)) w0) in
      (outcome (vi_faults v) (dispatch hc (vi_request v)) w0 :: rest.1, rest.2)
  end.

(** Before a creation some time passes. *)
Definition paced (v : visit) : Prop := (0 ≤ vi_pause v)%Z ∧ (creating (vi_request v) = true → (0 < vi_pause v)%Z).

Context (t : string) (o : needs) (q1 q2 : list Job).
Abbreviation unseen := (indistinct (alike t o q1 q2)).

Lemma unseen_error_response url e : unseen (error_response url e).
Proof. apply indistinct_bind; [apply unseen_now|]. intros. apply indistinct_ret. Qed.

Lemma respond_twin req (handler : P body) w1 w2 :
  alike t o q1 q2 w1 w2 → twin handler handler (same (alike t o q1 q2)) w1 w2 →
  twin (respond req (plain handler)) (respond req (plain handler)) (same (alike t o q1 q2)) w1 w2.
Proof.
  intros Hw Hh. unfold respond. destruct (pipes _); [by apply unseen_error_response|].
  apply twin_bind, twin_catch, twin_bind. eapply twin_mono; [exact Hh|].
  intros [b1|e1] v1 [b2|e2] v2 [Hr Hv]; simplify_eq; [by apply twin_ret, twin_ret|].
  apply twin_ret. by apply unseen_error_response.
Qed.

Lemma dispatch_twin hc req w1 w2 :
  t ≠ "" → on_behalf hc t req → (listing req = true → nd_order o = true) →
  (creating req = true → nd_draws o = true ∧ (nd_order o = true → later t (w_db w1))) →
  alike t o q1 q2 w1 w2 →
  twin (dispatch hc req) (dispatch hc req) (same (alike t o q1 q2)) w1 w2.
Proof.
  intros Hne (c & Hc & Huser) Hl Hcr Hw. unfold dispatch. destruct (throttled req).
  { by apply unseen_error_response. }
  unfold listing in Hl. unfold creating in Hcr. rewrite Hc in *. unfold managed_route. apply twin_bind, twin_call.
  intros f. unfold perform. simpl. rewrite <- (nr_now _ _ _ _ _ _ (al_near _ _ _ _ _ _ Hw)).
  destruct (jwt_guard _ _ _) as [user|] eqn:Hjwt; [|by apply unseen_error_response].
  destruct (Huser _ user Hjwt) as [Had Ht].
  destruct (roles_guard _ _) as [[]|e] eqn:Hroles; [|by apply unseen_error_response].
  apply respond_twin; [done|]. by apply handler_twin.
Qed.

Lemma pass_alike pause w1 w2 :
  (0 ≤ pause)%Z → alike t o q1 q2 w1 w2 → alike t o q1 q2 (pass pause w1) (pass pause w2).
Proof.
  intros Hp [[] Hj Hr]. split; [|done|done]. split; simpl; try done; [by rewrite nr_now0|..].
  - intros Ho. destruct (nr_dated0 Ho) as [Hrw Hs Hpast]. split; simpl; [done|done|].
    intros i s Hi Ht. specialize (Hpast i s Hi Ht). lia.
  - intros Ho. by destruct (nr_draws0 Ho).
Qed.

Lemma pass_later pause w1 w2 :
  (0 < pause)%Z → nd_order o = true → alike t o q1 q2 w1 w2 → later t (w_db (pass pause w1)).
Proof.
  intros Hp Ho [[] _ _] i s Hi Ht. destruct (nr_dated0 Ho) as [_ _ Hpast]. specialize (Hpast i s Hi Ht). simpl. lia.
Qed.

Lemma conversation_alike hc l w1 w2 :
  t ≠ "" → Forall (λ v, on_behalf hc t (vi_request v) ∧ paced v ∧ (listing (vi_request v) = true → nd_order o = true) ∧
    (creating (vi_request v) = true → nd_draws o = true)) l →
  alike t o q1 q2 w1 w2 →
  (conversation hc l w1).1 = (conversation hc l w2).1 ∧
  alike t o q1 q2 (conversation hc l w1).2 (conversation hc l w2).2.
Proof.
  intros Hne Hl. revert w1 w2. induction Hl as [|[pause req fs] l (Hreq & [Hp Hpc] & Hlist & Hcr) _ IH];
    intros w1 w2 Hw; [done|]. simpl in *.
  destruct (dispatch_twin hc req (pass pause w1) (pass pause w2) Hne Hreq Hlist) with fs
    as (r1 & v1 & r2 & v2 & fs' & Hr1 & Hr2 & <- & Hv); [|by apply pass_alike|].
  { intros Hc. split; [auto|]. intros Ho. eapply pass_later; eauto. }
  unfold outcome, final. rewrite Hr1, Hr2. simpl. destruct (IH v1 v2 Hv) as [Hr Hv']. by rewrite Hr.
Qed.
End requests.

(** C5: Tenants do not interfere.  Take two worlds that agree on the transfers,
    subscriptions, usage and stored objects of one tenant, and on the time, and differ in
    anything else, and any sequence of management requests made with tokens of that tenant's
    users (no admins), one after another, each under any faults.  The responses are the
    same in both worlds, status and body; the same jobs are added to the queue; and the
    worlds agree on the tenant again.  If some of the requests list, no two rows of the tenant
    may have the same creation time, which orders them; if some create a subscription, the
    worlds draw the same fresh ids and the same random bytes, and time passes before each. *)
Theorem tenants_do_not_interfere `{!Externals, !Gcm, !Credentials, !Validators} hc t l w1 w2 :
  t ≠ "" → Forall (λ v, on_behalf hc t (vi_request v) ∧ paced v) l →
  let o := mkNeeds (existsb (λ v, listing (vi_request v)) l) (existsb (λ v, creating (vi_request v)) l) in
  near t o (w_s3 w1) (w_s3 w2) (w_db w1) (w_db w2) →
  (nd_draws o = true → ∀ i, w_random w1 (w_random_pos w1 + i) = w_random w2 (w_random_pos w2 + i)) →
  let c1 := conversation hc l w1 in
  let c2 := conversation hc l w2 in
  c1.1 = c2.1 ∧
  near t o (w_s3 c1.2) (w_s3 c2.2) (w_db c1.2) (w_db c2.2) ∧
  ∃ jobs, w_queue c1.2 = w_queue w1 ++ jobs ∧ w_queue c2.2 = w_queue w2 ++ jobs.
Proof.
  intros Hne Hl o Hn Hrand c1 c2.
  destruct (conversation_alike t o (w_queue w1) (w_queue w2) hc l w1 w2) as [Hr [Hn' Hj _]]; [done| | |done].
  - apply Forall_forall. intros x Hx. rewrite Forall_forall in Hl. destruct (Hl x Hx) as [Hb Hp].
    split_and!; [done|done|..]; intros Hlx; simpl; apply existsb_exists; exists x;
      (split; [by apply list_elem_of_In|done]).
  - split; [done| |done]. exists []. by rewrite !app_nil_r.
Qed.

(** ** Witness *)
Import Demo DemoCipher DemoCredentials.
#[local] Existing Instance demo_validators.

Definition operator_token : string :=
  jwt_sign "jwt-secret" "1h" 1000 (mkPayload "u3" "oz" [OPERATOR] "acme").

Lemma operator_token_payload now payload :
  jwt_verify "jwt-secret" now operator_token = Some payload → payload = mkPayload "u3" "oz" [OPERATOR] "acme".
Proof.
  change (jwt_verify "jwt-secret" now operator_token) with (verify "jwt-secret" now operator_token).
  unfold verify. assert (Hd : decode (unbits operator_token) =
    Some (("jwt-secret", 1000%Z, ("u3", "oz", [OPERATOR], "acme")) : token)) by (vm_compute; reflexivity).
  rewrite Hd. intros H. destruct (_ && _ && _); congruence.
Qed.

(** A row of another tenant, and a world that holds it as well. *)
Definition globex_row : FileTransfer :=
  mkFileTransfer "t9" "k9" "plan.txt" "/plan.txt" "/srv/data/plan.txt" None "default" "2" None None false
    None TransferStatus.FAILED 3 (Some "lost") "globex" "gus" None None 900 950.

Definition crowded_world : world :=
  set_queue [retry_job 3 "t9"]
    (set_db (set_transfers (<["t9" := globex_row]> (d_transfers (w_db demo_world))) (w_db demo_world)) demo_world).

Definition acme_requests : list visit :=
  let ask c := mkVisit 5 (api_request (Some operator_token) false (Managed c)) [] in
  [ask (ListTransfers (mkListQuery None 20 0)); ask (GetTransfer "t9"); ask (RetryTransfer "t1");
   ask (CreateSubscription (mkSubscriptionDto "https://hooks.acme.test" ["transfer.completed"] None)); ask ListSubscriptions].

Lemma tenants_do_not_interfere_witness :
  (conversation demo_http acme_requests demo_world).1 = (conversation demo_http acme_requests crowded_world).1 ∧
  map (λ r, match r with Ok resp => rs_status resp | Err _ => 0%Z end)
    (conversation demo_http acme_requests crowded_world).1 = [200; 404; 200; 201; 200]%Z.
Proof.
  split; [|vm_compute; reflexivity].
  refine (proj1 (tenants_do_not_interfere demo_http "acme" acme_requests demo_world crowded_world _ _ _ _)).
  - discriminate.
  - repeat constructor; simpl; try lia; (eexists; split; [reflexivity|]);
      intros now user Hu; unfold jwt_guard in Hu; simpl in Hu;
      apply fmap_Some in Hu as (payload & Hp%operator_token_payload & ->); subst payload; done.
  - split; try reflexivity.
    + intros id r Hr. unfold crowded_world. simpl. rewrite lookup_insert. case_decide; [|done]. subst id.
      split; [by intros [? _]%lookup_singleton_Some|]. intros [= <-]. discriminate.
    + by split.
    + intros _. split; simpl; [|done|done].
      by intros i j r s [<- <-]%lookup_singleton_Some [<- <-]%lookup_singleton_Some.
    + intros _. split; [done| |done]. simpl. intros i j Heq.
      apply (inj (String.append "uuid-")), (inj (pretty (A := nat))) in Heq. exact Heq.
  - done.
Defined.
