(* ===== verification/Migrations.v ===== *)
(** * The schema and its migrations ([database/migrations/], the entity decorators)

    The SQL of the migrations as a small language of schema statements with the effects
    and errors PostgreSQL documents for them; each migration as the list of its
    statements, [up] and [down]; TypeORM's runner, which applies what is pending in order
    and reverts the last.  Statements are local: a schema that shares no names with
    the service's is left alone ([statement_frame]), so everything is proved for
    a database that holds other tables too.  The theorems: whatever sequence of runs
    and reverts was made, the schema is that of a prefix of the migrations and a run
    completes it; the completed schema is the one the entities declare; and it is the one
    the statements of [Database] enforce.

    A table may hold rows, so [ADD COLUMN] of a column that is [NOT NULL] without a
    default is refused. *)
From S2P Require Import Prelude JsLang Entities Database.

(** ** Schemas *)
Inductive sql_type :=
  | Uuid | Varchar (n : nat) | Text | Bigint | Integer_ | Boolean_ | Timestamptz | Jsonb
  | EnumType (name : string).

Inductive default_value := NoDefault | UuidGenerateV4 | NowDefault | Literal (s : string).

Record column := mkColumn {
  c_name : string;
  c_type : sql_type;
  c_notNull : bool;
  c_default : default_value;
}.

(** The disjuncts of the condition of a policy on the setting [app.current_tenant]. *)
Inductive policy_test := SettingIsNull | SettingIsEmpty | ColumnIsSetting (column : string).

Record policy := mkPolicy {
  po_using : list policy_test;
  po_check : list policy_test;
}.

Record table := mkTable {
  t_columns : list column;
  t_primaryKey : list string;
  t_rls : bool;
  t_forced : bool;
  t_policies : gmap string policy;
}.

Record index := mkIndex {
  i_table : string;
  i_columns : list string;
  i_unique : bool;
  i_constraint : bool;   (** it belongs to a constraint *)
}.

Record schema := mkSchema {
  s_types : gmap string (list string);
  s_tables : gmap string table;
  s_indexes : gmap string index;
  s_uuid_ossp : bool;    (** the extension that defines [uuid_generate_v4] *)
}.

#[global] Instance sql_type_eq_dec : EqDecision sql_type.
Proof. solve_decision. Defined.
#[global] Instance default_value_eq_dec : EqDecision default_value.
Proof. solve_decision. Defined.
#[global] Instance column_eq_dec : EqDecision column.
Proof. solve_decision. Defined.
#[global] Instance policy_test_eq_dec : EqDecision policy_test.
Proof. solve_decision. Defined.
#[global] Instance policy_eq_dec : EqDecision policy.
Proof. solve_decision. Defined.
#[global] Instance table_eq_dec : EqDecision table.
Proof. solve_decision. Defined.
#[global] Instance index_eq_dec : EqDecision index.
Proof. solve_decision. Defined.
#[global] Instance schema_eq_dec : EqDecision schema.
Proof. solve_decision. Defined.

Definition set_types (x : gmap string (list string)) (s : schema) : schema :=
  mkSchema x (s_tables s) (s_indexes s) (s_uuid_ossp s).
Definition set_tables (x : gmap string table) (s : schema) : schema :=
  mkSchema (s_types s) x (s_indexes s) (s_uuid_ossp s).
Definition set_indexes (x : gmap string index) (s : schema) : schema :=
  mkSchema (s_types s) (s_tables s) x (s_uuid_ossp s).

(** ** Statements *)
Inductive ddl :=
  (** [DO $$ BEGIN CREATE TYPE .. AS ENUM ..; EXCEPTION WHEN duplicate_object THEN null; END $$] *)
  | CreateEnum (name : string) (labels : list string)
  | CreateTable (name : string) (columns : list column) (pkName : string) (pk : list string)
  | CreateIndex (unique ifNotExists : bool) (name on : string) (columns : list string)
  | AddColumnIfNotExists (on : string) (c : column)
  | SetRowSecurity (on : string) (enabled : bool)
  | SetForceRowSecurity (on : string) (forced : bool)
  | CreatePolicy (name on : string) (p : policy)
  | DropPolicyIfExists (name on : string)
  | DropIndexIfExists (name : string)
  | DropTableIfExists (name : string)
  | DropTypeIfExists (name : string)
  | DropColumnIfExists (on column : string).

Definition duplicate_table (n : string) : exn := query_failed ("relation " +:+ n +:+ " already exists") "42P07".
Definition duplicate_object (n : string) : exn := query_failed ("policy " +:+ n +:+ " already exists") "42710".
Definition undefined_table (n : string) : exn := query_failed ("relation " +:+ n +:+ " does not exist") "42P01".
Definition undefined_column (n : string) : exn := query_failed ("a column of " +:+ n +:+ " does not exist") "42703".
Definition undefined_type (n : string) : exn := query_failed ("a type or function of " +:+ n +:+ " does not exist") "42704".
Definition not_null_violation (n : string) : exn := query_failed ("column " +:+ n +:+ " contains null values") "23502".
Definition dependent_objects (n : string) : exn := query_failed ("other objects depend on " +:+ n) "2BP01".

(** Tables and indexes share one name space. *)
Definition relation_taken (s : schema) (n : string) : bool :=
  bool_decide (is_Some (s_tables s !! n)) || bool_decide (is_Some (s_indexes s !! n)).

Definition column_names (t : table) : list string := map c_name (t_columns t).

(** The type and the function of the default exist. *)
Definition column_defined (s : schema) (c : column) : bool :=
  match c_type c with EnumType n => bool_decide (is_Some (s_types s !! n)) | _ => true end
  && match c_default c with UuidGenerateV4 => s_uuid_ossp s | _ => true end.

Definition has_columns (names : list string) (columns : list string) : bool :=
  forallb (λ c, bool_decide (c ∈ names)) columns.

Definition uses_type (n : string) (t : table) : bool :=
  existsb (λ c, bool_decide (c_type c = EnumType n)) (t_columns t).

Definition tests_column (column : string) (p : policy) : bool :=
  existsb (λ x, bool_decide (x = ColumnIsSetting column)) (po_using p ++ po_check p).

Definition policy_needs (column : string) (t : table) : bool :=
  existsb (λ x, tests_column column x.2) (map_to_list (t_policies t)).

(** Change an existing table. *)
Definition alter (n : string) (f : table → result table) (s : schema) : result schema :=
  match s_tables s !! n with
  | None => Err (undefined_table n)
  | Some t =>
      match f t with
      | Ok t' => Ok (set_tables (<[n := t']> (s_tables s)) s)
      | Err e => Err e
      end
  end.

Definition with_columns (cs : list column) (t : table) : table :=
  mkTable cs (t_primaryKey t) (t_rls t) (t_forced t) (t_policies t).

Definition apply_ddl (st : ddl) (s : schema) : result schema :=
  match st with
  | CreateEnum n labels =>
      Ok (if bool_decide (is_Some (s_types s !! n)) then s else set_types (<[n := labels]> (s_types s)) s)
  | CreateTable n cs pkName pk =>
      if relation_taken s n then Err (duplicate_table n)
      else if relation_taken s pkName || String.eqb n pkName then Err (duplicate_table pkName)
      else if negb (forallb (column_defined s) cs) then Err (undefined_type n)
      else if negb (has_columns (map c_name cs) pk) then Err (undefined_column n)
      else Ok (set_indexes (<[pkName := mkIndex n pk true true]> (s_indexes s))
                 (set_tables (<[n := mkTable cs pk false false ∅]> (s_tables s)) s))
  | CreateIndex unique ifNotExists n on cs =>
      match s_tables s !! on with
      | None => Err (undefined_table on)
      | Some t =>
          if relation_taken s n then (if ifNotExists then Ok s else Err (duplicate_table n))
          else if negb (has_columns (column_names t) cs) then Err (undefined_column on)
          else Ok (set_indexes (<[n := mkIndex on cs unique false]> (s_indexes s)) s)
      end
  | AddColumnIfNotExists on c =>
      alter on (λ t,
        if bool_decide (c_name c ∈ column_names t) then Ok t
        else if negb (column_defined s c) then Err (undefined_type on)
        else if c_notNull c && bool_decide (c_default c = NoDefault) then Err (not_null_violation (c_name c))
        else Ok (with_columns (t_columns t ++ [c]) t)) s
  | SetRowSecurity on b =>
      alter on (λ t, Ok (mkTable (t_columns t) (t_primaryKey t) b (t_forced t) (t_policies t))) s
  | SetForceRowSecurity on b =>
      alter on (λ t, Ok (mkTable (t_columns t) (t_primaryKey t) (t_rls t) b (t_policies t))) s
  | CreatePolicy n on p =>
      alter on (λ t,
        if bool_decide (is_Some (t_policies t !! n)) then Err (duplicate_object n)
        else if negb (forallb (λ x, match x with ColumnIsSetting c => bool_decide (c ∈ column_names t) | _ => true end)
                        (po_using p ++ po_check p)) then Err (undefined_column on)
        else Ok (mkTable (t_columns t) (t_primaryKey t) (t_rls t) (t_forced t) (<[n := p]> (t_policies t)))) s
  | DropPolicyIfExists n on =>
      if bool_decide (is_Some (s_tables s !! on)) then
        alter on (λ t, Ok (mkTable (t_columns t) (t_primaryKey t) (t_rls t) (t_forced t) (delete n (t_policies t)))) s
      else Ok s
  | DropIndexIfExists n =>
      match s_indexes s !! n with
      | Some i => if i_constraint i then Err (dependent_objects n)
                  else Ok (set_indexes (delete n (s_indexes s)) s)
      | None => Ok s
      end
  | DropTableIfExists n =>
      Ok (set_indexes (filter (λ x, i_table x.2 ≠ n) (s_indexes s))
            (set_tables (delete n (s_tables s)) s))
  | DropTypeIfExists n =>
      if existsb (λ x, uses_type n x.2) (map_to_list (s_tables s)) then Err (dependent_objects n)
      else Ok (set_types (delete n (s_types s)) s)
  | DropColumnIfExists on c =>
      match alter on (λ t,
        if policy_needs c t then Err (dependent_objects c)
        else Ok (with_columns (List.filter (λ x, negb (String.eqb (c_name x) c)) (t_columns t)) t)) s
      with
      | Ok s' => Ok (set_indexes (filter (λ x, ¬ (i_table x.2 = on ∧ c ∈ i_columns x.2)) (s_indexes s')) s')
      | Err e => Err e
      end
  end.

Fixpoint apply_all (l : list ddl) (s : schema) : result schema :=
  match l with
  | [] => Ok s
  | st :: l' => match apply_ddl st s with Ok s' => apply_all l' s' | Err e => Err e end
  end.

(** ** The migrations *)
Record migration := mkMigration {
  mg_name : string;
  mg_up : list ddl;
  mg_down : list ddl;
}.

Abbreviation required n t := (mkColumn n t true NoDefault).
Abbreviation optional n t := (mkColumn n t false NoDefault).

Definition InitFileTransfers : migration := mkMigration "InitFileTransfers1719800000000"
  [CreateEnum "file_transfers_status_enum" ["PENDING"; "PROCESSING"; "SUCCESS"; "FAILED"];
   CreateTable "file_transfers"
     [mkColumn "id" Uuid true UuidGenerateV4;
      required "idempotency_key" (Varchar 128);
      required "filename" (Varchar 1024);
      required "virtual_path" (Varchar 2048);
      required "source_path" (Varchar 2048);
      optional "object_key" (Varchar 2048);
      required "bucket" (Varchar 255);
      required "size_bytes" Bigint;
      optional "etag" (Varchar 255);
      mkColumn "status" (EnumType "file_transfers_status_enum") true (Literal "PENDING");
      mkColumn "attempts" Integer_ true (Literal "0");
      optional "error_log" Text;
      required "username" (Varchar 255);
      optional "protocol" (Varchar 32);
      optional "session_id" (Varchar 255);
      mkColumn "created_at" Timestamptz true NowDefault;
      mkColumn "updated_at" Timestamptz true NowDefault]
     "pk_file_transfers" ["id"];
   CreateIndex true false "uq_file_transfers_idempotency_key" "file_transfers" ["idempotency_key"];
   CreateIndex false false "idx_file_transfers_status" "file_transfers" ["status"]]
  [DropIndexIfExists "idx_file_transfers_status";
   DropIndexIfExists "uq_file_transfers_idempotency_key";
   DropTableIfExists "file_transfers";
   DropTypeIfExists "file_transfers_status_enum"].

Definition AddChecksum : migration := mkMigration "AddChecksum1719900000000"
  [AddColumnIfNotExists "file_transfers" (optional "checksum_sha256" (Varchar 64))]
  [DropColumnIfExists "file_transfers" "checksum_sha256"].

Definition CreateUsers : migration := mkMigration "CreateUsers1720000000000"
  [CreateTable "users"
     [mkColumn "id" Uuid true UuidGenerateV4;
      required "username" (Varchar 255);
      required "password_hash" (Varchar 255);
      required "roles" Text;
      mkColumn "created_at" Timestamptz true NowDefault;
      mkColumn "updated_at" Timestamptz true NowDefault]
     "pk_users" ["id"];
   CreateIndex true false "uq_users_username" "users" ["username"]]
  [DropIndexIfExists "uq_users_username"; DropTableIfExists "users"].

Definition CreateOutbox : migration := mkMigration "CreateOutbox1720100000000"
  [CreateEnum "outbox_events_status_enum" ["PENDING"; "PUBLISHED"];
   CreateTable "outbox_events"
     [mkColumn "id" Uuid true UuidGenerateV4;
      required "aggregate_id" Uuid;
      required "type" (Varchar 100);
      required "payload" Jsonb;
      mkColumn "status" (EnumType "outbox_events_status_enum") true (Literal "PENDING");
      mkColumn "attempts" Integer_ true (Literal "0");
      mkColumn "created_at" Timestamptz true NowDefault;
      optional "published_at" Timestamptz]
     "pk_outbox_events" ["id"];
   CreateIndex false false "idx_outbox_status" "outbox_events" ["status"]]
  [DropIndexIfExists "idx_outbox_status"; DropTableIfExists "outbox_events";
   DropTypeIfExists "outbox_events_status_enum"].

Definition AddEncryption : migration := mkMigration "AddEncryption1720200000000"
  [AddColumnIfNotExists "file_transfers" (mkColumn "encrypted" Boolean_ true (Literal "false"));
   AddColumnIfNotExists "file_transfers" (optional "wrapped_dek" Text)]
  [DropColumnIfExists "file_transfers" "wrapped_dek";
   DropColumnIfExists "file_transfers" "encrypted"].

(** [current_setting('app.current_tenant', true)] is null, is empty, or is the tenant. *)
Definition tenant_tests : list policy_test := [SettingIsNull; SettingIsEmpty; ColumnIsSetting "tenant_id"].

Definition AddTenancyRls : migration := mkMigration "AddTenancyRls1720300000000"
  [AddColumnIfNotExists "users" (mkColumn "tenant_id" (Varchar 100) true (Literal "default"));
   AddColumnIfNotExists "file_transfers" (mkColumn "tenant_id" (Varchar 100) true (Literal "default"));
   CreateIndex false true "idx_file_transfers_tenant" "file_transfers" ["tenant_id"];
   SetRowSecurity "file_transfers" true;
   SetForceRowSecurity "file_transfers" true;
   CreatePolicy "tenant_isolation" "file_transfers" (mkPolicy tenant_tests tenant_tests)]
  [DropPolicyIfExists "tenant_isolation" "file_transfers";
   SetForceRowSecurity "file_transfers" false;
   SetRowSecurity "file_transfers" false;
   DropIndexIfExists "idx_file_transfers_tenant";
   DropColumnIfExists "file_transfers" "tenant_id";
   DropColumnIfExists "users" "tenant_id"].

Definition CreateEventSubscriptions : migration := mkMigration "CreateEventSubscriptions1720400000000"
  [CreateTable "event_subscriptions"
     [mkColumn "id" Uuid true UuidGenerateV4;
      required "tenant_id" (Varchar 100);
      required "url" (Varchar 2048);
      required "events" Text;
      required "secret" (Varchar 255);
      mkColumn "active" Boolean_ true (Literal "true");
      mkColumn "created_at" Timestamptz true NowDefault]
     "pk_event_subscriptions" ["id"];
   CreateIndex false false "idx_event_subs_tenant" "event_subscriptions" ["tenant_id"]]
  [DropIndexIfExists "idx_event_subs_tenant"; DropTableIfExists "event_subscriptions"].

Definition CreateTenantUsage : migration := mkMigration "CreateTenantUsage1720500000000"
  [CreateTable "tenant_usage"
     [required "tenant_id" (Varchar 100);
      mkColumn "object_count" Bigint true (Literal "0");
      mkColumn "bytes_stored" Bigint true (Literal "0");
      mkColumn "updated_at" Timestamptz true NowDefault]
     "pk_tenant_usage" ["tenant_id"]]
  [DropTableIfExists "tenant_usage"].

(** In the order of their timestamps. *)
Definition migrations : list migration :=
  [InitFileTransfers; AddChecksum; CreateUsers; CreateOutbox; AddEncryption; AddTenancyRls;
   CreateEventSubscriptions; CreateTenantUsage].

(** ** The runner

    TypeORM keeps the names of the executed migrations in a table of its own;
    [migration:run] executes the pending ones in order in one transaction,
    [migration:revert] undoes the last executed one. *)
Record migration_state := mkState { ms_schema : schema; ms_executed : list string }.

Definition pending (st : migration_state) : list migration :=
  List.filter (λ m, bool_decide (mg_name m ∉ ms_executed st)) migrations.

Fixpoint run_ups (l : list migration) (st : migration_state) : result migration_state :=
  match l with
  | [] => Ok st
  | m :: l' =>
      match apply_all (mg_up m) (ms_schema st) with
      | Ok s => run_ups l' (mkState s (ms_executed st ++ [mg_name m]))
      | Err e => Err e
      end
  end.

Definition migration_run (st : migration_state) : result migration_state := run_ups (pending st) st.

Definition migration_revert (st : migration_state) : result migration_state :=
  match last (ms_executed st) with
  | None => Ok st
  | Some n =>
      match List.find (λ m, String.eqb (mg_name m) n) migrations with
      | None => Err (query_failed ("No migration " +:+ n +:+ " was found in the source code") "")
      | Some m =>
          match apply_all (mg_down m) (ms_schema st) with
          | Ok s => Ok (mkState s (removelast (ms_executed st)))
          | Err e => Err e
          end
      end
  end.

(** A command of an operator or of the entry point; one that fails changes nothing. *)
Inductive command := Run | Revert.
Definition obey (c : command) (st : migration_state) : migration_state :=
  match (match c with Run => migration_run st | Revert => migration_revert st end) with
  | Ok st' => st'
  | Err _ => st
  end.

(** ** Locality

    The names the migrations use, and a schema that has none of them. *)
Definition own_types : list string := ["file_transfers_status_enum"; "outbox_events_status_enum"].
Definition own_relations : list string :=
  ["file_transfers"; "pk_file_transfers"; "uq_file_transfers_idempotency_key"; "idx_file_transfers_status";
   "idx_file_transfers_tenant"; "users"; "pk_users"; "uq_users_username"; "outbox_events"; "pk_outbox_events";
   "idx_outbox_status"; "event_subscriptions"; "pk_event_subscriptions"; "idx_event_subs_tenant";
   "tenant_usage"; "pk_tenant_usage"].

Record apart (F : schema) : Prop := {
  ap_types : ∀ n, n ∈ own_types → s_types F !! n = None;
  ap_tables : ∀ n, n ∈ own_relations → s_tables F !! n = None;
  ap_indexes : ∀ n, n ∈ own_relations → s_indexes F !! n = None;
  ap_index_of : ∀ n i, s_indexes F !! n = Some i → i_table i ∉ own_relations;
  ap_uses : ∀ n t ty, s_tables F !! n = Some t → ty ∈ own_types → uses_type ty t = false;
}.

Definition type_ok (c : column) : bool :=
  match c_type c with EnumType n => bool_decide (n ∈ own_types) | _ => true end.

Definition relation_ok (n : string) : bool := bool_decide (n ∈ own_relations).

(** The statement names own objects only. *)
Definition local_ddl (st : ddl) : bool :=
  match st with
  | CreateEnum n _ | DropTypeIfExists n => bool_decide (n ∈ own_types)
  | CreateTable n cs pkName _ => relation_ok n && relation_ok pkName && forallb type_ok cs
  | CreateIndex _ _ n on _ => relation_ok n && relation_ok on
  | AddColumnIfNotExists on c => relation_ok on && type_ok c
  | SetRowSecurity on _ | SetForceRowSecurity on _ | CreatePolicy _ on _ | DropPolicyIfExists _ on
  | DropColumnIfExists on _ => relation_ok on
  | DropIndexIfExists n | DropTableIfExists n => relation_ok n
  end.

(** The rest of the database next to the own part. *)
Definition beside (F s : schema) : schema :=
  mkSchema (s_types F ∪ s_types s) (s_tables F ∪ s_tables s) (s_indexes F ∪ s_indexes s) (s_uuid_ossp s).

Section frame.
Context (F : schema) (HF : apart F).

Lemma beside_type s n : n ∈ own_types → s_types (beside F s) !! n = s_types s !! n.
Proof. intros Hn. simpl. by rewrite lookup_union_r by (by apply ap_types). Qed.

Lemma beside_table s n : n ∈ own_relations → s_tables (beside F s) !! n = s_tables s !! n.
Proof. intros Hn. simpl. by rewrite lookup_union_r by (by apply ap_tables). Qed.

Lemma beside_index s n : n ∈ own_relations → s_indexes (beside F s) !! n = s_indexes s !! n.
Proof. intros Hn. simpl. by rewrite lookup_union_r by (by apply ap_indexes). Qed.

Lemma beside_taken s n : n ∈ own_relations → relation_taken (beside F s) n = relation_taken s n.
Proof. intros Hn. unfold relation_taken. by rewrite beside_table, beside_index. Qed.

Lemma beside_defined s c : type_ok c = true → column_defined (beside F s) c = column_defined s c.
Proof.
  unfold type_ok, column_defined. destruct (c_type c); try done.
  intros Hn%bool_decide_eq_true. by rewrite beside_type.
Qed.

Lemma beside_all_defined s cs :
  forallb type_ok cs = true → forallb (column_defined (beside F s)) cs = forallb (column_defined s) cs.
Proof.
  induction cs as [|c cs IH]; [done|]. cbn [forallb]. intros [Hc Hcs]%andb_true_iff.
  by rewrite beside_defined, IH.
Qed.

Lemma beside_alter s n (f : table → result table) :
  n ∈ own_relations → alter n f (beside F s) = (match alter n f s with Ok s' => Ok (beside F s') | Err e => Err e end).
Proof.
  intros Hn. unfold alter. rewrite beside_table by done. destruct (s_tables s !! n) as [t|]; [|done].
  destruct (f t) as [t'|e]; [|done]. unfold beside, set_tables. simpl.
  by rewrite insert_union_r by (by apply ap_tables).
Qed.

Lemma beside_filter_indexes s (P : string * index → Prop) `{∀ x, Decision (P x)} :
  (∀ n i, s_indexes F !! n = Some i → P (n, i)) →
  set_indexes (filter P (s_indexes (beside F s))) (beside F s) = beside F (set_indexes (filter P (s_indexes s)) s).
Proof.
  intros HP. unfold beside, set_indexes. simpl. f_equal. apply map_eq. intros n.
  rewrite map_lookup_filter, !lookup_union, map_lookup_filter.
  destruct (s_indexes F !! n) as [i|] eqn:Hi; simpl.
  - pose proof (HP n i Hi). destruct (s_indexes s !! n) as [j|]; simpl.
    + rewrite option_guard_True by done. by destruct (guard (P (n, j))).
    + by rewrite option_guard_True.
  - destruct (s_indexes s !! n) as [j|]; simpl; [|done]. by destruct (guard (P (n, j))).
Qed.

Lemma beside_uses s ty :
  ty ∈ own_types → s_tables F ##ₘ s_tables s →
  existsb (λ x, uses_type ty x.2) (map_to_list (s_tables (beside F s))) =
  existsb (λ x, uses_type ty x.2) (map_to_list (s_tables s)).
Proof.
  intros Hty Hd. apply eq_iff_eq_true. rewrite !existsb_exists. simpl. split.
  - intros ([n t] & Hin & Hu). simpl in Hu. apply list_elem_of_In, elem_of_map_to_list in Hin.
    apply lookup_union_Some in Hin; [|done]. destruct Hin as [Hin|Hin].
    + by rewrite (ap_uses F HF n t ty) in Hu.
    + exists (n, t). split; [|done]. by apply list_elem_of_In, elem_of_map_to_list.
  - intros ([n t] & Hin & Hu). exists (n, t). split; [|done].
    apply list_elem_of_In, elem_of_map_to_list in Hin. apply list_elem_of_In, elem_of_map_to_list.
    by apply lookup_union_Some_r.
Qed.

(** A statement does next to other objects what it does alone, and leaves them. *)
Lemma statement_frame st s :
  local_ddl st = true → s_tables F ##ₘ s_tables s →
  apply_ddl st (beside F s) = match apply_ddl st s with Ok s' => Ok (beside F s') | Err e => Err e end.
Proof.
  intros Hst Hd. destruct st; cbn [local_ddl] in Hst; unfold relation_ok in Hst;
    rewrite ?andb_true_iff, ?bool_decide_eq_true in Hst; destruct_and?; cbn [apply_ddl].
  - rewrite beside_type by done. case_bool_decide; [done|]. unfold beside, set_types. simpl.
    by rewrite insert_union_r by (by apply ap_types).
  - rewrite !beside_taken, beside_all_defined by done. do 4 (case_match; [done|]).
    unfold beside, set_tables, set_indexes. simpl.
    by rewrite !insert_union_r by (by apply ap_tables || by apply ap_indexes).
  - rewrite beside_table, beside_taken by done. destruct (s_tables s !! on) as [t|]; [|done].
    destruct (relation_taken s name); [by destruct ifNotExists|]. case_match; [done|].
    unfold beside, set_indexes. simpl. by rewrite insert_union_r by (by apply ap_indexes).
  - rewrite beside_alter by done. rewrite beside_defined by done. done.
  - by rewrite beside_alter.
  - by rewrite beside_alter.
  - by rewrite beside_alter.
  - rewrite beside_table, beside_alter by done. by case_bool_decide.
  - rewrite beside_index by done. destruct (s_indexes s !! name) as [i|]; [|done].
    destruct (i_constraint i); [done|]. unfold beside, set_indexes. simpl.
    by rewrite delete_union, (delete_id (s_indexes F)) by (by apply ap_indexes).
  - f_equal.
    assert (Hb : set_tables (delete name (s_tables (beside F s))) (beside F s) =
                 beside F (set_tables (delete name (s_tables s)) s)).
    { unfold beside, set_tables. simpl. by rewrite delete_union, (delete_id (s_tables F)) by (by apply ap_tables). }
    rewrite Hb. apply (beside_filter_indexes (set_tables (delete name (s_tables s)) s)).
    intros n i Hi Ht. simpl in Ht. subst name. by eapply ap_index_of.
  - rewrite beside_uses by done. case_match; [done|]. unfold beside, set_types. simpl.
    by rewrite delete_union, (delete_id (s_types F)) by (by apply ap_types).
  - rewrite beside_alter by done. destruct (alter _ _ s) as [s'|e]; [|done]. f_equal.
    apply beside_filter_indexes. intros n i Hi [Ht _]. simpl in Ht. subst on. by eapply ap_index_of.
Qed.

Lemma alter_disjoint n f s s' :
  n ∈ own_relations → s_tables F ##ₘ s_tables s → alter n f s = Ok s' → s_tables F ##ₘ s_tables s'.
Proof.
  intros Hn Hd. unfold alter. destruct (s_tables s !! n) as [t|]; [|done]. destruct (f t); [|done].
  intros [= <-]. simpl. apply map_disjoint_insert_r. split; [by apply ap_tables|done].
Qed.

Lemma statement_disjoint st s s' :
  local_ddl st = true → s_tables F ##ₘ s_tables s → apply_ddl st s = Ok s' → s_tables F ##ₘ s_tables s'.
Proof.
  intros Hst Hd. destruct st; cbn [local_ddl] in Hst; unfold relation_ok in Hst;
    rewrite ?andb_true_iff, ?bool_decide_eq_true in Hst; destruct_and?; cbn [apply_ddl];
    try (by apply alter_disjoint).
  - intros [= <-]. by case_bool_decide.
  - do 4 (case_match; [done|]). intros [= <-]. simpl. apply map_disjoint_insert_r. split; [by apply ap_tables|done].
  - repeat case_match; intros; by simplify_eq.
  - case_bool_decide; [by apply alter_disjoint|]. by intros [= <-].
  - repeat case_match; intros; by simplify_eq.
  - intros [= <-]. simpl. by apply map_disjoint_delete_r.
  - case_match; intros; by simplify_eq.
  - destruct (alter _ _ s) as [s1|e] eqn:Ha; [|done]. intros [= <-]. simpl. by eapply alter_disjoint.
Qed.

Lemma all_frame l s :
  forallb local_ddl l = true → s_tables F ##ₘ s_tables s →
  apply_all l (beside F s) = match apply_all l s with Ok s' => Ok (beside F s') | Err e => Err e end.
Proof.
  revert s. induction l as [|st l IH]; intros s; [done|]. cbn [forallb apply_all].
  intros [Hst Hl]%andb_true_iff Hd. rewrite statement_frame by done.
  destruct (apply_ddl st s) as [s'|e] eqn:Hs; [|done]. apply IH; [done|]. by eapply statement_disjoint.
Qed.
End frame.

(** ** The states of the runner *)
Definition bare : schema := mkSchema ∅ ∅ ∅ true.

(** What the first [k] migrations make of an empty database with the extension. *)
Definition own_schema (k : nat) : schema :=
  match apply_all (concat (map mg_up (take k migrations))) bare with Ok s => s | Err _ => bare end.

Definition state_at (F : schema) (k : nat) : migration_state :=
  mkState (beside F (own_schema k)) (map mg_name (take k migrations)).

(** Each migration leads from one of these schemas to the next, and back; it names own
    objects only, and so do the tables. *)
Definition step_checks (k : nat) : bool :=
  match migrations !! k with
  | Some m =>
      bool_decide (apply_all (mg_up m) (own_schema k) = Ok (own_schema (S k)))
      && bool_decide (apply_all (mg_down m) (own_schema (S k)) = Ok (own_schema k))
      && forallb local_ddl (mg_up m) && forallb local_ddl (mg_down m)
  | None => true
  end.

Definition tables_check (k : nat) : bool :=
  forallb (λ x, relation_ok x.1) (map_to_list (s_tables (own_schema k))).

Lemma all_steps_check : forallb step_checks (seq 0 8) && forallb tables_check (seq 0 9) = true.
Proof. vm_compute. reflexivity. Qed.

Lemma state_zero F : s_uuid_ossp F = true → state_at F 0 = mkState F [].
Proof.
  intros Hu. unfold state_at, beside. change (own_schema 0) with bare. simpl. rewrite !(right_id_L ∅ (∪)).
  destruct F. simpl in *. by subst.
Qed.

Opaque own_schema.

Lemma own_names {A} (m : gmap string A) n a :
  forallb (λ x, relation_ok x.1) (map_to_list m) = true → m !! n = Some a → n ∈ own_relations.
Proof.
  intros Hc Hn. rewrite forallb_forall in Hc. apply (bool_decide_eq_true (n ∈ own_relations)).
  apply (Hc (n, a)). by apply list_elem_of_In, elem_of_map_to_list.
Qed.

Section states.
Context (F : schema) (HF : apart F).

Lemma step_checked k m :
  migrations !! k = Some m →
  apply_all (mg_up m) (own_schema k) = Ok (own_schema (S k)) ∧
  apply_all (mg_down m) (own_schema (S k)) = Ok (own_schema k) ∧
  forallb local_ddl (mg_up m) = true ∧ forallb local_ddl (mg_down m) = true.
Proof.
  intros Hm. pose proof (lookup_lt_Some _ _ _ Hm) as Hk.
  pose proof all_steps_check as [Hall _]%andb_true_iff. rewrite forallb_forall in Hall.
  assert (Hc : step_checks k = true) by (apply Hall, in_seq; simpl in Hk; lia).
  unfold step_checks in Hc. rewrite Hm, !andb_true_iff, !bool_decide_eq_true in Hc. tauto.
Qed.

Lemma own_tables k : (k ≤ 8)%nat → s_tables F ##ₘ s_tables (own_schema k).
Proof.
  intros Hk. apply map_disjoint_spec. intros n t1 t2 H1 H2.
  pose proof all_steps_check as [_ Hall]%andb_true_iff. rewrite forallb_forall in Hall.
  assert (Hc : tables_check k = true) by (apply Hall, in_seq; lia).
  by rewrite (ap_tables F HF n (own_names _ n t2 Hc H2)) in H1.
Qed.

Lemma up_step k m :
  migrations !! k = Some m → apply_all (mg_up m) (beside F (own_schema k)) = Ok (beside F (own_schema (S k))).
Proof.
  intros Hm. pose proof (lookup_lt_Some _ _ _ Hm) as Hk. simpl in Hk.
  destruct (step_checked k m Hm) as (Hu & _ & Hl & _).
  rewrite all_frame; [by rewrite Hu|done|done|]. apply own_tables. lia.
Qed.

Lemma down_step k m :
  migrations !! k = Some m → apply_all (mg_down m) (beside F (own_schema (S k))) = Ok (beside F (own_schema k)).
Proof.
  intros Hm. pose proof (lookup_lt_Some _ _ _ Hm) as Hk. simpl in Hk.
  destruct (step_checked k m Hm) as (_ & Hd & _ & Hl).
  rewrite all_frame; [by rewrite Hd|done|done|]. apply own_tables. lia.
Qed.

Lemma names_snoc k m : migrations !! k = Some m → map mg_name (take (S k) migrations) = map mg_name (take k migrations) ++ [mg_name m].
Proof. intros Hm. by rewrite (take_S_r _ _ _ Hm), map_app. Qed.

Lemma ups_from k j : (k + j = 8)%nat → run_ups (drop k migrations) (state_at F k) = Ok (state_at F 8).
Proof.
  revert k. induction j as [|j IH]; intros k Hk.
  - replace k with 8 by lia. done.
  - destruct (lookup_lt_is_Some_2 migrations k) as [m Hm]; [simpl; lia|].
    rewrite (drop_S _ _ _ Hm). cbn [run_ups].
    change (ms_schema (state_at F k)) with (beside F (own_schema k)).
    change (ms_executed (state_at F k)) with (map mg_name (take k migrations)).
    rewrite (up_step k m Hm), <- (names_snoc k m Hm). apply (IH (S k)). lia.
Qed.

Lemma pending_at k : (k ≤ 8)%nat → pending (state_at F k) = drop k migrations.
Proof.
  intros Hk. unfold pending, state_at. cbn [ms_executed].
  do 9 (destruct k as [|k]; [vm_compute; reflexivity|]). lia.
Qed.

Lemma run_at k : (k ≤ 8)%nat → migration_run (state_at F k) = Ok (state_at F 8).
Proof. intros Hk. unfold migration_run. rewrite pending_at by done. apply (ups_from k (8 - k)). lia. Qed.

Lemma found_at k m : migrations !! k = Some m → List.find (λ x, String.eqb (mg_name x) (mg_name m)) migrations = Some m.
Proof.
  intros Hm. do 8 (destruct k as [|k]; [injection Hm as <-; vm_compute; reflexivity|]). by destruct k.
Qed.

Lemma revert_at k : (S k ≤ 8)%nat → migration_revert (state_at F (S k)) = Ok (state_at F k).
Proof.
  intros Hk. destruct (lookup_lt_is_Some_2 migrations k) as [m Hm]; [simpl; lia|].
  unfold migration_revert.
  change (ms_schema (state_at F (S k))) with (beside F (own_schema (S k))).
  change (ms_executed (state_at F (S k))) with (map mg_name (take (S k) migrations)).
  rewrite (names_snoc k m Hm), last_snoc, (found_at k m Hm), (down_step k m Hm).
  unfold state_at. by rewrite removelast_last.
Qed.

Lemma revert_zero : migration_revert (state_at F 0) = Ok (state_at F 0).
Proof. done. Qed.

Lemma obey_at c k : (k ≤ 8)%nat → ∃ k', (k' ≤ 8)%nat ∧ obey c (state_at F k) = state_at F k'.
Proof.
  intros Hk. unfold obey. destruct c; [rewrite run_at by done; by exists 8|].
  destruct k as [|k]; [exists 0; split; [lia|done]|]. rewrite revert_at by done. exists k. split; [lia|done].
Qed.

Lemma obey_all l k : (k ≤ 8)%nat → ∃ k', (k' ≤ 8)%nat ∧ foldl (λ st c, obey c st) (state_at F k) l = state_at F k'.
Proof.
  revert k. induction l as [|c l IH]; intros k Hk; [by exists k|]. simpl.
  destruct (obey_at c k Hk) as (k' & Hk' & ->). by apply IH.
Qed.

Lemma reverts_all k n :
  (k ≤ 8)%nat → (k ≤ n)%nat → foldl (λ st c, obey c st) (state_at F k) (replicate n Revert) = state_at F 0.
Proof.
  revert k. induction n as [|n IH]; intros k Hk Hn; [by replace k with 0%nat by lia|].
  cbn [replicate foldl]. destruct k as [|k]; [apply IH; lia|].
  assert (Ho : obey Revert (state_at F (S k)) = state_at F k) by (unfold obey; by rewrite revert_at).
  rewrite Ho. apply IH; lia.
Qed.
End states.

(** C36: Migrations settle.  Take a database with the [uuid-ossp] extension and any other
    objects that share no name with the service's, and any sequence of [migration:run]
    and [migration:revert].  The schema is that of a prefix of the migrations next to the
    other objects; a run from there succeeds and completes it (and, when it is complete,
    changes nothing); and reverting everything restores the database as it was. *)
Theorem migrations_settle F l :
  apart F → s_uuid_ossp F = true →
  let st := foldl (λ st c, obey c st) (mkState F []) l in
  (∃ k, (k ≤ length migrations)%nat ∧ st = state_at F k) ∧
  migration_run st = Ok (state_at F (length migrations)) ∧
  foldl (λ st c, obey c st) st (replicate (length migrations) Revert) = mkState F [].
Proof.
  intros HF Hu st. unfold st. rewrite <- (state_zero F Hu).
  destruct (obey_all F HF l 0) as (k & Hk & ->); [lia|]. split_and!; [by exists k|by apply run_at|].
  by apply (reverts_all F HF).
Qed.

(** ** The entities

    A class decorated with [@Entity]: its columns and indexes as the decorators give
    them.  [simple-array] is stored as text, [int] is [integer]; an enumeration gets a type
    named after the table and the column. *)
Record entity := mkEntity {
  en_table : string;
  en_columns : list column;
  en_primaryKey : list string;
  en_indexes : list (string * list string * bool);  (** name, columns, unique *)
}.

Definition PrimaryGeneratedColumn (n : string) : column := mkColumn n Uuid true UuidGenerateV4.
Definition CreateDateColumn (n : string) : column := mkColumn n Timestamptz true NowDefault.
Definition UpdateDateColumn (n : string) : column := mkColumn n Timestamptz true NowDefault.
Definition simple_array : sql_type := Text.
Definition enum_type (on column : string) : sql_type := EnumType (on +:+ "_" +:+ column +:+ "_enum").

Definition FileTransfer_entity : entity := mkEntity "file_transfers"
  [PrimaryGeneratedColumn "id";
   required "idempotency_key" (Varchar 128);
   required "filename" (Varchar 1024);
   required "virtual_path" (Varchar 2048);
   required "source_path" (Varchar 2048);
   optional "object_key" (Varchar 2048);
   required "bucket" (Varchar 255);
   required "size_bytes" Bigint;
   optional "etag" (Varchar 255);
   optional "checksum_sha256" (Varchar 64);
   mkColumn "encrypted" Boolean_ true (Literal "false");
   optional "wrapped_dek" Text;
   mkColumn "status" (enum_type "file_transfers" "status") true (Literal (TransferStatus.to_string TransferStatus.PENDING));
   mkColumn "attempts" Integer_ true (Literal "0");
   optional "error_log" Text;
   mkColumn "tenant_id" (Varchar 100) true (Literal "default");
   required "username" (Varchar 255);
   optional "protocol" (Varchar 32);
   optional "session_id" (Varchar 255);
   CreateDateColumn "created_at";
   UpdateDateColumn "updated_at"]
  ["id"]
  [("uq_file_transfers_idempotency_key", ["idempotency_key"], true);
   ("idx_file_transfers_status", ["status"], false);
   ("idx_file_transfers_tenant", ["tenant_id"], false)].

Definition User_entity : entity := mkEntity "users"
  [PrimaryGeneratedColumn "id";
   required "username" (Varchar 255);
   required "password_hash" (Varchar 255);
   mkColumn "tenant_id" (Varchar 100) true (Literal "default");
   required "roles" simple_array;
   CreateDateColumn "created_at";
   UpdateDateColumn "updated_at"]
  ["id"] [("uq_users_username", ["username"], true)].

Definition OutboxEvent_entity : entity := mkEntity "outbox_events"
  [PrimaryGeneratedColumn "id";
   required "aggregate_id" Uuid;
   required "type" (Varchar 100);
   required "payload" Jsonb;
   mkColumn "status" (enum_type "outbox_events" "status") true (Literal "PENDING");
   mkColumn "attempts" Integer_ true (Literal "0");
   CreateDateColumn "created_at";
   optional "published_at" Timestamptz]
  ["id"] [("idx_outbox_status", ["status"], false)].

Definition EventSubscription_entity : entity := mkEntity "event_subscriptions"
  [PrimaryGeneratedColumn "id";
   required "tenant_id" (Varchar 100);
   required "url" (Varchar 2048);
   required "events" simple_array;
   required "secret" (Varchar 255);
   mkColumn "active" Boolean_ true (Literal "true");
   CreateDateColumn "created_at"]
  ["id"] [("idx_event_subs_tenant", ["tenant_id"], false)].

Definition TenantUsage_entity : entity := mkEntity "tenant_usage"
  [required "tenant_id" (Varchar 100);
   mkColumn "object_count" Bigint true (Literal "0");
   mkColumn "bytes_stored" Bigint true (Literal "0");
   UpdateDateColumn "updated_at"]
  ["tenant_id"] [].

Definition entities : list entity :=
  [FileTransfer_entity; User_entity; OutboxEvent_entity; EventSubscription_entity; TenantUsage_entity].

(** The schema has the table, the columns (in any order), the key and the indexes of the
    entity, and no other index on the table but that of the key. *)
Definition realizes (s : schema) (e : entity) : Prop :=
  ∃ t, s_tables s !! en_table e = Some t ∧ t_columns t ≡ₚ en_columns e ∧ t_primaryKey t = en_primaryKey e ∧
    ∀ n cols unique, (n, cols, unique) ∈ en_indexes e ↔
      s_indexes s !! n = Some (mkIndex (en_table e) cols unique false).

Lemma perm_check {A} `{EqDecision A} (l1 l2 : list A) :
  bool_decide (NoDup l1) && bool_decide (NoDup l2) && forallb (λ x, bool_decide (x ∈ l2)) l1
  && forallb (λ x, bool_decide (x ∈ l1)) l2 = true → l1 ≡ₚ l2.
Proof.
  rewrite !andb_true_iff, !bool_decide_eq_true, !forallb_forall. intros [[[H1 H2] H3] H4].
  apply NoDup_Permutation; [done|done|]. intros x. rewrite !list_elem_of_In. split; intros Hx.
  - apply list_elem_of_In. apply (bool_decide_eq_true (x ∈ l2)). by apply H3.
  - apply list_elem_of_In. apply (bool_decide_eq_true (x ∈ l1)). by apply H4.
Qed.

(** The plain indexes of a table. *)
Definition indexes_on (n : string) (s : schema) : list (string * list string * bool) :=
  omap (λ x, if bool_decide (i_table x.2 = n) && negb (i_constraint x.2)
             then Some (x.1, i_columns x.2, i_unique x.2) else None) (map_to_list (s_indexes s)).

Lemma elem_of_indexes_on n s i cols unique :
  (i, cols, unique) ∈ indexes_on n s ↔ s_indexes s !! i = Some (mkIndex n cols unique false).
Proof.
  unfold indexes_on. rewrite list_elem_of_omap. split.
  - intros ([j [t c u k]] & Hin%elem_of_map_to_list & Hj). simpl in Hj. case_bool_decide; simpl in Hj; [|done].
    destruct k; simplify_eq/=. done.
  - intros Hi. exists (i, mkIndex n cols unique false). split; [by apply elem_of_map_to_list|]. simpl.
    by rewrite bool_decide_eq_true_2.
Qed.

Definition realized (e : entity) : bool :=
  match s_tables (own_schema 8) !! en_table e with
  | Some t =>
      bool_decide (NoDup (t_columns t)) && bool_decide (NoDup (en_columns e))
      && forallb (λ x, bool_decide (x ∈ en_columns e)) (t_columns t)
      && forallb (λ x, bool_decide (x ∈ t_columns t)) (en_columns e)
      && bool_decide (t_primaryKey t = en_primaryKey e) && bool_decide (en_table e ∈ own_relations)
      && forallb (λ x, bool_decide (x ∈ indexes_on (en_table e) (own_schema 8))) (en_indexes e)
      && forallb (λ x, bool_decide (x ∈ en_indexes e)) (indexes_on (en_table e) (own_schema 8))
  | None => false
  end.

Lemma all_realized : forallb realized entities = true.
Proof. vm_compute. reflexivity. Qed.

Lemma own_index_names : forallb (λ x, relation_ok x.1) (map_to_list (s_indexes (own_schema 8))) = true.
Proof. vm_compute. reflexivity. Qed.

Lemma beside_plain_index F n t cols unique :
  apart F → t ∈ own_relations →
  s_indexes (beside F (own_schema 8)) !! n = Some (mkIndex t cols unique false) ↔
  s_indexes (own_schema 8) !! n = Some (mkIndex t cols unique false).
Proof.
  intros HF Ht. simpl. rewrite lookup_union. destruct (s_indexes F !! n) as [i|] eqn:Hi.
  - pose proof (ap_index_of F HF n i Hi) as Hn. split; intros H.
    + destruct (s_indexes (own_schema 8) !! n); simpl in H; injection H as ->; by destruct Hn.
    + exfalso. rewrite (ap_indexes F HF n (own_names _ n _ own_index_names H)) in Hi. discriminate Hi.
  - by rewrite (left_id_L None (∪)).
Qed.

Lemma schema_realizes F :
  apart F →
  let s := beside F (own_schema (length migrations)) in
  (∀ e, e ∈ entities → realizes s e) ∧
  s_types s !! "file_transfers_status_enum" =
    Some (map TransferStatus.to_string
      [TransferStatus.PENDING; TransferStatus.PROCESSING; TransferStatus.SUCCESS; TransferStatus.FAILED]).
Proof.
  intros HF s. split.
  - intros e He. pose proof all_realized as Hall. rewrite forallb_forall in Hall.
    specialize (Hall e (proj1 (list_elem_of_In _ _) He)). unfold realized in Hall.
    destruct (s_tables (own_schema 8) !! en_table e) as [t|] eqn:Ht; [|done].
    apply andb_true_iff in Hall as [Hall Hi2]. apply andb_true_iff in Hall as [Hall Hi1].
    apply andb_true_iff in Hall as [Hall Hown%bool_decide_eq_true].
    apply andb_true_iff in Hall as [Hcols Hpk%bool_decide_eq_true].
    exists t. change (length migrations) with 8%nat in s. unfold s.
    split_and!; [by rewrite (beside_table F HF)|by apply perm_check|exact Hpk|].
    intros n cols u. rewrite (beside_plain_index F), <- elem_of_indexes_on by done.
    rewrite forallb_forall in Hi1, Hi2. split; intros Hx.
    + apply (bool_decide_eq_true (_ ∈ _)), Hi1. by apply list_elem_of_In.
    + apply (bool_decide_eq_true (_ ∈ _)), Hi2. by apply list_elem_of_In.
  - change (length migrations) with 8%nat in s. unfold s. rewrite (beside_type F HF); [vm_compute; reflexivity|].
    unfold own_types. set_solver.
Qed.

(** C37: The migrated schema is the one the entities declare.  Next to any other objects,
    every entity class has its table, with exactly the columns its decorators give (types,
    lengths, nullability, defaults), its primary key and exactly its indexes; and the
    labels of the status type are the members of [TransferStatus]. *)
Theorem schema_matches_entities F :
  apart F →
  let s := beside F (own_schema (length migrations)) in
  (∀ e, e ∈ entities → realizes s e) ∧
  s_types s !! "file_transfers_status_enum" =
    Some (map TransferStatus.to_string
      [TransferStatus.PENDING; TransferStatus.PROCESSING; TransferStatus.SUCCESS; TransferStatus.FAILED]).
Proof. apply schema_realizes. Qed.

(** ** What the statements of [Database] enforce

    A value as the driver sends it, and the row of a transfer. *)
Inductive value :=
  | VNull | VText (s : string) | VInt (z : Z) | VBool (b : bool) | VTime (z : Z) | VUuid (s : string).

Definition nullable (o : option string) : value := match o with Some s => VText s | None => VNull end.

Definition fits_type (s : schema) (ty : sql_type) (v : value) : bool :=
  match ty, v with
  | Varchar n, VText x => pg_text x && varchar n x
  | Text, VText x => pg_text x
  | Bigint, VText x => bigint_text x
  | Integer_, VInt z => int4 z
  | EnumType n, VText x => match s_types s !! n with Some labels => bool_decide (x ∈ labels) | None => false end
  | Boolean_, VBool _ | Timestamptz, VTime _ | Uuid, VUuid _ => true
  | _, _ => false
  end.

Definition fits (s : schema) (c : column) (v : value) : bool :=
  match v with VNull => negb (c_notNull c) | _ => fits_type s (c_type c) v end.

(** A column that is not given takes its default. *)
Definition column_fits (s : schema) (row : list (string * value)) (c : column) : bool :=
  match List.find (λ x, String.eqb x.1 (c_name c)) row with
  | Some x => fits s c x.2
  | None => negb (c_notNull c) || negb (bool_decide (c_default c = NoDefault))
  end.

Definition row_fits (s : schema) (t : table) (row : list (string * value)) : bool :=
  forallb (column_fits s row) (t_columns t).

Definition transfer_row (r : FileTransfer) : list (string * value) :=
  [("id", VUuid (ft_id r)); ("idempotency_key", VText (ft_idempotencyKey r)); ("filename", VText (ft_filename r));
   ("virtual_path", VText (ft_virtualPath r)); ("source_path", VText (ft_sourcePath r));
   ("object_key", nullable (ft_objectKey r)); ("bucket", VText (ft_bucket r)); ("size_bytes", VText (ft_sizeBytes r));
   ("etag", nullable (ft_etag r)); ("checksum_sha256", nullable (ft_checksumSha256 r));
   ("encrypted", VBool (ft_encrypted r)); ("wrapped_dek", nullable (ft_wrappedDek r));
   ("status", VText (TransferStatus.to_string (ft_status r))); ("attempts", VInt (ft_attempts r));
   ("error_log", nullable (ft_errorLog r)); ("tenant_id", VText (ft_tenantId r)); ("username", VText (ft_username r));
   ("protocol", nullable (ft_protocol r)); ("session_id", nullable (ft_sessionId r));
   ("created_at", VTime (ft_createdAt r)); ("updated_at", VTime (ft_updatedAt r))].

(** Row-level security: a superuser passes; without it, or for the owner unless it is
    forced, every row does; else some policy has to admit the row. *)
Definition test_holds (setting : option string) (row : list (string * value)) (x : policy_test) : bool :=
  match x with
  | SettingIsNull => bool_decide (setting = None)
  | SettingIsEmpty => bool_decide (setting = Some "")
  | ColumnIsSetting c =>
      match List.find (λ y, String.eqb y.1 c) row, setting with
      | Some (_, VText v), Some t => String.eqb v t
      | _, _ => false
      end
  end.

Definition admitted (t : table) (d : db) (part : policy → list policy_test) (row : list (string * value)) : bool :=
  d_superuser d || negb (t_rls t && t_forced t)
  || existsb (λ p, existsb (test_holds (d_tenant d) row) (part p.2)) (map_to_list (t_policies t)).

(** The verdict of [check_transfer] is the conjunction of its conditions. *)
Lemma is_ok_check r :
  is_ok (check_transfer r) =
    (pg_text (ft_idempotencyKey r) && pg_text (ft_filename r) && pg_text (ft_virtualPath r)
     && pg_text (ft_sourcePath r) && pg_text_null (ft_objectKey r) && pg_text (ft_bucket r)
     && pg_text_null (ft_etag r) && pg_text_null (ft_checksumSha256 r)
     && pg_text_null (ft_wrappedDek r) && pg_text_null (ft_errorLog r)
     && pg_text (ft_tenantId r) && pg_text (ft_username r) && pg_text_null (ft_protocol r)
     && pg_text_null (ft_sessionId r)) &&
    ((varchar 128 (ft_idempotencyKey r) && varchar 1024 (ft_filename r)
     && varchar 2048 (ft_virtualPath r) && varchar 2048 (ft_sourcePath r)
     && varchar_null 2048 (ft_objectKey r) && varchar 255 (ft_bucket r)
     && varchar_null 255 (ft_etag r) && varchar_null 64 (ft_checksumSha256 r)
     && varchar 255 (ft_username r) && varchar_null 32 (ft_protocol r)
     && varchar_null 255 (ft_sessionId r) && varchar 100 (ft_tenantId r)) &&
     (int4 (ft_attempts r) && bigint_text (ft_sizeBytes r))).
Proof.
  assert (Hif : ∀ (a b c : bool) e1 e2 e3,
    is_ok (if negb a then Err e1 else if b then if c then Ok tt else Err e2 else Err e3) = a && (b && c))
    by (by intros [] [] []).
  apply Hif.
Qed.

Lemma fits_nullable s n k o : fits s (optional n (Varchar k)) (nullable o) = pg_text_null o && varchar_null k o.
Proof. by destruct o. Qed.

Lemma fits_nullable_text s n o : fits s (optional n Text) (nullable o) = pg_text_null o.
Proof. by destruct o. Qed.

Lemma forallb_perm {A} (p : A → bool) (l1 l2 : list A) : l1 ≡ₚ l2 → forallb p l1 = forallb p l2.
Proof.
  induction 1 as [|x l1 l2 _ IH|x y l|l1 l2 l3 _ IH1 _ IH2]; simpl; [done|by rewrite IH| |congruence].
  destruct (p x), (p y); done.
Qed.

(** The columns of an entity, one by one. *)
Lemma entity_row_fits s r :
  s_types s !! "file_transfers_status_enum" = Some ["PENDING"; "PROCESSING"; "SUCCESS"; "FAILED"] →
  forallb (column_fits s (transfer_row r)) (en_columns FileTransfer_entity) = is_ok (check_transfer r).
Proof.
  intros Hty. unfold FileTransfer_entity, PrimaryGeneratedColumn, CreateDateColumn, UpdateDateColumn, enum_type.
  cbn [en_columns forallb]. unfold column_fits. unfold transfer_row.
  cbn [List.find c_name fst snd String.eqb Ascii.eqb Bool.eqb andb].
  rewrite ?fits_nullable, ?fits_nullable_text. unfold fits, fits_type.
  cbn [c_type].
  change (s_types s !! ("file_transfers" +:+ "_" +:+ "status" +:+ "_enum")) with (s_types s !! "file_transfers_status_enum").
  rewrite Hty, is_ok_check. rewrite (bool_decide_eq_true_2 (TransferStatus.to_string _ ∈ _)) by
    (destruct (ft_status r); apply list_elem_of_In; simpl; tauto).
  repeat match goal with
  | |- context [varchar ?n ?x] => generalize (varchar n x); intros ?
  | |- context [varchar_null ?n ?x] => generalize (varchar_null n x); intros ?
  end.
  apply eq_iff_eq_true. rewrite !andb_true_iff. tauto.
Qed.

(** The security settings of the migrated table. *)
Definition secured (t : table) : bool :=
  t_rls t && t_forced t
  && bool_decide (t_policies t = {["tenant_isolation" := mkPolicy tenant_tests tenant_tests]}).

Lemma transfers_secured :
  match s_tables (own_schema 8) !! "file_transfers" with Some t => secured t | None => false end = true.
Proof. vm_compute. reflexivity. Qed.

Lemma admitted_tests t d part r :
  secured t = true → part (mkPolicy tenant_tests tenant_tests) = tenant_tests →
  admitted t d part (transfer_row r) = tenant_isolation d r.
Proof.
  unfold secured. rewrite !andb_true_iff, bool_decide_eq_true. intros [[Hr Hf] Hp] Hpart.
  unfold admitted, tenant_isolation. rewrite Hr, Hf, Hp, map_to_list_singleton. cbn [existsb snd]. rewrite Hpart.
  destruct (d_superuser d); [done|]. simpl.
  destruct (d_tenant d) as [t'|]; simpl; [|done].
  rewrite !orb_false_r.
  f_equal. destruct (String.eqb_spec t' "") as [->|Hne]; [done|]. apply bool_decide_eq_false_2. congruence.
Qed.

(** C38: The statements of the model enforce the migrated schema.  Next to any other
    objects, [check_transfer] accepts a row exactly when every column of the migrated
    table admits its value (type, length, nullability, the labels of the status), the
    policy function is the condition of the created policy, for reading and for writing,
    with row-level security enabled and forced, and the idempotency key has its unique index. *)
Theorem statements_enforce_schema F d r :
  apart F →
  let s := beside F (own_schema (length migrations)) in
  ∃ t, s_tables s !! "file_transfers" = Some t ∧
    row_fits s t (transfer_row r) = is_ok (check_transfer r) ∧
    admitted t d po_using (transfer_row r) = tenant_isolation d r ∧
    admitted t d po_check (transfer_row r) = tenant_isolation d r ∧
    s_indexes s !! "uq_file_transfers_idempotency_key" =
      Some (mkIndex "file_transfers" ["idempotency_key"] true false).
Proof.
  intros HF s. destruct (schema_realizes F HF) as [Hen Hty]. fold s in Hen, Hty.
  destruct (Hen FileTransfer_entity) as (t & Ht & Hcols & _ & Hix); [by left|].
  assert (Hsec : secured t = true).
  { pose proof transfers_secured as Hs. change (length migrations) with 8%nat in s. unfold s in Ht.
    rewrite (beside_table F HF) in Ht by (apply list_elem_of_In; by left). simpl in Ht. by rewrite Ht in Hs. }
  exists t. split_and!; [exact Ht| |by apply admitted_tests|by apply admitted_tests|].
  - unfold row_fits. rewrite (forallb_perm _ _ _ Hcols). by apply entity_row_fits.
  - apply (Hix "uq_file_transfers_idempotency_key"). by left.
Qed.

(** ** Witnesses *)

(** A database with the extension and a table of somebody else. *)
Definition shared_database : schema :=
  mkSchema {["mood" := ["sad"; "ok"]]}
    {["notes" := mkTable [required "id" Uuid; required "feeling" (EnumType "mood")] ["id"] false false ∅]}
    {["pk_notes" := mkIndex "notes" ["id"] true true]} true.

Lemma shared_apart : apart shared_database.
Proof.
  assert (Hown : ∀ n, n ∈ own_relations → n ≠ "notes" ∧ n ≠ "pk_notes").
  { intros n Hn%list_elem_of_In. simpl in Hn. naive_solver. }
  split; simpl.
  - intros n Hn%list_elem_of_In. apply lookup_singleton_None. intros <-. simpl in Hn. naive_solver.
  - intros n Hn%Hown. apply lookup_singleton_None. naive_solver.
  - intros n Hn%Hown. apply lookup_singleton_None. naive_solver.
  - intros n i Hi Hn%Hown. apply lookup_singleton_Some in Hi as [_ <-]. simpl in Hn. tauto.
  - intros n t ty Ht Hty%list_elem_of_In. apply lookup_singleton_Some in Ht as [_ <-]. simpl in Hty.
    by destruct Hty as [<-|[<-|[]]].
Qed.

Lemma migrations_settle_witness :
  let st := foldl (λ st c, obey c st) (mkState shared_database []) [Run; Revert; Revert; Run; Revert] in
  migration_run st = Ok (state_at shared_database 8).
Proof. apply (migrations_settle shared_database [Run; Revert; Revert; Run; Revert] shared_apart eq_refl). Defined.

Lemma schema_matches_entities_witness :
  realizes (beside shared_database (own_schema (length migrations))) User_entity.
Proof. apply (schema_matches_entities shared_database shared_apart). right. left. Defined.

Lemma statements_enforce_schema_witness :
  let r := mkFileTransfer "t1" "k1" "a.csv" "/a.csv" "/srv/data/a.csv" None "b" "2" None None false None
    TransferStatus.PENDING 0 None "acme" "ann" None None 0 0 in
  ∃ t, s_tables (beside shared_database (own_schema (length migrations))) !! "file_transfers" = Some t ∧
    row_fits (beside shared_database (own_schema (length migrations))) t (transfer_row r) = true.
Proof.
  intros r.
  destruct (statements_enforce_schema shared_database (mkDb ∅ ∅ ∅ ∅ ∅ 0 (λ _, "u") 0 None false) r shared_apart)
    as (t & Ht & Hr & _).
  exists t. split; [exact Ht|]. rewrite Hr. vm_compute. reflexivity.
Defined.
