(* ===== verification/AdminUi.v ===== *)
(** * The admin page ([admin-ui/admin-ui.html.ts], [admin-ui/admin-ui.controller.ts])

    The script of the page as functions on its state (the variables of the script, the
    browser's local storage, the parts of the document it writes) and on the world behind
    the server.  [serve] is the server as the browser sees it: an answer, or none when the
    network fails.  [Act] lists what a user can do; [server] plugs in [Http.dispatch]. *)
From S2P Require Import Prelude JsLang Numbers Json Entities Database Prog World Repository Outbox.
From S2P Require Import Ingestion Quota Storage Crypto Events Transfers Auth Http.

(** ** State *)
Record page := mkUi {
  ui_token : string;                    (** [token] *)
  ui_roles : list string;               (** [roles] *)
  ui_storedToken : option string;       (** [localStorage.sb_token] *)
  ui_storedRoles : option string;       (** [localStorage.sb_roles] *)
  ui_app : bool;                        (** the app section is shown, the login form hidden *)
  ui_who : string;
  ui_err : string;
  ui_rows : string;                     (** [innerHTML] of the table body *)
  ui_alerts : list string;
  ui_saved : list (string * (bytes * result unit));   (** files offered for saving *)
}.

Definition set_rows (h : string) (p : page) : page :=
  mkUi (ui_token p) (ui_roles p) (ui_storedToken p) (ui_storedRoles p) (ui_app p) (ui_who p) (ui_err p) h
    (ui_alerts p) (ui_saved p).
Definition set_err (m : string) (p : page) : page :=
  mkUi (ui_token p) (ui_roles p) (ui_storedToken p) (ui_storedRoles p) (ui_app p) (ui_who p) m (ui_rows p)
    (ui_alerts p) (ui_saved p).
Definition alert (m : string) (p : page) : page :=
  mkUi (ui_token p) (ui_roles p) (ui_storedToken p) (ui_storedRoles p) (ui_app p) (ui_who p) (ui_err p) (ui_rows p)
    (ui_alerts p ++ [m]) (ui_saved p).
Definition save_file (name : string) (f : bytes * result unit) (p : page) : page :=
  mkUi (ui_token p) (ui_roles p) (ui_storedToken p) (ui_storedRoles p) (ui_app p) (ui_who p) (ui_err p) (ui_rows p)
    (ui_alerts p) (ui_saved p ++ [(name, f)]).

Definition roles_text (roles : list string) : string := stringify (JArray (map JString roles)).

(** The texts of an array of texts. *)
Definition texts_of (v : json) : option (list string) :=
  match v with
  | JArray l => mapM (λ x, match x with JString s => Some s | _ => None end) l
  | _ => None
  end.

(** The first lines of the script; [None] when what is stored is not what the page stores. *)
Definition restore (storedToken storedRoles : option string) : option page :=
  let token := or_string storedToken "" in
  match JSON_parse (or_string storedRoles "[]") with
  | Parsed v => roles ← texts_of v;
                Some (mkUi token roles storedToken storedRoles (negb (String.eqb token "")) "" "" "" [] [])
  | _ => None
  end.

(** ** Rendering *)
Definition canRetry (roles : list string) : bool :=
  existsb (String.eqb "admin") roles || existsb (String.eqb "operator") roles.

Definition quoted (s : string) : string := quote +:+ s +:+ quote.
Definition is_status (s : TransferStatus.t) (t : FileTransfer) : bool := bool_decide (ft_status t = s).

Section script.
(** [new Date(ms).toLocaleString()], and the message of a failed [fetch]. *)
Context (toLocaleString : Z → string) (network_message : string).

Definition download_button (t : FileTransfer) : string :=
  "<button class=" +:+ quoted "secondary" +:+ " onclick="
  +:+ quoted ("dl('" +:+ ft_id t +:+ "','" +:+ ft_filename t +:+ "')") +:+ ">Download</button> ".
Definition retry_button (t : FileTransfer) : string :=
  "<button onclick=" +:+ quoted ("retryOne('" +:+ ft_id t +:+ "')") +:+ ">Retry</button>".

Definition row_html (roles : list string) (t : FileTransfer) : string :=
  newline +:+ "        <tr>" +:+ newline
  +:+ "          <td class=" +:+ quoted "wrap" +:+ ">" +:+ ft_filename t +:+ "</td>" +:+ newline
  +:+ "          <td><span class=" +:+ quoted ("badge " +:+ TransferStatus.to_string (ft_status t)) +:+ ">"
  +:+ TransferStatus.to_string (ft_status t) +:+ "</span></td>" +:+ newline
  +:+ "          <td>" +:+ number_to_string (ft_attempts t) +:+ "</td>" +:+ newline
  +:+ "          <td class=" +:+ quoted "wrap" +:+ ">" +:+ ft_bucket t +:+ "/" +:+ nullish (ft_objectKey t) ""
  +:+ "</td>" +:+ newline
  +:+ "          <td>" +:+ toLocaleString (ft_updatedAt t) +:+ "</td>" +:+ newline
  +:+ "          <td>" +:+ (if is_status TransferStatus.SUCCESS t then download_button t else "")
  +:+ (if is_status TransferStatus.FAILED t && canRetry roles then retry_button t else "") +:+ "</td>" +:+ newline
  +:+ "        </tr>".

Definition table_html (roles : list string) (items : list FileTransfer) : string :=
  or_string (Some (join "" (map (row_html roles) items)))
    ("<tr><td colspan=" +:+ quoted "6" +:+ ">no transfers</td></tr>").

(** ** The script *)
Context (serve : option string → string → api_call → world → option response * world).

Definition fetch_error : exn := Infra (Infra_error "TypeError" network_message None None).
Definition response_ok (r : response) : bool := ((200 <=? rs_status r) && (rs_status r <=? 299))%Z.

(** [logout]; it calls [show], which without a token only toggles the sections. *)
Definition logout (p : page) : page :=
  mkUi "" [] None None false (ui_who p) (ui_err p) (ui_rows p) (ui_alerts p) (ui_saved p).

(** The bearer token of [Authorization: Bearer <token>]; none after the blank. *)
Definition bearer (p : page) : option string :=
  if String.eqb (ui_token p) "" then None else Some (ui_token p).

Definition api (path : string) (c : api_call) (p : page) (w : world) : result body * page * world :=
  match serve (bearer p) path c w with
  | (None, w') => (Err fetch_error, p, w')
  | (Some res, w') =>
      if (rs_status res =? 401)%Z then (Err (plain_error "unauthorized"), logout p, w')
      else if negb (response_ok res) then (Err (plain_error ("HTTP " +:+ number_to_string (rs_status res))), p, w')
      else (Ok (rs_body res), p, w')
  end.

Definition status_value (st : option TransferStatus.t) : string :=
  match st with Some s => "&status=" +:+ TransferStatus.to_string s | None => "" end.

(** [load]; its errors end it and are not caught. *)
Definition load (st : option TransferStatus.t) (p : page) (w : world) : page * world :=
  match api ("/v1/transfers?limit=50" +:+ status_value st) (Managed (ListTransfers (mkListQuery st 50 0))) p w with
  | (Ok (BPage data), p', w') => (set_rows (table_html (ui_roles p') (pg_items data)) p', w')
  | (_, p', w') => (p', w')
  end.

Definition show (st : option TransferStatus.t) (p : page) (w : world) : page * world :=
  let authed := negb (String.eqb (ui_token p) "") in
  let p1 := mkUi (ui_token p) (ui_roles p) (ui_storedToken p) (ui_storedRoles p) authed
              (if authed then "roles: " +:+ join ", " (ui_roles p) else ui_who p) (ui_err p) (ui_rows p)
              (ui_alerts p) (ui_saved p) in
  if authed then load st p1 w else (p1, w).

(** [st] is the selected status, for the list that is loaded afterwards. *)
Definition ui_login (username password : string) (st : option TransferStatus.t) (p : page) (w : world)
    : page * world :=
  let p0 := set_err "" p in
  match serve None "/v1/auth/login" (Login (mkLoginDto username password)) w with
  | (None, w') => (set_err network_message p0, w')
  | (Some res, w') =>
      if negb (response_ok res) then (set_err "invalid credentials" p0, w')
      else match rs_body res with
           | BLogin data =>
               let roles := map role_name (lr_roles data) in
               show st (mkUi (lr_access_token data) roles (Some (lr_access_token data)) (Some (roles_text roles))
                          (ui_app p0) (ui_who p0) (ui_err p0) (ui_rows p0) (ui_alerts p0) (ui_saved p0)) w'
           | _ => (p0, w')
           end
  end.

Definition retryOne (id : string) (st : option TransferStatus.t) (p : page) (w : world) : page * world :=
  match api ("/v1/transfers/" +:+ id +:+ "/retry") (Managed (RetryTransfer id)) p w with
  | (Ok _, p', w') => load st p' w'
  | (Err _, p', w') => (p', w')
  end.

Definition dl (id filename : string) (p : page) (w : world) : page * world :=
  match serve (bearer p) ("/v1/transfers/" +:+ id +:+ "/download") (Managed (DownloadTransfer id)) w with
  | (None, w') => (p, w')
  | (Some res, w') =>
      if negb (response_ok res) then (alert ("download failed: " +:+ number_to_string (rs_status res)) p, w')
      else match rs_body res with
           | BFile _ stream => (save_file filename stream p, w')
           | _ => (p, w')
           end
  end.

(** [{ status: 'FAILED' }] with the default limit of the DTO. *)
Definition ui_retryBatch (st : option TransferStatus.t) (p : page) (w : world) : page * world :=
  if negb (canRetry (ui_roles p)) then (alert "requires operator/admin role" p, w)
  else
    match api "/v1/transfers/retry-batch" (Managed (RetryBatch (mkRetryBatch (Some TransferStatus.FAILED) None 100))) p w with
    | (Ok (BRequeued n _), p', w') => load st (alert ("re-queued " +:+ number_to_string n +:+ " transfer(s)") p') w'
    | (_, p', w') => (p', w')
    end.

(** ** What a user does *)
Inductive Act :=
  | LogIn (username password : string) (st : option TransferStatus.t)
  | LogOut
  | Refresh (st : option TransferStatus.t)
  | Retry (id : string) (st : option TransferStatus.t)
  | RetryAll (st : option TransferStatus.t)
  | Save (id filename : string).

Definition act (a : Act) (p : page) (w : world) : page * world :=
  match a with
  | LogIn u pw st => ui_login u pw st p w
  | LogOut => (logout p, w)
  | Refresh st => load st p w
  | Retry id st => retryOne id st p w
  | RetryAll st => ui_retryBatch st p w
  | Save id filename => dl id filename p w
  end.

Fixpoint acts_of (l : list Act) (p : page) (w : world) : page * world :=
  match l with
  | [] => (p, w)
  | a :: l' => let '(p', w') := act a p w in acts_of l' p' w'
  end.

(** ** The session

    What the script holds, what the browser stores and what is shown agree. *)
Definition session_ok (p : page) : Prop :=
  (ui_storedToken p = Some (ui_token p) ∨ ui_storedToken p = None ∧ ui_token p = "") ∧
  (ui_storedRoles p = Some (roles_text (ui_roles p)) ∨ ui_storedRoles p = None ∧ ui_roles p = []) ∧
  ui_app p = negb (String.eqb (ui_token p) "").

Lemma api_session path c p w : session_ok p → session_ok (api path c p w).1.2.
Proof.
  intros Hp. unfold api. destruct (serve _ _ _ _) as [[res|] w']; [|done].
  destruct (_ =? 401)%Z; [|by destruct (negb _)]. split_and!; simpl; auto.
Qed.

Lemma load_session st p w : session_ok p → session_ok (load st p w).1.
Proof.
  intros Hp. unfold load.
  pose proof (api_session ("/v1/transfers?limit=50" +:+ status_value st)
    (Managed (ListTransfers (mkListQuery st 50 0))) p w Hp) as Ha.
  destruct (api _ _ p w) as [[[b|e] p'] w']; [|done]. by destruct b.
Qed.

Lemma show_session st p w :
  (ui_storedToken p = Some (ui_token p) ∨ ui_storedToken p = None ∧ ui_token p = "") →
  (ui_storedRoles p = Some (roles_text (ui_roles p)) ∨ ui_storedRoles p = None ∧ ui_roles p = []) →
  session_ok (show st p w).1.
Proof.
  intros Ht Hr. unfold show. set (p1 := mkUi _ _ _ _ _ _ _ _ _ _).
  assert (Hp1 : session_ok p1) by (by split_and!).
  destruct (negb _); [by apply load_session|done].
Qed.

Lemma act_session a p w : session_ok p → session_ok (act a p w).1.
Proof.
  intros Hp. destruct a as [u pw st| |st|id st|st|id f]; simpl.
  - unfold ui_login. destruct (serve _ _ _ _) as [[res|] w']; [|done].
    destruct (negb (response_ok res)); [done|]. destruct (rs_body res); try done.
    apply show_session; simpl; auto.
  - split_and!; simpl; auto.
  - by apply load_session.
  - unfold retryOne. pose proof (api_session ("/v1/transfers/" +:+ id +:+ "/retry") (Managed (RetryTransfer id)) p w Hp) as Ha.
    destruct (api _ _ p w) as [[[b|e] p'] w']; [by apply load_session|done].
  - unfold ui_retryBatch. destruct (negb _); [done|].
    pose proof (api_session "/v1/transfers/retry-batch"
      (Managed (RetryBatch (mkRetryBatch (Some TransferStatus.FAILED) None 100))) p w Hp) as Ha.
    destruct (api _ _ p w) as [[[b|e] p'] w']; [|done]. destruct b; try done. by apply load_session.
  - unfold dl. destruct (serve _ _ _ _) as [[res|] w']; [|done].
    destruct (negb (response_ok res)); [done|]. by destruct (rs_body res).
Qed.

Lemma acts_session l p w : session_ok p → session_ok (acts_of l p w).1.
Proof.
  revert p w. induction l as [|a l IH]; intros p w Hp; simpl; [done|].
  pose proof (act_session a p w Hp) as Ha. destruct (act a p w) as [p' w']. by apply IH.
Qed.
End script.

(** What is stored reads back. *)
Lemma texts_of_texts l : texts_of (JArray (map JString l)) = Some l.
Proof. simpl. induction l as [|s l IH]; simpl; [done|]. by rewrite IH. Qed.

Lemma roles_text_parse l : JSON_parse (roles_text l) = Parsed (JArray (map JString l)).
Proof. apply parse_stringify, printable_array, Forall_forall. intros v (s & -> & _)%list_elem_of_fmap. done. Qed.

Lemma restore_session p :
  session_ok p → ∃ p', restore (ui_storedToken p) (ui_storedRoles p) = Some p' ∧
    ui_token p' = ui_token p ∧ ui_roles p' = ui_roles p ∧ ui_app p' = ui_app p.
Proof.
  intros (Ht & Hr & Ha). unfold restore.
  assert (Htok : or_string (ui_storedToken p) "" = ui_token p).
  { destruct Ht as [->|[-> ->]]; simpl; [|done]. by destruct (String.eqb_spec (ui_token p) ""). }
  assert (Hrol : ∃ v, JSON_parse (or_string (ui_storedRoles p) "[]") = Parsed v ∧ texts_of v = Some (ui_roles p)).
  { destruct Hr as [->|[-> ->]]; [|by exists (JArray [])]. exists (JArray (map JString (ui_roles p))).
    split; [|apply texts_of_texts]. change (or_string (Some (roles_text (ui_roles p))) "[]") with
      (roles_text (ui_roles p)). apply roles_text_parse. }
  destruct Hrol as (v & -> & Hv). simpl. rewrite Hv. simpl. eexists. split; [done|]. simpl. by rewrite Htok.
Qed.

Definition fresh_page : page := mkUi "" [] None None false "" "" "" [] [].

(** The session of the admin page survives a reload.  Whatever the server answers and
    whatever the user does, starting from an empty browser: reloading the page restores the
    token, the roles and the section that was shown from local storage. *)
Theorem session_survives_reload locale message serve l w :
  let p := (acts_of locale message serve l fresh_page w).1 in
  ∃ p', restore (ui_storedToken p) (ui_storedRoles p) = Some p' ∧
    ui_token p' = ui_token p ∧ ui_roles p' = ui_roles p ∧ ui_app p' = ui_app p.
Proof. intros p. apply restore_session, acts_session. split_and!; simpl; auto. Qed.

(** ** Behind the page: the server *)
Section server.
Context `{!Externals, !Gcm, !Credentials, !Validators}.

Definition server (hc : HttpConfig) (bearer : option string) (url : string) (c : api_call) (w : world)
    : option response * world :=
  match exec (dispatch hc (mkHttpRequest url bearer None None [] false c)) w with
  | (Ok res, w') => (Some res, w')
  | (Err _, w') => (None, w')
  end.

(** The page offers a retry to exactly the users the server lets retry. *)
Lemma canRetry_guard user id :
  canRetry (map role_name (au_roles user)) = is_ok (roles_guard (required_roles (RetryTransfer id)) (Some user)).
Proof.
  unfold roles_guard, canRetry. simpl.
  assert (Hr : ∀ r, existsb (String.eqb (role_name r)) (map role_name (au_roles user)) = bool_decide (r ∈ au_roles user)).
  { intros r. induction (au_roles user) as [|x l IH]; simpl; [done|]. rewrite IH.
    destruct (decide (r = x)) as [->|Hne].
    - rewrite string_eqb_refl. simpl. symmetry. apply bool_decide_eq_true_2. left.
    - replace (String.eqb (role_name r) (role_name x)) with false by (by destruct r, x).
      simpl. apply bool_decide_ext. set_solver. }
  pose proof (Hr ADMIN) as Ha. pose proof (Hr OPERATOR) as Ho. simpl in Ha, Ho. rewrite Ha, Ho.
  by destruct (bool_decide (ADMIN ∈ _)), (bool_decide (OPERATOR ∈ _)).
Qed.
End server.

(** An expired session ends at the next refresh: the request changes nothing on the
    server, and the page forgets the token, empties local storage and shows the login form. *)
Theorem expired_session_ends `{!Externals, !Gcm, !Credentials, !Validators} locale message hc st p w :
  jwt_guard (hc_auth hc) (d_now (w_db w)) (bearer p) = None →
  load locale message (server hc) st p w = (logout p, w).
Proof.
  intros Hj. unfold load, api, server, dispatch. cbn [hr_call throttled hr_limited andb].
  unfold managed_route. cbn [hr_bearer]. rewrite exec_bind, exec_call. simpl. rewrite Hj.
  unfold error_response. rewrite exec_bind, exec_call. done.
Qed.

(** ** What ends up in the document *)
Definition lt : Ascii.ascii := "<"%char.
Fixpoint tags (s : string) : nat :=
  match s with
  | EmptyString => O
  | String c s' => ((if Ascii.eqb lt c then 1 else 0) + tags s')%nat
  end.

Lemma tags_app s t : tags (s +:+ t) = (tags s + tags t)%nat.
Proof. induction s as [|c s IH]; [done|]. change (String c s +:+ t) with (String c (s +:+ t)). simpl. rewrite IH. lia. Qed.

Lemma tags_none s : no_char lt s = true → tags s = 0%nat.
Proof.
  induction s as [|c s IH]; simpl; [done|]. intros [Hc%negb_true_iff Hs]%andb_true_iff. by rewrite Hc, IH.
Qed.

Lemma number_no_tags z : tags (number_to_string z) = 0%nat.
Proof. by apply tags_none, pretty_Z_no_char. Qed.

(** The texts of a row hold no opening angle bracket. *)
Definition plain_row (locale : Z → string) (t : FileTransfer) : Prop :=
  no_char lt (ft_filename t) = true ∧ no_char lt (ft_bucket t) = true ∧
  no_char lt (nullish (ft_objectKey t) "") = true ∧ no_char lt (ft_id t) = true ∧
  no_char lt (locale (ft_updatedAt t)) = true.

(** Tags of a row: the template's, two per button. *)
Definition row_tags (roles : list string) (t : FileTransfer) : nat :=
  (16 + (if is_status TransferStatus.SUCCESS t then 2 else 0)
      + (if is_status TransferStatus.FAILED t && canRetry roles then 2 else 0))%nat.

Lemma row_tags_plain locale roles t : plain_row locale t → tags (row_html locale roles t) = row_tags roles t.
Proof.
  intros (Hf & Hb & Hk & Hi & Hl). unfold row_html, row_tags, quoted. rewrite !tags_app, number_no_tags.
  rewrite (tags_none _ Hf), (tags_none _ Hb), (tags_none _ Hk), (tags_none _ Hl).
  assert (Hst : tags (TransferStatus.to_string (ft_status t)) = 0%nat) by (by destruct (ft_status t)).
  rewrite Hst.
  assert (Hd : tags (if is_status TransferStatus.SUCCESS t then download_button t else "") =
               if is_status TransferStatus.SUCCESS t then 2 else 0).
  { destruct (is_status _ t); [|done]. unfold download_button, quoted. rewrite !tags_app, (tags_none _ Hf), (tags_none _ Hi). done. }
  assert (Hr : tags (if is_status TransferStatus.FAILED t && canRetry roles then retry_button t else "") =
               if is_status TransferStatus.FAILED t && canRetry roles then 2 else 0).
  { destruct (_ && _); [|done]. unfold retry_button, quoted. rewrite !tags_app, (tags_none _ Hi). done. }
  rewrite Hd, Hr. simpl. by destruct (is_status _ t), (_ && _).
Qed.

(** With such texts the table has exactly the elements of the template... *)
Theorem plain_rows_add_no_markup locale roles items :
  Forall (plain_row locale) items → items ≠ [] →
  tags (table_html locale roles items) = sum_list (map (row_tags roles) items).
Proof.
  intros Hl Hne. unfold table_html.
  assert (Hj : tags (join "" (map (row_html locale roles) items)) = sum_list (map (row_tags roles) items)).
  { clear Hne. unfold join. induction Hl as [|t l Ht Hl IH]; [done|].
    change (map (row_html locale roles) (t :: l)) with (row_html locale roles t :: map (row_html locale roles) l).
    destruct l as [|t' l].
    { transitivity (row_tags roles t); [exact (row_tags_plain locale roles t Ht)|].
      symmetry. apply Nat.add_0_r. }
    change (String.concat "" (row_html locale roles t :: map (row_html locale roles) (t' :: l))) with
      (row_html locale roles t +:+ "" +:+ String.concat "" (map (row_html locale roles) (t' :: l))).
    rewrite !tags_app, IH, row_tags_plain by done. done. }
  destruct items as [|t l]; [done|]. rewrite <- Hj.
  destruct (join "" (map (row_html locale roles) (t :: l))) as [|c s] eqn:E; [|done].
  by destruct l.
Qed.

Import Demo DemoCipher DemoCredentials.
#[local] Existing Instance demo_validators.

Definition admin_page : page :=
  mkUi (jwt_sign "jwt-secret" "1h" 1000 (mkPayload "u0" "root" [ADMIN] "default")) ["admin"] None None true "" "" "" [] [].

Definition hostile_upload : SftpgoWebhookDto :=
  mkWebhook "upload" "mallory" "/srv/data/mallory/x" "/<img src=x onerror=alert(1)>" None None None
    1 (Some 1%Z) None None None None None.

(** ...and with others it has theirs: the name of an uploaded file is written into the page as
    markup.  An upload whose name is an element with a script is accepted, and the list an
    administrator loads contains that element. *)
Theorem filename_becomes_markup :
  let hook := mkHttpRequest "/v1/sftp/on-upload" None (Some "hook-secret") None [] false (OnUpload hostile_upload) in
  let r := exec (dispatch demo_http hook) empty_world in
  r.1 = Ok (mkResponse 200 (BOutcome ACCEPTED)) ∧
  includes (ui_rows (load (λ _, "") "" (server demo_http) None admin_page r.2).1) "<img src=x onerror=alert(1)>" = true.
Proof. vm_compute. done. Qed.

Lemma expired_session_ends_witness :
  load (λ _, "") "" (server demo_http) None (mkUi "stale" [] (Some "stale") None true "" "" "" [] []) empty_world =
    (fresh_page, empty_world).
Proof.
  exact (expired_session_ends (λ _, "") "" demo_http None (mkUi "stale" [] (Some "stale") None true "" "" "" [] [])
    empty_world eq_refl).
Defined.

Lemma plain_rows_add_no_markup_witness :
  let t := mkFileTransfer "t1" "k1" "a.csv" "/a.csv" "/srv/data/f" None "default" "2" None None false None
    TransferStatus.FAILED 0 None "acme" "ann" None None 0 0 in
  tags (table_html (λ _, "") ["admin"] [t]) = 18%nat.
Proof. intros t. apply (plain_rows_add_no_markup (λ _, "") ["admin"] [t]); [repeat constructor|discriminate]. Defined.
