(* ===== verification/Wiring.v ===== *)
(** * Wiring: what the modules register

    The parts of the program that are declarations: the Prometheus metrics
    ([metrics/metrics.module.ts]) and the service over them, the options of the queues
    ([ingestion/ingestion.module.ts], [outbox/outbox.module.ts], [events/events.module.ts])
    and the jobs added through them, the two places that say how to reach the
    database ([database/database.module.ts], [database/data-source.ts]), and the limit on
    request bodies ([main.ts]). *)
From Stdlib Require Import QArith.
From S2P Require Import Prelude JsLang Numbers Json Config Entities Database Prog World Repository Outbox.
From S2P Require Import Ingestion Quota Routing Storage Crypto Pipeline Events Processor Transfers Auth Http.

(** ** Metrics *)
Inductive metric_kind := CounterKind | GaugeKind | HistogramKind.

#[global] Instance metric_kind_eq_dec : EqDecision metric_kind.
Proof. solve_decision. Defined.

Record metric := mkMetric {
  mt_name : string;
  mt_kind : metric_kind;
  mt_labelNames : list string;
  mt_buckets : list Q;
}.

(** The providers of [MetricsModule]. *)
Definition registered_metrics : list metric :=
  [mkMetric "syncbridge_transfers_total" CounterKind ["status"] [];
   mkMetric "syncbridge_transfer_bytes_total" CounterKind [] [];
   mkMetric "syncbridge_transfer_duration_seconds" HistogramKind []
     [5 # 100; 1 # 10; 5 # 10; 1; 2; 5; 10; 30; 60; 120]%Q;
   mkMetric "syncbridge_transfers_in_flight" GaugeKind [] [];
   mkMetric "syncbridge_dead_letter_total" CounterKind [] [];
   mkMetric "syncbridge_webhook_deliveries_total" CounterKind ["status"] []].

(** The registry: a value per metric and labels; for the histogram, its count. *)
Abbreviation series := (gmap (string * list (string * string)) Z).

(** What prom-client refuses: an unknown metric or kind, a label that was not declared, a
    counter that goes down. *)
Definition metric_add (kind : metric_kind) (name : string) (labels : list (string * string)) (n : Z) (s : series)
    : result series :=
  match List.find (λ m, String.eqb (mt_name m) name) registered_metrics with
  | None => Err (plain_error ("No metric " +:+ name))
  | Some m =>
      if negb (bool_decide (mt_kind m = kind)) then Err (plain_error ("Not of that kind: " +:+ name))
      else if negb (forallb (λ l, existsb (String.eqb l.1) (mt_labelNames m)) labels)
      then Err (plain_error "Added label is not included in initial labelset")
      else if bool_decide (kind = CounterKind) && (n <? 0)%Z
      then Err (plain_error "It is not possible to decrease a counter")
      else Ok (<[(name, labels) := (default 0 (s !! (name, labels)) + n)%Z]> s)
  end.

(** [MetricsService] *)
Definition ms_endTimer : series → result series := metric_add HistogramKind "syncbridge_transfer_duration_seconds" [] 1.
Definition ms_incInFlight : series → result series := metric_add GaugeKind "syncbridge_transfers_in_flight" [] 1.
Definition ms_decInFlight : series → result series := metric_add GaugeKind "syncbridge_transfers_in_flight" [] (-1).
Definition ms_recordSuccess (bytes_ : Z) (s : series) : result series :=
  match metric_add CounterKind "syncbridge_transfers_total" [("status", "SUCCESS")] 1 s with
  | Ok s' => metric_add CounterKind "syncbridge_transfer_bytes_total" [] bytes_ s'
  | Err e => Err e
  end.
Definition ms_recordFailure : series → result series :=
  metric_add CounterKind "syncbridge_transfers_total" [("status", "FAILED")] 1.
Definition ms_recordDeadLetter : series → result series := metric_add CounterKind "syncbridge_dead_letter_total" [] 1.
Definition ms_recordWebhookDelivery (delivered : bool) : series → result series :=
  metric_add CounterKind "syncbridge_webhook_deliveries_total"
    [("status", if delivered then "delivered" else "failed")] 1.

(** The registry behind the metric fields of a process. *)
Definition exposes (s : series) (p : proc) : Prop :=
  let v name labels := default 0%Z (s !! (name, labels)) in
  v "syncbridge_transfers_total" [("status", "SUCCESS")] = m_success p ∧
  v "syncbridge_transfers_total" [("status", "FAILED")] = m_failed p ∧
  v "syncbridge_transfer_bytes_total" [] = m_bytes p ∧
  v "syncbridge_transfers_in_flight" [] = m_inFlight p ∧
  v "syncbridge_transfer_duration_seconds" [] = m_observed p ∧
  v "syncbridge_dead_letter_total" [] = m_deadLetter p ∧
  v "syncbridge_webhook_deliveries_total" [("status", "delivered")] = m_delivered p ∧
  v "syncbridge_webhook_deliveries_total" [("status", "failed")] = m_deliveryFailed p.

(** A method of the service, on the registry and on the fields of the process. *)
Definition implements_metric (on_registry : series → result series) (on_process : proc → proc) : Prop :=
  ∀ s p, exposes s p → ∃ s', on_registry s = Ok s' ∧ exposes s' (on_process p).

Lemma metric_add_ok kind name labels n s m :
  List.find (λ m, String.eqb (mt_name m) name) registered_metrics = Some m → mt_kind m = kind →
  forallb (λ l, existsb (String.eqb l.1) (mt_labelNames m)) labels = true →
  (kind = CounterKind → (0 ≤ n)%Z) →
  metric_add kind name labels n s = Ok (<[(name, labels) := (default 0 (s !! (name, labels)) + n)%Z]> s).
Proof.
  intros Hf Hk Hl Hn. unfold metric_add. rewrite Hf, Hl, bool_decide_eq_true_2 by done. simpl.
  destruct (bool_decide_reflect (kind = CounterKind)); [|done]. simpl.
  destruct (Z.ltb_spec n 0); [|done]. specialize (Hn e). lia.
Qed.

Ltac registered := eapply metric_add_ok; [reflexivity|reflexivity|reflexivity|lia || done].
Ltac exposed :=
  unfold exposes in *; cbn [m_success m_failed m_bytes m_inFlight m_observed m_deadLetter m_delivered m_deliveryFailed
    incInFlight decInFlight endTimer recordSuccess recordFailure recordDeadLetter recordWebhookDelivery] in *;
  rewrite !lookup_insert; repeat (case_decide; [by simplify_eq || idtac|]); simpl; intuition lia.

(** The metrics are the ones the modules register.  Every method of the metrics service
    finds its metric registered with the kind and the labels it uses, never throws, and
    changes the registry as the fields of the process record it; a byte count is not
    negative. *)
Theorem metrics_refine_registry bytes_ delivered :
  (0 ≤ bytes_)%Z →
  implements_metric ms_incInFlight incInFlight ∧ implements_metric ms_decInFlight decInFlight ∧
  implements_metric ms_endTimer endTimer ∧ implements_metric (ms_recordSuccess bytes_) (recordSuccess bytes_) ∧
  implements_metric ms_recordFailure recordFailure ∧ implements_metric ms_recordDeadLetter recordDeadLetter ∧
  implements_metric (ms_recordWebhookDelivery delivered) (recordWebhookDelivery delivered).
Proof.
  intros Hb. split_and!; intros s p Hs.
  - eexists. split; [registered|]. exposed.
  - eexists. split; [registered|]. exposed.
  - eexists. split; [registered|]. exposed.
  - eexists. split.
    + unfold ms_recordSuccess. erewrite metric_add_ok; [registered|reflexivity..|lia].
    + exposed.
  - eexists. split; [registered|]. exposed.
  - eexists. split; [registered|]. exposed.
  - eexists. split; [unfold ms_recordWebhookDelivery; registered|]. destruct delivered; exposed.
Qed.

Lemma metrics_refine_registry_witness :
  ∃ s', ms_recordSuccess 1024 ∅ = Ok s' ∧ exposes s' (recordSuccess 1024 boot_proc).
Proof.
  destruct (metrics_refine_registry 1024 true) as (_ & _ & _ & Hs & _); [discriminate|].
  apply Hs. repeat split.
Defined.

(** ** Queues *)
Record job_options := mkJobOptions {
  jo_attempts : option Z;
  jo_backoff : option (string * Z);   (** type and delay *)
  jo_removeOnComplete : option Z;
  jo_removeOnFail : option bool;
}.

(** [IngestionModule]: the configured attempts and delay. *)
Definition ingestion_queue (transferMaxAttempts transferRetryBackoffMs : Z) : job_options :=
  mkJobOptions (Some transferMaxAttempts) (Some ("exponential", transferRetryBackoffMs)) (Some 1000%Z) (Some false).
(** [OutboxModule]: none. *)
Definition outbox_queue : job_options := mkJobOptions None None None None.
(** [EventsModule] *)
Definition delivery_queue : job_options :=
  mkJobOptions (Some 5%Z) (Some ("exponential", 2000%Z)) (Some 1000%Z) (Some false).

(** [queue.add(TRANSFER_JOB, data)] through a queue registered with these options. *)
Definition add_through (o : job_options) (data : TransferJobData) : Job := mkJob TRANSFER_JOB data (jo_attempts o) 0.

Lemma retry_job_through n delay id : retry_job n id = add_through (ingestion_queue n delay) (mkTransferJob id []).
Proof. done. Qed.
Lemma event_job_through e : ob_type e = TRANSFER_JOB → event_job e = add_through outbox_queue (ob_payload e).
Proof. intros Ht. unfold event_job. by rewrite Ht. Qed.

(** ** The database connection *)
Record connection := mkConnection {
  cn_host : option string;
  cn_port : js_number;
  cn_username : option string;
  cn_password : option string;
  cn_database : option string;
  cn_synchronize : bool;
  cn_logging : bool;
}.

(** [dataSourceOptions]: what the migrations connect with. *)
Definition dataSourceOptions (e : env) : connection :=
  mkConnection
    (Some (nullish (e !! "POSTGRES_HOST") "localhost"))
    (match e !! "POSTGRES_PORT" with Some s => Number s | None => Finite (inject_Z 5432) end)
    (Some (or_string (e !! "APP_DB_USER") (or_string (e !! "POSTGRES_USER") "syncbridge")))
    (Some (nullish (e !! "POSTGRES_PASSWORD") "syncbridge"))
    (Some (nullish (e !! "POSTGRES_DB") "syncbridge"))
    false
    (existsb (String.eqb (toLowerCase (nullish (e !! "DB_LOGGING") ""))) ["true"; "1"; "yes"]).

(** [DatabaseModule]: what the running service connects with. *)
Definition database_module (db : DatabaseSettings) : connection :=
  mkConnection (database_host db) (database_port db) (database_username db) (database_password db)
    (database_name db) (database_synchronize db) (database_logging db).

Definition same_target (a b : connection) : Prop :=
  cn_host a = cn_host b ∧ cn_port a = cn_port b ∧ cn_username a = cn_username b ∧
  cn_password a = cn_password b ∧ cn_database a = cn_database b.

Lemma valid_present e name : valid_env e → required_text name ∈ EnvironmentVariables → ∃ s, e !! name = Some s ∧ s ≠ "".
Proof. apply text_valid. Qed.

(** Migrations and service reach the same database.  In an environment that validation
    accepts, the connection of the migration runner and that of the service agree in host,
    port, role, password and database, although each reads the environment in its own way. *)
Theorem migrations_and_service_agree e :
  valid_env e → same_target (dataSourceOptions e) (database_module (cfg_database (configuration e))).
Proof.
  intros Hv.
  destruct (valid_present e "POSTGRES_HOST" Hv ltac:(in_schema)) as (h & Hh & _).
  destruct (valid_present e "POSTGRES_USER" Hv ltac:(in_schema)) as (u & Hu & Hune).
  destruct (valid_present e "POSTGRES_PASSWORD" Hv ltac:(in_schema)) as (pw & Hpw & _).
  destruct (valid_present e "POSTGRES_DB" Hv ltac:(in_schema)) as (d & Hd & _).
  assert (Hport : integer_in 1 (Some 65535%Z) (int_ (e !! "POSTGRES_PORT") 5432) = true).
  { apply int_valid; [done|in_schema|reflexivity]. }
  assert (Hval : integer_in 1 (Some 65535%Z) (number_of (value_of e (int_or "POSTGRES_PORT" 5432 1 (Some 65535%Z)))) = true).
  { apply (Hv (int_or "POSTGRES_PORT" 5432 1 (Some 65535%Z))). in_schema. }
  split_and!; cbn [dataSourceOptions database_module configuration cfg_database cn_host cn_port cn_username cn_password
    cn_database database_host database_port database_username database_password database_name].
  - by rewrite Hh.
  - unfold int_, value_of, number_of in *. cbn [pr_name pr_default int_or] in *.
    destruct (e !! "POSTGRES_PORT") as [s|]; [|done]. by destruct (Number s).
  - unfold non_empty. rewrite Hu. simpl. destruct (String.eqb_spec u ""); [done|].
    destruct (e !! "APP_DB_USER") as [a|]; [|done]. simpl. by destruct (String.eqb a "").
  - by rewrite Hpw.
  - by rewrite Hd.
Qed.

(** The two read [DB_LOGGING] differently: [on] turns statement logging on in the service and
    not in the migration runner. *)
Theorem logging_spellings_differ e :
  e !! "DB_LOGGING" = Some "on" →
  cn_logging (database_module (cfg_database (configuration e))) = true ∧ cn_logging (dataSourceOptions e) = false.
Proof. intros Hl. simpl. by rewrite Hl. Qed.

(** ** The body limit

    [main.ts] puts express's parsers, with a limit, in front of the application.  A body over
    the limit and one that does not parse never reach a route: the parser hands its error
    to the framework, which turns a [SyntaxError] into a 400 and passes everything else to the
    filter. *)
Record raw_request := mkRaw {
  rw_bodyBytes : Z;
  rw_syntaxError : option string;   (** message of the parser, when the body is malformed *)
  rw_request : request;
}.

Definition payload_too_large : exn :=
  Infra (Infra_error "PayloadTooLargeError" "request entity too large" None None).

Section front.
Context `{!Externals, !Gcm, !Credentials, !Validators}.

Definition front (maxPayloadBytes : Z) (hc : HttpConfig) (raw : raw_request) : P response :=
  let url := hr_url (rw_request raw) in
  if (maxPayloadBytes <? rw_bodyBytes raw)%Z then error_response url (TExn payload_too_large)
  else match rw_syntaxError raw with
       | Some m => error_response url (TExn (HttpError 400 m))
       | None => dispatch hc (rw_request raw)
       end.

Lemma error_response_keeps url t w fs : final fs (error_response url t) w = w.
Proof. done. Qed.

(** What is over the limit changes nothing, and is answered as an internal error: the
    parser's exception is no [HttpException], so its status 413 is lost in the filter. *)
Theorem oversized_body_refused max hc raw w fs :
  (max < rw_bodyBytes raw)%Z →
  final fs (front max hc raw) w = w ∧
  ∃ e, outcome fs (front max hc raw) w = Ok (mkResponse 500 (BError e)) ∧ eb_message e = One "Internal server error".
Proof.
  intros Hlt. unfold front. rewrite (proj2 (Z.ltb_lt _ _) Hlt). split; [done|]. eexists. by split.
Qed.
End front.

(** ** Witnesses *)
Import Demo DemoCipher DemoCredentials DemoEnv.

Lemma valid_env_decide e : invalid_properties e = [] → valid_env e.
Proof.
  intros Hb p Hp. apply not_false_iff_true. intros Hf.
  assert (Hin : p ∈ invalid_properties e).
  { unfold invalid_properties. apply list_elem_of_In, filter_In. rewrite <- list_elem_of_In. by rewrite Hf. }
  rewrite Hb in Hin. by apply not_elem_of_nil in Hin.
Qed.

Lemma migrations_and_service_agree_witness :
  same_target (dataSourceOptions base) (database_module (cfg_database (configuration base))).
Proof. apply (migrations_and_service_agree base). apply valid_env_decide. vm_compute. reflexivity. Defined.

Lemma logging_spellings_differ_witness :
  cn_logging (dataSourceOptions {["DB_LOGGING" := "on"]}) = false.
Proof. apply (logging_spellings_differ {["DB_LOGGING" := "on"]}). reflexivity. Defined.

Lemma oversized_body_refused_witness :
  let raw := mkRaw 2000 None (api_request None false HealthLive) in
  final [] (@front _ _ _ demo_validators 1024 demo_http raw) empty_world = empty_world.
Proof. intros raw. apply (@oversized_body_refused _ _ _ demo_validators 1024 demo_http raw empty_world []). reflexivity. Defined.
