(* ===== verification/System.v ===== *)
(** * The system: every handler at once

    Any number of copies of every handler of the program, their operations interleaved
    in any order, any of them failing, losing an acknowledgement or dying at any point.
    [Evolving] is the interface between a handler and the system: the handler's
    operations are all [evolve] steps.  The handlers' components provide the instances;
    the system theorem is proved against the interface.

    The result: the table stays well-formed, and no accepted transfer is ever without
    either a job in the queue's history or a PENDING outbox event. *)
From S2P Require Import Prelude JsLang Entities Database Prog World Repository Outbox Ingestion.
From S2P Require Import Quota Routing Storage Crypto Pipeline Events Processor Transfers Recovery.
From S2P Require Import Auth Http.

Section interface.
Context `{!Externals}.

Definition evolving_op (X : Type) (op : eff X) : Prop := ∀ f w, evolve w (perform f op w).2.

Class Evolving {A} (p : P A) : Prop := evolving_ops : all_ops evolving_op p.

Lemma tame_evolving_op X (op : eff X) : tame_op X op → evolving_op X op.
Proof. intros Hop f w. by apply tame_op_evolve. Qed.

Lemma evolving_tame {A} (p : P A) : all_ops tame_op p → Evolving p.
Proof. apply all_ops_impl, tame_evolving_op. Qed.

Lemma evolving_bind {A B} (p : P A) (f : A → P B) : Evolving p → (∀ a, Evolving (f a)) → Evolving (bind p f).
Proof. apply all_ops_bind. Qed.

(** The transaction of the outbox is an [evolve] step although it adds rows. *)
Lemma create_evolving input carrier : evolving_op _ (Db (create_statement input carrier)).
Proof.
  intros f w. assert (Hh : evolve w (handle (Db (create_statement input carrier)) w).2).
  { simpl. destruct (create_statement_cases input carrier (w_db w)) as [(e & ->)|(r & d' & -> & Hc)]; simpl.
    - by apply evolve_same_db.
    - by eapply evolve_created. }
  unfold perform. simpl. by destruct f.
Qed.

#[global] Instance accept_evolving ic carrier payload : Evolving (accept ic carrier payload).
Proof.
  unfold Evolving, accept, createTransferWithOutbox, sql.
  repeat ops_step; try done. apply create_evolving.
Qed.

#[local] Hint Extern 1 (tame _) => (apply tame_update; auto with bridge) : bridge.

#[global] Instance publish_evolving kafka t type data : Evolving (publishTransferEvent kafka t type data).
Proof.
  apply evolving_tame. unfold publishTransferEvent, kafka_publish, sql, in_proc, set_in_proc.
  repeat ops_step; simpl; auto with bridge.
Qed.

#[global] Instance record_usage_evolving t b : Evolving (recordUsage t b).
Proof. apply evolving_tame. unfold recordUsage, sql. ops_step. simpl. auto with bridge. Qed.

#[global] Instance update_evolving id patch : keeps_identity patch → Evolving (sql (update_transfer id patch)).
Proof. intros Hp. apply evolving_tame. unfold sql. ops_step. by apply tame_update. Qed.

#[global] Instance find_evolving id : Evolving (findById id).
Proof. apply evolving_tame. unfold findById, sql. ops_step. simpl. auto with bridge. Qed.

#[global] Instance set_in_proc_evolving f : Evolving (set_in_proc f).
Proof. apply evolving_tame. unfold set_in_proc. by ops_step. Qed.

#[global] Instance pipeline_evolving pl qc ctx : Evolving (pipeline pl qc ctx).
Proof.
  unfold Evolving. eapply all_ops_impl; [|apply pipeline_reading]. intros X op Hop f w.
  by rewrite reading_op_same.
Qed.

Lemma upload_ops sc params :
  all_ops tame_op (up_body params) → Evolving (uploadStream sc params).
Proof.
  intros Hb. apply evolving_tame. unfold uploadStream, ensureBucket. repeat ops_step; done.
Qed.
End interface.

(** Finish the operations of a program: each is no statement, or a tame one. *)
Ltac tame_step :=
  first [exact I | apply tame_find | apply tame_select | apply tame_delete | apply tame_find_usage
        | apply tame_select_subscriptions | apply tame_insert_subscription | apply tame_delete_subscription
        | apply tame_find_user | apply tame_insert_user | apply tame_count_users
        | apply tame_update; by intros ?].
Ltac tame_ops := repeat ops_step; tame_step.

(** ** The handlers *)
Section handlers.
Context `{!Externals, !Gcm}.

#[global] Instance createEncryptStream_evolving cc : Evolving (createEncryptStream cc).
Proof. apply evolving_tame. unfold createEncryptStream, wrapDek. repeat ops_step; done. Qed.

#[global] Instance body_evolving ps t : Evolving (transfer_body ps t).
Proof.
  unfold transfer_body. apply evolving_bind.
  { apply evolving_tame. repeat (ops_step || done). }
  intros [[[] size]|]; [|exact I..]. apply evolving_bind; [apply _|]. intros ctx.
  apply evolving_bind. { apply evolving_tame. unfold computeFileChecksums. repeat (ops_step || done). }
  intros sums. apply evolving_bind.
  { destruct (cc_enabled _); [|exact I]. apply evolving_bind; [apply _|]. intros e. exact I. }
  intros enc. apply evolving_bind.
  { apply upload_ops. cbn [up_body]. unfold file_body. repeat (ops_step || done). }
  intros res. apply evolving_bind; [apply all_ops_of_result|]. intros _.
  apply evolving_bind; [apply update_evolving; auto with bridge|]. intros _.
  apply evolving_bind; [apply _|]. intros _. apply evolving_bind; [apply _|]. intros _. apply _.
Qed.

#[global] Instance reject_evolving ps t m : Evolving (reject ps t m).
Proof.
  unfold reject, toDeadLetter. apply evolving_bind; [apply update_evolving; by intros r|]. intros _.
  apply evolving_bind; [apply _|]. intros _. apply evolving_bind; [apply _|]. intros _.
  apply evolving_tame. by ops_step.
Qed.

#[global] Instance runTransfer_evolving ps job : Evolving (runTransfer ps job).
Proof.
  unfold runTransfer. apply evolving_bind; [apply _|]. intros [t|]; [|exact I].
  destruct (bool_decide _); [exact I|]. apply evolving_bind; [apply _|]. intros _.
  apply evolving_bind; [apply update_evolving; by intros r|]. intros _.
  apply all_ops_finally.
  - apply all_ops_catch; [apply body_evolving|]. intros [m|st m|e]; [apply reject_evolving|exact I..].
  - apply evolving_bind; intros; apply _.
Qed.

#[global] Instance onFailed_evolving ps job err : Evolving (onFailed ps job err).
Proof.
  unfold onFailed, toDeadLetter. destruct (_ <? _)%Z; [exact I|].
  apply evolving_bind; [apply update_evolving; by intros r|]. intros _.
  apply evolving_bind; [apply _|]. intros _. apply evolving_bind; [apply _|]. intros t.
  apply evolving_bind; [destruct t; [apply _|exact I]|]. intros _. apply evolving_tame. by ops_step.
Qed.

#[global] Instance attempt_evolving ps job : Evolving (attempt ps job).
Proof.
  unfold attempt, process. apply all_ops_catch.
  - apply all_ops_catch; [apply runTransfer_evolving|done].
  - intros e. apply onFailed_evolving.
Qed.

(** *** The management API *)
Lemma in_transaction_tame {A} (p : prog stmt A) :
  all_ops (λ X (s : stmt X), match s with Stmt m => tame m end) p → tame (in_transaction p).
Proof.
  induction p as [a|e|X op k IH]; simpl; [intros _; apply tame_ret|intros _; apply tame_throw|].
  destruct op as [X m]. intros [Hm Hk] d. destruct (Hm d) as (Ho & Hw & Hi).
  destruct (m d) as [r d']. simpl in *. destruct (IH r (Hk r) d') as (Ho' & Hw' & Hi').
  split_and!; [congruence|auto|]. intros id s Hs. destruct (Hi' _ _ Hs) as [s' Hs']. eauto.
Qed.

Lemma scoped_evolving {A} user (work : prog stmt A) :
  all_ops (λ X (s : stmt X), match s with Stmt m => tame m end) work → Evolving (scoped user work).
Proof.
  intros Hw. unfold scoped. destruct (is_admin user).
  - apply evolving_tame. induction work as [a|e|X op k IH]; [exact I..|]. destruct op as [X m].
    destruct Hw as [Hm Hk]. split; [exact Hm|]. intros r. apply IH, Hk.
  - apply evolving_tame. unfold sql. ops_step. simpl. apply tame_bind; [intros d; simpl; by eauto|].
    intros _. by apply in_transaction_tame.
Qed.

Definition tame_stmt (X : Type) (s : stmt X) : Prop := match s with Stmt m => tame m end.

Lemma tame_list status limit offset : tame (list_statement status limit offset).
Proof. unfold list_statement. auto 7 with bridge. Qed.

#[global] Instance list_evolving q user : Evolving (list_scoped q user).
Proof. apply scoped_evolving. repeat ops_step. apply tame_list. Qed.

#[global] Instance getById_evolving id user : Evolving (getById id user).
Proof.
  unfold getById. apply evolving_bind; [apply scoped_evolving; ops_step; apply tame_find|].
  intros [t|]; exact I.
Qed.

#[global] Instance download_evolving cc network id user : Evolving (download cc network id user).
Proof.
  unfold download. apply evolving_bind; [apply _|]. intros t. apply evolving_tame.
  unfold getObject. repeat (ops_step || done).
Qed.

#[global] Instance retry_evolving n id user : Evolving (retry n id user).
Proof.
  unfold retry. apply evolving_bind; [|intros t; apply evolving_tame; repeat (ops_step || done)].
  apply scoped_evolving. unfold retry_work, find_or_fail.
  tame_ops.
Qed.

#[global] Instance retryBatch_evolving n dto user : Evolving (retryBatch n dto user).
Proof.
  unfold retryBatch. destruct (bool_decide _); [exact I|].
  apply evolving_bind; [|intros l; apply evolving_tame; repeat (ops_step || done)].
  apply scoped_evolving. unfold batch_work.
  tame_ops.
Qed.

#[global] Instance sweep_evolving rv : Evolving (sweep rv).
Proof.
  apply evolving_tame. unfold sweep, recover, markFailed, findStuck, sql, in_proc, set_in_proc.
  tame_ops.
Qed.

#[global] Instance purge_evolving days : Evolving (purge days).
Proof.
  apply evolving_tame. unfold purge, deleteTerminalOlderThan, sql.
  tame_ops.
Qed.

#[global] Instance create_subscription_evolving user dto : Evolving (create_subscription user dto).
Proof.
  apply evolving_tame. unfold create_subscription, sql. tame_ops.
Qed.

#[global] Instance remove_subscription_evolving user id : Evolving (remove_subscription user id).
Proof.
  apply evolving_tame. unfold remove_subscription, sql.
  tame_ops.
Qed.

#[global] Instance process_delivery_evolving job : Evolving (process_delivery job).
Proof. apply evolving_tame. unfold process_delivery, set_in_proc. repeat (ops_step || done). Qed.

#[global] Instance dead_letter_evolving nc job : Evolving (process_dead_letter nc job).
Proof.
  apply evolving_tame. unfold process_dead_letter, notifyFailure, findById, sql, set_in_proc.
  tame_ops.
Qed.

#[global] Instance usage_evolving qc user tenant : Evolving (usage_endpoint qc user tenant).
Proof.
  apply evolving_tame. unfold usage_endpoint, summary, getUsage, sql. tame_ops.
Qed.

#[global] Instance list_subscriptions_evolving user : Evolving (list_subscriptions user).
Proof. apply evolving_tame. unfold list_subscriptions, sql. tame_ops. Qed.

#[global] Instance kafka_stop_evolving enabled : Evolving (kafka_onModuleDestroy enabled).
Proof. apply evolving_tame. unfold kafka_onModuleDestroy. repeat (ops_step || done). Qed.

#[global] Instance kafka_init_evolving enabled : Evolving (kafka_onModuleInit enabled).
Proof. apply evolving_tame. unfold kafka_onModuleInit, set_in_proc. repeat (ops_step || done). Qed.
End handlers.

Section surface.
Context `{!Externals, !Gcm, !Credentials, !Validators}.

#[global] Instance createUser_evolving ac input : Evolving (createUser ac input).
Proof. apply evolving_tame. unfold createUser, hash_password, sql. tame_ops. Qed.

#[global] Instance seed_evolving ac : Evolving (seed_admin ac).
Proof. apply evolving_tame. unfold seed_admin, hash_password, sql. tame_ops. Qed.

#[global] Instance login_evolving ac u p : Evolving (login ac u p).
Proof. apply evolving_tame. unfold login, validateUser, sql. tame_ops. Qed.

#[global] Instance managed_evolving hc user c : Evolving (managed_handler hc user c).
Proof. destruct c; apply evolving_bind; try apply _; intros ?; exact I. Qed.

#[global] Instance error_response_evolving url t : Evolving (error_response url t).
Proof. apply evolving_tame. unfold error_response. repeat (ops_step || done). Qed.

Lemma respond_evolving req h : Evolving h → Evolving (respond req h).
Proof.
  intros Hh. unfold respond. destruct (pipes _); [apply _|]. apply evolving_bind.
  - apply all_ops_catch; [exact Hh|]. intros e. exact I.
  - intros [t|b]; [apply _|exact I].
Qed.

Lemma plain_evolving p : Evolving p → Evolving (plain p).
Proof. intros Hp. apply evolving_bind; [done|]. intros b. exact I. Qed.

#[global] Instance health_evolving sc : Evolving (health_report sc).
Proof.
  apply evolving_tame. unfold health_report, ready, s3_isHealthy, redis_isHealthy, indicator, ping_database, checkBucket, sql.
  repeat (ops_step || done).
Qed.

#[global] Instance dispatch_evolving hc req : Evolving (dispatch hc req).
Proof.
  unfold dispatch, webhook_route, managed_route. destruct (throttled req); [apply _|].
  destruct (hr_call req) as [payload|dto| | |c].
  - destruct (webhook_guard _ _ _); [|apply _].
    apply respond_evolving, plain_evolving, evolving_bind; [apply _|]. intros o. exact I.
  - apply respond_evolving, plain_evolving, evolving_bind; [apply _|]. intros o. exact I.
  - by apply respond_evolving.
  - apply respond_evolving, _.
  - apply evolving_bind; [apply evolving_tame; by ops_step|]. intros now.
    destruct (jwt_guard _ _ _) as [user|]; [|apply _]. destruct (roles_guard _ _); [|apply _].
    apply respond_evolving, plain_evolving, _.
Qed.

(** A handler whose answer is not of interest. *)
Definition ignore {A} (p : P A) : P unit := p ;;; Ret tt.

(** Every activity of a running orchestrator: the requests it answers, the jobs it
    processes, its scheduled tasks and the hooks of its start. *)
Inductive handler : P unit → Prop :=
  | H_http hc req : handler (ignore (dispatch hc req))
  | H_relay : handler relay
  | H_worker ps job : handler (ignore (attempt ps job))
  | H_dead_letter nc job : handler (process_dead_letter nc job)
  | H_delivery job : handler (process_delivery job)
  | H_sweep rv : handler (sweep rv)
  | H_purge days : handler (purge days)
  | H_seed ac : handler (seed_admin ac)
  | H_kafka enabled : handler (kafka_onModuleInit enabled)
  | H_kafka_stop enabled : handler (kafka_onModuleDestroy enabled).

Lemma evolving_rg {A} (p : P A) w : Evolving p → rg evolve evolve p (λ _ _, True) w.
Proof. apply all_ops_rg. intros X op Hop f w'. apply Hop. Qed.

Lemma ignore_evolving {A} (p : P A) : Evolving p → Evolving (ignore p).
Proof. intros Hp. apply evolving_bind; [done|]. intros a. exact I. Qed.

Lemma handler_rg p w : sys_inv w → handler p → rg evolve evolve p (λ _ _, True) w.
Proof.
  intros Hinv Hp. destruct Hp; try (by apply relay_rg); apply evolving_rg; try apply ignore_evolving; apply _.
Qed.
End surface.

(** C1: No accepted transfer is lost.  Start any number of handlers of any kind in a
    world that satisfies the invariant; interleave their operations arbitrarily, let any
    of them fail, lose acknowledgements or die.  The invariant still holds: rows are
    well-formed and unique by idempotency key, and every transfer has a job in the
    history of the queue, or a PENDING outbox event from which the relay will add one. *)
Theorem no_transfer_lost `{!Externals, !Gcm, !Credentials, !Validators} ts ts' w w' :
  sys_inv w → Forall handler ts → rtc pool_step (ts, w) (ts', w') →
  sys_inv w' ∧ w_queue w `prefix_of` w_queue w' ∧
  ∀ id r, d_transfers (w_db w') !! id = Some r →
    (∃ j, j ∈ w_queue w' ∧ tj_transferId (job_data j) = id) ∨
    (∃ eid e, d_outbox (w_db w') !! eid = Some e ∧ ob_status e = OutboxStatus.PENDING ∧
              tj_transferId (ob_payload e) = id).
Proof.
  intros Hinv Hts Hsteps.
  assert (Hok : pool_ok evolve (λ _ _, True) (ts, w)).
  { unfold pool_ok. simpl. eapply Forall_impl; [exact Hts|]. intros p Hp. by apply handler_rg. }
  destruct (pool_sound evolve (λ _ _, True) _ _ Hsteps Hok) as [_ (Hi & Hq & _)]. simpl in *.
  specialize (Hi Hinv). split_and!; [done|done|]. intros id r Hr.
  destruct Hi as [_ Ho]. by eapply outbox_inv_not_lost.
Qed.

Import Demo DemoCipher DemoCredentials.
#[local] Existing Instance demo_validators.

(** One pass of the relay beside a worker and a webhook. *)
Lemma no_transfer_lost_witness :
  let hook := mkHttpRequest "/v1/sftp/on-upload" None (Some "hook-secret") None [] false (OnUpload demo_payload) in
  let ts := [relay; ignore (attempt demo_config demo_job); ignore (dispatch demo_http hook)] in
  let c := schedule [0; 0; 2; 1; 0; 1; 0; 0; 0]%nat (ts, one_event_world) in
  sys_inv c.2 ∧ w_queue one_event_world `prefix_of` w_queue c.2.
Proof.
  intros hook ts c. destruct (no_transfer_lost ts c.1 one_event_world c.2) as (Hi & Hq & _).
  - exact one_event_inv.
  - repeat constructor.
  - rewrite <- surjective_pairing. apply schedule_steps.
  - split; [exact Hi|exact Hq].
Defined.
