(* ===== verification/Conduct.v ===== *)
(** * What handlers do to the database and to the flags of the process

    Several invariants ask of every handler of the program that each of its statements moves
    the database along some relation, and that it leaves the overlap flags of the scheduled
    tasks alone.  Which statements the handlers are made of does not depend on the
    relation: [Discipline] lists what a relation has to allow, [Conducts] is the interface
    by which a handler tells that it respects one, and the instances go through every
    handler once, for all relations.

    [same_usage] is the first relation: a program that conducts itself so is [Tidy], it
    leaves the usage table and the flags alone.  The parts that do not are the entry and
    exit of the relay and the sweep ([Exclusion]) and the worker's [recordUsage] ([Metering]). *)
From S2P Require Import Prelude JsLang Entities Database Prog World Repository Outbox Ingestion.
From S2P Require Import Quota Routing Storage Crypto Pipeline Events Processor Transfers Recovery.
From S2P Require Import Auth Http System.

Definition flags (p : proc) : bool * bool := (p_relaying p, p_running p).

Definition calm {A} (f : proc → A * proc) : Prop := ∀ p, flags (f p).2 = flags p.

(** What a relation has to allow so that the program's statements respect it: rows of the
    transfers that are written are stamped with the present, and new events are of the present;
    the usage table is not among it. *)
Class Discipline (R : db → db → Prop) : Prop := {
  dc_order :: PreOrder R;
  dc_write : ∀ id r d, ft_updatedAt r = d_now d → R d (set_transfers (<[id := r]> (d_transfers d)) d);
  dc_delete : ∀ Pr `{!∀ p, Decision (Pr p)} d, R d (set_transfers (filter Pr (d_transfers d)) d);
  dc_subs : ∀ x d, R d (set_subs x d);
  dc_users : ∀ x d, R d (set_users x d);
  dc_uuid : ∀ n d, R d (set_uuid_pos n d);
  dc_tenant : ∀ t d, R d (set_tenant t d);
  dc_event : ∀ id e d, d_outbox d !! id = None → ob_createdAt e = d_now d →
    R d (set_outbox (<[id := e]> (d_outbox d)) d);
}.

(** A statement that respects a relation, and the operations of a program that does. *)
Definition fine (R : db → db → Prop) {A} (m : dbM A) : Prop := ∀ d, R d (m d).2.

Definition conduct_op (R : db → db → Prop) (X : Type) (op : eff X) : Prop :=
  match op with Db m => fine R m | Proc f => calm f | _ => True end.

Class Conducts (R : db → db → Prop) {A} (p : P A) : Prop := conducts_ops : all_ops (conduct_op R) p.

Section discipline.
Context {R : db → db → Prop} `{!Discipline R}.

Lemma fine_reader {A} (m : dbM A) : (∀ d, (m d).2 = d) → fine R m.
Proof. intros Hm d. by rewrite Hm. Qed.

Lemma fine_bind {A B} (m : dbM A) (f : A → dbM B) : fine R m → (∀ a, fine R (f a)) → fine R (db_bind m f).
Proof.
  intros Hm Hf d. unfold db_bind. specialize (Hm d). destruct (m d) as [[a|e] d']; simpl in *; [|done].
  etrans; [exact Hm|]. apply Hf.
Qed.

Lemma fine_transact {A} (m : dbM A) d : fine R m → R d (transact m d).2.
Proof.
  intros Hm. unfold transact. specialize (Hm d). destruct (m d) as [[a|e] d']; simpl in *; [|done].
  etrans; [exact Hm|]. apply dc_tenant.
Qed.

Lemma fine_transaction {A} (p : prog stmt A) :
  all_ops (λ X (s : stmt X), match s with Stmt m => fine R m end) p → fine R (in_transaction p).
Proof.
  induction p as [a|e|X op k IH]; simpl; [by intros _ d..|]. destruct op as [X m]. intros [Hm Hk] d.
  specialize (Hm d). destruct (m d) as [r d']. simpl in *. etrans; [exact Hm|]. by apply IH.
Qed.

(** *** The statements of the program *)
Lemma fine_update id patch : fine R (update_transfer id patch).
Proof.
  intros d. destruct (update_transfer_cases id patch d) as [[e ->]|[[-> _]|(r & _ & _ & _ & ->)]]; [done..|].
  by apply dc_write.
Qed.

Lemma fine_insert_transfer input : fine R (insert_transfer (new_transfer input)).
Proof.
  intros d. destruct (insert_transfer_cases (new_transfer input) d) as [[e ->]|[-> _]]; [done|].
  etrans; [apply (dc_uuid (S (d_uuid_pos d)))|]. by apply (dc_write _ _ (set_uuid_pos (S (d_uuid_pos d)) d)).
Qed.

Lemma fine_insert_event saved carrier : fine R (insert_outbox (new_event saved carrier)).
Proof.
  intros d. destruct (insert_outbox_cases (new_event saved carrier) d) as [[e ->]|[-> Hn]]; [done|].
  etrans; [apply (dc_uuid (S (d_uuid_pos d)))|].
  by apply (dc_event _ _ (set_uuid_pos (S (d_uuid_pos d)) d)).
Qed.

Lemma fine_create input carrier : fine R (create_statement input carrier).
Proof.
  apply fine_bind; [apply fine_insert_transfer|]. intros a.
  apply fine_bind; [apply fine_insert_event|]. intros b. by apply fine_reader.
Qed.

Lemma fine_delete p : fine R (delete_transfers p).
Proof. intros d. apply dc_delete. Qed.

Lemma fine_insert_user mk : fine R (insert_user mk).
Proof.
  intros d. unfold insert_user. repeat case_match; try done. simpl.
  etrans; [apply (dc_uuid (S (d_uuid_pos d)))|]. apply (dc_users _ (set_uuid_pos (S (d_uuid_pos d)) d)).
Qed.

Lemma fine_insert_subscription mk : fine R (insert_subscription mk).
Proof.
  intros d. unfold insert_subscription. repeat case_match; try done. simpl.
  etrans; [apply (dc_uuid (S (d_uuid_pos d)))|]. apply (dc_subs _ (set_uuid_pos (S (d_uuid_pos d)) d)).
Qed.

Lemma fine_delete_subscription id : fine R (delete_subscription id).
Proof. intros d. apply dc_subs. Qed.

Lemma fine_set_config t : fine R (set_config t).
Proof. intros d. apply dc_tenant. Qed.

Lemma fine_find_user n : fine R (find_user n).
Proof. apply fine_reader. intros d. unfold find_user. by case_match. Qed.

Lemma fine_list status limit offset : fine R (list_statement status limit offset).
Proof. by apply fine_reader. Qed.
End discipline.

(** Finish the operations of a program. *)
Ltac conduct_ops :=
  repeat ops_step;
  first [ exact I | by intros ? | apply fine_update | apply fine_create | apply fine_delete | apply fine_insert_user
        | apply fine_insert_subscription | apply fine_delete_subscription | apply fine_find_user | apply fine_list
        | apply fine_reader; done ].

(** ** The handlers *)
Section handlers.
Context {R : db → db → Prop} `{!Discipline R, !Externals, !Gcm, !Credentials, !Validators}.

Lemma conducts_bind {A B} (p : P A) (f : A → P B) :
  Conducts R p → (∀ a, Conducts R (f a)) → Conducts R (bind p f).
Proof. apply all_ops_bind. Qed.

Lemma conducts_reading {A} (p : P A) : all_ops (@reading_op) p → Conducts R p.
Proof.
  apply all_ops_impl. intros X op Hop. destruct op; simpl in *; try done. by apply fine_reader.
Qed.

Lemma conducts_scoped {A} user (work : prog stmt A) :
  all_ops (λ X (s : stmt X), match s with Stmt m => fine R m end) work → Conducts R (scoped user work).
Proof.
  intros Hw. unfold scoped. destruct (is_admin user).
  - induction work as [a|e|X op k IH]; [exact I..|]. destruct op as [X m]. destruct Hw as [Hm Hk].
    split; [exact Hm|]. intros r. apply IH, Hk.
  - apply all_ops_call. apply fine_bind; [apply fine_set_config|]. intros _. by apply fine_transaction.
Qed.

#[global] Instance publish_conducts kafka t type data : Conducts R (publishTransferEvent kafka t type data).
Proof. unfold Conducts, publishTransferEvent, kafka_publish, sql, in_proc, set_in_proc. conduct_ops. Qed.

#[global] Instance update_conducts id patch : Conducts R (sql (update_transfer id patch)).
Proof. unfold Conducts, sql. conduct_ops. Qed.

#[global] Instance find_conducts id : Conducts R (findById id).
Proof. unfold Conducts, findById, sql. conduct_ops. Qed.

#[global] Instance createEncryptStream_conducts cc : Conducts R (createEncryptStream cc).
Proof. unfold Conducts, createEncryptStream, wrapDek. conduct_ops. Qed.

Lemma upload_conducts sc params : Conducts R (up_body params) → Conducts R (uploadStream sc params).
Proof. intros Hb. unfold Conducts, uploadStream, ensureBucket. repeat ops_step; done. Qed.

#[global] Instance dead_letter_conducts nc job : Conducts R (process_dead_letter nc job).
Proof. unfold Conducts, process_dead_letter, notifyFailure, findById, sql, set_in_proc. conduct_ops. Qed.

#[global] Instance process_delivery_conducts job : Conducts R (process_delivery job).
Proof. unfold Conducts, process_delivery, set_in_proc. conduct_ops. Qed.

#[global] Instance purge_conducts days : Conducts R (purge days).
Proof. unfold Conducts, purge, deleteTerminalOlderThan, sql. conduct_ops. Qed.

#[global] Instance seed_conducts ac : Conducts R (seed_admin ac).
Proof. unfold Conducts, seed_admin, hash_password, sql. conduct_ops. Qed.

#[global] Instance kafka_stop_conducts enabled : Conducts R (kafka_onModuleDestroy enabled).
Proof. unfold Conducts, kafka_onModuleDestroy. conduct_ops. Qed.

#[global] Instance kafka_init_conducts enabled : Conducts R (kafka_onModuleInit enabled).
Proof. unfold Conducts, kafka_onModuleInit, set_in_proc. conduct_ops. Qed.

(** *** Requests *)
#[global] Instance accept_conducts ic carrier payload : Conducts R (accept ic carrier payload).
Proof.
  unfold Conducts, accept, createTransferWithOutbox, sql. conduct_ops.
Qed.

#[global] Instance login_conducts ac u p : Conducts R (login ac u p).
Proof. unfold Conducts, login, validateUser, sql. conduct_ops. Qed.

#[global] Instance getById_conducts id user : Conducts R (getById id user).
Proof. apply conducts_bind; [apply conducts_scoped; conduct_ops|]. intros [t|]; exact I. Qed.

#[global] Instance managed_conducts hc user c : Conducts R (managed_handler hc user c).
Proof.
  destruct c; apply conducts_bind; try (intros ?; exact I); try apply _.
  - unfold Conducts, createUser, hash_password, sql. conduct_ops.
  - apply conducts_scoped. conduct_ops.
  - apply conducts_bind; [apply _|]. intros t. unfold Conducts, getObject. conduct_ops.
  - unfold retryBatch. destruct (bool_decide _); [exact I|].
    apply conducts_bind; [apply conducts_scoped; unfold batch_work; conduct_ops|]. intros l. unfold Conducts. conduct_ops.
  - apply conducts_bind; [apply conducts_scoped; unfold retry_work, find_or_fail; conduct_ops|]. intros t. unfold Conducts. conduct_ops.
  - unfold Conducts, create_subscription, sql. conduct_ops.
  - unfold Conducts, list_subscriptions, sql. conduct_ops.
  - unfold Conducts, remove_subscription, sql. conduct_ops.
  - unfold Conducts, usage_endpoint, summary, getUsage, sql. conduct_ops.
Qed.

#[global] Instance error_response_conducts url t : Conducts R (error_response url t).
Proof. unfold Conducts, error_response. conduct_ops. Qed.

Lemma respond_conducts req h : Conducts R h → Conducts R (respond req h).
Proof.
  intros Hh. unfold respond. destruct (pipes _); [apply _|]. apply conducts_bind.
  - apply all_ops_catch; [exact Hh|]. intros e. exact I.
  - intros [t|b]; [apply _|exact I].
Qed.

Lemma plain_conducts p : Conducts R p → Conducts R (plain p).
Proof. intros Hp. apply conducts_bind; [done|]. intros b. exact I. Qed.

#[global] Instance dispatch_conducts hc req : Conducts R (dispatch hc req).
Proof.
  unfold dispatch, webhook_route, managed_route. destruct (throttled req); [apply _|].
  destruct (hr_call req) as [payload|dto| | |c].
  - destruct (webhook_guard _ _ _); [|apply _].
    apply respond_conducts, plain_conducts, conducts_bind; [apply _|]. intros o. exact I.
  - apply respond_conducts, plain_conducts, conducts_bind; [apply _|]. intros o. exact I.
  - by apply respond_conducts.
  - apply respond_conducts. unfold Conducts, health_report, ready, s3_isHealthy, redis_isHealthy, indicator,
      ping_database, checkBucket, sql. conduct_ops.
  - apply conducts_bind; [unfold Conducts; conduct_ops|]. intros now.
    destruct (jwt_guard _ _ _) as [user|]; [|apply _]. destruct (roles_guard _ _); [|apply _].
    apply respond_conducts, plain_conducts, _.
Qed.

Lemma ignore_conducts {A} (p : P A) : Conducts R p → Conducts R (ignore p).
Proof. intros Hp. apply conducts_bind; [done|]. intros a. exact I. Qed.

#[global] Instance recover_conducts rv t : Conducts R (recover rv t).
Proof. unfold Conducts, recover, markFailed, sql. conduct_ops. Qed.

#[global] Instance set_in_proc_conducts f : calm (λ p, (tt, f p)) → Conducts R (set_in_proc f).
Proof. intros Hf. by apply all_ops_call. Qed.

(** *** The worker, where the relation also allows to change the usage table *)
#[global] Instance reject_conducts ps t m : Conducts R (reject ps t m).
Proof.
  unfold reject, toDeadLetter, markFailed.
  apply conducts_bind; [apply _|]. intros _. apply conducts_bind; [by apply set_in_proc_conducts|]. intros _.
  apply conducts_bind; [apply _|]. intros _. unfold Conducts. conduct_ops.
Qed.

#[global] Instance onFailed_conducts ps job err : Conducts R (onFailed ps job err).
Proof.
  unfold onFailed, toDeadLetter, markFailed. destruct (_ <? _)%Z; [exact I|].
  apply conducts_bind; [apply _|]. intros _. apply conducts_bind; [by apply set_in_proc_conducts|]. intros _.
  apply conducts_bind; [apply _|]. intros t. apply conducts_bind; [destruct t; [apply _|exact I]|]. intros _.
  unfold Conducts. conduct_ops.
Qed.

Lemma body_conducts ps t : (∀ x d, R d (set_usage x d)) → Conducts R (transfer_body ps t).
Proof.
  intros Hu. unfold transfer_body, computeFileChecksums, markSuccess, recordUsage.
  apply conducts_bind; [unfold Conducts; conduct_ops|]. intros [[[] size]|]; [|exact I..].
  apply conducts_bind; [apply conducts_reading, pipeline_reading|]. intros ctx.
  apply conducts_bind; [unfold Conducts; conduct_ops|]. intros sums. apply conducts_bind.
  { destruct (cc_enabled _); [|exact I]. apply conducts_bind; [apply _|]. intros; exact I. }
  intros enc. apply conducts_bind.
  { apply upload_conducts. cbn [up_body]. unfold Conducts, file_body. conduct_ops. }
  intros res. apply conducts_bind; [apply all_ops_of_result|]. intros _.
  apply conducts_bind; [apply _|]. intros _. apply conducts_bind; [by apply set_in_proc_conducts|]. intros _.
  apply conducts_bind; [|intros _; apply _]. apply all_ops_call. intros d. unfold record_usage_statement.
  repeat case_match; try done; apply Hu.
Qed.

Lemma attempt_conducts ps job : (∀ x d, R d (set_usage x d)) → Conducts R (attempt ps job).
Proof.
  intros Hu. unfold attempt, process, runTransfer, markProcessing. apply all_ops_catch.
  2: { intros e. apply onFailed_conducts. }
  apply all_ops_catch; [|intros e; exact I].
  apply conducts_bind; [apply _|]. intros [t|]; [|exact I]. destruct (bool_decide _); [exact I|].
  apply conducts_bind; [by apply set_in_proc_conducts|]. intros _. apply conducts_bind; [apply _|]. intros _.
  apply all_ops_finally.
  - apply all_ops_catch; [by apply body_conducts|]. intros [m|st m|e]; [apply reject_conducts|exact I..].
  - apply conducts_bind; intros; by apply set_in_proc_conducts.
Qed.
End handlers.

(** ** The usage table *)
Definition same_usage (d d' : db) : Prop := d_usage d' = d_usage d.

#[export] Instance same_usage_discipline : Discipline same_usage.
Proof.
  split; [|done..]. split; [done|]. intros d1 d2 d3 H1 H2. unfold same_usage in *. congruence.
Qed.

Abbreviation thrifty := (fine same_usage).
Abbreviation Tidy := (Conducts same_usage).

Section tidy.
Context `{!Externals}.

Lemma transact_usage {A} (m : dbM A) d : thrifty m → d_usage (transact m d).2 = d_usage d.
Proof. apply (fine_transact (R := same_usage)). Qed.

#[global] Instance relay_event_tidy evt : Tidy (relay_event evt).
Proof.
  unfold Conducts, relay_event, sql. repeat ops_step; try exact I. intros d. unfold update_outbox.
  by repeat case_match.
Qed.
End tidy.
