(* ===== verification/Exclusion.v ===== *)
(** * One pass at a time

    [OutboxService.relay] and [RecoveryService.sweep] are timers that fire whether or not
    the last pass is over; each keeps a flag that is set on entry, tested in the same
    turn, and cleared in a [finally].  In one process, whose handlers interleave at their
    awaits, the flag excludes: however many timers fired, at most one pass of each kind
    is under way, and the flag is up exactly while one is.

    The argument is made once, for any flag of the process ([gate]). *)
From S2P Require Import Prelude JsLang Entities Database Prog World Repository Outbox Ingestion.
From S2P Require Import Quota Routing Storage Crypto Pipeline Events Processor Transfers Recovery.
From S2P Require Import Auth Http System Conduct.

(** One turn of the event loop: some handler's next operation runs.  The process is not
    killed, which would take its flags with it. *)
Inductive turn `{!Externals} : pool → pool → Prop :=
  | turn_call ts w i X (op : eff X) k f :
      ts !! i = Some (Call op k) →
      turn (ts, w) (<[i := k (perform f op w).1]> ts, (perform f op w).2).

Lemma turn_pool_step `{!Externals} c c' : turn c c' → pool_step c c'.
Proof. intros []. by apply step_call. Qed.

Definition finished (p : P unit) : Prop := match p with Call _ _ => False | _ => True end.

(** What a thread and the world become when the thread moves. *)
Definition advance `{!Externals} (f : fault) (p : P unit) (w : world) : P unit * world :=
  match p with
  | Call op k => (k (perform f op w).1, (perform f op w).2)
  | _ => (p, w)
  end.

Lemma turn_inv `{!Externals} c c' :
  turn c c' → ∃ i p f, c.1 !! i = Some p ∧ ¬ finished p ∧
    c' = (<[i := (advance f p c.2).1]> c.1, (advance f p c.2).2).
Proof. intros [ts w i X op k f Hi]. exists i, (Call op k), f. split_and!; [done|by intros []|done]. Qed.

Section gate.
Context `{!Externals} (get : proc → bool) (set : bool → proc → proc).
Context (get_set : ∀ b p, get (set b p) = b).

Abbreviation flag w := (get (w_proc w)).

(** [if (this.flag) return; this.flag = true; try { body } catch { } finally { this.flag = false }] *)
Definition gated (body : P unit) : P unit :=
  busy <- in_proc (λ p, (get p, set true p)) ;;
  if (busy : bool) then Ret tt
  else finally_ (catch_ body (λ _, Ret tt)) (set_in_proc (set false)).

Definition keeps (X : Type) (op : eff X) : Prop := ∀ f w, flag (perform f op w).2 = flag w.
Definition clears (X : Type) (op : eff X) : Prop := ∀ f w, flag (perform f op w).2 = false.

(** A pass that is under way: it leaves the flag up until its last operation. *)
Fixpoint inside (p : P unit) : Prop :=
  match p with
  | Call op k => keeps _ op ∧ (∀ r, inside (k r)) ∨ clears _ op ∧ (∀ r, finished (k r))
  | _ => False
  end.

Lemma clears_exit : clears _ (Proc (λ p, (tt, set false p))).
Proof. intros f w. unfold perform. simpl. apply get_set. Qed.

Lemma inside_finally (body : P unit) :
  all_ops keeps body → inside (finally_ (catch_ body (λ _, Ret tt)) (set_in_proc (set false))).
Proof.
  assert (Hexit : ∀ q, finished q → inside (bind (set_in_proc (set false)) (λ _, q))).
  { intros q Hq. right. split; [apply clears_exit|]. intros [[]|e]; [exact Hq|exact I]. }
  intros Hb. induction body as [a|e|X op k IH]; [by apply Hexit..|].
  destruct Hb as [Hop Hk]. left. split; [done|]. intros r. apply IH, Hk.
Qed.

(** The programs of the pool: passes through the gate, and others that keep the flag. *)
Definition pass (p : P unit) : Prop := ∃ body, p = gated body ∧ all_ops keeps body.

(** What a pass can have become. *)
Definition residual (p : P unit) : Prop := pass p ∨ inside p ∨ finished p.

Definition at_work (ts : list (P unit)) (i : nat) : Prop := ∃ p, ts !! i = Some p ∧ inside p.

(** The threads of [ts0] that [kind] marks are passes, the others keep the flag; the flag is up
    exactly while a pass is inside, and no two are. *)
Record exclusive (ts0 : list (P unit)) (kind : nat → bool) (c : pool) : Prop := {
  ex_pass : ∀ i p, kind i = true → c.1 !! i = Some p →
    residual p ∧ (ts0 !! i = Some p ∨ inside p ∨ finished p);
  ex_other : ∀ i p, kind i = false → c.1 !! i = Some p → all_ops keeps p;
  ex_flag : flag c.2 = true ↔ ∃ i, kind i = true ∧ at_work c.1 i;
  ex_one : ∀ i j, kind i = true → kind j = true → at_work c.1 i → at_work c.1 j → i = j;
}.

(** Entering: the flag comes up; who found it up is done, who did not is inside. *)
Lemma advance_pass f p w :
  pass p →
  flag (advance f p w).2 = true ∧
  (if flag w then finished (advance f p w).1 else inside (advance f p w).1).
Proof.
  intros (body & -> & Hb). unfold advance, gated, in_proc, call, perform. simpl. split; [apply get_set|].
  destruct (get (w_proc w)); [exact I|]. by apply inside_finally.
Qed.

Lemma advance_inside f p w :
  inside p → (flag (advance f p w).2 = flag w ∧ inside (advance f p w).1) ∨
             (flag (advance f p w).2 = false ∧ finished (advance f p w).1).
Proof.
  destruct p as [a|e|X op k]; [done..|]. simpl. intros [[Hop Hk]|[Hop Hk]]; [left|right]; auto.
Qed.

Lemma advance_other f p w : all_ops keeps p → flag (advance f p w).2 = flag w ∧ all_ops keeps (advance f p w).1.
Proof. destruct p as [a|e|X op k]; [done..|]. intros [Hop Hk]. simpl. auto. Qed.

Lemma finished_not_inside p : finished p → ¬ inside p.
Proof. destruct p; simpl; tauto. Qed.

Lemma pass_not_inside p : pass p → ¬ inside p.
Proof.
  intros Hp Hin. set (w := set_proc (set false boot_proc) Demo.empty_world).
  assert (Hw : flag w = false) by apply get_set.
  destruct (advance_pass NoFault p w Hp) as [Hup Hi]. rewrite Hw in Hi.
  destruct (advance_inside NoFault p w Hin) as [[Hk _]|[Hk _]]; congruence.
Qed.

Lemma at_work_insert ts i q j :
  (i < length ts)%nat → at_work (<[i := q]> ts) j ↔ if decide (i = j) then inside q else at_work ts j.
Proof.
  intros Hi. unfold at_work. case_decide as Hij.
  - subst j. rewrite list_lookup_insert_eq by done. naive_solver.
  - by rewrite list_lookup_insert_ne.
Qed.

(** How a step of a marked thread moves it and the flag. *)
Inductive shift (p q : P unit) : bool → bool → Prop :=
  | entered : ¬ inside p → inside q → shift p q false true
  | refused : ¬ inside p → ¬ inside q → shift p q true true
  | worked b : inside p → inside q → shift p q b b
  | left_ b : inside p → ¬ inside q → shift p q b false.

Lemma advance_residual f p w :
  residual p → ¬ finished p →
  (inside (advance f p w).1 ∨ finished (advance f p w).1) ∧
  shift p (advance f p w).1 (flag w) (flag (advance f p w).2).
Proof.
  intros [Hp|[Hp|Hp]] Hnf; [| |done].
  - destruct (advance_pass f p w Hp) as [-> Hq]. pose proof (pass_not_inside p Hp).
    destruct (get (w_proc w)).
    + split; [by right|]. by apply refused, finished_not_inside.
    + split; [by left|]. by apply entered.
  - destruct (advance_inside f p w Hp) as [[-> Hq]|[-> Hq]].
    + split; [by left|]. by apply worked.
    + split; [by right|]. by apply left_, finished_not_inside.
Qed.

(** The flag and the thread inside, after such a step of thread [i]. *)
Lemma shift_flag (kind : nat → bool) ts i p q b b' :
  kind i = true → ts !! i = Some p → shift p q b b' →
  (b = true ↔ ∃ j, kind j = true ∧ at_work ts j) →
  (∀ j k, kind j = true → kind k = true → at_work ts j → at_work ts k → j = k) →
  (b' = true ↔ ∃ j, kind j = true ∧ at_work (<[i := q]> ts) j) ∧
  (∀ j k, kind j = true → kind k = true → at_work (<[i := q]> ts) j → at_work (<[i := q]> ts) k → j = k).
Proof.
  intros Hk Hi Hs Hflag Hone. pose proof (lookup_lt_Some _ _ _ Hi) as Hlt.
  assert (Hat : at_work ts i ↔ inside p) by (unfold at_work; rewrite Hi; naive_solver).
  assert (Hins : ∀ j, at_work (<[i := q]> ts) j ↔ if decide (i = j) then inside q else at_work ts j)
    by (intros j; by apply at_work_insert).
  assert (Hself : at_work (<[i := q]> ts) i ↔ inside q) by (rewrite Hins; by case_decide).
  assert (Hrest : ∀ j, i ≠ j → at_work (<[i := q]> ts) j ↔ at_work ts j) by (intros j Hj; rewrite Hins; by case_decide).
  assert (Hsolo : inside p → ∀ j, kind j = true → i ≠ j → ¬ at_work ts j).
  { intros Hp j Hj Hne Hw. apply Hne. apply Hone; tauto. }
  destruct Hs as [Hp Hq|Hp Hq|b Hp Hq|b Hp Hq]; split.
  - split; [|done]. intros _. exists i. tauto.
  - assert (Hnone : ∀ j, kind j = true → i ≠ j → ¬ at_work (<[i := q]> ts) j).
    { intros j Hj Hne Hw%Hrest; [|done]. assert (false = true) by (apply Hflag; eauto). done. }
    intros j k Hj Hk' Hwj Hwk. destruct (decide (i = j)), (decide (i = k)); [congruence|exfalso..].
    + by apply (Hnone k).
    + by apply (Hnone j).
    + by apply (Hnone j).
  - split; [intros Hb|done]. apply Hflag in Hb as (j & Hj & Hw). exists j. split; [done|].
    destruct (decide (i = j)); [subst; tauto|]. by apply Hrest.
  - intros j k Hj Hk' Hwj Hwk. destruct (decide (i = j)), (decide (i = k)); subst; try tauto; try done.
    apply Hone; [done..| |]; by apply Hrest.
  - rewrite Hflag. split; intros _; exists i; tauto.
  - intros j k Hj Hk' Hwj Hwk. destruct (decide (i = j)), (decide (i = k)); subst; try done; exfalso.
    + apply Hrest in Hwk; [|done]. by apply (Hsolo Hp k).
    + apply Hrest in Hwj; [|done]. by apply (Hsolo Hp j).
    + apply Hrest in Hwj; [|done]. by apply (Hsolo Hp j).
  - split; [done|]. intros (j & Hj & Hw). exfalso. destruct (decide (i = j)); [subst; tauto|].
    apply Hrest in Hw; [|done]. by apply (Hsolo Hp j).
  - intros j k Hj Hk' Hwj Hwk. destruct (decide (i = j)); [subst; tauto|].
    apply Hrest in Hwj; [|done]. exfalso. by apply (Hsolo Hp j).
Qed.

Lemma turn_exclusive ts0 kind c c' : turn c c' → exclusive ts0 kind c → exclusive ts0 kind c'.
Proof.
  intros (i & p & f & Hi & Hnf & ->)%turn_inv [Hpass Hother Hflag Hone]. destruct c as [ts w]. simpl in *.
  pose proof (lookup_lt_Some _ _ _ Hi) as Hlt.
  assert (Hlook : ∀ j r, <[i := (advance f p w).1]> ts !! j = Some r →
    (i = j ∧ r = (advance f p w).1) ∨ (i ≠ j ∧ ts !! j = Some r)).
  { intros j r. destruct (decide (i = j)) as [<-|Hij]; [rewrite list_lookup_insert_eq by done|
      rewrite list_lookup_insert_ne by done]; naive_solver. }
  destruct (kind i) eqn:Hk.
  - destruct (advance_residual f p w (proj1 (Hpass i p Hk Hi)) Hnf) as [Hres Hs].
    destruct (shift_flag kind ts i p _ _ _ Hk Hi Hs Hflag Hone) as [Hflag' Hone'].
    split; [|..|done|done]; intros j r Hj [[<- ->]|[Hij Hr]]%Hlook; try congruence; eauto.
    unfold residual. tauto.
  - destruct (advance_other f p w (Hother i p Hk Hi)) as [Hkeep Hops].
    assert (Hat : ∀ j, kind j = true → at_work (<[i := (advance f p w).1]> ts) j ↔ at_work ts j).
    { intros j Hj. rewrite at_work_insert by done. case_decide; [congruence|done]. }
    split; simpl.
    + intros j r Hj [[<- ->]|[Hij Hr]]%Hlook; [congruence|eauto].
    + intros j r Hj [[<- ->]|[Hij Hr]]%Hlook; eauto.
    + rewrite Hkeep, Hflag. split; intros (j & Hj & Hw); exists j; (split; [done|]); by apply Hat.
    + intros j k Hj Hk' Hwj%Hat Hwk%Hat; eauto.
Qed.

Lemma turns_exclusive ts0 kind c c' : rtc turn c c' → exclusive ts0 kind c → exclusive ts0 kind c'.
Proof. induction 1 as [|c1 c2 c3 Ht _ IH]; eauto using turn_exclusive. Qed.

(** Before the first turn no pass is inside. *)
Lemma exclusive_start kind ts w :
  (∀ i p, kind i = true → ts !! i = Some p → pass p ∨ finished p) →
  (∀ i p, kind i = false → ts !! i = Some p → all_ops keeps p) →
  flag w = false → exclusive ts kind (ts, w).
Proof.
  intros Hp Ho Hf.
  assert (Hnone : ∀ i, kind i = true → ¬ at_work ts i).
  { intros i Hi (p & Hip & Hin).
    destruct (Hp i p Hi Hip); [by apply (pass_not_inside p)|by apply (finished_not_inside p)]. }
  split; simpl.
  - intros i p Hi Hip. split; [|by left]. destruct (Hp i p Hi Hip); [by left|by right; right].
  - eauto.
  - rewrite Hf. split; [done|]. intros (i & Hi & Hw). by destruct (Hnone i Hi).
  - intros i j Hi _ Hw. by destruct (Hnone i Hi).
Qed.

(** A marked thread that has begun and is not over. *)
Definition under_way (ts0 ts : list (P unit)) (i : nat) : Prop :=
  ∃ p, ts !! i = Some p ∧ ts0 !! i ≠ Some p ∧ ¬ finished p.

Lemma under_way_inside ts0 kind c i : exclusive ts0 kind c → kind i = true → under_way ts0 c.1 i → at_work c.1 i.
Proof.
  intros [Hpass _ _ _] Hk (p & Hp & Hne & Hnf). exists p. split; [done|].
  destruct (Hpass i p Hk Hp) as [_ [?|[?|?]]]; tauto.
Qed.

(** When none of the marked threads is, the flag is down. *)
Lemma none_under_way ts0 kind c :
  exclusive ts0 kind c →
  (∀ i p, kind i = true → ts0 !! i = Some p → pass p ∨ finished p) →
  (∀ i, kind i = true → ¬ under_way ts0 c.1 i) → flag c.2 = false.
Proof.
  intros [_ _ Hflag _] Hstart Hnone. apply not_true_iff_false.
  intros (i & Hk & p & Hp & Hin)%Hflag. apply (Hnone i Hk). exists p. split_and!; [done| |].
  - intros H0. destruct (Hstart i p Hk H0); [by apply (pass_not_inside p)|by apply (finished_not_inside p)].
  - intros Hf. by apply (finished_not_inside p).
Qed.
End gate.

(** ** The tasks of a process *)
Inductive task :=
  | T_http (hc : HttpConfig) (req : request)
  | T_relay
  | T_worker (ps : ProcessorConfig) (job : Job)
  | T_dead_letter (nc : NotificationConfig) (job : DeadLetterJobData)
  | T_delivery (job : WebhookDeliveryJob)
  | T_sweep (rv : RecoveryConfig)
  | T_purge (days : Z)
  | T_seed (ac : AuthConfig)
  | T_kafka (enabled : bool)
  | T_kafka_stop (enabled : bool).

Section tasks.
Context `{!Externals, !Gcm, !Credentials, !Validators}.

Definition program (t : task) : P unit :=
  match t with
  | T_http hc req => ignore (dispatch hc req)
  | T_relay => relay
  | T_worker ps job => ignore (attempt ps job)
  | T_dead_letter nc job => process_dead_letter nc job
  | T_delivery job => process_delivery job
  | T_sweep rv => sweep rv
  | T_purge days => purge days
  | T_seed ac => seed_admin ac
  | T_kafka enabled => kafka_onModuleInit enabled
  | T_kafka_stop enabled => kafka_onModuleDestroy enabled
  end.

Lemma program_handler t : handler (program t).
Proof. destruct t; constructor. Qed.

Definition is_relay (t : task) : bool := match t with T_relay => true | _ => false end.
Definition is_sweep (t : task) : bool := match t with T_sweep _ => true | _ => false end.

(** The flags of the worker's operations. *)
Definition calm_op (X : Type) (op : eff X) : Prop := match op with Proc f => calm f | _ => True end.

Lemma tidy_calm {A} (p : P A) : Tidy p → all_ops calm_op p.
Proof. apply all_ops_impl. intros X op Hop. by destruct op. Qed.

Lemma calm_perform {X} (op : eff X) f w : calm_op X op → flags (w_proc (perform f op w).2) = flags (w_proc w).
Proof.
  intros Hop.
  assert (Hh : flags (w_proc (handle op w).2) = flags (w_proc w)).
  { destruct op; simpl in *; unfold put_object; try (repeat case_match; done).
    specialize (Hop (w_proc w)). by destruct (f0 (w_proc w)). }
  unfold perform. destruct (fallible op); [|done]. by destruct f.
Qed.

Lemma calm_keeps {A} (p : P A) : all_ops calm_op p → all_ops (keeps p_relaying) p ∧ all_ops (keeps p_running) p.
Proof.
  intros Hp. split; (eapply all_ops_impl; [|exact Hp]); intros X op Hop f w;
    pose proof (calm_perform op f w Hop) as Hf; injection Hf as Hrel Hrun; done.
Qed.

(** The worker respects any relation, so the one that allows everything. *)
#[local] Instance anything : Discipline (λ _ _, True).
Proof. by split. Qed.

Lemma attempt_calm ps job : all_ops calm_op (attempt ps job).
Proof.
  eapply all_ops_impl; [|by apply (attempt_conducts (R := λ _ _, True))]. intros X op Hop. by destruct op.
Qed.

Lemma tidy_keeps {A} (p : P A) : Tidy p → all_ops (keeps p_relaying) p ∧ all_ops (keeps p_running) p.
Proof. intros Hp. by apply calm_keeps, tidy_calm. Qed.

(** Everything but a pass of the relay keeps its flag, and so for the sweep. *)
Definition relay_body : P unit :=
  pending <- sql (select_outbox is_pending outbox_by_createdAt RELAY_BATCH) ;; for_each pending relay_event.

Definition sweep_body (rv : RecoveryConfig) : P unit :=
  now <- call Now ;;
  stuck <- findStuck (now - rv_staleMs rv) (rv_batchSize rv) ;;
  for_each stuck (recover rv).

Lemma relay_body_tidy : Tidy relay_body.
Proof.
  apply conducts_bind; [unfold Conducts, sql; conduct_ops|]. intros l. apply all_ops_for_each. intros e. change (Tidy (relay_event e)). apply _.
Qed.

Lemma sweep_body_tidy rv : Tidy (sweep_body rv).
Proof.
  apply conducts_bind; [unfold Conducts; conduct_ops|]. intros now. apply conducts_bind; [unfold Conducts, findStuck, sql; conduct_ops|].
  intros l. apply all_ops_for_each. intros e. change (Tidy (recover rv e)). apply _.
Qed.

Lemma relay_gated : relay = gated p_relaying set_relaying relay_body.
Proof. done. Qed.

Lemma sweep_gated rv : sweep rv = if rv_enabled rv then gated p_running set_running (sweep_body rv) else Ret tt.
Proof. unfold sweep. by destruct (rv_enabled rv). Qed.

Lemma keeps_gated (get1 get2 : proc → bool) (set2 : bool → proc → proc) body :
  (∀ b p, get1 (set2 b p) = get1 p) → all_ops (keeps get1) body → all_ops (keeps get1) (gated get2 set2 body).
Proof.
  intros Hset Hb. unfold gated, in_proc, set_in_proc.
  repeat first [exact Hb | ops_step | exact I | intros f w; apply Hset].
Qed.

Lemma program_keeps_relaying t : is_relay t = false → all_ops (keeps p_relaying) (program t).
Proof.
  destruct t; intros Hk; try done; cbn [program]; try (by apply tidy_keeps; try apply ignore_conducts; exact _).
  - apply calm_keeps. apply all_ops_bind; [apply attempt_calm|]. intros; exact I.
  - rewrite sweep_gated. destruct (rv_enabled rv); [|exact I].
    apply keeps_gated; [by intros|]. by apply tidy_keeps, sweep_body_tidy.
Qed.

Lemma program_keeps_running t : is_sweep t = false → all_ops (keeps p_running) (program t).
Proof.
  destruct t; intros Hk; try done; cbn [program]; try (by apply tidy_keeps; try apply ignore_conducts; exact _).
  - rewrite relay_gated. apply keeps_gated; [by intros|]. by apply tidy_keeps, relay_body_tidy.
  - apply calm_keeps. apply all_ops_bind; [apply attempt_calm|]. intros; exact I.
Qed.

(** Which threads of a pool of tasks are of a kind. *)
Definition marks (kind : task → bool) (tasks : list task) (i : nat) : bool :=
  match tasks !! i with Some t => kind t | None => false end.

Lemma marks_program kind tasks i p :
  map program tasks !! i = Some p → ∃ t, p = program t ∧ marks kind tasks i = kind t.
Proof.
  unfold marks. rewrite list_lookup_fmap. intros (t & -> & Ht)%fmap_Some. exists t. by rewrite Ht.
Qed.

Lemma marks_true kind tasks i : marks kind tasks i = true → ∃ t, tasks !! i = Some t ∧ kind t = true.
Proof. unfold marks. destruct (tasks !! i) as [t|]; [|done]. eauto. Qed.

Lemma relays_start tasks i p :
  marks is_relay tasks i = true → map program tasks !! i = Some p → pass p_relaying set_relaying p ∨ finished p.
Proof.
  intros Hk (t & -> & Hm)%(marks_program is_relay). rewrite Hm in Hk. destruct t; try done. left.
  exists relay_body. split; [apply relay_gated|]. apply tidy_keeps, relay_body_tidy.
Qed.

Lemma sweeps_start tasks i p :
  marks is_sweep tasks i = true → map program tasks !! i = Some p → pass p_running set_running p ∨ finished p.
Proof.
  intros Hk (t & -> & Hm)%(marks_program is_sweep). rewrite Hm in Hk. destruct t; try done.
  cbn [program]. rewrite sweep_gated. destruct (rv_enabled rv); [left|by right].
  exists (sweep_body rv). split; [done|]. apply tidy_keeps, sweep_body_tidy.
Qed.

Lemma relays_exclusive tasks c' w :
  p_relaying (w_proc w) = false → rtc turn (map program tasks, w) c' →
  exclusive p_relaying set_relaying (map program tasks) (marks is_relay tasks) c'.
Proof.
  intros Hf Ht. eapply turns_exclusive; [done|exact Ht|]. apply exclusive_start; [done|apply relays_start| |done].
  intros i p Hk (t & -> & Hm)%(marks_program is_relay). rewrite Hm in Hk. by apply program_keeps_relaying.
Qed.

Lemma sweeps_exclusive tasks c' w :
  p_running (w_proc w) = false → rtc turn (map program tasks, w) c' →
  exclusive p_running set_running (map program tasks) (marks is_sweep tasks) c'.
Proof.
  intros Hf Ht. eapply turns_exclusive; [done|exact Ht|]. apply exclusive_start; [done|apply sweeps_start| |done].
  intros i p Hk (t & -> & Hm)%(marks_program is_sweep). rewrite Hm in Hk. by apply program_keeps_running.
Qed.
End tasks.

(** C13: One pass at a time.  Let any tasks run in one process, their operations
    interleaved in any order and failing in any way, timers firing however often.  At
    every moment at most one pass of the relay and at most one pass of the sweep is
    under way (begun and not over); and when none is, its flag is down, so the next
    timer is not refused. *)
Theorem one_pass_at_a_time `{!Externals, !Gcm, !Credentials, !Validators} tasks ts w w' :
  p_relaying (w_proc w) = false → p_running (w_proc w) = false →
  rtc turn (map program tasks, w) (ts, w') →
  let begun := under_way (map program tasks) ts in
  (∀ i j, tasks !! i = Some T_relay → tasks !! j = Some T_relay → begun i → begun j → i = j) ∧
  (∀ i j rv rv', tasks !! i = Some (T_sweep rv) → tasks !! j = Some (T_sweep rv') → begun i → begun j → i = j) ∧
  ((∀ i, tasks !! i = Some T_relay → ¬ begun i) → p_relaying (w_proc w') = false) ∧
  ((∀ i rv, tasks !! i = Some (T_sweep rv) → ¬ begun i) → p_running (w_proc w') = false).
Proof.
  intros Hr Hn Ht begun.
  pose proof (relays_exclusive tasks _ w Hr Ht) as Hrel. pose proof (sweeps_exclusive tasks _ w Hn Ht) as Hsw.
  assert (Hmr : ∀ i, tasks !! i = Some T_relay → marks is_relay tasks i = true) by (intros i Hi; unfold marks; by rewrite Hi).
  assert (Hms : ∀ i rv, tasks !! i = Some (T_sweep rv) → marks is_sweep tasks i = true) by (intros i rv Hi; unfold marks; by rewrite Hi).
  split_and!.
  - intros i j Hi Hj Bi Bj. eapply (ex_one _ _ _ _ _ Hrel); eauto; eapply under_way_inside; eauto.
  - intros i j rv rv' Hi Hj Bi Bj. eapply (ex_one _ _ _ _ _ Hsw); eauto; eapply under_way_inside; eauto.
  - intros Hnone. apply (none_under_way p_relaying set_relaying (λ _ _, eq_refl) _ _ _ Hrel (relays_start tasks)).
    intros i (t & Hi & Hk)%marks_true. destruct t; try done. by apply Hnone.
  - intros Hnone. apply (none_under_way p_running set_running (λ _ _, eq_refl) _ _ _ Hsw (sweeps_start tasks)).
    intros i (t & Hi & Hk)%marks_true. destruct t; try done. by eapply Hnone.
Qed.

Import Demo DemoCipher DemoCredentials.
#[local] Existing Instance demo_validators.

(** Two timers of the relay in turn: the first is inside, the second went back. *)
Definition demo_tasks : list task := [T_relay; T_relay].

Definition demo_inside : P unit :=
  finally_ (catch_ relay_body (λ _, Ret tt)) (set_in_proc (set_relaying false)).
Definition demo_busy : world := set_proc (set_relaying true boot_proc) empty_world.
Definition demo_first : pool := ([demo_inside; relay], demo_busy).
Definition demo_second : pool := ([demo_inside; Ret tt], demo_busy).

Lemma demo_turns : rtc turn (map program demo_tasks, empty_world) demo_second.
Proof.
  apply (rtc_l _ _ demo_first); [exact (turn_call [relay; relay] empty_world 0 bool _ _ NoFault eq_refl)|].
  apply (rtc_l _ _ demo_second); [|apply rtc_refl].
  exact (turn_call [demo_inside; relay] demo_busy 1 bool _ _ NoFault eq_refl).
Qed.

Definition asks_database (p : P unit) : bool := match p with Call (Db _) _ => true | _ => false end.

Lemma demo_first_under_way : under_way (map program demo_tasks) demo_second.1 0.
Proof.
  eexists. split_and!; [reflexivity| |by intros []]. intros H. discriminate (f_equal (option_map asks_database) H).
Qed.

Lemma one_pass_at_a_time_witness :
  p_relaying (w_proc demo_second.2) = true ∧ under_way (map program demo_tasks) demo_second.1 0 ∧
  ¬ under_way (map program demo_tasks) demo_second.1 1.
Proof.
  split_and!; [reflexivity|exact demo_first_under_way|]. intros Hb.
  destruct (one_pass_at_a_time demo_tasks demo_second.1 empty_world demo_second.2 eq_refl eq_refl demo_turns)
    as (Hone & _).
  discriminate (Hone 0%nat 1%nat eq_refl eq_refl demo_first_under_way Hb).
Defined.
