(* ===== verification/Metering.v ===== *)
(** * Metering under interleaving

    [QuotaService.recordUsage] adds to a tenant's row with one
    [INSERT .. ON CONFLICT DO UPDATE], so that workers of one tenant, running at once in
    any number of processes, do not lose each other's additions; and a worker reaches
    it at most once in an attempt, after the pipeline has bounded the size.  Here the usage
    table after any run of the program is its first value plus the charges of its threads:
    none but the workers', at most one for each attempt, and exactly one for each
    [transfer_body] that has returned. *)
From S2P Require Import Prelude JsLang Entities Database Prog World Repository Outbox Ingestion.
From S2P Require Import Quota Routing Storage Crypto Pipeline Events Processor Transfers Recovery.
From S2P Require Import Auth Http System Conduct Exclusion.

(** One addition to a tenant's row, which it makes when it is not there. *)
Definition charge (u : gmap string TenantUsage) (c : string * Z) : gmap string TenantUsage :=
  let row := default (mkUsage 0 0) (u !! c.1) in
  <[c.1 := mkUsage (us_objectCount row + 1) (us_bytesStored row + c.2)]> u.

(** The charges to a tenant, and their sum. *)
Definition charges_to (tenant : string) (l : list (string * Z)) : list Z :=
  omap (λ c, if decide (c.1 = tenant) then Some c.2 else None) l.
Definition total (l : list Z) : Z := foldr Z.add 0%Z l.

Definition usage_of (u : gmap string TenantUsage) (tenant : string) : TenantUsage :=
  default (mkUsage 0 0) (u !! tenant).

Lemma charges_usage l u tenant :
  usage_of (foldl charge u l) tenant =
  mkUsage (us_objectCount (usage_of u tenant) + Z.of_nat (length (charges_to tenant l)))
          (us_bytesStored (usage_of u tenant) + total (charges_to tenant l)).
Proof.
  revert u. induction l as [|[t b] l IH]; intros u; simpl.
  - rewrite !Z.add_0_r. by destruct (usage_of u tenant).
  - rewrite IH. unfold usage_of, charge. simpl. case_decide as Ht.
    + subst t. rewrite lookup_insert_eq. simpl. f_equal; lia.
    + by rewrite lookup_insert_ne.
Qed.

(** *** Sums and lists of charges *)
Lemma Forall3_update {X Y Z} (R : X → Y → Z → Prop) l1 l2 l3 i x y z :
  Forall3 R l1 l2 l3 → l1 !! i = Some x → R x y z → Forall3 R l1 (<[i := y]> l2) (<[i := z]> l3).
Proof.
  intros Hl. revert i. induction Hl as [|x0 y0 z0 l1 l2 l3 Hx Hl IH]; intros [|i] Hi HR; try done; simpl.
  - injection Hi as ->. by constructor.
  - constructor; [done|]. by apply IH.
Qed.

Lemma concat_extend {X} (ls : list (list X)) i l l' :
  ls !! i = Some l → concat (<[i := l ++ l']> ls) ≡ₚ concat ls ++ l'.
Proof.
  revert i. induction ls as [|x ls IH]; intros [|i]; try done; simpl.
  - intros [= ->]. rewrite <- !app_assoc. by rewrite (Permutation_app_comm l').
  - intros Hi. rewrite (IH i Hi). by rewrite app_assoc.
Qed.

#[global] Instance total_proper : Proper ((≡ₚ) ==> eq) total.
Proof. intros l1 l2. unfold total. induction 1; simpl; lia. Qed.

Lemma total_app l1 l2 : total (l1 ++ l2) = (total l1 + total l2)%Z.
Proof. unfold total. induction l1; simpl; lia. Qed.

#[global] Instance charges_proper tenant : Proper ((≡ₚ) ==> (≡ₚ)) (charges_to tenant).
Proof. intros l1 l2 Hl. unfold charges_to. by rewrite Hl. Qed.

(** An operation that leaves the table alone, and a program of such operations. *)
Definition thrifty_op (X : Type) (op : eff X) : Prop := match op with Db m => thrifty m | _ => True end.
Definition Sparing {A} (p : P A) : Prop := all_ops thrifty_op p.

Lemma tidy_sparing {A} (p : P A) : Tidy p → Sparing p.
Proof. apply all_ops_impl. intros X op Hop. by destruct op. Qed.

Lemma thrifty_perform `{!Externals} {X} (op : eff X) f w :
  thrifty_op X op → d_usage (w_db (perform f op w).2) = d_usage (w_db w).
Proof.
  intros Hop.
  assert (Hh : d_usage (w_db (handle op w).2) = d_usage (w_db w)).
  { destruct op; simpl in *; unfold put_object; try (repeat case_match; done).
    pose proof (transact_usage m (w_db w) Hop) as Hu. by destruct (transact m (w_db w)). }
  unfold perform. destruct (fallible op); [|done]. by destruct f.
Qed.

(** A program that does not charge and does not return: it throws. *)
Fixpoint fails {A} (p : P A) : Prop :=
  match p with
  | Ret _ => False
  | Throw _ => True
  | Call op k => thrifty_op _ op ∧ ∀ r, fails (k r)
  end.

Lemma fails_bind {A B} (p : P A) (f : A → P B) : fails p → fails (bind p f).
Proof.
  induction p as [a|e|X op k IH]; [done..|]. intros [Hop Hk]. split; [done|]. intros r. apply IH, Hk.
Qed.

(** No operation of the program writes the files it moves. *)
Lemma perform_fs `{!Externals} {X} (op : eff X) f w : w_fs (perform f op w).2 = w_fs w.
Proof.
  unfold perform. destruct op; simpl; unfold put_object; destruct f; try done; by repeat case_match.
Qed.

Section once.
Context `{!Externals}.

(** The files there are, and what [ok] allows to charge. *)
Context (fs : gmap string fs_node) (ok : string * Z → Prop).

(** The outcomes an operation can have over these files. *)
Definition possible {X} (op : eff X) (r : result X) : Prop := ∃ f w, w_fs w = fs ∧ r = (perform f op w).1.

(** An operation that charges [c] when it succeeds, and may have when it fails. *)
Definition charging (c : string * Z) (X : Type) (op : eff X) : Prop :=
  ∀ f w, let r := perform f op w in let u' := d_usage (w_db r.2) in
    match r.1 with
    | Ok _ => u' = charge (d_usage (w_db w)) c
    | Err _ => u' = d_usage (w_db w) ∨ u' = charge (d_usage (w_db w)) c
    end.

(** A program that charges at most once, and exactly once when it returns if it [must]. *)
Fixpoint once (must : bool) {A} (p : P A) : Prop :=
  match p with
  | Ret _ => must = false
  | Throw _ => True
  | Call op k =>
      thrifty_op _ op ∧ (∀ r, possible op r → once must (k r)) ∨
      (∃ c, ok c ∧ charging c _ op) ∧ (∀ r, Sparing (k r)) ∧ (must = true → ∀ e, fails (k (Err e)))
  end.

(** A program that does not charge, and what holds of its value. *)
Fixpoint spare_post {A} (Φ : A → Prop) (p : P A) : Prop :=
  match p with
  | Ret a => Φ a
  | Throw _ => True
  | Call op k => thrifty_op _ op ∧ ∀ r, spare_post Φ (k r)
  end.

Lemma sparing_call {A X} (op : eff X) (k : result X → P A) : Sparing (Call op k) → thrifty_op X op ∧ ∀ r, Sparing (k r).
Proof. done. Qed.

Lemma sparing_once {A} (p : P A) : Sparing p → once false p.
Proof. induction p as [a|e|X op k IH]; [done..|]. intros [Hop Hk]%sparing_call. left. split; [done|]. intros r _. apply IH, Hk. Qed.

Lemma fails_once must {A} (p : P A) : fails p → once must p.
Proof. induction p as [a|e|X op k IH]; [done..|]. intros [Hop Hk]. left. split; [done|]. intros r _. apply IH, Hk. Qed.

Lemma spare_post_true {A} (p : P A) : Sparing p → spare_post (λ _, True) p.
Proof. induction p as [a|e|X op k IH]; [done..|]. intros [Hop Hk]%sparing_call. split; [done|]. intros r. apply IH, Hk. Qed.

Lemma spare_post_bind {A B} (Φ : A → Prop) (Ψ : B → Prop) (p : P A) f :
  spare_post Φ p → (∀ a, Φ a → spare_post Ψ (f a)) → spare_post Ψ (bind p f).
Proof.
  intros Hp Hf. induction p as [a|e|X op k IH]; simpl in *; [by apply Hf|done|]. destruct Hp as [Hop Hk].
  split; [done|]. intros r. apply IH, Hk.
Qed.

Lemma once_bind must {A B} (Φ : A → Prop) (p : P A) (f : A → P B) :
  spare_post Φ p → (∀ a, Φ a → once must (f a)) → once must (bind p f).
Proof.
  intros Hp Hf. induction p as [a|e|X op k IH]; simpl in *; [by apply Hf|done|]. destruct Hp as [Hop Hk].
  left. split; [done|]. intros r _. apply IH, Hk.
Qed.

Lemma once_seq must {A B} (p : P A) (f : A → P B) : Sparing p → (∀ a, once must (f a)) → once must (bind p f).
Proof. intros Hp Hf. apply (once_bind must (λ _, True)); [by apply spare_post_true|auto]. Qed.

(** The charge first, then what does not charge. *)
Lemma once_then must {A B} (p : P A) (f : A → P B) : once must p → (∀ a, Sparing (f a)) → once must (bind p f).
Proof.
  intros Hp Hf. induction p as [a|e|X op k IH]; [|done|].
  - simpl in Hp. subst. apply sparing_once, Hf.
  - destruct Hp as [[Hop Hk]|(Hop & Hk & He)]; [left|right].
    + split; [done|]. intros r Hr. by apply IH, Hk.
    + split_and!; [done|intros r; apply all_ops_bind; [apply Hk|apply Hf]|].
      intros Hm e. by apply fails_bind, He.
Qed.

Lemma once_catch {A} (p : P A) h : once false p → (∀ e, Sparing (h e)) → once false (catch_ p h).
Proof.
  intros Hp Hh. induction p as [a|e|X op k IH]; [done|by apply sparing_once, Hh|].
  destruct Hp as [[Hop Hk]|(Hop & Hk & _)]; [left|right].
  - split; [done|]. intros r Hr. by apply IH, Hk.
  - split_and!; [done|intros r; apply all_ops_catch; [apply Hk|apply Hh]|done].
Qed.

Lemma once_finally {A} (p : P A) fin : once false p → Sparing fin → once false (finally_ p fin).
Proof.
  intros Hp Hh. induction p as [a|e|X op k IH].
  - apply sparing_once, all_ops_bind; [done|]. by intros [].
  - apply sparing_once, all_ops_bind; [done|]. by intros [].
  - destruct Hp as [[Hop Hk]|(Hop & Hk & _)]; [left|right].
    + split; [done|]. intros r Hr. by apply IH, Hk.
    + split_and!; [done|intros r; apply all_ops_finally; [apply Hk|apply Hh]|done].
Qed.

(** The statement is the charge, when it is not refused. *)
Lemma record_charging must t b : ok (t, b) → once must (recordUsage t b).
Proof.
  intros Hok. right. split_and!; [|by intros [[]|e]|done]. exists (t, b). split; [done|]. intros f w.
  assert (Hh : let r := handle (Db (record_usage_statement t b)) w in
    d_usage (w_db r.2) = match r.1 with Ok _ => charge (d_usage (w_db w)) (t, b) | Err _ => d_usage (w_db w) end).
  { cbn [handle world_handler world_handle]. unfold transact, record_usage_statement, charge. cbn [fst snd].
    destruct (d_usage (w_db w) !! t) as [u|]; repeat case_match; simplify_eq; done. }
  unfold perform. simpl fallible. cbn zeta in Hh |- *. destruct f; [|by left|]; cbn [fst snd].
  - destruct (handle _ w) as [[[]|e1] w1]; simpl in *; auto.
  - destruct (handle _ w) as [[[]|e1] w1]; simpl in *; auto.
Qed.

(** A property of programs that parts which do not charge, before and after, preserve. *)
Class Closed (Q : ∀ A, P A → Prop) : Prop := {
  cl_sparing A (p : P A) : Sparing p → Q A p;
  cl_seq A B (p : P A) (f : A → P B) : Sparing p → (∀ a, Q B (f a)) → Q B (bind p f);
  cl_then A B (p : P A) (f : A → P B) : Q A p → (∀ a, Sparing (f a)) → Q B (bind p f);
  cl_catch A (p : P A) h : Q A p → (∀ e, Sparing (h e)) → Q A (catch_ p h);
  cl_finally A (p : P A) fin : Q A p → Sparing fin → Q A (finally_ p fin);
}.

#[global] Instance once_closed : Closed (λ A, once false).
Proof.
  split; intros; [by apply sparing_once|by apply once_seq|by apply once_then|by apply once_catch|by apply once_finally].
Qed.

(** What a thread still owes, with the charges it has made. *)
Definition owing (must : bool) (p : P unit) (l : list (string * Z)) : Prop :=
  l = [] ∧ once must p ∨ ∃ c, l = [c] ∧ ok c ∧ Sparing p.

(** One operation of a thread adds to the table what it adds to the thread's charges. *)
Lemma owing_step must X (op : eff X) k l f w :
  w_fs w = fs → owing must (Call op k) l →
  ∃ l', owing must (k (perform f op w).1) (l ++ l') ∧
    d_usage (w_db (perform f op w).2) = foldl charge (d_usage (w_db w)) l'.
Proof.
  intros Hfs [[-> [[Hop Hk]|((c & Hok & Hc) & Hk & He)]]|(c & -> & Hok & [Hop Hk]%sparing_call)].
  - exists []. split; [left; split; [done|]; apply Hk; by exists f, w|]. by apply thrifty_perform.
  - specialize (Hc f w). cbn zeta in Hc. destruct (perform f op w) as [[a|e] w1]; cbn [fst snd] in *.
    + exists [c]. split; [right; eauto|done].
    + destruct Hc as [Hu|Hu]; [|exists [c]; split; [right; eauto|done]]. exists []. split; [left|done]. split; [done|].
      destruct must; [by apply fails_once, He|by apply sparing_once].
  - exists []. split; [right; eauto|]. by apply thrifty_perform.
Qed.
End once.

(** ** The worker *)
Section worker.
Context `{!Externals, !Gcm, !Credentials, !Validators}.

(** What the worker's [ValidationStep] lets through. *)
Definition admissible (ps : ProcessorConfig) (b : Z) : Prop :=
  (0 < b ∧ (0 < pl_maxFileSizeBytes (ps_pipeline ps) → b ≤ pl_maxFileSizeBytes (ps_pipeline ps)))%Z.

Lemma pipeline_post pl qc ctx :
  spare_post (λ ctx', (0 < pc_sizeBytes ctx' ∧
    (0 < pl_maxFileSizeBytes pl → pc_sizeBytes ctx' ≤ pl_maxFileSizeBytes pl))%Z ∧
    pc_sizeBytes ctx' = pc_sizeBytes ctx) (pipeline pl qc ctx).
Proof.
  unfold pipeline, PROCESSING_STEPS. cbn [run_pipeline].
  set (Φ := λ c, (0 < pc_sizeBytes c ∧ (0 < pl_maxFileSizeBytes pl → pc_sizeBytes c ≤ pl_maxFileSizeBytes pl))%Z ∧
    pc_sizeBytes c = pc_sizeBytes ctx).
  assert (Hkeep : ∀ (c : ProcessingContext) X (p : P X), Φ c → Tidy p → spare_post Φ (p ;;; Ret c)).
  { intros c X p Hc Hp. apply (spare_post_bind (λ _, True)); [by apply spare_post_true, tidy_sparing|done]. }
  apply (spare_post_bind Φ); [|intros c Hc; apply (spare_post_bind Φ); [|clear c Hc; intros c Hc;
    apply (spare_post_bind Φ); [|clear c Hc; intros c Hc; apply (spare_post_bind Φ); [exact Hc|by intros]]]].
  - destruct (validation_run pl ctx [] Demo.empty_world) as [(_ & Hv)|[m ->]]; [|exact I].
    cbn [step_execute ValidationStep]. repeat case_match; done || exact Hv.
  - apply Hkeep; [done|]. unfold Conducts, assertWithinQuota, getUsage, sql. conduct_ops.
  - cbn [step_execute AntivirusStep]. destruct (pl_avEnabled pl); [|exact Hc]. cbn [negb].
    apply (spare_post_bind (λ _, True)); [|intros res _; by case_match].
    apply spare_post_true, tidy_sparing, conducts_reading. unfold scanFileWithClamd. repeat (ops_step || done).
Qed.
(** The part of the body that follows the pipeline. *)
Definition stored_part (ps : ProcessorConfig) (transfer : FileTransfer) (ctx : ProcessingContext) : P unit :=
  checksums <- computeFileChecksums (pc_sourcePath ctx) ;;
  let target := resolve_route (ps_routing ps) transfer in
  enc <- (if cc_enabled (ps_crypto ps)
          then e <- createEncryptStream (ps_crypto ps) ;; Ret (Some e) else Ret None) ;;
  let wrappedDek := snd <$> enc in
  result <- uploadStream (ps_storage ps)
    (mkUploadParams (rt_key target) (file_body (pc_sourcePath ctx) (upload_bytes enc))
       (Some (match enc with Some _ => pc_sizeBytes ctx + overheadBytes | None => pc_sizeBytes ctx end)%Z)
       (Some (nullish (pc_contentType ctx) "application/octet-stream")) (Some (rt_bucket target))) ;;
  of_result (if truthy wrappedDek then Ok tt else verifyIntegrity (ur_etag result) (md5 checksums)) ;;;
  markSuccess (ft_id transfer) (ur_bucket result) (ur_key result) (ur_etag result)
    (Some (sha256 checksums)) (truthy wrappedDek) wrappedDek ;;;
  set_in_proc (recordSuccess (pc_sizeBytes ctx)) ;;;
  recordUsage (ft_tenantId transfer) (pc_sizeBytes ctx) ;;;
  publishTransferEvent (ps_kafka ps) transfer transfer_completed
    (CompletedData (ur_bucket result) (ur_key result) (pc_sizeBytes ctx) (truthy wrappedDek)).

Lemma transfer_body_split ps transfer :
  transfer_body ps transfer =
  (stats <- catch_ (call (Stat (ft_sourcePath transfer))) (λ _, Ret None) ;;
   match stats with
   | Some (true, size) =>
       ctx <- pipeline (ps_pipeline ps) (ps_quota ps) (mkContext transfer (ft_sourcePath transfer) size None) ;;
       stored_part ps transfer ctx
   | _ => Throw (NonRetryable ("Source unreadable: " +:+ ft_sourcePath transfer))
   end).
Proof. done. Qed.

Lemma stored_once fs (ok : string * Z → Prop) must ps t ctx :
  ok (ft_tenantId t, pc_sizeBytes ctx) → once fs ok must (stored_part ps t ctx).
Proof.
  intros Hok. unfold stored_part, computeFileChecksums, markSuccess.
  apply once_seq; [apply tidy_sparing; unfold Conducts; conduct_ops|]. intros sums.
  apply once_seq.
  { apply tidy_sparing. destruct (cc_enabled _); [|exact I]. apply conducts_bind; [apply _|]. intros; exact I. }
  intros enc. apply once_seq.
  { apply tidy_sparing. apply upload_conducts. cbn [up_body]. unfold Conducts, file_body. conduct_ops. }
  intros res. apply once_seq; [apply tidy_sparing; unfold Conducts; conduct_ops|]. intros _.
  apply once_seq; [apply tidy_sparing; unfold Conducts, sql; conduct_ops|]. intros _.
  apply once_seq; [apply tidy_sparing; unfold Conducts, set_in_proc; conduct_ops|]. intros _.
  apply once_then; [by apply record_charging|]. intros _. apply tidy_sparing, _.
Qed.

(** The size of a file. *)
Definition file_size (fs : gmap string fs_node) (path : string) : option Z :=
  match fs !! path with Some (RegularFile c) => Some (Z.of_nat (length c)) | _ => None end.

Lemma stat_possible fs path r :
  possible fs (Stat path) r →
  match r with Ok (Some (true, size)) => file_size fs path = Some size | _ => True end.
Proof.
  intros (f & w & <- & ->). unfold perform, file_size. simpl. destruct f; simpl; [|done..].
  by destruct (w_fs w !! path) as [[c|]|].
Qed.

Lemma body_once fs (ok : string * Z → Prop) must ps t :
  (∀ size, file_size fs (ft_sourcePath t) = Some size → admissible ps size → ok (ft_tenantId t, size)) →
  once fs ok must (transfer_body ps t).
Proof.
  intros Hok. rewrite transfer_body_split. left. split; [exact I|]. intros r Hr%stat_possible.
  destruct r as [[[[] size]|]|e]; try exact I.
  refine (once_bind fs ok must _ _ (stored_part ps t) (pipeline_post (ps_pipeline ps) (ps_quota ps)
    (mkContext t (ft_sourcePath t) size None)) _).
  intros ctx [Hadm Hsize]. apply stored_once. rewrite Hsize in *. by apply Hok.
Qed.

(** What holds of a body and is kept by what surrounds it holds of an attempt: around the
    body there is nothing that charges. *)
Lemma attempt_closed (Q : ∀ A, P A → Prop) ps job :
  Closed Q → (∀ t, Q _ (transfer_body ps t)) → Q _ (ignore (attempt ps job)).
Proof.
  intros HQ Hbody.
  assert (Hdone : ∀ A (a : A), Q _ (Ret a)) by (intros A a; by apply cl_sparing).
  apply cl_then; [|intros; exact I]. apply cl_catch.
  2: { intros e. apply tidy_sparing, onFailed_conducts. }
  apply cl_catch; [|intros; exact I].
  unfold runTransfer. apply cl_seq; [apply tidy_sparing; apply _|]. intros [t|]; [|apply Hdone].
  destruct (bool_decide _); [apply Hdone|].
  apply cl_seq; [apply tidy_sparing; unfold Conducts, set_in_proc; conduct_ops|]. intros _.
  apply cl_seq; [apply tidy_sparing; unfold markProcessing; apply _|]. intros _.
  apply cl_finally; [|apply tidy_sparing; unfold Conducts, set_in_proc; conduct_ops].
  apply cl_catch; [apply Hbody|]. intros []; first [apply tidy_sparing, reject_conducts|exact I].
Qed.

Lemma attempt_once fs (ok : string * Z → Prop) ps job :
  (∀ t b, admissible ps b → ok (t, b)) → once fs ok false (ignore (attempt ps job)).
Proof.
  intros Hok. apply (attempt_closed (λ A, once fs ok false)); [apply _|]. intros t. apply body_once. auto.
Qed.

Definition is_worker (t : task) : bool := match t with T_worker _ _ => true | _ => false end.

Lemma gated_sparing get (set : bool → proc → proc) body : Sparing body → Sparing (gated get set body).
Proof.
  intros Hb. unfold Sparing, gated, in_proc, set_in_proc. repeat first [exact Hb | ops_step | exact I].
Qed.

Lemma program_sparing t : is_worker t = false → Sparing (program t).
Proof.
  destruct t; intros Hk; try done; cbn [program]; try (apply tidy_sparing; try apply ignore_conducts; exact _).
  - rewrite relay_gated. apply gated_sparing, tidy_sparing, relay_body_tidy.
  - rewrite sweep_gated. destruct (rv_enabled rv); [|exact I]. apply gated_sparing, tidy_sparing, sweep_body_tidy.
Qed.
End worker.

(** ** Threads

    A task, or the body of an attempt on its own: what [runTransfer] runs once it has claimed
    the row, here with its outcome in sight. *)
Inductive thread := Body (ps : ProcessorConfig) (t : FileTransfer) | Task (t : task).

(** The threads of a pool move in any order, with any faults; one that dies moves no more. *)
Inductive moved `{!Externals} : pool → pool → Prop :=
  | moved_call ts w i X (op : eff X) k f :
      ts !! i = Some (Call op k) →
      moved (ts, w) (<[i := k (perform f op w).1]> ts, (perform f op w).2).

Section threads.
Context `{!Externals, !Gcm, !Credentials, !Validators}.

Definition code (th : thread) : P unit :=
  match th with Body ps t => transfer_body ps t | Task t => program t end.

Context (fs : gmap string fs_node).

(** What a body charges: its tenant, for a source file of a size that the pipeline admits. *)
Definition body_charge (ps : ProcessorConfig) (t : FileTransfer) (c : string * Z) : Prop :=
  c.1 = ft_tenantId t ∧ file_size fs (ft_sourcePath t) = Some c.2 ∧ admissible ps c.2.

(** What a thread may have charged, given what is left of it. *)
Definition account (th : thread) (p : P unit) (l : list (string * Z)) : Prop :=
  match th with
  | Body ps t => owing fs (body_charge ps t) true p l
  | Task (T_worker ps _) => owing fs (λ c, admissible ps c.2) false p l
  | Task _ => l = [] ∧ Sparing p
  end.

Lemma account_start th : account th (code th) [].
Proof.
  destruct th as [ps t|t]; [left; split; [done|]; by apply body_once|].
  destruct t; try (split; [done|]; by apply program_sparing). left. split; [done|]. by apply attempt_once.
Qed.

Lemma account_step th X (op : eff X) k l f w :
  w_fs w = fs → account th (Call op k) l →
  ∃ l', account th (k (perform f op w).1) (l ++ l') ∧
    d_usage (w_db (perform f op w).2) = foldl charge (d_usage (w_db w)) l'.
Proof.
  intros Hfs. destruct th as [ps t|t]; [by apply owing_step|]. destruct t; try (by apply owing_step);
    intros [-> [Hop Hk]%sparing_call]; exists []; (split; [split; [done|]; apply Hk|]); by apply thrifty_perform.
Qed.

(** The table, and the charges of each thread. *)
Definition metered (ths : list thread) (w0 : world) (c : pool) : Prop :=
  w_fs c.2 = fs ∧ ∃ ls, Forall3 account ths c.1 ls ∧
    ∀ tenant, stored_usage (w_db c.2) tenant =
      mkUsage (us_objectCount (stored_usage (w_db w0) tenant) + Z.of_nat (length (charges_to tenant (concat ls))))
              (us_bytesStored (stored_usage (w_db w0) tenant) + total (charges_to tenant (concat ls))).

Lemma moved_metered ths w0 c c' : moved c c' → metered ths w0 c → metered ths w0 c'.
Proof.
  intros [ts w i X op k f Hi] (Hfs & ls & Hls & Hu). simpl in *. split; [simpl; by rewrite perform_fs|].
  destruct (Forall3_lookup_m _ _ _ _ _ _ Hls Hi) as (th & l & Hth & Hl & Hacc).
  destruct (account_step th X op k l f w Hfs Hacc) as (l' & Hacc' & Hu').
  exists (<[i := l ++ l']> ls). simpl. split.
  - by eapply Forall3_update.
  - intros tenant. specialize (Hu tenant). unfold stored_usage in *. rewrite Hu'.
    pose proof (charges_usage l' (d_usage (w_db w)) tenant) as Hc. unfold usage_of in Hc. rewrite Hc, Hu.
    rewrite !(concat_extend ls i l l' Hl). unfold charges_to. rewrite omap_app, length_app, total_app. simpl.
    f_equal; lia.
Qed.

Lemma moves_metered ths w0 c c' : rtc moved c c' → metered ths w0 c → metered ths w0 c'.
Proof. induction 1; eauto using moved_metered. Qed.

(** What the charges of a thread are, in the end. *)
Definition charged (th : thread) (p : P unit) (l : list (string * Z)) : Prop :=
  match th with
  | Body ps t =>
      (length l ≤ 1)%nat ∧ Forall (body_charge ps t) l ∧ (p = Ret tt → length l = 1%nat)
  | Task (T_worker ps _) => (length l ≤ 1)%nat ∧ Forall (λ c, admissible ps c.2) l
  | Task _ => l = []
  end.

Lemma account_charged th p l : account th p l → charged th p l.
Proof.
  destruct th as [ps t|t]; [|destruct t; try (by intros [-> _])]; intros [[-> Ho]|(c & -> & Hc & _)]; split; simpl;
    try lia; try (by apply Forall_singleton); try (by constructor); (split; [|by intros ->]);
    [by constructor|by apply Forall_singleton].
Qed.
End threads.

(** C14: Usage is metered exactly under interleaving.  Run any tasks together, in any
    number, and with them any bodies of attempts, their operations interleaved and failing in
    any way and any of them dead at any point.  The usage table is then its first value plus
    the charges of the threads, each thread's on its own: a body that has returned has
    charged its tenant exactly once, the size of its source file, so no addition is lost or
    made twice where workers meet on a row; a body that has not, at most once, as every
    attempt; each charge is a size the pipeline admits, positive and within the size limit
    when there is one; and nothing but the worker charges. *)
Theorem metered_exactly `{!Externals, !Gcm, !Credentials, !Validators} ths ts w w' :
  rtc moved (map code ths, w) (ts, w') →
  ∃ ls : list (list (string * Z)),
    (∀ tenant, stored_usage (w_db w') tenant =
       mkUsage (us_objectCount (stored_usage (w_db w) tenant) + Z.of_nat (length (charges_to tenant (concat ls))))
               (us_bytesStored (stored_usage (w_db w) tenant) + total (charges_to tenant (concat ls)))) ∧
    Forall3 (charged (w_fs w)) ths ts ls.
Proof.
  intros Hs.
  assert (Hstart : metered (w_fs w) ths w (map code ths, w)).
  { split; [done|]. exists (replicate (length ths) []). split.
    - clear. induction ths as [|th ths IH]; constructor; [apply account_start|exact IH].
    - intros tenant. replace (concat (replicate (length ths) [])) with ([] : list (string * Z))
        by (clear; induction ths; done). simpl. rewrite !Z.add_0_r. by destruct (stored_usage (w_db w) tenant). }
  destruct (moves_metered _ _ _ _ _ Hs Hstart) as (_ & ls & Hls & Hu). exists ls. split; [done|].
  eapply Forall3_impl; [exact Hls|]. apply account_charged.
Qed.

(** The steps of a schedule kill nobody. *)
Lemma schedule_moved `{!Externals} l c : rtc moved c (schedule l c).
Proof.
  revert c. induction l as [|i l IH]; intros [ts w]; [done|]. unfold schedule. simpl. fold (schedule (E := eff)).
  destruct (ts !! i) as [[a|e|X op k]|] eqn:Hi; try apply IH.
  eapply rtc_l; [apply (moved_call _ _ i _ _ _ NoFault Hi)|]. unfold perform. destruct (fallible op); apply IH.
Qed.

Import Demo DemoCipher DemoCredentials.
#[local] Existing Instance demo_validators.

(** An attempt and the body of another at one transfer, in step: the row is charged once by
    each. *)
Definition demo_threads : list thread := [Body demo_config demo_row; Task (T_worker demo_config demo_job)].
Definition demo_interleaved : pool :=
  schedule (concat (replicate 40 [0; 1]))%nat (map code demo_threads, demo_world).

(** The returned body of such a pair. *)
Lemma pair_charged fs ps t tk ts ls :
  Forall3 (charged fs) [Body ps t; Task tk] ts ls → head ts = Some (Ret tt) →
  ∃ l1 l2, ls = [l1; l2] ∧ length l1 = 1%nat.
Proof.
  intros Hls Hd. inversion Hls as [|th p l1 ths ts1 ls1 Hb Hls1]; subst.
  inversion Hls1 as [|th2 p2 l2 ths2 ts2 ls2 _ Hls2]; subst. inversion Hls2; subst. injection Hd as ->.
  exists l1, l2. split; [done|]. by apply Hb.
Qed.

Lemma metered_exactly_witness :
  us_objectCount (stored_usage (w_db demo_interleaved.2) "acme") = 2%Z ∧
  ∃ l1 l2, length l1 = 1%nat ∧ length (charges_to "acme" (l1 ++ l2)) = 2%nat.
Proof.
  assert (Hc : us_objectCount (stored_usage (w_db demo_interleaved.2) "acme") = 2%Z) by (vm_compute; reflexivity).
  assert (Hd : head demo_interleaved.1 = Some (Ret tt)) by (vm_compute; reflexivity).
  split; [exact Hc|].
  destruct (metered_exactly demo_threads demo_interleaved.1 demo_world demo_interleaved.2) as (ls & Hu & Hls).
  - rewrite <- surjective_pairing. apply schedule_moved.
  - destruct (pair_charged _ _ _ _ _ _ Hls Hd) as (l1 & l2 & -> & H1). exists l1, l2. split; [exact H1|].
    rewrite Hu in Hc. assert (Hz : us_objectCount (stored_usage (w_db demo_world) "acme") = 0%Z) by reflexivity.
    cbn [us_objectCount concat] in Hc. rewrite Hz, app_nil_r in Hc. lia.
Defined.
