(* ===== verification/Concurrency.v ===== *)
(** * A worker of limited concurrency

    [IngestionProcessor.onModuleInit] sets the number of jobs that the worker runs at once.
    Here a deployment is that many slots, over all processes, each running one attempt
    after another, next to any number of other handlers.  The quota is checked in the
    pipeline and recorded after the upload, so that transfers in different slots can pass the
    check together ([Quota.quota_race]); but only one transfer for each slot: the
    overshoot is bounded by the concurrency.  The bound is on what is metered and on the
    transfers completed, those whose [transfer_body] has returned; an upload whose
    [recordUsage] then fails is neither ([unmetered_upload]). *)
From S2P Require Import Prelude JsLang Entities Database Prog World Repository Outbox Ingestion.
From S2P Require Import Quota Routing Storage Crypto Pipeline Events Processor Transfers Recovery.
From S2P Require Import Auth Http System Conduct Exclusion Metering.
#[local] Open Scope Z_scope.

(** ** Attempts and the check *)
Section guarded.
Context `{!Externals, !Gcm, !Credentials, !Validators} (fs : gmap string fs_node) (qc : QuotaConfig) (maxFile : Z).

(** The usage row is read, and what follows either does not charge or charges what the row
    admitted. *)
Definition checking {A} (X : Type) (op : eff X) (k : result X → P A) : Prop :=
  ∃ t b, 0 < b <= maxFile ∧ ∀ f w, let r := perform f op w in
    d_usage (w_db r.2) = d_usage (w_db w) ∧
    (Sparing (k r.1) ∨
     quota_error t (getQuota qc t) (usage_numbers (d_usage (w_db w) !! t)) b = None ∧ once fs (eq (t, b)) false (k r.1)).

(** A program that charges only behind a check. *)
Fixpoint guarded {A} (p : P A) : Prop :=
  match p with
  | Call op k => thrifty_op _ op ∧ (∀ r, guarded (k r)) ∨ checking _ op k
  | _ => True
  end.

Lemma sparing_guarded {A} (p : P A) : Sparing p → guarded p.
Proof. induction p as [a|e|X op k IH]; [done..|]. intros [Hop Hk]%sparing_call. left. split; [done|]. intros r. apply IH, Hk. Qed.

(** Wrapping what follows the check. *)
Lemma checking_wrap {A B} X (op : eff X) (k : result X → P A) (g : P A → P B) :
  checking X op k → (∀ p, Sparing p → Sparing (g p)) → (∀ c p, once fs (eq c) false p → once fs (eq c) false (g p)) →
  checking X op (λ r, g (k r)).
Proof.
  intros (t & b & Hb & Hc) Hs Ho. exists t, b. split; [done|]. intros f w.
  destruct (Hc f w) as [Hu [Hk|[Hq Hk]]]; (split; [done|]); [left|right]; auto.
Qed.

#[global] Instance guarded_closed : Closed (λ A, guarded).
Proof.
  split.
  - intros A p. apply sparing_guarded.
  - intros A B p f Hp Hf. induction p as [a|e|X op k IH]; [apply Hf|done|].
    apply sparing_call in Hp as [Hop Hk]. left. split; [done|]. intros r. apply IH, Hk.
  - intros A B p f Hp Hf. induction p as [a|e|X op k IH]; [by apply sparing_guarded, Hf|done|].
    destruct Hp as [[Hop Hk]|Hc]; [left; split; [done|]; intros r; by apply IH|right].
    apply (checking_wrap X op k (λ p, bind p f) Hc).
    + intros p Hp. by apply all_ops_bind.
    + intros c p Hp. by apply once_then.
  - intros A p h Hp Hh. induction p as [a|e|X op k IH]; [done|by apply sparing_guarded, Hh|].
    destruct Hp as [[Hop Hk]|Hc]; [left; split; [done|]; intros r; by apply IH|right].
    apply (checking_wrap X op k (λ p, catch_ p h) Hc).
    + intros p Hp. by apply all_ops_catch.
    + intros c p Hp. by apply once_catch.
  - intros A p fin Hp Hh. induction p as [a|e|X op k IH].
    + apply sparing_guarded, all_ops_bind; [done|]. by intros [].
    + apply sparing_guarded, all_ops_bind; [done|]. by intros [].
    + destruct Hp as [[Hop Hk]|Hc]; [left; split; [done|]; intros r; by apply IH|right].
      apply (checking_wrap X op k (λ p, finally_ p fin) Hc).
      * intros p Hp. by apply all_ops_finally.
      * intros c p Hp. by apply once_finally.
Qed.

Lemma ret_bind {A B} (a : A) (f : A → P B) : bind (Ret a) f = f a.
Proof. done. Qed.

(** The steps after the check keep the size. *)
Lemma later_steps pl ctx :
  spare_post (λ ctx', pc_sizeBytes ctx' = pc_sizeBytes ctx) (run_pipeline [AntivirusStep pl; ContentTypeStep] ctx).
Proof.
  cbn [run_pipeline]. apply (spare_post_bind (λ c, pc_sizeBytes c = pc_sizeBytes ctx)).
  - cbn [step_execute AntivirusStep]. destruct (pl_avEnabled pl); [|done]. cbn [negb].
    apply (spare_post_bind (λ _, True)); [|intros res _; by case_match].
    apply spare_post_true, tidy_sparing, conducts_reading. unfold scanFileWithClamd. repeat (ops_step || done).
  - intros c Hc. exact Hc.
Qed.

Lemma pipeline_guarded {B} pl ctx (g : ProcessingContext → P B) :
  0 < pl_maxFileSizeBytes pl <= maxFile →
  (∀ ctx', pc_sizeBytes ctx' = pc_sizeBytes ctx →
     once fs (eq (ft_tenantId (pc_transfer ctx), pc_sizeBytes ctx)) false (g ctx')) →
  guarded (bind (pipeline pl qc ctx) g).
Proof.
  intros Hmax Hg. unfold pipeline, PROCESSING_STEPS.
  change (run_pipeline [ValidationStep pl; QuotaStep qc; AntivirusStep pl; ContentTypeStep] ctx) with
    (c <- step_execute (ValidationStep pl) ctx ;; c' <- step_execute (QuotaStep qc) c ;;
     run_pipeline [AntivirusStep pl; ContentTypeStep] c').
  destruct (validation_run pl ctx [] Demo.empty_world) as [(_ & Hpos & Hle)|[m ->]]; [|exact I].
  assert (Hv : step_execute (ValidationStep pl) ctx = Ret ctx).
  { cbn [step_execute ValidationStep]. rewrite (proj2 (Z.leb_gt _ _)) by lia.
    rewrite (proj2 (Z.ltb_ge (pl_maxFileSizeBytes pl) _)) by lia. by rewrite andb_false_r. }
  rewrite Hv. right. exists (ft_tenantId (pc_transfer ctx)), (pc_sizeBytes ctx). split; [lia|]. intros f w.
  split; [by apply thrifty_perform|].
  destruct (perform f (Db (find_usage (ft_tenantId (pc_transfer ctx)))) w).1 as [row|e] eqn:Hrow; [|left; exact I].
  assert (Hr : row = d_usage (w_db w) !! ft_tenantId (pc_transfer ctx)).
  { revert Hrow. unfold perform. destruct f; simpl; intros; by simplify_eq. }
  subst row. cbn [fst of_result]. rewrite !ret_bind. cbn beta.
  destruct (quota_error _ _ _ _); [left; exact I|right]. split; [done|].
  eapply once_bind; [apply later_steps|]. exact Hg.
Qed.

Lemma body_guarded ps t :
  ps_quota ps = qc → 0 < pl_maxFileSizeBytes (ps_pipeline ps) <= maxFile → guarded (transfer_body ps t).
Proof.
  intros Hq Hmax. rewrite transfer_body_split.
  apply (cl_seq (Q := λ A, guarded)); [apply tidy_sparing; unfold Conducts; conduct_ops|].
  intros [[[] size]|]; [|exact I..]. rewrite Hq. apply pipeline_guarded; [done|]. intros ctx Hsize.
  apply stored_once. by rewrite Hsize.
Qed.

Lemma attempt_guarded ps job :
  ps_quota ps = qc → 0 < pl_maxFileSizeBytes (ps_pipeline ps) <= maxFile → guarded (ignore (attempt ps job)).
Proof. intros Hq Hmax. apply (attempt_closed (λ A, guarded)); [apply _|]. intros t. by apply body_guarded. Qed.
End guarded.

(** ** Deployments

    A slot runs an attempt, or the body of one for a transfer [sl_for]: what [runTransfer] runs
    once it has claimed the row, here so that its completion can be counted. *)
Record slot := mkSlot { sl_for : option FileTransfer; sl_code : P unit }.

Definition idle : slot := mkSlot None (Ret tt).

(** Slots of the worker, other handlers, the world, and the transfers completed. *)
Record deployment := mkDeployment {
  dp_slots : list slot;
  dp_others : list (P unit);
  dp_world : world;
  dp_done : list FileTransfer;
}.

Section deployments.
Context `{!Externals, !Gcm, !Credentials, !Validators} (qc : QuotaConfig) (maxFile : Z).

(** The configuration of the worker: its quotas, and a file size limit. *)
Definition configured (ps : ProcessorConfig) : Prop :=
  ps_quota ps = qc ∧ 0 < pl_maxFileSizeBytes (ps_pipeline ps) <= maxFile.

Inductive serve : deployment → deployment → Prop :=
  | slot_runs slots others w l i o X (op : eff X) k f :     (** an operation of a job *)
      slots !! i = Some (mkSlot o (Call op k)) →
      serve (mkDeployment slots others w l)
            (mkDeployment (<[i := mkSlot o (k (perform f op w).1)]> slots) others (perform f op w).2 l)
  | slot_dies slots others w l i :                          (** its process is killed, or it failed *)
      serve (mkDeployment slots others w l) (mkDeployment (<[i := idle]> slots) others w l)
  | slot_completes slots others w l i t :                   (** the body has returned *)
      slots !! i = Some (mkSlot (Some t) (Ret tt)) →
      serve (mkDeployment slots others w l) (mkDeployment (<[i := idle]> slots) others w (t :: l))
  | slot_takes slots others w l i p ps job :                (** the next job, when the last is over *)
      slots !! i = Some (mkSlot None p) → finished p → configured ps →
      serve (mkDeployment slots others w l)
            (mkDeployment (<[i := mkSlot None (ignore (attempt ps job))]> slots) others w l)
  | slot_moves slots others w l i p ps t :
      slots !! i = Some (mkSlot None p) → finished p → configured ps →
      serve (mkDeployment slots others w l)
            (mkDeployment (<[i := mkSlot (Some t) (transfer_body ps t)]> slots) others w l)
  | other_runs slots others w l i X (op : eff X) k f :
      others !! i = Some (Call op k) →
      serve (mkDeployment slots others w l)
            (mkDeployment slots (<[i := k (perform f op w).1]> others) (perform f op w).2 l)
  | other_dies slots others w l i :
      serve (mkDeployment slots others w l) (mkDeployment slots (delete i others) w l)
  | other_starts slots others w l t :
      is_worker t = false → serve (mkDeployment slots others w l) (mkDeployment slots (program t :: others) w l).

(** Nothing else charges, and the files stay. *)
Definition sound (fs : gmap string fs_node) (c : deployment) : Prop :=
  Forall Sparing (dp_others c) ∧ w_fs (dp_world c) = fs.

Lemma serve_sound fs c c' : serve c c' → sound fs c → sound fs c'.
Proof.
  unfold sound. intros [] [Hoth Hfs]; simpl in *; try done.
  - by rewrite perform_fs.
  - rewrite perform_fs. split; [|done]. apply Forall_insert; [done|].
    assert (Hop : Sparing (Call op k)) by (by eapply (Forall_lookup_1 _ _ _ _ Hoth)). apply Hop.
  - split; [by apply Forall_delete|done].
  - split; [constructor; [by apply program_sparing|done]|done].
Qed.

(** ** What is completed is metered *)
Section completed.
Context (fs : gmap string fs_node) (tenant : string).

(** The files of a tenant among the transfers completed. *)
Definition completed_sizes (l : list FileTransfer) : list Z :=
  omap (λ t, if decide (ft_tenantId t = tenant) then file_size fs (ft_sourcePath t) else None) l.

(** The charges of a slot: exactly the size of the file, for a body that returned. *)
Definition slot_account (s : slot) (l : list (string * Z)) : Prop :=
  match sl_for s with
  | Some t => owing fs (λ c, c.1 = ft_tenantId t ∧ file_size fs (ft_sourcePath t) = Some c.2 ∧ 0 < c.2) true (sl_code s) l
  | None => owing fs (λ c, 0 < c.2) false (sl_code s) l
  end.

(** The charges of the bodies not yet counted. *)
Definition due (s : slot) (l : list (string * Z)) : list Z :=
  match sl_for s with Some _ => charges_to tenant l | None => [] end.

(** In number and in bytes, [u0] and what is completed and what is due do not exceed the row. *)
Definition covers (u0 : TenantUsage) (w : world) (l : list Z) : Prop :=
  let u := stored_usage (w_db w) tenant in
  us_objectCount u0 + Z.of_nat (length l) <= us_objectCount u ∧ us_bytesStored u0 + total l <= us_bytesStored u.

Definition accounted (u0 : TenantUsage) (c : deployment) : Prop :=
  ∃ ls, Forall2 slot_account (dp_slots c) ls ∧
    covers u0 (dp_world c) (completed_sizes (dp_done c) ++ concat (zip_with due (dp_slots c) ls)).
Lemma covers_drop u0 w a z b : Forall (λ x, 0 <= x) z → covers u0 w (a ++ z ++ b) → covers u0 w (a ++ b).
Proof.
  unfold covers. rewrite !length_app, !total_app. intros Hz [Hn Hb].
  assert (0 <= total z) by (clear -Hz; induction Hz; simpl; lia). split; lia.
Qed.

#[local] Instance covers_proper u0 w : Proper ((≡ₚ) ==> iff) (covers u0 w).
Proof. intros l1 l2 Hl. unfold covers. by rewrite Hl. Qed.

Lemma slot_account_nonneg s l : slot_account s l → Forall (λ c, 0 <= c.2) l.
Proof.
  unfold slot_account. destruct (sl_for s); intros [[-> _]|(c & -> & Hc & _)]; repeat constructor; [lia|]. simpl in *. lia.
Qed.

Lemma charges_nonneg l : Forall (λ c, 0 <= c.2) l → Forall (λ x, 0 <= x) (charges_to tenant l).
Proof. induction 1 as [|c l Hc _ IH]; simpl; [constructor|]. case_decide; [by constructor|done]. Qed.

Lemma due_nonneg s l : slot_account s l → Forall (λ x, 0 <= x) (due s l).
Proof. intros Hs%slot_account_nonneg. unfold due. destruct (sl_for s); [by apply charges_nonneg|constructor]. Qed.

(** One slot of the zipped lists. *)
Lemma due_replace slots ls i s l s' l' :
  Forall2 slot_account slots ls → slots !! i = Some s → ls !! i = Some l → due s' l' = [] →
  concat (zip_with due slots ls) ≡ₚ due s l ++ concat (zip_with due (<[i := s']> slots) (<[i := l']> ls)).
Proof.
  intros Hls. revert i. induction Hls as [|s0 l0 slots ls _ _ IH]; intros [|i]; try done; simpl.
  - intros [= ->] [= ->] ->. done.
  - intros Hs Hl He. rewrite (IH i Hs Hl He), !app_assoc. by rewrite (Permutation_app_comm (due s0 l0)).
Qed.

(** A slot is emptied, or given a new program, with [z] counted. *)
Lemma accounted_reset u0 slots ls others w done done' i s l s' :
  Forall2 slot_account slots ls → slots !! i = Some s → ls !! i = Some l → slot_account s' [] →
  completed_sizes done' ≡ₚ completed_sizes done ++ due s l ∨ done' = done →
  covers u0 w (completed_sizes done ++ concat (zip_with due slots ls)) →
  accounted u0 (mkDeployment (<[i := s']> slots) others w done').
Proof.
  intros Hls Hs Hl Hs' Hd Hc. exists (<[i := []]> ls). simpl. split; [by apply Forall2_insert|].
  rewrite (due_replace _ _ _ _ _ s' [] Hls Hs Hl) in Hc by (by unfold due; destruct (sl_for s')).
  destruct Hd as [Hd| ->]; [by rewrite Hd, <- app_assoc|].
  eapply covers_drop; [|exact Hc]. eapply due_nonneg. by eapply Forall2_lookup_lr.
Qed.

Lemma idle_account : slot_account idle [].
Proof. left. by split. Qed.

(** A body that returned has charged the size of its file. *)
Lemma completed_due t l done :
  slot_account (mkSlot (Some t) (Ret tt)) l →
  completed_sizes (t :: done) ≡ₚ completed_sizes done ++ due (mkSlot (Some t) (Ret tt)) l.
Proof.
  intros [[_ Ho]|([t' b] & -> & (Ht & Hb & _) & _)]; [done|]. simpl in Ht, Hb. subst t'.
  unfold completed_sizes, due. simpl. case_decide; [|by rewrite app_nil_r]. rewrite Hb. by rewrite Permutation_cons_append.
Qed.

Lemma accounted_run u0 slots ls others w done i o X (op : eff X) k f l :
  w_fs w = fs → Forall2 slot_account slots ls → slots !! i = Some (mkSlot o (Call op k)) → ls !! i = Some l →
  covers u0 w (completed_sizes done ++ concat (zip_with due slots ls)) →
  accounted u0 (mkDeployment (<[i := mkSlot o (k (perform f op w).1)]> slots) others (perform f op w).2 done).
Proof.
  intros Hfs Hls Hs Hl Hc. set (s' := mkSlot o (k (perform f op w).1)).
  assert (Hacc : slot_account (mkSlot o (Call op k)) l) by (by eapply Forall2_lookup_lr).
  assert (Hst : ∃ l', slot_account s' (l ++ l') ∧ d_usage (w_db (perform f op w).2) = foldl charge (d_usage (w_db w)) l').
  { unfold slot_account in *. simpl in *. destruct o; by eapply owing_step. }
  destruct Hst as (l' & Hacc' & Hu). exists (<[i := l ++ l']> ls). simpl. split; [by apply Forall2_insert|].
  assert (Hz : zip_with due slots ls !! i = Some (due s' l)) by (by rewrite lookup_zip_with, Hs, Hl).
  assert (Hd : due s' (l ++ l') = due s' l ++ due s' l').
  { unfold due. destruct (sl_for s'); [|done]. unfold charges_to. by rewrite omap_app. }
  rewrite <- (insert_zip_with due slots ls i s' (l ++ l')), Hd, (concat_extend _ _ _ _ Hz), app_assoc.
  assert (Hn : Forall (λ x, 0 <= x) (charges_to tenant l')).
  { apply charges_nonneg. apply slot_account_nonneg in Hacc'. by apply Forall_app in Hacc' as [_ ?]. }
  assert (Htot : 0 <= total (charges_to tenant l')) by (clear -Hn; induction Hn; simpl; lia).
  revert Hc. unfold covers, stored_usage. rewrite Hu.
  pose proof (charges_usage l' (d_usage (w_db w)) tenant) as Hcu. unfold usage_of in Hcu. rewrite Hcu.
  rewrite (length_app _ (due s' l')), (total_app _ (due s' l')). cbn [us_objectCount us_bytesStored].
  assert (Hdl : due s' l' = charges_to tenant l' ∨ due s' l' = []) by (unfold due; destruct (sl_for s'); auto).
  destruct Hdl as [-> | ->]; simpl; lia.
Qed.

Lemma serve_accounted u0 c c' : serve c c' → sound fs c → accounted u0 c → accounted u0 c'.
Proof.
  intros Hs [Hoth Hfs] (ls & Hls & Hc). destruct Hs as [slots others w l i o X op k f Hi|slots others w l i|
    slots others w l i t Hi|slots others w l i p ps job Hi _ Hps|slots others w l i p ps t Hi _ Hps|
    slots others w l i X op k f Hi|slots others w l i|slots others w l t Ht]; simpl in *;
    try (destruct (Forall2_lookup_l _ _ _ _ _ Hls Hi) as (cs & Hcs & Hacc)).
  - by eapply accounted_run.
  - destruct (slots !! i) as [s|] eqn:Hi.
    + destruct (Forall2_lookup_l _ _ _ _ _ Hls Hi) as (cs & Hcs & _).
      eapply accounted_reset; [done..|apply idle_account|by right|done].
    + rewrite list_insert_ge by (by apply lookup_ge_None). by exists ls.
  - eapply accounted_reset; [done..|apply idle_account|left; by apply completed_due|done].
  - eapply accounted_reset; [done..| |by right|done]. left. split; [done|]. apply attempt_once. by intros t b [Hb _].
  - eapply accounted_reset; [done..| |by right|done]. left. split; [done|].
    apply body_once. intros size Hsize [Hb _]. done.
  - exists ls. split; [done|]. assert (Hop : Sparing (Call op k)) by (by eapply (Forall_lookup_1 _ _ _ _ Hoth)).
    revert Hc. unfold covers, stored_usage. simpl. by rewrite (thrifty_perform op f w) by apply Hop.
  - by exists ls.
  - by exists ls.
Qed.
End completed.

(** ** What is admitted stays within the bound *)

(** Where a slot is: before the check, admitted with a charge to make, or past it. *)
Inductive phase := Unchecked | Cleared (c : string * Z) | Settled.

Context (fs : gmap string fs_node).

Definition phase_ok (s : slot) (ph : phase) : Prop :=
  match ph with
  | Unchecked => guarded fs qc maxFile (sl_code s)
  | Cleared c => once fs (eq c) false (sl_code s) ∧ 0 < c.2 <= maxFile
  | Settled => Sparing (sl_code s)
  end.

(** *** What the admitted charges add to a measure of a tenant's usage *)
Context (tenant : string) (measure : TenantUsage → Z) (weight : Z → Z) (limit most : Z) (slots_no : nat).
Context (weight_bounds : ∀ b, 0 < b <= maxFile → 0 <= weight b <= most).
Context (measure_charge : ∀ u b,
  measure (mkUsage (us_objectCount u + 1) (us_bytesStored u + b)) = measure u + weight b).

Definition load_of (ph : phase) : Z :=
  match ph with Cleared c => if decide (c.1 = tenant) then weight c.2 else 0 | _ => 0 end.
Definition outstanding (phs : list phase) : Z := foldr (λ ph s, load_of ph + s) 0 phs.

Definition bound : Z := limit + (Z.of_nat slots_no - 1) * most.

Context (check : ∀ u b, 0 < b <= maxFile → 0 <= measure (usage_of u tenant) <= bound →
  quota_error tenant (getQuota qc tenant) (usage_numbers (u !! tenant)) b = None →
  measure (usage_of u tenant) + weight b <= limit).

Lemma load_bounds p ph : phase_ok p ph → 0 <= most → 0 <= load_of ph <= most.
Proof.
  intros Hp Hz. destruct ph as [|c|]; simpl; [lia| |lia]. destruct Hp as [_ Hc]. case_decide; [by apply weight_bounds|lia].
Qed.

Lemma outstanding_insert phs i ph ph' :
  phs !! i = Some ph → outstanding (<[i := ph']> phs) = outstanding phs - load_of ph + load_of ph'.
Proof.
  revert i. induction phs as [|x phs IH]; intros [|i]; try done; simpl.
  - intros [= ->]. lia.
  - intros Hi. rewrite (IH i Hi). lia.
Qed.

Lemma outstanding_bounds slots phs :
  0 <= most → Forall2 phase_ok slots phs → 0 <= outstanding phs <= Z.of_nat (length slots) * most.
Proof.
  intros Hz. induction 1 as [|p ph slots phs Hp _ IH]; simpl; [lia|].
  pose proof (load_bounds p ph Hp Hz). lia.
Qed.

(** A slot that is not admitted leaves room for the others only. *)
Lemma outstanding_others slots phs i ph :
  0 <= most → Forall2 phase_ok slots phs → phs !! i = Some ph → load_of ph = 0 →
  outstanding phs <= (Z.of_nat (length slots) - 1) * most.
Proof.
  intros Hz Hok. revert i. induction Hok as [|p x slots phs Hp Hok IH]; intros [|i]; try done; simpl.
  - intros [= ->] Hl. pose proof (outstanding_bounds _ _ Hz Hok). lia.
  - intros Hi Hl. specialize (IH i Hi Hl). pose proof (load_bounds p x Hp Hz). lia.
Qed.

Definition value (w : world) : Z := measure (usage_of (d_usage (w_db w)) tenant).

(** The invariant: what is stored and what is admitted stay within the bound. *)
Definition within_bound (c : deployment) : Prop :=
  length (dp_slots c) = slots_no ∧ 0 <= value (dp_world c) ∧
  ∃ phs, Forall2 phase_ok (dp_slots c) phs ∧ value (dp_world c) + outstanding phs <= bound.

Lemma charge_value u c :
  measure (usage_of (charge u c) tenant) =
  measure (usage_of u tenant) + (if decide (c.1 = tenant) then weight c.2 else 0).
Proof.
  unfold usage_of, charge. case_decide as Hc.
  - rewrite Hc, lookup_insert_eq. simpl. by rewrite measure_charge.
  - rewrite lookup_insert_ne by done. lia.
Qed.

(** One operation of a slot: where it is next, and that the sum does not pass the bound. *)
Lemma phase_step slots phs i o X (op : eff X) kk f w ph :
  w_fs w = fs → 0 <= most → length slots = slots_no → Forall2 phase_ok slots phs → phs !! i = Some ph →
  phase_ok (mkSlot o (Call op kk)) ph → 0 <= value w → value w + outstanding phs <= bound →
  ∃ ph', phase_ok (mkSlot o (kk (perform f op w).1)) ph' ∧ 0 <= value (perform f op w).2 ∧
    value (perform f op w).2 + outstanding (<[i := ph']> phs) <= bound.
Proof.
  intros Hfs Hz Hk Hok Hi Hp Hv Hsum.
  pose proof (outstanding_bounds _ _ Hz Hok) as Hout.
  assert (Hins : ∀ ph', outstanding (<[i := ph']> phs) = outstanding phs - load_of ph + load_of ph')
    by (intros ph'; by apply outstanding_insert).
  assert (Hsame : ∀ w', d_usage (w_db w') = d_usage (w_db w) → value w' = value w) by (intros w' Hw; unfold value; by rewrite Hw).
  destruct ph as [|c|].
  - destruct Hp as [[Hop Hkk]|(t & b & Hb & Hc)].
    + exists Unchecked. rewrite Hins, (Hsame _ (thrifty_perform op f w Hop)). simpl. split_and!; [apply Hkk|lia..].
    + destruct (Hc f w) as [Hu [Hs|[Hq Ho]]].
      * exists Settled. rewrite Hins, (Hsame _ Hu). simpl. split_and!; [exact Hs|lia..].
      * exists (Cleared (t, b)). rewrite Hins, (Hsame _ Hu). simpl. split; [by split|]. split; [done|].
        case_decide as Ht; [|lia]. subst t.
        pose proof (outstanding_others slots phs i Unchecked Hz Hok Hi eq_refl) as Hothers.
        assert (Hle : value w + weight b <= limit) by (eapply check; [done|unfold value in *; lia|done]).
        unfold bound. rewrite <- Hk. lia.
  - destruct Hp as [[[Hop Hkk]|((c' & <- & Hch) & Hkk & _)] Hc].
    + exists (Cleared c). rewrite Hins, (Hsame _ (thrifty_perform op f w Hop)).
      split; [split; [apply Hkk; by exists f, w|done]|]. split; [done|lia].
    + exists Settled. rewrite Hins. cbn [load_of] in *. pose proof (weight_bounds _ Hc) as Hw.
      assert (Hu : d_usage (w_db (perform f op w).2) = d_usage (w_db w) ∨
        d_usage (w_db (perform f op w).2) = charge (d_usage (w_db w)) c)
        by (specialize (Hch f w); cbn zeta in Hch; destruct (perform f op w).1; auto).
      destruct Hu as [Hu|Hu].
      * rewrite (Hsame _ Hu). split_and!; [apply Hkk|done|]. case_decide; lia.
      * unfold value. rewrite Hu, charge_value. fold (value w). split_and!; [apply Hkk|case_decide; lia|lia].
  - apply sparing_call in Hp as [Hop Hkk]. exists Settled. rewrite Hins, (Hsame _ (thrifty_perform op f w Hop)).
    split_and!; [apply Hkk|done|lia].
Qed.

(** A slot that is given a new program. *)
Lemma phase_reset slots phs i p ph' w :
  0 <= most → length slots = slots_no → Forall2 phase_ok slots phs → slots !! i = Some p → load_of ph' = 0 →
  value w + outstanding phs <= bound → value w + outstanding (<[i := ph']> phs) <= bound.
Proof.
  intros Hz Hk Hok Hi Hl Hsum. destruct (Forall2_lookup_l _ _ _ _ _ Hok Hi) as (ph & Hph & Hp).
  rewrite (outstanding_insert _ _ _ _ Hph), Hl. pose proof (load_bounds p ph Hp Hz). lia.
Qed.

Lemma serve_within c c' : 0 <= most → serve c c' → sound fs c → within_bound c → within_bound c'.
Proof.
  intros Hz Hs [Hoth Hfs] (Hk & Hv & phs & Hok & Hsum). unfold within_bound.
  destruct Hs as [slots others w l i o X op k f Hi|slots others w l i|
    slots others w l i t Hi|slots others w l i p ps job Hi _ Hps|slots others w l i p ps t Hi _ Hps|
    slots others w l i X op k f Hi|slots others w l i|slots others w l t Ht]; simpl in *;
    rewrite ?length_insert.
  - destruct (Forall2_lookup_l _ _ _ _ _ Hok Hi) as (ph & Hph & Hp).
    destruct (phase_step slots phs i o X op k f w ph Hfs Hz Hk Hok Hph Hp Hv Hsum) as (ph' & Hp' & Hv' & Hsum').
    split_and!; [done..|]. exists (<[i := ph']> phs). split; [by apply Forall2_insert|done].
  - split_and!; [done..|]. exists (<[i := Settled]> phs). split; [by apply Forall2_insert|].
    destruct (slots !! i) as [p|] eqn:Hi; [by eapply phase_reset|].
    rewrite list_insert_ge; [done|]. rewrite <- (Forall2_length _ _ _ Hok). by apply lookup_ge_None.
  - split_and!; [done..|]. exists (<[i := Settled]> phs). split; [by apply Forall2_insert|by eapply phase_reset].
  - split_and!; [done..|]. exists (<[i := Unchecked]> phs).
    split; [apply Forall2_insert; [done|]; by apply attempt_guarded; destruct Hps|by eapply phase_reset].
  - split_and!; [done..|]. exists (<[i := Unchecked]> phs).
    split; [apply Forall2_insert; [done|]; by apply body_guarded; destruct Hps|by eapply phase_reset].
  - assert (Hop : Sparing (Call op k)) by (by eapply (Forall_lookup_1 _ _ _ _ Hoth)).
    unfold value in *. rewrite (thrifty_perform op f w) by apply Hop. eauto.
  - eauto.
  - eauto.
Qed.

(** Whatever is served, the measure never passes the bound, and what is completed is metered. *)
Lemma served c c' :
  0 <= most → rtc serve c c' → sound fs c → within_bound c → accounted fs tenant (stored_usage (w_db (dp_world c)) tenant) c →
  value (dp_world c') <= bound ∧
  covers tenant (stored_usage (w_db (dp_world c)) tenant) (dp_world c') (completed_sizes fs tenant (dp_done c')).
Proof.
  intros Hz Hs. set (u0 := stored_usage _ tenant). clearbody u0.
  induction Hs as [c|c1 c2 c3 Hstep _ IH]; intros Hso Hw Ha.
  - destruct Hw as (Hk & _ & phs & Hok & Hsum). pose proof (outstanding_bounds _ _ Hz Hok). split; [lia|].
    destruct Ha as (ls & Hls & Hc). rewrite <- (app_nil_r (completed_sizes _ _ _)).
    eapply (covers_drop tenant u0 _ _ (concat (zip_with (due tenant) (dp_slots c) ls))); [|by rewrite app_nil_r].
    clear -Hls. induction Hls as [|s l slots ls Hsl _ IH]; simpl; [constructor|].
    apply Forall_app_2; [by eapply due_nonneg|done].
  - apply IH; [by eapply serve_sound|by eapply serve_within|by eapply serve_accounted].
Qed.

(** At the start the slots are idle and nothing is completed. *)
Lemma idle_start others w :
  0 <= most → (0 < slots_no)%nat → Forall Sparing others → w_fs w = fs → 0 <= value w <= limit →
  let c := mkDeployment (replicate slots_no idle) others w [] in
  sound fs c ∧ within_bound c ∧ accounted fs tenant (stored_usage (w_db w) tenant) c.
Proof.
  intros Hz Hpos Hoth Hfs Hv c. split_and!; [done| |].
  - split_and!; simpl; [by rewrite length_replicate|lia|]. exists (replicate slots_no Settled). split.
    + by apply Forall2_replicate.
    + assert (Hout : outstanding (replicate slots_no Settled) = 0).
      { clear. induction slots_no as [|n IH]; [done|]. simpl. by rewrite IH. }
      rewrite Hout. unfold bound. assert (0 <= (Z.of_nat slots_no - 1) * most) by nia. lia.
  - exists (replicate slots_no []). simpl. split; [apply Forall2_replicate, idle_account|].
    replace (concat _) with ([] : list Z); [unfold covers; simpl; lia|].
    clear. by induction slots_no as [|n IH].
Qed.
End deployments.

(** ** The check, in whole numbers *)
Lemma bytes_checked q t row b :
  quota_error t q (usage_numbers row) b = None → 0 < q_maxBytes q →
  0 <= us_bytesStored (default (mkUsage 0 0) row) < 2 ^ 52 → 0 <= b < 2 ^ 52 →
  us_bytesStored (default (mkUsage 0 0) row) + b <= q_maxBytes q.
Proof.
  intros Hq Hpos Hu Hb. assert (Hn : u_bytesStored (usage_numbers row) = us_bytesStored (default (mkUsage 0 0) row)).
  { destruct row as [u|]; simpl in *; [by rewrite to_double_small by lia|done]. }
  unfold quota_error in Hq. rewrite Hn, (to_double_small (_ + b)) in Hq by lia.
  rewrite (proj2 (Z.ltb_lt 0 _) Hpos) in Hq. simpl in Hq.
  destruct (Z.ltb_spec (q_maxBytes q) (us_bytesStored (default (mkUsage 0 0) row) + b)); [done|lia].
Qed.

Lemma objects_checked q t row b :
  quota_error t q (usage_numbers row) b = None → 0 < q_maxObjects q →
  0 <= us_objectCount (default (mkUsage 0 0) row) < 2 ^ 52 →
  us_objectCount (default (mkUsage 0 0) row) + 1 <= q_maxObjects q.
Proof.
  intros Hq Hpos Hu. assert (Hn : u_objectCount (usage_numbers row) = us_objectCount (default (mkUsage 0 0) row)).
  { destruct row as [u|]; simpl in *; [by rewrite to_double_small by lia|done]. }
  unfold quota_error in Hq. case_match; [done|]. rewrite Hn, (to_double_small (_ + 1)) in Hq by lia.
  rewrite (proj2 (Z.ltb_lt 0 _) Hpos) in Hq. simpl in Hq.
  destruct (Z.ltb_spec (q_maxObjects q) (us_objectCount (default (mkUsage 0 0) row) + 1)); [done|lia].
Qed.

(** C26: Concurrency bounds the overshoot of a quota.  Let the worker's slots, [k] over
    all processes, take any jobs one after another, next to any other handlers, everything
    interleaved, failing and dying in any way.  What a tenant has metered at the start, and
    the transfers completed since, in number and in the bytes of their source files, are
    metered.  And when the tenant starts within its limits, the metered bytes never exceed
    the byte limit and one file of the largest size for each slot but one, nor the metered
    objects their limit and one for each slot but one.  With one slot the limits are exact. *)
Theorem quota_overshoot_bounded `{!Externals, !Gcm, !Credentials, !Validators} qc maxFile k tenant others w c :
  let q := getQuota qc tenant in
  let u := stored_usage (w_db w) tenant in
  let u' := stored_usage (w_db (dp_world c)) tenant in
  let sizes := completed_sizes (w_fs w) tenant (dp_done c) in
  (0 < k)%nat → Forall Sparing others → 0 < maxFile < 2 ^ 52 →
  rtc (serve qc maxFile) (mkDeployment (replicate k idle) others w []) c →
  (0 < q_maxBytes q → q_maxBytes q + (Z.of_nat k - 1) * maxFile < 2 ^ 52 → 0 <= us_bytesStored u <= q_maxBytes q →
   us_bytesStored u + total sizes <= us_bytesStored u' <= q_maxBytes q + (Z.of_nat k - 1) * maxFile) ∧
  (0 < q_maxObjects q → q_maxObjects q + (Z.of_nat k - 1) < 2 ^ 52 → 0 <= us_objectCount u <= q_maxObjects q →
   us_objectCount u + Z.of_nat (length sizes) <= us_objectCount u' <= q_maxObjects q + (Z.of_nat k - 1)).
Proof.
  intros q u u' sizes Hk Hoth Hmax Hs. split.
  - intros Hpos Hroom Hu.
    destruct (idle_start qc maxFile (w_fs w) tenant us_bytesStored id (q_maxBytes q) maxFile k others w) as (Hso & Hw & Ha);
      try done; try lia.
    apply (served qc maxFile (w_fs w) tenant us_bytesStored id (q_maxBytes q) maxFile k) in Hs as [Hb [_ Hc]];
      try done; try lia; [unfold id; lia|].
    intros u0 b Hb Hle Hq. unfold bound, usage_of in *. apply (bytes_checked q tenant (u0 !! tenant) b); try done; lia.
  - intros Hpos Hroom Hu. rewrite <- (Z.mul_1_r (Z.of_nat k - 1)).
    destruct (idle_start qc maxFile (w_fs w) tenant us_objectCount (λ _, 1) (q_maxObjects q) 1 k others w) as (Hso & Hw & Ha);
      try done; try lia.
    apply (served qc maxFile (w_fs w) tenant us_objectCount (λ _, 1) (q_maxObjects q) 1 k) in Hs as [Hb [Hc _]];
      try done; try lia.
    intros u0 b Hb Hle Hq. unfold bound, usage_of in *. apply (objects_checked q tenant (u0 !! tenant) b); try done; lia.
Qed.

(** ** Witness *)

(** The slots move in turn, their operations succeed, and a body that returned is counted. *)
Fixpoint slot_schedule `{!Externals} (l : list nat) (c : deployment) : deployment :=
  match l with
  | [] => c
  | i :: l' =>
      let '(mkDeployment slots others w ts) := c in
      match slots !! i with
      | Some (mkSlot o (Call op k)) =>
          slot_schedule l' (mkDeployment (<[i := mkSlot o (k (perform NoFault op w).1)]> slots) others
                              (perform NoFault op w).2 ts)
      | Some (mkSlot (Some t) (Ret tt)) => slot_schedule l' (mkDeployment (<[i := idle]> slots) others w (t :: ts))
      | _ => slot_schedule l' c
      end
  end.

Lemma slot_schedule_serves `{!Externals, !Gcm, !Credentials, !Validators} qc maxFile l c :
  rtc (serve qc maxFile) c (slot_schedule l c).
Proof.
  revert c. induction l as [|i l IH]; intros [slots others w ts]; [done|]. simpl.
  destruct (slots !! i) as [[[t|] [[]|e|X op k]]|] eqn:Hi; try apply IH; (eapply rtc_l; [|apply IH]);
    [by apply (slot_completes qc maxFile slots others w ts i t)|by apply (slot_runs _ _ _ _ _ _ i _ X op k NoFault)..].
Qed.

Import Demo DemoCipher DemoCredentials.
#[local] Existing Instance demo_validators.

(** Files of at most two bytes, three bytes for the tenant, two slots: two jobs of two
    bytes pass the check together. *)
Definition tight_quota : QuotaConfig := mkQuotaConfig 0 0 {["acme" := mkTenantQuota (Some 3) None]}.
Definition tight_config : ProcessorConfig :=
  mkProcessorConfig (ps_storage demo_config) (mkPipelineConfig 2 false "" 0) tight_quota
    (ps_routing demo_config) (ps_crypto demo_config) false.
Definition tight_body : slot := mkSlot (Some demo_row) (transfer_body tight_config demo_row).
Definition both_done : deployment :=
  slot_schedule (concat (replicate 40 [0; 1]%nat)) (mkDeployment [tight_body; tight_body] [] demo_world []).

Lemma two_jobs_served : rtc (serve tight_quota 2) (mkDeployment (replicate 2 idle) [] demo_world []) both_done.
Proof.
  assert (Hps : configured tight_quota 2 tight_config) by (split; [reflexivity|cbn; lia]).
  eapply rtc_l; [exact (slot_moves tight_quota 2 [idle; idle] [] demo_world [] 0 (Ret tt) tight_config demo_row eq_refl I Hps)|].
  eapply rtc_l; [exact (slot_moves tight_quota 2 [tight_body; idle] [] demo_world [] 1 (Ret tt) tight_config demo_row eq_refl I Hps)|].
  apply slot_schedule_serves.
Qed.

Lemma quota_overshoot_bounded_witness :
  total (completed_sizes (w_fs demo_world) "acme" (dp_done both_done)) = 4 ∧
  total (completed_sizes (w_fs demo_world) "acme" (dp_done both_done)) <= 3 + (2 - 1) * 2.
Proof.
  split; [vm_compute; reflexivity|].
  destruct (quota_overshoot_bounded tight_quota 2 2 "acme" [] demo_world both_done) as [Hb _].
  - lia.
  - constructor.
  - lia.
  - exact two_jobs_served.
  - assert (Hz : us_bytesStored (stored_usage (w_db demo_world) "acme") = 0) by reflexivity.
    assert (Hq : q_maxBytes (getQuota tight_quota "acme") = 3) by reflexivity.
    rewrite Hz, Hq in Hb. destruct Hb; lia.
Defined.

(** An upload whose [recordUsage] fails, here the statement after [markSuccess]: the object is
    in the bucket and the row SUCCESS, nothing is metered, and the job's next attempt finds
    SUCCESS and does nothing. *)
Definition usage_fails : list fault := replicate 8 NoFault ++ [FailBefore (Infra_error "Error" "connection lost" None None)].

Lemma unmetered_upload :
  let w1 := final usage_fails (process demo_config demo_job) demo_world in
  let w2 := final [] (process demo_config demo_job) w1 in
  (ft_status <$> d_transfers (w_db w1) !! "t1") = Some TransferStatus.SUCCESS ∧ d_usage (w_db w1) = ∅ ∧
  outcome [] (process demo_config demo_job) w1 = Ok tt ∧ d_usage (w_db w2) = ∅.
Proof. vm_compute. by split_and!. Qed.
