(* ===== verification/Schedule.v ===== *)
(** * Timers ([@Interval] and [@Cron] of [outbox/outbox.service.ts],
    [ingestion/recovery.service.ts], [ingestion/retention.service.ts])

    The relay, the sweep and the purge are started by timers.  A timer fires whether or
    not the last pass is over; a pass takes time, in which the other tasks of the process
    go on, and can fail anywhere.  Here a pass is run beside them ([beside]): between any
    two of its operations other tasks run theirs and the clock moves on ([elsewhere]).

    [relay_meets_deadline] bounds how long an event waits.  The relay takes the oldest
    events first and new ones are stamped with the present, so that an event waits for those
    that were there before it and for no others, however many uploads follow. *)
From S2P Require Import Prelude JsLang Entities Database Prog World Repository Outbox Ingestion.
From S2P Require Import Quota Routing Storage Crypto Pipeline Events Processor Transfers Delivery Recovery.
From S2P Require Import Auth Http System Conduct Exclusion.

(** ** The timers *)
Inductive trigger :=
  | Interval (name : string) (ms : Z)
  | EveryDayAtMidnight.   (** [CronExpression.EVERY_DAY_AT_MIDNIGHT] *)

Record timer := mkTimer { tm_trigger : trigger; tm_task : task }.

Definition relay_timer : timer := mkTimer (Interval "outbox-relay" 1000) T_relay.
Definition sweep_timer (rv : RecoveryConfig) : timer := mkTimer (Interval "stuck-transfer-recovery" 60000) (T_sweep rv).
Definition purge_timer (retentionDays : Z) : timer := mkTimer EveryDayAtMidnight (T_purge retentionDays).

Definition timers (rv : RecoveryConfig) (retentionDays : Z) : list timer :=
  [relay_timer; sweep_timer rv; purge_timer retentionDays].

Definition period (t : timer) : Z :=
  match tm_trigger t with Interval _ ms => ms | EveryDayAtMidnight => MS_PER_DAY end.

(** ** Runs beside other activities *)
Section beside.
Context {E : Type → Type} {W : Type} `{!Handler E W} (R : W → W → Prop).

(** The run of a program with its faults, where the world changes by [R] before each of
    its operations and at its end. *)
Inductive beside {A} : list fault → prog E A → W → result A → W → Prop :=
  | beside_ret fs a w w' : R w w' → beside fs (Ret a) w (Ok a) w'
  | beside_throw fs e w w' : R w w' → beside fs (Throw e) w (Err e) w'
  | beside_call fs X (op : E X) k w w0 r w' :
      R w w0 →
      beside (if fallible op then tail fs else fs) (k (perform (next_fault fs) op w0).1)
        (perform (next_fault fs) op w0).2 r w' →
      beside fs (Call op k) w r w'.

(** The program logic covers such runs. *)
Lemma rg_beside (G : W → W → Prop) {A} (p : prog E A) Q w fs r w' :
  rg R G p Q w → beside fs p w r w' → Q r w'.
Proof.
  intros Hrg Hb. revert Hrg. induction Hb as [fs a w w' HR|fs e w w' HR|fs X op k w w0 r w' HR _ IH]; intros Hrg.
  - by apply Hrg.
  - by apply Hrg.
  - apply IH. by apply (Hrg w0 HR (next_fault fs)).
Qed.

(** A relation that the surroundings and the operations respect relates start and end. *)
Lemma beside_trans (G : W → W → Prop) `{!PreOrder G} {A} (p : prog E A) Q w fs r w' :
  (∀ w w', R w w' → G w w') → rg R G p Q w → beside fs p w r w' → G w w'.
Proof.
  intros HRG Hrg Hb. revert Hrg.
  induction Hb as [fs a w w' HR|fs e w w' HR|fs X op k w w0 r w' HR _ IH]; intros Hrg; [by apply HRG..|].
  destruct (Hrg w0 HR (next_fault fs)) as [HG Hk]. etrans; [by apply HRG|]. etrans; [exact HG|]. by apply IH.
Qed.
End beside.

(** *** Undisturbed runs: every operation succeeds *)
Section sure.
Context `{!Externals}.

Definition reliable : Handler eff world := {| handle := @world_handle _; fallible _ _ := false |}.

Definition sure (R : world → world → Prop) {A} (p : P A) (Q : result A → world → Prop) (w : world) : Prop :=
  @rg eff world reliable R (λ _ _, True) A p Q w.

Lemma clean_next fs : clean fs = true → next_fault fs = NoFault ∧ clean (tail fs) = true.
Proof. by destruct fs as [|[] fs]. Qed.

Lemma sure_beside R {A} (p : P A) Q w fs r w' :
  sure R p Q w → clean fs = true → beside R fs p w r w' → Q r w'.
Proof.
  intros Hs Hc Hb. revert Hs Hc. induction Hb as [fs a w w' HR|fs e w w' HR|fs X op k w w0 r w' HR _ IH]; intros Hs Hc.
  - by apply Hs.
  - by apply Hs.
  - destruct (clean_next fs Hc) as [Hn Ht]. apply IH; [|by destruct (fallible op)].
    rewrite Hn. destruct (Hs w0 HR NoFault) as [_ Hk]. unfold perform in Hk |- *. simpl in *.
    by destruct (negb (in_process op)).
Qed.

(** One operation that succeeds. *)
Lemma sure_call R {X} (op : eff X) Q w :
  (∀ w0, R w w0 → ∀ w1, R (world_handle op w0).2 w1 → Q (world_handle op w0).1 w1) → sure R (call op) Q w.
Proof. intros Hop. apply rg_call. intros w0 f HR. split; [done|]. intros w1 HR1. by apply Hop. Qed.
End sure.

(** ** What the others do to the outbox *)

(** Time does not run backwards, an event stays as it is, and a new one is of the present. *)
Definition outbox_grows (d d' : db) : Prop :=
  (d_now d ≤ d_now d')%Z ∧
  (∀ i e, d_outbox d !! i = Some e → d_outbox d' !! i = Some e) ∧
  (∀ i e, d_outbox d' !! i = Some e → d_outbox d !! i = None → (d_now d ≤ ob_createdAt e)%Z).

Lemma outbox_same_grows d d' : (d_now d ≤ d_now d')%Z → d_outbox d' = d_outbox d → outbox_grows d d'.
Proof. intros Hn Ho. unfold outbox_grows. rewrite Ho. split_and!; [done|done|congruence]. Qed.

#[export] Instance outbox_grows_discipline : Discipline outbox_grows.
Proof.
  split; try (by intros; apply outbox_same_grows).
  - split; [intros d; by apply outbox_same_grows|]. intros d1 d2 d3 (Hn & Hk & Hf) (Hn' & Hk' & Hf').
    split_and!; [lia|auto|]. intros i e He H1. destruct (d_outbox d2 !! i) as [e2|] eqn:H2.
    + specialize (Hf _ _ H2 H1). specialize (Hk' _ _ H2). rewrite He in Hk'. by simplify_eq.
    + specialize (Hf' _ _ He H2). lia.
  - intros id e d Hn Hc. split_and!; simpl; [done|..].
    + intros i e' He. rewrite lookup_insert_ne; [done|congruence].
    + intros i e'. rewrite lookup_insert. case_decide as Hi; intros He; [|congruence]. injection He as <-. intros _. lia.
Qed.

Lemma conduct_perform `{!Externals} R `{!Discipline R} {X} (op : eff X) f w :
  conduct_op R X op → R (w_db w) (w_db (perform f op w).2).
Proof.
  intros Hop.
  assert (Hh : R (w_db w) (w_db (handle op w).2)).
  { destruct op; simpl in *; unfold put_object; try (repeat case_match; reflexivity).
    pose proof (fine_transact m (w_db w) Hop) as Ht. by destruct (transact m (w_db w)). }
  unfold perform. destruct (fallible op); [|done]. by destruct f.
Qed.

(** An operation that occurs in a program. *)
Inductive occurs {X} (op : eff X) {A} : P A → Prop :=
  | occurs_here k : occurs op (Call op k)
  | occurs_later Y (op' : eff Y) k r : occurs op (k r) → occurs op (Call op' k).

Lemma occurs_all (Pr : ∀ X, eff X → Prop) {X} (op : eff X) {A} (p : P A) : occurs op p → all_ops Pr p → Pr X op.
Proof. induction 1 as [k|Y op' k r _ IH]; intros [Hop Hk]; [done|]. by apply IH. Qed.

Section surroundings.
Context `{!Externals, !Gcm, !Credentials, !Validators}.

(** What can happen while a pass of the relay is under way: another task of the process
    performs one of its operations, with any fault, or the clock moves on. *)
Inductive elsewhere : world → world → Prop :=
  | elsewhere_task t X (op : eff X) f w :
      is_relay t = false → occurs op (program t) → elsewhere w (perform f op w).2
  | elsewhere_clock now w : (d_now (w_db w) ≤ now)%Z → elsewhere w (set_clock now w).

Definition meanwhile (w w' : world) : Prop :=
  evolve w w' ∧ p_relaying (w_proc w') = p_relaying (w_proc w) ∧ outbox_grows (w_db w) (w_db w').

#[global] Instance meanwhile_preorder : PreOrder meanwhile.
Proof.
  split; [intros w; split_and!; reflexivity|]. intros w1 w2 w3 (He & Hf & Ho) (He' & Hf' & Ho').
  split_and!; [by etrans|congruence|by etrans].
Qed.

(** Every other task leaves the events alone and stamps new ones. *)
Lemma task_grows t :
  is_relay t = false →
  all_ops (λ X (op : eff X), ∀ f w, outbox_grows (w_db w) (w_db (perform f op w).2)) (program t).
Proof.
  assert (Hc : ∀ A (p : P A), Conducts outbox_grows p →
    all_ops (λ X (op : eff X), ∀ f w, outbox_grows (w_db w) (w_db (perform f op w).2)) p).
  { intros A p. apply all_ops_impl. intros X op Hop f w. by apply (conduct_perform outbox_grows). }
  assert (Hproc : ∀ A (g : proc → A * proc) f w, outbox_grows (w_db w) (w_db (perform f (Proc g) w).2)).
  { intros A g f w. unfold perform. simpl. destruct (g (w_proc w)). reflexivity. }
  destruct t; intros Hk; try done; cbn [program]; try (by apply Hc; try apply ignore_conducts; exact _).
  - apply Hc, ignore_conducts, attempt_conducts. intros x d. by apply outbox_same_grows.
  - rewrite sweep_gated. destruct (rv_enabled rv); [|exact I]. unfold gated, in_proc, set_in_proc.
    apply all_ops_bind; [apply all_ops_call, Hproc|]. intros []; [exact I|].
    apply all_ops_finally; [|apply all_ops_call, Hproc]. apply all_ops_catch; [|intros; exact I].
    apply Hc. unfold sweep_body, findStuck, sql. apply conducts_bind; [unfold Conducts; conduct_ops|]. intros now.
    apply conducts_bind; [unfold Conducts; conduct_ops|]. intros l. apply all_ops_for_each. intros r.
    apply (recover_conducts rv r).
Qed.

Lemma task_evolves t : is_relay t = false → Evolving (program t).
Proof. intros Hk. destruct t; try done; cbn [program]; try apply ignore_evolving; exact _. Qed.

Lemma elsewhere_meanwhile w w' : elsewhere w w' → meanwhile w w'.
Proof.
  intros [t X op f v Ht Hop|now v Hnow].
  - split_and!.
    + exact (occurs_all _ op _ Hop (task_evolves t Ht) f v).
    + exact (occurs_all _ op _ Hop (program_keeps_relaying t Ht) f v).
    + exact (occurs_all _ op _ Hop (task_grows t Ht) f v).
  - split_and!; [|done|by apply outbox_same_grows].
    split_and!; [done|done|]. intros eid e He. simpl. eauto.
Qed.

Lemma elsewhere_steps w w' : rtc elsewhere w w' → meanwhile w w'.
Proof. induction 1 as [w|w1 w2 w3 Hs _ IH]; [reflexivity|]. etrans; [by apply elsewhere_meanwhile|exact IH]. Qed.
End surroundings.

(** ** What a pass does to the outbox *)

(** An event stays as it is or becomes PUBLISHED. *)
Definition outbox_moves (d d' : db) : Prop :=
  (d_now d ≤ d_now d')%Z ∧
  (∀ i e, d_outbox d !! i = Some e → ∃ e', d_outbox d' !! i = Some e' ∧
     ob_createdAt e' = ob_createdAt e ∧ (e' = e ∨ ob_status e' = OutboxStatus.PUBLISHED)) ∧
  (∀ i e, d_outbox d' !! i = Some e → d_outbox d !! i = None → (d_now d ≤ ob_createdAt e)%Z).

Lemma grows_moves d d' : outbox_grows d d' → outbox_moves d d'.
Proof. intros (Hn & Hk & Hf). split_and!; [done| |done]. intros i e He. exists e. eauto. Qed.

#[export] Instance outbox_moves_preorder : PreOrder outbox_moves.
Proof.
  split; [intros d; by apply grows_moves|]. intros d1 d2 d3 (Hn & Hk & Hf) (Hn' & Hk' & Hf').
  split_and!; [lia|..].
  - intros i e He. destruct (Hk _ _ He) as (e2 & He2 & Hc2 & Hs2).
    destruct (Hk' _ _ He2) as (e3 & He3 & Hc3 & Hs3). exists e3. split_and!; [done|congruence|].
    destruct Hs3 as [->|?]; [|by right]. naive_solver.
  - intros i e He H1. destruct (d_outbox d2 !! i) as [e2|] eqn:H2.
    + specialize (Hf _ _ H2 H1). destruct (Hk' _ _ H2) as (e3 & He3 & Hc3 & _). rewrite He in He3. simplify_eq. lia.
    + specialize (Hf' _ _ He H2). lia.
Qed.

Definition moves (w w' : world) : Prop := outbox_moves (w_db w) (w_db w').

#[export] Instance moves_preorder : PreOrder moves.
Proof. split; [intros w|intros w1 w2 w3]; unfold moves; [reflexivity|apply transitivity]. Qed.

Lemma moves_same_db w w' : w_db w' = w_db w → moves w w'.
Proof. intros Hd. unfold moves. by rewrite Hd. Qed.

Lemma publish_moves id now d : outbox_moves d (update_outbox id (publish_patch now) d).2.
Proof.
  unfold update_outbox. destruct (d_outbox d !! id) as [e|] eqn:He; [|done]. destruct (int4 _); [|done].
  split_and!; simpl; [done|..].
  - intros i e' He'. rewrite lookup_insert. case_decide as Hi; [|eauto]. subst i. simplify_eq. eexists. by split_and!; [| |right].
  - intros i e'. rewrite lookup_insert. case_decide as Hi; [subst i|]; congruence.
Qed.

(** The events of a time or before that wait. *)
Definition not_after (t : Z) (e : OutboxEvent) : bool := (ob_createdAt e <=? t)%Z.
Definition waiting (t : Z) (w : world) : list OutboxEvent := List.filter (not_after t) (pending_events (w_db w)).
Definition ahead (t : Z) (w : world) : nat := length (waiting t w).

Lemma elem_of_waiting t w e :
  sys_inv w → e ∈ waiting t w ↔
    d_outbox (w_db w) !! ob_id e = Some e ∧ ob_status e = OutboxStatus.PENDING ∧ (ob_createdAt e ≤ t)%Z.
Proof.
  intros (_ & Hwo & _). unfold waiting, not_after.
  rewrite list_elem_of_In, filter_In, <- list_elem_of_In, Z.leb_le. split.
  - intros [He Ht]. destruct (pending_events_elem _ _ Hwo He) as (? & ? & _). done.
  - intros (He & Hs & Ht). split; [|done]. by eapply pending_events_complete.
Qed.

Lemma waiting_NoDup t w : sys_inv w → NoDup (waiting t w).
Proof.
  intros Hinv. pose proof (pending_NoDup w Hinv) as Hnd. unfold waiting. induction Hnd as [|e l Hni _ IH]; simpl; [constructor|].
  destruct (not_after t e); [|done]. constructor; [|done].
  rewrite list_elem_of_In, filter_In, <- list_elem_of_In. tauto.
Qed.

(** Who waits after a move waited before it, as long as the time has passed. *)
Lemma moves_waiting t w w' e :
  sys_inv w → sys_inv w' → moves w w' → (t < d_now (w_db w))%Z → e ∈ waiting t w' → e ∈ waiting t w.
Proof.
  intros Hi Hi' (_ & Hk & Hf) Ht. rewrite !elem_of_waiting by done. intros (He & Hs & Hc).
  destruct (d_outbox (w_db w) !! ob_id e) as [e0|] eqn:H0.
  - destruct (Hk _ _ H0) as (e' & He' & _ & [->|Hp]); rewrite He in He'; simplify_eq; [done|congruence].
  - specialize (Hf _ _ He H0). lia.
Qed.

Lemma ahead_le t w' l :
  sys_inv w' → (∀ e, e ∈ waiting t w' → e ∈ l) → (ahead t w' ≤ length l)%nat.
Proof.
  intros Hi Hsub. apply submseteq_length, NoDup_submseteq; [by apply waiting_NoDup|done].
Qed.

(** Of a sorted list, those up to a time are at the front. *)
Lemma filter_drop_sorted t n l :
  StronglySorted (λ a b, (ob_createdAt a ≤ ob_createdAt b)%Z) l →
  List.filter (not_after t) (drop n l) = drop n (List.filter (not_after t) l).
Proof.
  intros Hs. revert n. induction Hs as [|e l _ IH Hall]; intros n; [by destruct n|].
  cbn [List.filter]. destruct (not_after t e) eqn:He.
  - destruct n as [|n]; cbn [drop List.filter]; [by rewrite He|]. apply IH.
  - assert (Hnil : List.filter (not_after t) l = []).
    { clear IH. unfold not_after in *. apply Z.leb_gt in He. induction Hall as [|x l Hx _ IH]; [done|]. simpl.
      destruct (Z.leb_spec (ob_createdAt x) t); [lia|done]. }
    rewrite Hnil, drop_nil. destruct n as [|n]; cbn [drop List.filter]; [by rewrite He, Hnil|]. rewrite IH, Hnil. apply drop_nil.
Qed.

(** ** A pass of the relay beside the other tasks *)
Section passes.
Context `{!Externals, !Gcm, !Credentials, !Validators}.

Lemma rg_rely (R R' G : world → world → Prop) {A} (p : P A) Q w :
  (∀ w w', R' w w' → R w w') → rg R G p Q w → rg R' G p Q w.
Proof.
  intros HR. revert w. induction p as [a|e|X op k IH]; intros w Hp w0 Hw0; [by apply Hp, HR..|].
  intros f. destruct (Hp w0 (HR _ _ Hw0) f) as [HG Hk]. split; [done|]. by apply IH.
Qed.

Lemma meanwhile_moves w w' : meanwhile w w' → moves w w'.
Proof. intros (_ & _ & Hg). by apply grows_moves. Qed.

(** Whatever happens to a pass: it only moves events on, and puts its flag down. *)
Lemma relay_op_moves : all_ops (λ X (op : eff X), ∀ f w, moves w (perform f op w).2) relay.
Proof.
  assert (Hh : ∀ X (op : eff X) f w, moves w (handle op w).2 → moves w (perform f op w).2).
  { intros X op f w Hop. unfold perform. destruct (fallible op); [|done]. by destruct f. }
  assert (Hpub : ∀ id now f w, moves w (perform f (Db (update_outbox id (publish_patch now))) w).2).
  { intros id now f w. apply Hh. simpl. pose proof (publish_moves id now (w_db w)) as Hm. unfold transact.
    destruct (update_outbox _ _ (w_db w)) as [[a|e] d']; simpl in *; [exact Hm|by apply moves_same_db]. }
  unfold relay, relay_event, in_proc, set_in_proc, sql.
  repeat ops_step; intros f w; first [apply Hpub | apply Hh; apply moves_same_db; by destruct w as [[]]].
Qed.

Lemma pass_moves fs w r w' : sys_inv w → beside meanwhile fs relay w r w' → evolve w w' ∧ moves w w'.
Proof.
  intros Hinv Hb. split.
  - eapply (beside_trans meanwhile evolve); [by intros ?? [? _]| |exact Hb].
    eapply rg_rely; [by intros ?? [? _]|by apply relay_rg].
  - eapply (beside_trans meanwhile moves); [apply meanwhile_moves| |exact Hb].
    apply (all_ops_rg (λ X (op : eff X), ∀ f w, moves w (perform f op w).2)); [by intros X op Hop f|].
    apply relay_op_moves.
Qed.

Lemma any_rg R {A} (p : P A) w : rg R (λ _ _, True) p (λ _ _, True) w.
Proof. revert w. induction p as [a|e|X op k IH]; intros w w0 _; [done..|]. intros f. split; [done|apply IH]. Qed.

Lemma pass_releases fs w r w' :
  p_relaying (w_proc w) = false → beside meanwhile fs relay w r w' → p_relaying (w_proc w') = false.
Proof.
  intros Hf Hb. refine (rg_beside meanwhile (λ _ _, True) relay (λ _ w', p_relaying (w_proc w') = false) w fs r w' _ Hb).
  unfold relay, in_proc, set_in_proc. rg_step. apply rg_call. intros w0 f0 (_ & Hw0 & _). split; [done|].
  unfold perform; simpl. intros w1 _. rewrite Hw0, Hf. rg_step. eapply rg_mono; [apply any_rg|]. intros res w2 _.
  apply rg_call. intros w3 f3 _. split; [done|]. unfold perform; simpl. intros w4 (_ & Hw4 & _). simpl in Hw4.
  destruct res; [apply rg_ret|apply rg_throw]; intros w5 (_ & Hw5 & _); congruence.
Qed.

(** *** An undisturbed pass *)
Definition is_published (w : world) (id : string) : Prop :=
  ∃ e, d_outbox (w_db w) !! id = Some e ∧ ob_status e = OutboxStatus.PUBLISHED.

Lemma published_meanwhile w w' id : meanwhile w w' → is_published w id → is_published w' id.
Proof. intros (_ & _ & _ & Hk & _) (e & He & Hs). exists e. split; [by apply Hk|done]. Qed.

(** Half way through the batch: what is done is PUBLISHED, what is left is as it was read. *)
Record half_way (w2 : world) (l rest : list OutboxEvent) (w : world) : Prop := {
  hw_moves : moves w2 w;
  hw_done : ∀ e, e ∈ l → e ∈ rest ∨ is_published w (ob_id e);
  hw_rest : ∀ e, e ∈ rest → d_outbox (w_db w) !! ob_id e = Some e ∧ ob_attempts e = 0%Z;
  hw_ids : NoDup (map ob_id rest);
}.

Lemma half_way_meanwhile w2 l rest w w' : meanwhile w w' → half_way w2 l rest w → half_way w2 l rest w'.
Proof.
  intros Hm [Hmv Hd Hr Hn]. split; [by etrans; [|apply meanwhile_moves]| |intros e He|done].
  - intros e He. destruct (Hd e He); [by left|right]. by eapply published_meanwhile.
  - destruct (Hr e He). split; [|done]. destruct Hm as (_ & _ & _ & Hk & _). by apply Hk.
Qed.

Lemma half_way_queue w2 l rest q w : half_way w2 l rest w → half_way w2 l rest (set_queue q w).
Proof. intros [Hmv Hd Hr Hn]. by split. Qed.

(** The statement that marks the next event succeeds. *)
Lemma half_way_publish w2 l e rest now w :
  half_way w2 l (e :: rest) w →
  let m := world_handle (Db (update_outbox (ob_id e) (publish_patch now))) w in
  m.1 = Ok tt ∧ half_way w2 l rest m.2 ∧ p_relaying (w_proc m.2) = p_relaying (w_proc w).
Proof.
  intros [Hmv Hd Hr Hn]. destruct (Hr e) as [He Ha]; [set_solver|]. inversion_clear Hn as [|? ? Hni Hn'].
  pose proof (publish_moves (ob_id e) now (w_db w)) as Hstep. revert Hstep.
  simpl. unfold transact, update_outbox. rewrite He. simpl. rewrite Ha. simpl. intros Hstep. split_and!; [done| |done].
  split; [etrans; [exact Hmv|exact Hstep]| | |done].
  - intros x Hx. destruct (Hd x Hx) as [[->|Hin]%elem_of_cons|(x' & Hx' & Hs)].
    + right. eexists. simpl. by rewrite lookup_insert_eq.
    + by left.
    + right. unfold is_published. simpl. destruct (decide (ob_id e = ob_id x)) as [Hid|Hid].
      * eexists. rewrite Hid, lookup_insert_eq. done.
      * exists x'. by rewrite lookup_insert_ne.
  - intros x Hx. destruct (Hr x) as [Hx' Ha']; [set_solver|]. split; [|done]. simpl.
    rewrite lookup_insert_ne; [done|]. intros Hid. apply Hni. rewrite Hid. by apply list_elem_of_fmap_2.
Qed.

Lemma sure_event w2 l e rest w :
  half_way w2 l (e :: rest) w → sure meanwhile (relay_event e) (λ r w', r = Ok tt ∧ half_way w2 l rest w') w.
Proof.
  intros Hh. unfold relay_event, sql. apply rg_bind; [apply _|]. apply sure_call. intros w0 Hw0 w1 Hw1. simpl.
  apply rg_bind; [apply _|]. apply sure_call. intros wn Hwn w3 Hw3. simpl. apply sure_call. intros w4 Hw4 w5 Hw5.
  assert (Hh4 : half_way w2 l (e :: rest) w4).
  { eapply half_way_meanwhile; [etrans; [exact Hwn|etrans; [exact Hw3|exact Hw4]]|].
    eapply half_way_meanwhile; [exact Hw1|]. apply half_way_queue. by eapply half_way_meanwhile. }
  destruct (half_way_publish w2 l e rest (d_now (w_db wn)) w4 Hh4) as (Hok & Hh5 & _). split; [exact Hok|].
  by eapply half_way_meanwhile.
Qed.

(** The batch was read in a world between, and all of it is PUBLISHED at the end. *)
Lemma sure_pass w :
  sys_inv w → p_relaying (w_proc w) = false →
  sure meanwhile relay (λ r w', r = Ok tt ∧ ∃ w2, sys_inv w2 ∧ moves w w2 ∧ moves w2 w' ∧
    ∀ e, e ∈ take RELAY_BATCH (pending_events (w_db w2)) → is_published w' (ob_id e)) w.
Proof.
  intros Hinv Hf. unfold relay, in_proc, set_in_proc, sql. apply rg_bind; [apply _|].
  apply sure_call. intros w0 Hw0 w1 Hw1. simpl in Hw1 |- *.
  assert (Hf0 : p_relaying (w_proc w0) = false) by (destruct Hw0 as (_ & -> & _); done). rewrite Hf0.
  assert (Hm1 : moves w w1) by (etrans; [by apply meanwhile_moves|exact (meanwhile_moves _ _ Hw1)]).
  assert (Hi1 : sys_inv w1) by (apply Hw1, (set_proc_evolve _ w0), Hw0, Hinv).
  apply rg_finally; [apply _|]. apply rg_catch; [apply _|]. apply rg_bind; [apply _|].
  apply sure_call. intros w2 Hw2 w3 Hw3. simpl.
  assert (Hi2 : sys_inv w2) by (by apply Hw2).
  assert (Hm2 : moves w w2) by (etrans; [exact Hm1|by apply meanwhile_moves]).
  fold (pending_events (w_db w2)). set (l := take RELAY_BATCH (pending_events (w_db w2))).
  assert (Hstart : half_way w2 l l w2).
  { destruct Hi2 as (_ & Hwo & _). split; [reflexivity|by left|..].
    - intros e He%subseteq_take. destruct (pending_events_elem _ _ Hwo He) as (? & _ & ?). done.
    - eapply sublist_NoDup; [apply (pending_events_NoDup _ Hwo)|]. unfold l. rewrite <- firstn_map. apply sublist_take. }
  assert (Hloop : sure meanwhile (for_each l relay_event) (λ r w', r = Ok tt ∧ half_way w2 l [] w') w3).
  { apply (rg_for_each meanwhile (λ _ _, True) l relay_event (λ rest w', half_way w2 l rest w')).
    - intros e rest w' Hh. eapply rg_mono; [by apply sure_event|]. by intros r w'' [-> ?].
    - intros w' Hh. apply rg_ret. intros w'' Hw''. split; [done|]. by eapply half_way_meanwhile.
    - eapply half_way_meanwhile; [|exact Hstart]. revert Hw3. simpl. by destruct w2 as [[]]. }
  eapply rg_mono; [exact Hloop|]. intros r w4 [-> [Hmv Hd _ _]]. apply sure_call. intros w5 Hw5 w6 Hw6.
  apply rg_ret. intros w7 Hw7. split; [done|]. exists w2.
  assert (Hm57 : moves w4 w7).
  { etrans; [by apply meanwhile_moves|]. etrans; [exact (meanwhile_moves _ _ Hw6)|by apply meanwhile_moves]. }
  split_and!; [done|done|by etrans|]. intros e He.
  destruct (Hd e He) as [Hin|Hp]; [by apply not_elem_of_nil in Hin|].
  eapply published_meanwhile; [etrans; [exact Hw6|exact Hw7]|]. by apply (published_meanwhile w4 w5 _ Hw5) in Hp.
Qed.

(** So an undisturbed pass shortens the wait by a batch, and any pass does not lengthen it. *)
Lemma pass_ahead t fs w r w' :
  sys_inv w → p_relaying (w_proc w) = false → (t < d_now (w_db w))%Z → beside meanwhile fs relay w r w' →
  (ahead t w' ≤ ahead t w - (if clean fs then RELAY_BATCH else 0))%nat.
Proof.
  intros Hinv Hf Ht Hb. destruct (pass_moves fs w r w' Hinv Hb) as [Hev Hmv].
  assert (Hinv' : sys_inv w') by (by apply Hev).
  destruct (clean fs) eqn:Hc; last first.
  { rewrite Nat.sub_0_r. apply ahead_le; [done|]. intros e. by apply moves_waiting. }
  destruct (sure_beside meanwhile relay _ w fs r w' (sure_pass w Hinv Hf) Hc Hb) as (_ & w2 & Hi2 & Hm2 & Hm2' & Hpub).
  assert (Ht2 : (t < d_now (w_db w2))%Z) by (destruct Hm2 as [? _]; lia).
  transitivity (length (drop RELAY_BATCH (waiting t w2))).
  - apply ahead_le; [done|]. intros e He. unfold waiting. rewrite <- filter_drop_sorted by apply isort_StronglySorted.
    pose proof (moves_waiting t w2 w' e Hi2 Hinv' Hm2' Ht2 He) as He2. unfold waiting in He2.
    rewrite list_elem_of_In, filter_In, <- list_elem_of_In in He2 |- *. destruct He2 as [He2 Hn]. split; [|done].
    rewrite <- (take_drop RELAY_BATCH (pending_events (w_db w2))) in He2.
    apply elem_of_app in He2 as [He2|He2]; [exfalso|done].
    destruct (Hpub e He2) as (e' & He' & Hs'). apply (elem_of_waiting t w' e Hinv') in He as (He & Hs & _).
    rewrite He in He'. congruence.
  - rewrite length_drop. enough (length (waiting t w2) ≤ ahead t w)%nat by lia.
    apply (ahead_le t w2); [done|]. intros e. by apply moves_waiting.
Qed.
End passes.

(** ** The course of time *)

(** A pass: how long it takes, and what fails in it. *)
Record stint := mkStint { st_duration : Z; st_faults : list fault }.

Definition undisturbed (s : stint) : bool := clean (st_faults s).
Definition disturbed (l : list stint) : nat := length (List.filter (λ s, negb (undisturbed s)) l).

(** Firings no more than [gap] apart, the first no more than that after [t]. *)
Fixpoint spaced (gap t : Z) (ticks : list Z) : Prop :=
  match ticks with
  | [] => True
  | x :: l => (t ≤ x ≤ t + gap)%Z ∧ spaced gap x l
  end.

Fixpoint last_tick (t : Z) (ticks : list Z) : Z :=
  match ticks with
  | [] => t
  | x :: l => last_tick x l
  end.

(** A call that finds the flag up returns at once and changes nothing. *)
Lemma relay_finds_flag `{!Externals} w fs :
  p_relaying (w_proc w) = true → outcome fs relay w = Ok tt ∧ final fs relay w = w.
Proof.
  intros Hf. unfold outcome, final, relay, in_proc. rewrite run_bind. unfold call, run, perform. simpl.
  rewrite Hf. simpl. split; [done|]. destruct w as [? ? ? ? ? ? ? ? ? ? []]. simpl in *. by subst.
Qed.

Section course.
Context `{!Externals, !Gcm, !Credentials, !Validators}.

(** The relay's timer fires at the given times.  A firing before the pass under way is over
    finds its flag up; otherwise a pass begins, and runs to its end beside the other tasks. *)
Inductive course : Z → list Z → list stint → world → world → Prop :=
  | course_end busy w w' : rtc elsewhere w w' → course busy [] [] w w'
  | course_busy busy t ticks l w w' :
      (t < busy)%Z → course busy ticks l w w' → course busy (t :: ticks) l w w'
  | course_pass busy t ticks s l w w0 r w1 w' :
      (busy ≤ t)%Z → rtc elsewhere w w0 → beside (rtc elsewhere) (st_faults s) relay w0 r w1 →
      course (t + st_duration s) ticks l w1 w' → course busy (t :: ticks) (s :: l) w w'.

Lemma beside_mono (R R' : world → world → Prop) {A} fs (p : P A) w r w' :
  (∀ w w', R w w' → R' w w') → beside R fs p w r w' → beside R' fs p w r w'.
Proof. intros HR. induction 1; econstructor; eauto. Qed.

(** In long enough a time there are enough passes. *)
Lemma course_passes gap D busy t ticks l w w' k :
  (0 < gap)%Z → (0 ≤ D)%Z → spaced gap t ticks → Forall (λ s, (0 ≤ st_duration s ≤ D)%Z) l →
  course busy ticks l w w' →
  (Z.max busy t + gap + k * (gap + D) ≤ last_tick t ticks)%Z → (0 ≤ k)%Z → (k < Z.of_nat (length l))%Z.
Proof.
  intros Hg HD Hsp Hdur Hc. revert t k Hsp Hdur.
  induction Hc as [busy w w' _|busy x ticks l w w' Hx _ IH|busy x ticks s l w w0 r w1 w' Hx _ _ _ IH];
    intros t k Hsp Hdur Hlast Hk; cbn [spaced last_tick] in *.
  - nia.
  - destruct Hsp as [Hx' Hsp]. apply (IH x k); [done|done| |done]. lia.
  - destruct Hsp as [Hx' Hsp]. inversion_clear Hdur as [|? ? Hs Hdur']. cbn [length].
    destruct (decide (k = 0)%Z) as [->|Hne]; [lia|].
    enough (k - 1 < Z.of_nat (length l))%Z by lia. apply (IH x); [done|done| |lia]. nia.
Qed.

(** Over a course the wait shortens by a batch with each undisturbed pass. *)
Lemma course_ahead tm busy ticks l w w' :
  course busy ticks l w w' →
  sys_inv w → p_relaying (w_proc w) = false → (tm < d_now (w_db w))%Z →
  evolve w w' ∧ moves w w' ∧ (ahead tm w' ≤ ahead tm w - RELAY_BATCH * (length l - disturbed l))%nat.
Proof.
  induction 1 as [busy w w' Hel|busy x ticks l w w' _ _ IH|busy x ticks s l w w0 r w1 w' _ Hel Hb _ IH];
    intros Hinv Hf Ht.
  - apply elsewhere_steps in Hel as Hm. assert (Hmv := meanwhile_moves _ _ Hm). destruct Hm as [Hev _].
    split_and!; [done|done|]. transitivity (ahead tm w); [|unfold disturbed; simpl; lia].
    apply ahead_le; [by apply Hev|]. intros e. apply moves_waiting; [done|by apply Hev|done|done].
  - auto.
  - apply elsewhere_steps in Hel as Hm0. assert (Hmv0 := meanwhile_moves _ _ Hm0). destruct Hm0 as (Hev0 & Hf0 & _).
    assert (Hinv0 : sys_inv w0) by (by apply Hev0). rewrite Hf in Hf0.
    assert (Ht0 : (tm < d_now (w_db w0))%Z) by (destruct Hmv0 as [? _]; lia).
    apply (beside_mono _ meanwhile) in Hb; [|apply elsewhere_steps].
    destruct (pass_moves _ _ _ _ Hinv0 Hb) as [Hev1 Hmv1].
    pose proof (pass_ahead tm _ _ _ _ Hinv0 Hf0 Ht0 Hb) as Ha1.
    destruct IH as (Hev & Hmv & Ha); [by apply Hev1|by eapply pass_releases|destruct Hmv1 as [? _]; lia|].
    assert (Ha0 : (ahead tm w0 ≤ ahead tm w)%nat).
    { apply ahead_le; [done|]. intros e. by apply moves_waiting. }
    split_and!; [by do 2 (etrans; [eassumption|])|by do 2 (etrans; [eassumption|])|].
    unfold disturbed in *. cbn [List.filter length]. unfold undisturbed at 1. destruct (clean (st_faults s)); cbn [negb length] in *.
    + assert (length (List.filter (λ s, negb (undisturbed s)) l) ≤ length l)%nat by apply List.filter_length_le.
      rewrite Nat.sub_succ_l by done. rewrite Nat.mul_succ_r. lia.
    + lia.
Qed.
End course.

(** C10: An event is published by its deadline.  Let the relay's timer fire again and again, each
    time at most its period and [lag] after the last, and let no pass take longer than
    [D].  Take an event that waits, with at most [k] batches of events as old or older, itself
    included.  Other tasks run their operations beside the relay, uploads add events, and anything
    may fail in any pass.  Once the timer has been running for [k] passes, and one more for
    each pass in which something failed, at a period, a lag and a [D] each, the event is
    PUBLISHED and its job is in the queue. *)
Theorem relay_meets_deadline `{!Externals, !Gcm, !Credentials, !Validators} e lag D start ticks l w w' k :
  sys_inv w → p_relaying (w_proc w) = false →
  d_outbox (w_db w) !! ob_id e = Some e → ob_status e = OutboxStatus.PENDING →
  (ob_createdAt e < d_now (w_db w))%Z → (ahead (ob_createdAt e) w ≤ RELAY_BATCH * k)%nat →
  (0 ≤ lag)%Z → (0 ≤ D)%Z → spaced (period relay_timer + lag) start ticks →
  Forall (λ s, (0 ≤ st_duration s ≤ D)%Z) l →
  (start + Z.of_nat (k + disturbed l) * (period relay_timer + lag + D) ≤ last_tick start ticks)%Z →
  course start ticks l w w' →
  is_published w' (ob_id e) ∧ ∃ j, j ∈ w_queue w' ∧ job_data j = ob_payload e.
Proof.
  intros Hinv Hf He Hs Ht Hk Hlag HD Hsp Hdur Hlast Hc.
  assert (Hper : period relay_timer = 1000%Z) by done. rewrite Hper in *.
  assert (Hw : e ∈ waiting (ob_createdAt e) w) by (by apply elem_of_waiting).
  assert (Hk0 : (1 ≤ k)%nat).
  { destruct k as [|k]; [|lia]. unfold ahead in Hk.
    destruct (waiting (ob_createdAt e) w); [set_solver|simpl in Hk; lia]. }
  destruct (course_ahead (ob_createdAt e) _ _ _ _ _ Hc Hinv Hf Ht) as (Hev & Hmv & Ha).
  assert (Hn : (Z.of_nat (k + disturbed l) - 1 < Z.of_nat (length l))%Z).
  { apply (course_passes (1000 + lag) D start start ticks l w w'); try done; nia. }
  assert (Hz : ahead (ob_createdAt e) w' = 0%nat) by nia.
  assert (Hinv' : sys_inv w') by (by apply Hev).
  destruct Hmv as (_ & Hrows & _). destruct (Hrows _ _ He) as (e' & He' & Hce & Hse).
  assert (Hp : ob_status e' = OutboxStatus.PUBLISHED).
  { destruct (ob_status e') eqn:Hs'; [|done]. destruct Hse as [->|?]; [|congruence].
    assert (Hin : e ∈ waiting (ob_createdAt e) w') by (by apply elem_of_waiting).
    unfold ahead in Hz. apply nil_length_inv in Hz. rewrite Hz in Hin. set_solver. }
  split; [by exists e'|]. destruct Hev as (_ & _ & Hpay). destruct (Hpay _ _ He) as (e2 & He2 & Hpe).
  rewrite He' in He2. simplify_eq. destruct Hinv' as (_ & _ & _ & Hpub).
  destruct (Hpub _ _ He' Hp) as (j & Hj & Hjd). exists j. by rewrite Hjd.
Qed.

(** ** Witnesses *)
Lemma run_beside `{!Externals} R `{!Reflexive R} {A} (p : P A) fs w :
  beside R fs p w (outcome fs p w) (final fs p w).
Proof.
  unfold outcome, final. revert fs w. induction p as [a|e|X op k IH]; intros fs w; [by constructor..|].
  eapply beside_call; [reflexivity|apply IH].
Qed.

Import Demo DemoCipher DemoCredentials.
#[local] Existing Instance demo_validators.

(** The first pass fails at once and takes 1.2 seconds, in which the timer fires again; an upload
    arrives; the next pass goes through. *)
Definition late_stints : list stint := [mkStint 1200 [FailBefore timeout_error]; mkStint 100 []; mkStint 100 []; mkStint 100 []].
Definition late_ticks : list Z := [1000; 2000; 3000; 4000; 5000]%Z.

Definition hook_config : HttpConfig :=
  mkHttpConfig "hook-secret" auth_config demo_ingestion (mkQuotaConfig 0 0 ∅) demo_storage config 3 (λ b, [b]).
Definition hook : task :=
  T_http hook_config (mkHttpRequest "/v1/sftp/on-upload" None (Some "hook-secret") None [] false (OnUpload demo_payload)).
Definition upload_op : eff FileTransfer :=
  Db (create_statement (pending_input demo_ingestion demo_payload "/srv/sftpgo/data/alice/report.csv") []).

Lemma upload_occurs : occurs upload_op (program hook).
Proof. apply occurs_here. Qed.

(** After the failed pass; with the upload; after the passes that follow. *)
Definition after_failure : world := final [FailBefore timeout_error] relay one_event_world.
Definition after_upload : world := (perform NoFault upload_op after_failure).2.
Definition after_pass : world := final [] relay after_upload.
Definition at_the_end : world := final [] relay (final [] relay after_pass).

Lemma late_course : course 0 late_ticks late_stints one_event_world at_the_end.
Proof.
  eapply course_pass; [done|reflexivity|apply run_beside, _|]. apply course_busy; [done|].
  eapply course_pass; [done| |apply run_beside, _|].
  { apply rtc_once. exact (elsewhere_task hook _ upload_op NoFault after_failure eq_refl upload_occurs). }
  do 2 (eapply course_pass; [done|reflexivity|apply run_beside, _|]). apply course_end. reflexivity.
Qed.

Lemma relay_meets_deadline_witness :
  ∃ j, j ∈ w_queue at_the_end ∧ job_data j = mkTransferJob "t1" [].
Proof.
  destruct (relay_meets_deadline (mkOutboxEvent "e1" "t1" TRANSFER_JOB (mkTransferJob "t1" []) OutboxStatus.PENDING 0 500 None)
    0 1200 0 late_ticks late_stints one_event_world at_the_end 1 one_event_inv) as [_ Hj].
  - reflexivity.
  - reflexivity.
  - reflexivity.
  - reflexivity.
  - vm_compute. lia.
  - lia.
  - lia.
  - repeat split; vm_compute; discriminate.
  - repeat constructor; vm_compute; discriminate.
  - vm_compute. discriminate.
  - exact late_course.
  - exact Hj.
Defined.
