(* ===== verification/Redrive.v ===== *)
(** * Giving up on a file that kills the worker

    The sweep re-drives what a crash left behind, and a file on which the worker dies every
    time would be re-driven for ever, were it not for the counter: [markProcessing] raises
    it before anything can go wrong, and the sweep fails a row whose counter has reached
    the limit ([ingestion/recovery.service.ts], [ingestion/ingestion.processor.ts]).
    A round is an attempt that dies, a restart after a pause, and a sweep;
    [crash_loop_ends] shows that the rounds come to an end. *)
From S2P Require Import Prelude JsLang Entities Database Prog World Repository Outbox Ingestion.
From S2P Require Import Quota Routing Storage Crypto Pipeline Events Processor Transfers Recovery.
From S2P Require Import Auth Http System Conduct Schedule Lifecycle.

(** ** Stamps *)

(** No row was written in the future. *)
Definition none_ahead (d : db) : Prop := ∀ id r, d_transfers d !! id = Some r → (ft_updatedAt r ≤ d_now d)%Z.

Definition keeps_stamps (d d' : db) : Prop := d_now d' = d_now d ∧ (none_ahead d → none_ahead d').

#[export] Instance keeps_stamps_discipline : Discipline keeps_stamps.
Proof.
  split; try (intros x d; by split); try (intros id e d _ _; by split).
  - split; [by intros d|]. intros d1 d2 d3 [Hn12 H12] [Hn23 H23]. split; [congruence|]. auto.
  - intros id r d Hr. split; [done|]. intros Hd i s. simpl. rewrite lookup_insert.
    case_decide; intros; simplify_eq; [lia|]. by eapply Hd.
  - intros Pr HPr d. split; [done|]. intros Hd i s. simpl. rewrite map_lookup_filter_Some. intros [Hs _]. by eapply Hd.
Qed.

(** ** Deaths *)
Section deaths.
Context {E : Type → Type} {W : Type} `{!Handler E W} (R G : W → W → Prop) `{!Reflexive R, !PreOrder G}.

(** What a later death adds to an earlier one. *)
Lemma crash_later {A} (p : prog E A) Q w fs a n : rg R G p Q w → G (crash a fs p w) (crash (a + n) fs p w).
Proof.
  revert p w fs. induction a as [|a IH]; intros p w fs Hp; [exact (rg_crash_trans R G p Q w n fs Hp)|].
  destruct p as [x|e|X op k]; [reflexivity..|].
  destruct (Hp w (reflexivity w) (next_fault fs)) as [_ Hk].
  change (crash (S a + n) fs (Call op k) w) with
    (crash (a + n) (if fallible op then tail fs else fs) (k (perform (next_fault fs) op w).1) (perform (next_fault fs) op w).2).
  change (crash (S a) fs (Call op k) w) with
    (crash a (if fallible op then tail fs else fs) (k (perform (next_fault fs) op w).1) (perform (next_fault fs) op w).2).
  by apply IH.
Qed.
End deaths.

(** The changes of a worker to the one transfer it works on. *)
Definition work_on (id : string) : entitlement := λ i s ph c,
  i = id ∧ match c with Started | Completed _ | Rejected _ => True | _ => False end.

Lemma work_history id L L' :
  rtc (moves (work_on id)) L L' →
  (∀ j, j ≠ id → L' !! j = L !! j) ∧
  (∀ t, L !! id = Some t → ∃ t', L' !! id = Some t' ∧ (t_attempts t ≤ t_attempts t')%Z).
Proof.
  induction 1 as [L|L L1 L' (i & s & ph & c & [-> Hc] & Hs) _ [IHo IHi]]; [naive_solver lia|].
  assert (Ho : ∀ j, j ≠ id → L1 !! j = L !! j).
  { intros j Hj. destruct Hs as [L0 _ _|c L0 u _ _ _ _|L0 u _ _ _]; [done| |done].
    by rewrite lookup_partial_alter_ne. }
  split; [intros j Hj; rewrite IHo by done; auto|]. intros t Ht.
  assert (Hi : ∃ t1, L1 !! id = Some t1 ∧ (t_attempts t ≤ t_attempts t1)%Z).
  { destruct Hs as [L0 _ _|c L0 u Hu _ _ _|L0 u _ _ _]; [done| |done]. rewrite lookup_partial_alter_eq. simplify_eq.
    destruct c; try done; eexists; (split; [reflexivity|]); simpl; lia. }
  destruct Hi as (t1 & Ht1 & Hle). destruct (IHi t1 Ht1) as (t' & Ht' & Hle'). exists t'. split; [done|lia].
Qed.

Lemma may_work_on id : may_work (work_on id) id.
Proof. intros s ph []; done. Qed.

Section attempts.
Context `{!Externals, !Gcm}.

Definition row (id : string) (w : world) : option FileTransfer := d_transfers (w_db w) !! id.

(** An attempt that finds its row and gets to claim it: its first two statements succeed and it
    lives to perform three operations. *)
Record claims (id : string) (job : Job) (fs : list fault) (n : nat) : Prop := {
  cl_names : tj_transferId (job_data job) = id;
  cl_find : next_fault fs = NoFault;
  cl_mark : next_fault (tail fs) = NoFault;
  cl_lives : (3 ≤ n)%nat;
}.

Lemma any_tenant w r : d_tenant (w_db w) = None → tenant_isolation (w_db w) r = true.
Proof. unfold tenant_isolation. intros ->. apply orb_true_r. Qed.

Lemma find_clean id w :
  d_tenant (w_db w) = None → perform NoFault (Db (find_transfer id)) w = (Ok (row id w), w).
Proof.
  intros Ht. unfold perform, row. simpl. unfold transact, find_transfer, tenant_isolation. rewrite Ht.
  assert (Hw : set_db (set_tenant None (w_db w)) w = w) by (destruct w as [[]]; simpl in *; by subst).
  rewrite Hw. destruct (d_transfers (w_db w) !! id) as [r|]; [|done]. simpl. by rewrite orb_true_r.
Qed.

(** An attempt that claims its row begins with three operations: it reads the row, counts
    itself in, and writes the row. *)
Lemma attempt_head ps job r :
  ft_status r ≠ TransferStatus.SUCCESS →
  ∃ k1 k2 k3, attempt ps job = Call (Db (find_transfer (tj_transferId (job_data job)))) k1 ∧
    k1 (Ok (Some r)) = Call (Proc (λ p, (tt, incInFlight p))) k2 ∧
    k2 (Ok tt) = Call (Db (update_transfer (ft_id r)
      (λ r, upd_lifecycle TransferStatus.PROCESSING (ft_attempts r + 1) None r))) k3.
Proof.
  intros Hst. do 3 eexists. split; [reflexivity|]. split.
  { cbn [bind catch_ of_result]. rewrite (bool_decide_eq_false_2 _ Hst). reflexivity. }
  reflexivity.
Qed.

Lemma crash_call n fs {X A} (op : eff X) (k : result X → P A) w :
  crash (S n) fs (Call op k) w =
    crash n (if fallible op then tail fs else fs) (k (perform (next_fault fs) op w).1) (perform (next_fault fs) op w).2.
Proof. reflexivity. Qed.

(** After three operations the row is claimed and its counter raised. *)
Lemma claimed_row ps id job fs n r w :
  claims id job fs n → d_tenant (w_db w) = None → row id w = Some r → ft_id r = id →
  ft_status r ≠ TransferStatus.SUCCESS →
  check_transfer (processing_row (d_now (w_db w)) r) = Ok tt →
  row id (crash 3 fs (attempt ps job) w) = Some (processing_row (d_now (w_db w)) r).
Proof.
  intros [Hid Hf Hm _] Ht Hr Hrid Hst Hchk.
  destruct (attempt_head ps job r Hst) as (k1 & k2 & k3 & -> & H1 & H2).
  rewrite crash_call, Hf, Hid, (find_clean id w Ht), Hr. cbn [fst snd fallible world_handler in_process negb].
  rewrite H1, crash_call. unfold perform at 1 2. cbn [fallible world_handler in_process negb handle world_handle fst snd].
  rewrite H2, crash_call, Hm, Hrid. unfold perform. cbn [fallible world_handler in_process negb handle world_handle fst snd].
  unfold row, transact, update_transfer. cbn [w_db set_proc]. unfold row in Hr. rewrite Hr, (any_tenant w _ Ht).
  unfold processing_row in Hchk. rewrite Hchk, (any_tenant w _ Ht). simpl. by rewrite lookup_insert_eq.
Qed.

(** *** Columns *)
Lemma check_numbers r : check_transfer r = Ok tt → int4 (ft_attempts r) = true ∧ bigint_text (ft_sizeBytes r) = true.
Proof. unfold check_transfer. repeat case_match; try done. intros _. by apply andb_true_iff. Qed.

Lemma check_lifecycle st n e now r :
  check_transfer r = Ok tt → int4 n = true → pg_text_null e = true →
  check_transfer (touch now (upd_lifecycle st n e r)) = Ok tt.
Proof.
  intros Hr Hn He. destruct (check_numbers r Hr) as [_ Hs]. revert Hr. unfold check_transfer. simpl. rewrite Hn, Hs, He.
  case_match eqn:Ht; [done|]. apply negb_false_iff in Ht. rewrite !andb_true_iff in Ht.
  destruct_and!. repeat match goal with H : _ = true |- _ => rewrite H; clear H end. simpl. by case_match.
Qed.

Lemma note_text n : pg_text (exhausted_note n) = true.
Proof.
  unfold pg_text, exhausted_note. rewrite !no_char_app. unfold number_to_string.
  by rewrite (pretty_Z_no_char "000"%char (shortest n) eq_refl).
Qed.

Lemma recovered_check rv now r : check_transfer r = Ok tt → check_transfer (recovered_row rv now r) = Ok tt.
Proof.
  intros Hr. apply check_lifecycle; [done| |exact (note_text _)].
  by apply check_numbers.
Qed.

Lemma represents_settled id r t : represents id r t → settled (t_phase t) = TransferStatus.terminal (ft_status r).
Proof. intros (_ & _ & _ & Hs). destruct Hs as [Hs|Hs|k Hs|m Hs]; by rewrite Hs. Qed.

(** *** What holds between the rounds *)
Definition sane (w : world) (L : ledger) : Prop := sys_inv w ∧ reflects w L ∧ none_ahead (w_db w).

Lemma attempt_stamps ps job n fs w : keeps_stamps (w_db w) (w_db (crash n fs (attempt ps job) w)).
Proof.
  assert (Hpre : PreOrder (λ w w' : world, keeps_stamps (w_db w) (w_db w'))).
  { split; [by intros w'|]. intros w1 w2 w3 H12 H23. by etrans. }
  apply (rg_crash_trans eq (λ w w' : world, keeps_stamps (w_db w) (w_db w')) _ (λ _ _, True)).
  apply (all_ops_rg (conduct_op keeps_stamps)).
  - intros X op Hop f w'. by apply (conduct_perform keeps_stamps).
  - apply attempt_conducts. by intros x d.
Qed.

Lemma attempt_evolves ps job n fs w : evolve w (crash n fs (attempt ps job) w).
Proof.
  apply (rg_crash_trans eq evolve _ (λ _ _, True)). apply (all_ops_rg evolving_op); [by intros X op Hop f w'; apply Hop|].
  apply (attempt_evolving ps job).
Qed.

(** The attempt, wherever it dies, has counted itself; the other entries are as before. *)
Lemma attempt_counts ps id job fs n r w L :
  sane w L → claims id job fs n → row id w = Some r → ft_status r ≠ TransferStatus.SUCCESS →
  int4 (ft_attempts r + 1) = true →
  let w1 := crash n fs (attempt ps job) w in
  ∃ L1 r1, sane w1 L1 ∧ d_now (w_db w1) = d_now (w_db w) ∧ row id w1 = Some r1 ∧
    (ft_attempts r < ft_attempts r1)%Z ∧ ∀ j, j ≠ id → L1 !! j = L !! j.
Proof.
  intros (Hinv & HL & Hst) Hcl Hr Hns Hint w1.
  destruct Hinv as [Hwf Hob]. pose proof (wf_ids _ Hwf _ _ Hr) as Hid. pose proof HL as (HT & _ & _).
  pose proof (claimed_row ps id job fs n r w Hcl HT Hr Hid Hns
    (check_lifecycle _ _ None _ _ (wf_checks _ Hwf _ _ Hr) Hint eq_refl)) as H3.
  assert (Hrg : rg (follows (work_on id)) (follows (work_on id)) (attempt ps job) (λ _ _, True) w).
  { eapply attempt_rg; [exact HL|]. rewrite (cl_names _ _ _ _ Hcl). apply may_work_on. }
  destruct (rg_crash_trans _ _ _ _ _ 3 fs Hrg L HL) as (L3 & Hm3 & HL3).
  pose proof (cl_lives _ _ _ _ Hcl) as Hn. pose proof (crash_later _ _ _ _ _ fs 3 (n - 3) Hrg) as Hlater.
  replace (3 + (n - 3))%nat with n in Hlater by lia.
  destruct (Hlater L3 HL3) as (L1 & Hm1 & HL1). fold w1 in HL1.
  destruct (work_history _ _ _ Hm3) as [Ho3 _]. destruct (work_history _ _ _ Hm1) as [Ho1 Hi1].
  destruct (table_reflects_lookup _ _ _ _ (proj2 (proj2 HL3)) H3) as (t3 & Ht3 & _ & _ & Ha3 & _).
  destruct (Hi1 _ Ht3) as (t1 & Ht1 & Hle).
  destruct (table_reflects_entry _ _ _ _ (proj2 (proj2 HL1)) Ht1) as (r1 & Hr1 & _ & _ & Ha1 & _).
  pose proof (attempt_stamps ps job n fs w) as Hcd. fold w1 in Hcd.
  exists L1, r1. split_and!; [|apply Hcd|done| |].
  - split_and!; [by apply (attempt_evolves ps job n fs w)|done|by apply Hcd].
  - rewrite <- Ha1. rewrite Ha3 in Hle. simpl in Hle. lia.
  - intros j Hj. rewrite Ho1, Ho3 by done. done.
Qed.

(** ** The sweep after a restart *)

(** The process is started again some time after it died. *)
Definition restart (pause : Z) (w : world) : world :=
  set_proc boot_proc (set_clock (d_now (w_db w) + pause) w).

Lemma restart_sane pause w L : (0 ≤ pause)%Z → sane w L → sane (restart pause w) L.
Proof.
  intros Hp ([Hwf Hob] & HL & Hst). split_and!; [by split|done|].
  intros i r Hr. specialize (Hst i r Hr). simpl. lia.
Qed.

(** The other transfers that are not settled. *)
Definition others (id : string) (m : gmap string FileTransfer) : gset string :=
  dom (filter (λ p, p.1 ≠ id ∧ TransferStatus.terminal (ft_status p.2) = false) m).

Lemma elem_of_others id m j :
  j ∈ others id m ↔ j ≠ id ∧ ∃ r, m !! j = Some r ∧ TransferStatus.terminal (ft_status r) = false.
Proof.
  unfold others. rewrite elem_of_dom. unfold is_Some. setoid_rewrite map_lookup_filter_Some. simpl. naive_solver.
Qed.

Lemma others_size id m m' :
  (∀ j r', j ≠ id → m' !! j = Some r' → TransferStatus.terminal (ft_status r') = false →
     ∃ r, m !! j = Some r ∧ TransferStatus.terminal (ft_status r) = false) →
  (size (others id m') ≤ size (others id m))%nat.
Proof.
  intros Hm. apply subseteq_size. intros j. rewrite !elem_of_others. intros [Hj (r' & Hr' & Ht)].
  split; [done|]. by eapply Hm.
Qed.

(** All rows the sweep could take fit into its batch. *)
Lemma sweep_reaches rv id w r :
  wf_transfers (d_transfers (w_db w)) → d_tenant (w_db w) = None →
  (Z.of_nat (size (others id (d_transfers (w_db w)))) < rv_batchSize rv)%Z →
  row id w = Some r → TransferStatus.terminal (ft_status r) = false →
  (ft_updatedAt r < d_now (w_db w) - rv_staleMs rv)%Z → r ∈ stuck_rows (w_db w) rv.
Proof.
  intros Hwf Ht Hsize Hr Hopen Hold. set (d := w_db w) in *.
  set (l := isort by_updatedAt (List.filter (stuck_where (d_now d - rv_staleMs rv)) (visible_transfers d))).
  set (rv' := mkRecoveryConfig true (rv_staleMs rv) (Z.of_nat (length l)) 0).
  assert (Hall : stuck_rows d rv' = l) by (unfold stuck_rows; simpl; rewrite Nat2Z.id; by apply firstn_all).
  assert (Hlen : (length l ≤ S (size (others id (d_transfers d))))%nat).
  { pose proof (stuck_rows_NoDup d rv' Hwf) as Hnd. rewrite Hall in Hnd.
    rewrite <- (length_map ft_id), <- (size_list_to_set (C := gset string) _ Hnd).
    transitivity (size ({[id]} ∪ others id (d_transfers d))).
    - apply subseteq_size. intros j. rewrite elem_of_list_to_set, list_elem_of_fmap. intros (s & -> & Hs).
      rewrite <- Hall in Hs. destruct (stuck_rows_spec d rv' s Hwf Hs) as (Hs' & Hop & _).
      rewrite elem_of_union, elem_of_singleton, elem_of_others. destruct (decide (ft_id s = id)); [auto|]. right. eauto.
    - rewrite size_union_alt, size_singleton. apply le_n_S, subseteq_size. set_solver. }
  unfold stuck_rows. fold l. rewrite take_ge by lia. unfold l.
  rewrite elem_of_isort, list_elem_of_In, filter_In, <- list_elem_of_In, elem_of_visible.
  split; [split; [by exists id|by apply any_tenant]|]. unfold stuck_where.
  apply andb_true_iff. split; [|by apply Z.ltb_lt].
  destruct (ft_status r); try done; by rewrite !bool_decide_true.
Qed.

(** What a sweep makes of a row. *)
Lemma swept_row rv w id :
  wf_transfers (d_transfers (w_db w)) →
  row id (swept rv w) = (λ r, if bool_decide (r ∈ stuck_rows (w_db w) rv) && hopeless rv r
                              then recovered_row rv (d_now (w_db w)) r else r) <$> row id w.
Proof.
  intros Hwf. unfold row. simpl.
  assert (Hl : ∀ r, r ∈ stuck_rows (w_db w) rv → d_transfers (w_db w) !! ft_id r = Some r)
    by (intros r Hr; by apply (stuck_rows_spec _ rv r Hwf Hr)).
  destruct (d_transfers (w_db w) !! id) as [r|] eqn:Hr; simpl.
  - rewrite <- (wf_ids _ Hwf _ _ Hr) in Hr |- *. apply fail_all_lookup; [by apply stuck_rows_NoDup|done|done].
  - rewrite fail_all_other; [done|]. intros (r & -> & Hin)%list_elem_of_fmap. by rewrite (Hl r Hin) in Hr.
Qed.

Lemma swept_others rv id w :
  wf_transfers (d_transfers (w_db w)) →
  (size (others id (d_transfers (w_db (swept rv w)))) ≤ size (others id (d_transfers (w_db w))))%nat.
Proof.
  intros Hwf. apply others_size. intros j s Hj Hs Ht. change (row j (swept rv w) = Some s) in Hs.
  rewrite swept_row in Hs by done. apply fmap_Some in Hs as (s0 & Hs0 & ->). exists s0. split; [exact Hs0|].
  by case_match.
Qed.

Lemma ledger_others id w w' L L' :
  reflects w L → reflects w' L' → (∀ j, j ≠ id → L' !! j = L !! j) →
  (size (others id (d_transfers (w_db w'))) ≤ size (others id (d_transfers (w_db w))))%nat.
Proof.
  intros (_ & _ & HL) (_ & _ & HL') Heq. apply others_size. intros j s Hj Hs Ht.
  destruct (table_reflects_lookup _ _ _ _ HL' Hs) as (t & Hte & Hrep). rewrite Heq in Hte by done.
  destruct (table_reflects_entry _ _ _ _ HL Hte) as (s0 & Hs0 & Hrep0). exists s0. split; [done|].
  by rewrite <- (represents_settled _ _ _ Hrep0), (represents_settled _ _ _ Hrep).
Qed.

Lemma sweep_sane rv w L :
  sane w L → rv_enabled rv = true → p_running (w_proc w) = false →
  (exec (sweep rv) w).2 = swept rv w ∧ ∃ L', sane (swept rv w) L'.
Proof.
  intros ([Hwf Hob] & HL & Hst) Hen Hrun. pose proof HL as (HT & _).
  assert (Hex : exec (sweep rv) w = (Ok tt, swept rv w)).
  { apply sweep_exec; try done. intros r Hr _. apply recovered_check, (wf_checks _ Hwf (ft_id r)).
    by apply (stuck_rows_spec _ rv r Hwf Hr). }
  rewrite Hex. split; [done|]. pose proof (proj2 (exec_outcome (sweep rv) w)) as Hf. rewrite Hex in Hf. simpl in Hf.
  assert (Hfo : follows (λ _ _ _ _, True) w (swept rv w)).
  { rewrite <- Hf. eapply (rg_final_trans (follows (λ _ _ _ _, True)) _).
    apply lawful_rg, sweep_lawful. auto. }
  destruct (Hfo L HL) as (L' & _ & HL'). exists L'. split_and!; [|done|].
  - assert (He : evolve w (swept rv w)); [|by apply He]. rewrite <- Hf.
    apply (rg_final_trans eq evolve _ (λ _ _, True)). apply (all_ops_rg evolving_op); [by intros X op Hop f w'; apply Hop|].
    change (Evolving (sweep rv)). apply _.
  - intros i r' Hr'. change (row i (swept rv w) = Some r') in Hr'. rewrite swept_row in Hr' by done.
    apply fmap_Some in Hr' as (r & Hr & ->). specialize (Hst i r Hr). simpl. by case_match.
Qed.

(** ** Rounds *)

(** An attempt at the transfer that dies, and the pause until the restart. *)
Record death := mkDeath {
  dt_job : Job;
  dt_faults : list fault;
  dt_operations : nat;
  dt_pause : Z;
}.

(** The world that the sweep of a round finds, and the one it leaves. *)
Definition restarted (ps : ProcessorConfig) (w : world) (x : death) : world :=
  restart (dt_pause x) (crash (dt_operations x) (dt_faults x) (attempt ps (dt_job x)) w).

Definition round (ps : ProcessorConfig) (rv : RecoveryConfig) (w : world) (x : death) : world :=
  (exec (sweep rv) (restarted ps w x)).2.

Definition rounds (ps : ProcessorConfig) (rv : RecoveryConfig) : world → list death → world := foldl (round ps rv).

(** The attempt gets to claim its row, and the pause makes it stale. *)
Definition fatal (rv : RecoveryConfig) (id : string) (x : death) : Prop :=
  claims id (dt_job x) (dt_faults x) (dt_operations x) ∧ (0 ≤ rv_staleMs rv < dt_pause x)%Z.

(** The sweep of the round adds to the queue it finds, and what it adds has a job for the transfer. *)
Definition redriven (ps : ProcessorConfig) (rv : RecoveryConfig) (id : string) (w : world) (x : death) : Prop :=
  ∃ jobs, w_queue (round ps rv w x) = w_queue (restarted ps w x) ++ jobs ∧ retry_job (rv_maxAttempts rv) id ∈ jobs.

Definition finished (id : string) (w : world) : Prop :=
  ∃ r, row id w = Some r ∧ TransferStatus.terminal (ft_status r) = true.

Definition unfinished (rv : RecoveryConfig) (id : string) (n : Z) (w : world) : Prop :=
  ∃ r, row id w = Some r ∧ TransferStatus.terminal (ft_status r) = false ∧ (n ≤ ft_attempts r < rv_maxAttempts rv)%Z.

(** What the rounds need of the world they start in. *)
Definition prepared (rv : RecoveryConfig) (id : string) (w : world) : Prop :=
  (∃ L, sane w L) ∧ (Z.of_nat (size (others id (d_transfers (w_db w)))) < rv_batchSize rv)%Z.

Lemma round_progress ps rv id x n w :
  rv_enabled rv = true → (rv_maxAttempts rv < 2 ^ 31)%Z → (0 ≤ n)%Z →
  prepared rv id w → fatal rv id x → unfinished rv id n w →
  let w' := round ps rv w x in
  prepared rv id w' ∧ (finished id w' ∨ unfinished rv id (n + 1) w' ∧ redriven ps rv id w x).
Proof.
  intros Hen Hmax Hn [[L HL] Hsize] [Hcl Hpause] (r & Hr & Hop & Hlo) w'.
  assert (Hint : int4 (ft_attempts r + 1) = true) by (unfold int4; apply andb_true_iff; split; lia).
  assert (Hns : ft_status r ≠ TransferStatus.SUCCESS) by (by intros Hs; rewrite Hs in Hop).
  destruct (attempt_counts ps id _ _ _ r w L HL Hcl Hr Hns Hint) as (L1 & r1 & HL1 & Hnow & Hr1 & Hlt & Hoth).
  unfold redriven, w', round, restarted. set (w1 := crash _ _ _ w) in *. set (w2 := restart (dt_pause x) w1).
  assert (HL2 : sane w2 L1) by (apply restart_sane; [lia|done]).
  destruct (sweep_sane rv w2 L1 HL2 Hen eq_refl) as [-> [L3 HL3]].
  pose proof HL2 as ([Hwf2 _] & (HT2 & _) & _).
  assert (Hs2 : (size (others id (d_transfers (w_db w2))) ≤ size (others id (d_transfers (w_db w))))%nat)
    by (apply (ledger_others id w w1 L L1); [apply HL|apply HL1|done]).
  split.
  - split; [by exists L3|]. apply Z.le_lt_trans with (2 := Hsize), inj_le. etrans; [|exact Hs2]. by apply swept_others.
  - pose proof (swept_row rv w2 id Hwf2) as Hrow. change (row id w2) with (row id w1) in Hrow. rewrite Hr1 in Hrow.
    destruct (TransferStatus.terminal (ft_status r1)) eqn:Hterm.
    { left. exists (if bool_decide (r1 ∈ stuck_rows (w_db w2) rv) && hopeless rv r1
                    then recovered_row rv (d_now (w_db w2)) r1 else r1). split; [exact Hrow|]. by case_match. }
    assert (Hin : r1 ∈ stuck_rows (w_db w2) rv).
    { apply (sweep_reaches rv id); try done; [lia|].
      destruct HL1 as (_ & _ & Hst1). specialize (Hst1 _ _ Hr1). simpl. lia. }
    simpl in Hrow. rewrite (bool_decide_eq_true_2 _ Hin) in Hrow. simpl in Hrow.
    destruct (hopeless rv r1) eqn:Hh; [left; by eexists|right]. apply Z.leb_gt in Hh. split.
    + exists r1. split_and!; [done|done|lia|lia].
    + eexists. split; [reflexivity|].
      rewrite <- (wf_ids _ Hwf2 id r1 Hr1). apply list_elem_of_fmap. exists r1. split; [done|].
      rewrite list_elem_of_In, filter_In, <- list_elem_of_In. split; [done|]. unfold hopeless.
      by rewrite (proj2 (Z.leb_gt _ _) Hh).
Qed.

Lemma rounds_end ps rv id xs n w :
  rv_enabled rv = true → (rv_maxAttempts rv < 2 ^ 31)%Z → (0 ≤ n)%Z →
  prepared rv id w → Forall (fatal rv id) xs → unfinished rv id n w →
  (rv_maxAttempts rv ≤ n + Z.of_nat (length xs))%Z →
  ∃ k, (k ≤ length xs)%nat ∧ finished id (rounds ps rv w (take k xs)) ∧
    ∀ i x, (S i < k)%nat → xs !! i = Some x → redriven ps rv id (rounds ps rv w (take i xs)) x.
Proof.
  intros Hen Hmax. revert n w. induction xs as [|x xs IH]; intros n w Hn Hp Hxs Hu Hlen.
  { destruct Hu as (r & _ & _ & Hb). simpl in Hlen. lia. }
  inversion_clear Hxs as [|? ? Hx Hxs'].
  destruct (round_progress ps rv id x n w Hen Hmax Hn Hp Hx Hu) as [Hp' [Hf|[Hu' Hre]]].
  - exists 1%nat. split_and!; [simpl; lia|exact Hf|]. intros i y Hi. lia.
  - destruct (IH (n + 1)%Z (round ps rv w x)) as (k & Hk & Hf & Hall); [lia|done..|simpl in Hlen; lia|].
    exists (S k). split_and!; [simpl; lia|exact Hf|]. intros [|i] y Hi Hy; [by injection Hy as <-|].
    apply (Hall i y); [lia|exact Hy].
Qed.
End attempts.

(** C12: A file that kills the worker is given up.  Let every attempt at a transfer die, at any
    point after it claimed the row and with any further faults, the process be started again
    after a pause of more than [staleMs], and the sweep, which is enabled, run then without
    faults or other handlers.  From a state with the invariants of the system, no row of it
    written in the future, with a limit below 2^31, which fits the counter's column, and a
    batch that holds all unsettled transfers, the transfer is SUCCESS or FAILED after at most
    as many rounds as attempts were left, and the sweep of each round before the last adds a
    job for the next attempt to the queue it finds. *)
Theorem crash_loop_ends `{!Externals, !Gcm} ps rv id xs r w :
  rv_enabled rv = true → (rv_maxAttempts rv < 2 ^ 31)%Z → prepared rv id w → Forall (fatal rv id) xs →
  row id w = Some r → TransferStatus.terminal (ft_status r) = false →
  (0 ≤ ft_attempts r < rv_maxAttempts rv)%Z →
  (rv_maxAttempts rv - ft_attempts r ≤ Z.of_nat (length xs))%Z →
  ∃ k, (k ≤ length xs)%nat ∧ finished id (rounds ps rv w (take k xs)) ∧
    ∀ i x, (S i < k)%nat → xs !! i = Some x → redriven ps rv id (rounds ps rv w (take i xs)) x.
Proof.
  intros Hen Hmax Hp Hxs Hr Hop Hat Hlen.
  apply (rounds_end ps rv id xs (ft_attempts r)); [done|done|lia|done|done| |lia].
  exists r. split_and!; [done|done|lia|lia].
Qed.

Import Demo DemoCipher.

(** A transfer whose worker dies after its fifth operation, again and again. *)
Definition doomed_world : world :=
  set_db (set_outbox {["e1" := mkOutboxEvent "e1" "t1" TRANSFER_JOB (mkTransferJob "t1" [])
                                 OutboxStatus.PENDING 0 500 None]} (w_db demo_world)) demo_world.

Definition doomed_deaths : list death := replicate 3 (mkDeath demo_job [] 5 200).

Lemma doomed_prepared : prepared demo_recovery "t1" doomed_world.
Proof.
  split; [|vm_compute; reflexivity]. exists demo_ledger. split_and!; [split; [exact demo_row_wf|split_and!]|..].
  - intros i e He. change (d_outbox (w_db doomed_world)) with (d_outbox (w_db one_event_world)) in He.
    by apply (proj1 (proj2 one_event_inv)).
  - intros i r Hr. apply (lookup_singleton_Some "t1" i demo_row r) in Hr as [<- <-]. by eexists "e1", _.
  - intros i e He. change (d_outbox (w_db doomed_world)) with (d_outbox (w_db one_event_world)) in He.
    intros Hp. destruct (proj2 (proj2 (proj2 one_event_inv)) i e He Hp) as (j & Hj & _). by apply elem_of_nil in Hj.
  - exact demo_reflects.
  - intros i r Hr. by apply (lookup_singleton_Some "t1" i demo_row r) in Hr as [<- <-].
Qed.

Lemma crash_loop_ends_witness :
  ∃ k, (k ≤ 3)%nat ∧ finished "t1" (rounds demo_config demo_recovery doomed_world (take k doomed_deaths)) ∧
    ∀ i x, (S i < k)%nat → doomed_deaths !! i = Some x →
      redriven demo_config demo_recovery "t1" (rounds demo_config demo_recovery doomed_world (take i doomed_deaths)) x.
Proof.
  apply (crash_loop_ends demo_config demo_recovery "t1" doomed_deaths demo_row doomed_world eq_refl).
  - reflexivity.
  - exact doomed_prepared.
  - repeat (constructor; [by repeat split; simpl; try lia|]). constructor.
  - reflexivity.
  - reflexivity.
  - simpl. lia.
  - simpl. lia.
Defined.

(** ...and it takes all three of them. *)
Lemma doomed_ends_failed :
  ft_status <$> row "t1" (rounds demo_config demo_recovery doomed_world doomed_deaths) = Some TransferStatus.FAILED ∧
  w_queue (rounds demo_config demo_recovery doomed_world doomed_deaths) = [retry_job 3 "t1"; retry_job 3 "t1"].
Proof. vm_compute. split; reflexivity. Qed.
