(* ===== verification/Tracing.v ===== *)
(** * Tracing ([tracing.ts], the span of [ingestion.processor.ts], the carrier of
    [ingestion.service.ts])

    Three pieces.  At load, [tracing.ts] decides from the environment whether to start
    the OpenTelemetry SDK, with what settings, and listens for the signals that shut it
    down.  The webhook injects its trace context into the job's carrier.  The worker
    extracts it and runs the job in a span.

    The OpenTelemetry API is a parameter: [Propagation] has the propagator, with the two
    laws that its documentation gives ([PropagationLaws]); a span is the list of the calls made on
    it. *)
From S2P Require Import Prelude JsLang Config Entities Database Prog World Repository Outbox Ingestion.
From S2P Require Import Quota Routing Storage Crypto Pipeline Events Processor Transfers System Delivery.

(** ** Starting the SDK *)
Definition otel_isEnabled (e : env) : bool :=
  existsb (String.eqb (toLowerCase (nullish (e !! "OTEL_ENABLED") ""))) truthy_spellings.

Record SdkOptions := mkSdk {
  sdk_serviceName : string;
  sdk_exporterUrl : string;
  sdk_disabledInstrumentations : list string;
}.

Definition sdk_options (e : env) : option SdkOptions :=
  if otel_isEnabled e then
    let endpoint := nullish (e !! "OTEL_EXPORTER_OTLP_ENDPOINT") "http://jaeger:4318" in
    Some (mkSdk (nullish (e !! "OTEL_SERVICE_NAME") "s3-syncbridge") (endpoint +:+ "/v1/traces")
                ["@opentelemetry/instrumentation-fs"])
  else None.

(** *** Shutdown: [process.once] removes its listener before it calls it. *)
Record signal_state := mkSignals {
  sg_listeners : list string;   (** the signals [shutdown] listens to *)
  sg_shutdowns : nat;           (** calls of [sdk.shutdown()]; its rejection is dropped *)
}.

Definition process_once (signal : string) (s : signal_state) : signal_state :=
  mkSignals (sg_listeners s ++ [signal]) (sg_shutdowns s).

Definition tracing_load (e : env) : signal_state :=
  let s := mkSignals [] 0 in
  match sdk_options e with
  | Some _ => process_once "SIGINT" (process_once "SIGTERM" s)
  | None => s
  end.

Definition emit (s : signal_state) (signal : string) : signal_state :=
  if decide (signal ∈ sg_listeners s)
  then mkSignals (filter (.≠ signal) (sg_listeners s)) (S (sg_shutdowns s))
  else s.

(** ** Propagation *)
Abbreviation carrier := (list (string * string)).

Class Propagation := {
  context : Type;
  trace_of : context → option string;         (** the trace a context belongs to *)
  inject : context → carrier;                 (** [propagation.inject] into a fresh object *)
  extract : context → carrier → context;
}.

(** Extracting from a carrier restores the injected trace, whatever context is active;
    from an empty one it leaves the active context as it is. *)
Class PropagationLaws `{!Propagation} : Prop := {
  extract_inject c d t : trace_of d = Some t → trace_of (extract c (inject d)) = Some t;
  extract_empty c : extract c [] = c;
}.

(** ** Spans *)
Inductive attribute := AString (s : string) | ANumber (z : Z).

Inductive span_call :=
  | SetAttribute (key : string) (value : attribute)
  | RecordException (err : exn)
  | SetStatusError
  | EndSpan.

(** An [async] function with a span at hand: it makes calls on the span, also on its way
    out with an exception. *)
Definition spanned (A : Type) : Type := list span_call → P (list span_call * result A).

Definition sp_do (c : span_call) : spanned unit := λ l, Ret (l ++ [c], Ok tt).
Definition sp_throw {A} (e : exn) : spanned A := λ l, Ret (l, Err e).
Definition sp_bind {A B} (m : spanned A) (f : A → spanned B) : spanned B := λ l,
  r <- m l ;; match r.2 with Ok a => f a r.1 | Err e => Ret (r.1, Err e) end.
Definition sp_lift {A} (p : P A) : spanned A := λ l,
  r <- catch_ (a <- p ;; Ret (Ok a)) (λ e, Ret (Err e)) ;; Ret (l, r).
Definition sp_catch {A} (m : spanned A) (h : exn → spanned A) : spanned A := λ l,
  r <- m l ;; match r.2 with Ok a => Ret r | Err e => h e r.1 end.
Definition sp_finally {A} (m : spanned A) (fin : spanned unit) : spanned A := λ l,
  r <- m l ;; r' <- fin r.1 ;;
  Ret (r'.1, match r'.2 with Ok _ => r.2 | Err e => Err e end).

Section spans.
Context `{!Externals, !Gcm, !Propagation}.

(** [propagation.extract(context.active(), job.data.carrier ?? {})] *)
Definition parent_context (active : context) (job : Job) : context :=
  extract active (tj_carrier (job_data job)).

(** The callback of [startActiveSpan('transfer.process', ..)]. *)
Definition process_span (ps : ProcessorConfig) (job : Job) : spanned unit :=
  sp_bind (sp_do (SetAttribute "transfer.id" (AString (tj_transferId (job_data job))))) (λ _,
  sp_bind (sp_do (SetAttribute "transfer.attempt" (ANumber (job_attemptsMade job + 1)))) (λ _,
  sp_finally
    (sp_catch (sp_lift (runTransfer ps job))
      (λ err, sp_bind (sp_do (RecordException err)) (λ _,
              sp_bind (sp_do SetStatusError) (λ _, sp_throw err))))
    (sp_do EndSpan))).

(** The calls on the span of a job that ended in [r]. *)
Definition span_of (job : Job) (r : result unit) : list span_call :=
  [SetAttribute "transfer.id" (AString (tj_transferId (job_data job)));
   SetAttribute "transfer.attempt" (ANumber (job_attemptsMade job + 1))] ++
  match r with Ok _ => [] | Err e => [RecordException e; SetStatusError] end ++ [EndSpan].

(** [IngestionService.accept] in the trace context of its request. *)
Definition accept_in (ctx : context) (ic : IngestionConfig) (payload : SftpgoWebhookDto) : P AcceptOutcome :=
  accept ic (inject ctx) payload.
End spans.

(** ** Facts *)
(** The switch reads the variable as the configuration reads its own. *)
Lemma otel_isEnabled_bool e : otel_isEnabled e = bool_ (e !! "OTEL_ENABLED") false.
Proof. unfold otel_isEnabled, bool_. by destruct (e !! "OTEL_ENABLED"). Qed.

Lemma filter_same {A} (Q Q' : A → Prop) `{!∀ x, Decision (Q x), !∀ x, Decision (Q' x)} (l : list A) :
  (∀ x, x ∈ l → Q x ↔ Q' x) → filter Q l = filter Q' l.
Proof.
  intros Hq. induction l as [|x l IH]; [done|]. rewrite !filter_cons.
  rewrite (IH (λ y Hy, Hq y (list_elem_of_further _ _ _ Hy))). specialize (Hq x (list_elem_of_here _ _)).
  repeat case_decide; tauto.
Qed.

Lemma filter_remove (x : string) ls :
  NoDup ls → x ∈ ls → S (length (filter (.≠ x) ls)) = length ls.
Proof.
  induction 1 as [|y ls Hy Hnd IH]; [set_solver|]. intros Hx. rewrite filter_cons. case_decide as Hne; simpl.
  - rewrite IH; [done|]. set_solver.
  - subst y. f_equal. rewrite (filter_same (.≠ x) (λ _, True)) by (intros z Hz; split; [done|intros _ ->; done]).
    clear. induction ls as [|z ls IH]; [done|]. rewrite filter_cons. simpl. by rewrite IH.
Qed.

(** Each listener that heard its signal is gone, and shut down once. *)
Lemma emits_spec ls signals :
  NoDup ls →
  let s := foldl emit (mkSignals ls 0) signals in
  sg_listeners s = filter (.∉ signals) ls ∧ (sg_shutdowns s + length (sg_listeners s))%nat = length ls.
Proof.
  intros Hnd. induction signals as [|x signals IH] using rev_ind; simpl.
  { assert (Hall : filter (.∉ []) ls = ls); [|done].
    clear. induction ls as [|z ls IH]; [done|]. rewrite filter_cons, decide_True by set_solver. by rewrite IH. }
  rewrite foldl_snoc. destruct (foldl emit _ signals) as [l n]. simpl in IH. destruct IH as [-> Hlen].
  unfold emit. simpl. case_decide as Hx; simpl.
  - split; [|pose proof (filter_remove x _ (NoDup_filter _ _ Hnd) Hx); lia].
    rewrite list_filter_filter. apply filter_same. set_solver.
  - split; [|done]. apply filter_same. intros y Hy.
    rewrite list_elem_of_filter in Hx. set_solver.
Qed.

Lemma tracing_shutdowns e signals :
  sg_shutdowns (foldl emit (tracing_load e) signals) =
  if otel_isEnabled e
  then length (filter (.∈ signals) ["SIGTERM"; "SIGINT"]) else 0%nat.
Proof.
  unfold tracing_load, sdk_options. destruct (otel_isEnabled e); simpl.
  - change (process_once "SIGINT" _) with (mkSignals ["SIGTERM"; "SIGINT"] 0).
    destruct (emits_spec ["SIGTERM"; "SIGINT"] signals) as [Hl Hn]; [repeat constructor; set_solver|].
    rewrite Hl in Hn. rewrite !filter_cons, !filter_nil in Hn |- *. repeat case_decide; simpl in *; (lia || tauto).
  - destruct (emits_spec [] signals) as [Hl Hn]; [constructor|]. rewrite Hl in Hn. simpl in Hn. lia.
Qed.

(** *** The span, over any run *)
Section runs.
Context `{!Externals, !Gcm}.

Lemma sp_lift_run {A} (p : P A) l fs w :
  run fs (sp_lift p l) w = (Ok (l, outcome fs p w), final fs p w, (run fs p w).2).
Proof.
  unfold sp_lift, outcome, final. rewrite run_bind, run_catch, run_bind.
  destruct (run fs p w) as [[[a|e] w'] fs']; done.
Qed.

Lemma sp_bind_do {B} c (f : unit → spanned B) l : sp_bind (sp_do c) f l = f tt (l ++ [c]).
Proof. done. Qed.

Lemma process_span_run ps job fs w :
  run fs (process_span ps job []) w =
  (Ok (span_of job (outcome fs (process ps job) w), outcome fs (process ps job) w),
   final fs (process ps job) w, (run fs (process ps job) w).2).
Proof.
  assert (Hp : run fs (process ps job) w = run fs (runTransfer ps job) w).
  { unfold process. rewrite run_catch. by destruct (run fs (runTransfer ps job) w) as [[[] ?] ?]. }
  unfold outcome, final. rewrite Hp. unfold process_span.
  rewrite !sp_bind_do. unfold sp_finally, sp_catch. rewrite !run_bind, sp_lift_run. unfold outcome, final.
  destruct (run fs (runTransfer ps job) w) as [[[[]|e] w'] fs']; done.
Qed.
End runs.

(** C30: The worker's span joins the webhook's trace and tells how the job ended.  Let a
    webhook be accepted in a trace, and the relay work off the outbox, both under whatever
    faults.  Then the queue has a job for the upload whose span has a parent of the same
    trace.  Running any job in its span, under whatever faults, does what running it does;
    the calls on the span are the two attributes, the exception and the ERROR status
    exactly when the job threw, and one [end], last.  A job enqueued again by hand, which
    has no carrier, is in the trace of its worker. *)
Theorem spans_join_the_trace `{!Externals, !Gcm, !GcmLaws, !Propagation, !PropagationLaws}
    ic ctx active trace p w fs fss :
  sys_inv w → p_relaying (w_proc w) = false →
  outcome fs (accept_in ctx ic p) w = Ok ACCEPTED → trace_of ctx = Some trace →
  let w1 := final fs (accept_in ctx ic p) w in
  (backlog w1 ≤ RELAY_BATCH * clean_passes fss)%nat →
  let w2 := relay_passes fss w1 in
  (∃ j row, j ∈ w_queue w2 ∧ d_transfers (w_db w2) !! tj_transferId (job_data j) = Some row ∧
     ft_virtualPath row = wh_virtual_path p ∧ trace_of (parent_context active j) = Some trace) ∧
  (∀ ps job fs' w',
     run fs' (process_span ps job []) w' =
     (Ok (span_of job (outcome fs' (process ps job) w'), outcome fs' (process ps job) w'),
      final fs' (process ps job) w', (run fs' (process ps job) w').2)) ∧
  (∀ id maxAttempts, parent_context active (retry_job maxAttempts id) = active).
Proof.
  intros Hinv Hb Hout Htr w1 Hn w2. split_and!; [|intros; apply process_span_run|intros; apply extract_empty].
  destruct (accepted_stored ic (inject ctx) p w fs Hinv Hout) as (src & t & d' & Ha & Hc & Hw1 & Hinv1).
  change (final fs (accept ic (inject ctx) p) w) with w1 in Hw1. rewrite <- Hw1 in Hinv1.
  destruct (passes_spec fss w1 Hinv1) as (Hi2 & He2 & (_ & Hrows & _) & Hl); [by rewrite Hw1|].
  destruct Hc as (id & eid & -> & _ & _ & Ht & Ho & _).
  set (row := new_transfer (pending_input ic p src) id (d_now (w_db w))) in *.
  destruct (drained_job w1 w2 eid (new_event row (inject ctx) eid (d_now (w_db w))) Hi2 He2) as (j & Hj & Hd);
    [unfold w2; lia|rewrite Hw1; simpl; by rewrite Ho, lookup_insert_eq|].
  exists j, row. rewrite Hd. split_and!; [done| |done|unfold parent_context; rewrite Hd; by apply extract_inject].
  unfold w2. rewrite Hrows, Hw1. simpl. by rewrite Ht, lookup_insert_eq.
Qed.

(** ** Witness *)
Module DemoPropagation.
#[export] Instance propagation : Propagation := {
  context := option string;
  trace_of c := c;
  inject c := match c with Some t => [("traceparent", t)] | None => [] end;
  extract c l := match list_find (λ kv, kv.1 = "traceparent") l with Some (_, kv) => Some kv.2 | None => c end;
}.

#[export] Instance propagation_laws : PropagationLaws.
Proof. split; [|done]. intros c [t|] t' [= ->]. reflexivity. Qed.
End DemoPropagation.

Import Demo DemoCipher DemoPropagation.

Definition demo_trace : @context propagation := Some "4bf9".
Definition demo_active : @context propagation := None.

Lemma spans_join_the_trace_witness :
  let w2 := relay_passes fresh_passes (final [] (accept_in demo_trace demo_ingestion demo_payload) fresh_world) in
  (∃ j, j ∈ w_queue w2 ∧ parent_context demo_active j = Some "4bf9") ∧
  run [] (process_span demo_config demo_job []) demo_world =
    (Ok (span_of demo_job (Ok tt), Ok tt), final [] (process demo_config demo_job) demo_world, []).
Proof.
  intros w2.
  destruct (spans_join_the_trace demo_ingestion demo_trace demo_active "4bf9" demo_payload
    fresh_world [] fresh_passes) as ((j & row & Hj & _ & _ & Ht) & Hrun & _).
  - exact fresh_inv.
  - reflexivity.
  - vm_compute. reflexivity.
  - reflexivity.
  - vm_compute. lia.
  - split; [exists j; split; [exact Hj|exact Ht]|]. rewrite Hrun.
    assert (Ho : outcome [] (process demo_config demo_job) demo_world = Ok tt) by (vm_compute; reflexivity).
    rewrite Ho, exec_run. reflexivity.
Defined.
