(* ===== verification/Modules.v ===== *)
(** * The module graph ([app.module.ts], the [*.module.ts] files, the constructors)

    The program is put together by declarations: a class names what its constructor
    takes, a module names what it provides, imports and exports, and the container
    finds a provider for every dependency, instantiates each once, and hands it out.  Here
    the declarations are data and the container's rule is a function:
    a module sees what it provides, what its imports export, and what global modules export.

    What the modules of the libraries export is a parameter, with the documented tokens
    that the program relies on as its law. *)
From S2P Require Import Prelude Entities.

(** ** Tokens, classes, modules *)
Inductive token :=
  | Cls (name : string)              (** a class of this program *)
  | LibCls (name : string)           (** a class of a library *)
  | QueueToken (queue : string)      (** [@InjectQueue] *)
  | RepositoryToken (entity : string) (** [@InjectRepository] *)
  | MetricToken (metric : string)    (** [@InjectMetric] *)
  | Sym (name : string).             (** a token of this program's own *)

#[global] Instance token_eq_dec : EqDecision token.
Proof. solve_decision. Defined.

(** Something the container constructs: its token and what its constructor or factory takes. *)
Record provider := mkProvider { pv_token : token; pv_needs : list token }.

(** A controller also has guards, which the container constructs for its module. *)
Record controller := mkController { ct_class : provider; ct_guards : list provider }.

Inductive library_module :=
  | Config_forRoot | Logger_forRootAsync | Bull_forRootAsync | Schedule_forRoot | Throttler_forRootAsync
  | TypeOrm_forRootAsync | TypeOrm_forFeature (entities : list string)
  | Bull_registerQueue (queue : string) | Bull_registerQueueAsync (queue : string)
  | Passport_module | Jwt_registerAsync | Prometheus_register | Terminus_module
  | Nest_core.   (** what the framework itself provides to every module *)

Inductive module_ref := Own (name : string) | Lib (l : library_module).

#[global] Instance library_module_eq_dec : EqDecision library_module.
Proof. solve_decision. Defined.
#[global] Instance module_ref_eq_dec : EqDecision module_ref.
Proof. solve_decision. Defined.

Record nest_module := mkModule {
  md_name : string;
  md_global : bool;
  md_imports : list module_ref;
  md_controllers : list controller;
  md_providers : list provider;
  md_exports : list token;
}.

Definition class_ (name : string) (needs : list token) : provider := mkProvider (Cls name) needs.
Definition ConfigService : token := LibCls "ConfigService".
Definition DataSource : token := LibCls "DataSource".
Definition Reflector : token := LibCls "Reflector".
Definition S3_CLIENT : token := Sym "S3_CLIENT".
Definition PROCESSING_STEPS_TOKEN : token := Sym "PROCESSING_STEPS".
Definition APP_GUARD : token := Sym "APP_GUARD".

Definition TRANSFER_QUEUE : string := "file-transfers".
Definition DEAD_LETTER_QUEUE : string := "file-transfers-dlq".
Definition WEBHOOK_DELIVERY_QUEUE : string := "webhook-delivery".

(** ** The classes *)
Definition TenantService_class := class_ "TenantService" [ConfigService].
Definition AuthService_class := class_ "AuthService" [RepositoryToken "User"; LibCls "JwtService"; ConfigService].
Definition JwtStrategy_class := class_ "JwtStrategy" [ConfigService].
Definition RolesGuard_class := class_ "RolesGuard" [Reflector].
Definition JwtAuthGuard_class := class_ "JwtAuthGuard" [].
Definition WebhookAuthGuard_class := class_ "WebhookAuthGuard" [ConfigService].
Definition MetricsService_class := class_ "MetricsService"
  [MetricToken "syncbridge_transfers_total"; MetricToken "syncbridge_transfer_bytes_total";
   MetricToken "syncbridge_transfer_duration_seconds"; MetricToken "syncbridge_transfers_in_flight";
   MetricToken "syncbridge_dead_letter_total"; MetricToken "syncbridge_webhook_deliveries_total"].
Definition CryptoService_class := class_ "CryptoService" [ConfigService].
Definition QuotaService_class := class_ "QuotaService" [RepositoryToken "TenantUsage"; ConfigService].
Definition NotificationService_class := class_ "NotificationService" [ConfigService].
Definition EventPublisherService_class := class_ "EventPublisherService"
  [RepositoryToken "EventSubscription"; QueueToken WEBHOOK_DELIVERY_QUEUE; Cls "KafkaProducerService"].
Definition SubscriptionsService_class := class_ "SubscriptionsService" [RepositoryToken "EventSubscription"].
Definition WebhookDeliveryProcessor_class := class_ "WebhookDeliveryProcessor" [Cls "MetricsService"].
Definition StorageService_class := class_ "StorageService" [S3_CLIENT; ConfigService].
Definition KafkaProducerService_class := class_ "KafkaProducerService" [ConfigService].
Definition RedisHealthIndicator_class := class_ "RedisHealthIndicator" [QueueToken TRANSFER_QUEUE].
Definition S3HealthIndicator_class := class_ "S3HealthIndicator" [Cls "StorageService"].
Definition OutboxService_class := class_ "OutboxService" [DataSource; QueueToken TRANSFER_QUEUE].
Definition DeadLetterProcessor_class := class_ "DeadLetterProcessor"
  [Cls "FileTransferRepository"; Cls "NotificationService"; Cls "MetricsService"].
Definition RetentionService_class := class_ "RetentionService" [Cls "FileTransferRepository"; ConfigService].
Definition FileTransferRepository_class := class_ "FileTransferRepository" [RepositoryToken "FileTransfer"].
Definition ValidationStep_class := class_ "ValidationStep" [ConfigService].
Definition QuotaStep_class := class_ "QuotaStep" [Cls "QuotaService"].
Definition AntivirusStep_class := class_ "AntivirusStep" [ConfigService].
Definition ContentTypeStep_class := class_ "ContentTypeStep" [].
Definition ProcessingPipeline_class := class_ "ProcessingPipeline" [PROCESSING_STEPS_TOKEN].
Definition TransfersService_class := class_ "TransfersService"
  [DataSource; QueueToken TRANSFER_QUEUE; Cls "StorageService"; Cls "CryptoService"].
Definition RoutingService_class := class_ "RoutingService" [ConfigService].
Definition RecoveryService_class := class_ "RecoveryService"
  [Cls "FileTransferRepository"; QueueToken TRANSFER_QUEUE; ConfigService].
Definition IngestionService_class := class_ "IngestionService"
  [Cls "OutboxService"; Cls "TenantService"; ConfigService].
Definition IngestionProcessor_class := class_ "IngestionProcessor"
  [Cls "FileTransferRepository"; Cls "StorageService"; Cls "ProcessingPipeline"; Cls "RoutingService";
   Cls "CryptoService"; Cls "EventPublisherService"; Cls "QuotaService"; Cls "MetricsService";
   QueueToken DEAD_LETTER_QUEUE; ConfigService].

(** *** Factories *)
Definition s3ClientProvider : provider := mkProvider S3_CLIENT [ConfigService].
Definition processing_steps_provider : provider :=
  mkProvider PROCESSING_STEPS_TOKEN [Cls "ValidationStep"; Cls "QuotaStep"; Cls "AntivirusStep"; Cls "ContentTypeStep"].
(** [useClass: ThrottlerGuard]: what that class takes is the library's business. *)
Definition throttler_provider : provider := mkProvider APP_GUARD [].
Definition metric_provider (name : string) : provider := mkProvider (MetricToken name) [].

(** *** Controllers *)
Definition user_guards : list provider := [JwtAuthGuard_class; RolesGuard_class].
Definition AuthController_class := mkController (class_ "AuthController" [Cls "AuthService"]) [].
Definition UsersController_class := mkController (class_ "UsersController" [Cls "AuthService"]) user_guards.
Definition AdminUiController_class := mkController (class_ "AdminUiController" []) [].
Definition UsageController_class := mkController (class_ "UsageController" [Cls "QuotaService"]) user_guards.
Definition SubscriptionsController_class :=
  mkController (class_ "SubscriptionsController" [Cls "SubscriptionsService"]) user_guards.
Definition HealthController_class := mkController (class_ "HealthController"
  [LibCls "HealthCheckService"; LibCls "TypeOrmHealthIndicator"; Cls "S3HealthIndicator"; Cls "RedisHealthIndicator"]) [].
Definition IngestionController_class :=
  mkController (class_ "IngestionController" [Cls "IngestionService"]) [WebhookAuthGuard_class].
Definition TransfersController_class :=
  mkController (class_ "TransfersController" [Cls "TransfersService"]) user_guards.

(** ** The modules *)
Definition TenancyModule := mkModule "TenancyModule" true [] [] [TenantService_class] [Cls "TenantService"].

Definition AuthModule := mkModule "AuthModule" false
  [Lib (TypeOrm_forFeature ["User"]); Lib Passport_module; Lib Jwt_registerAsync]
  [AuthController_class; UsersController_class]
  [AuthService_class; JwtStrategy_class; RolesGuard_class] [Cls "RolesGuard"].

Definition MetricsModule := mkModule "MetricsModule" true [Lib Prometheus_register] []
  [MetricsService_class;
   metric_provider "syncbridge_transfers_total";
   metric_provider "syncbridge_transfer_bytes_total";
   metric_provider "syncbridge_transfer_duration_seconds";
   metric_provider "syncbridge_transfers_in_flight";
   metric_provider "syncbridge_dead_letter_total";
   metric_provider "syncbridge_webhook_deliveries_total"]
  [Cls "MetricsService"].

Definition AdminUiModule := mkModule "AdminUiModule" false [] [AdminUiController_class] [] [].
Definition CryptoModule := mkModule "CryptoModule" true [] [] [CryptoService_class] [Cls "CryptoService"].
Definition QuotaModule := mkModule "QuotaModule" true [Lib (TypeOrm_forFeature ["TenantUsage"])]
  [UsageController_class] [QuotaService_class] [Cls "QuotaService"].
Definition NotificationsModule := mkModule "NotificationsModule" true [] []
  [NotificationService_class] [Cls "NotificationService"].

Definition EventsModule := mkModule "EventsModule" false
  [Lib (TypeOrm_forFeature ["EventSubscription"]); Lib (Bull_registerQueue WEBHOOK_DELIVERY_QUEUE)]
  [SubscriptionsController_class]
  [EventPublisherService_class; SubscriptionsService_class; WebhookDeliveryProcessor_class]
  [Cls "EventPublisherService"].

Definition StorageModule := mkModule "StorageModule" true [] []
  [s3ClientProvider; StorageService_class] [Cls "StorageService"].
Definition KafkaModule := mkModule "KafkaModule" true [] []
  [KafkaProducerService_class] [Cls "KafkaProducerService"].

Definition HealthModule := mkModule "HealthModule" false
  [Lib Terminus_module; Lib (Bull_registerQueue TRANSFER_QUEUE)]
  [HealthController_class] [S3HealthIndicator_class; RedisHealthIndicator_class] [].

Definition OutboxModule := mkModule "OutboxModule" false
  [Lib (TypeOrm_forFeature ["OutboxEvent"]); Lib (Bull_registerQueue TRANSFER_QUEUE)]
  [] [OutboxService_class] [Cls "OutboxService"].

Definition DatabaseModule := mkModule "DatabaseModule" false [Lib TypeOrm_forRootAsync] [] [] [].

Definition IngestionModule := mkModule "IngestionModule" false
  [Lib (TypeOrm_forFeature ["FileTransfer"]); Lib (Bull_registerQueueAsync TRANSFER_QUEUE);
   Lib (Bull_registerQueue DEAD_LETTER_QUEUE); Own "OutboxModule"; Own "EventsModule"]
  [IngestionController_class; TransfersController_class]
  [IngestionService_class; IngestionProcessor_class; DeadLetterProcessor_class; FileTransferRepository_class;
   RecoveryService_class; RetentionService_class; RoutingService_class; TransfersService_class;
   ValidationStep_class; QuotaStep_class; AntivirusStep_class; ContentTypeStep_class; ProcessingPipeline_class;
   processing_steps_provider]
  [].

Definition AppModule := mkModule "AppModule" false
  [Lib Config_forRoot; Lib Logger_forRootAsync; Lib Bull_forRootAsync; Lib Schedule_forRoot;
   Lib Throttler_forRootAsync;
   Own "MetricsModule"; Own "NotificationsModule"; Own "CryptoModule"; Own "TenancyModule"; Own "QuotaModule";
   Own "KafkaModule"; Own "DatabaseModule"; Own "AuthModule"; Own "StorageModule"; Own "IngestionModule";
   Own "HealthModule"; Own "AdminUiModule"]
  [] [throttler_provider] [].

(** The modules under [src/]. *)
Definition source_modules : list nest_module :=
  [AppModule; MetricsModule; NotificationsModule; CryptoModule; TenancyModule; QuotaModule; KafkaModule;
   DatabaseModule; AuthModule; StorageModule; IngestionModule; HealthModule; AdminUiModule; OutboxModule; EventsModule].

(** [@Processor(queue)]: the classes that consume a queue. *)
Definition processors : list (string * string) :=
  [("IngestionProcessor", TRANSFER_QUEUE); ("DeadLetterProcessor", DEAD_LETTER_QUEUE);
   ("WebhookDeliveryProcessor", WEBHOOK_DELIVERY_QUEUE)].

(** ** The container *)

(** What a library's module exports, by its documentation: the tokens the program asks for. *)
Definition documented (l : library_module) : list token :=
  match l with
  | Config_forRoot => [ConfigService]
  | TypeOrm_forRootAsync => [DataSource]
  | TypeOrm_forFeature entities => map RepositoryToken entities
  | Bull_registerQueue q | Bull_registerQueueAsync q => [QueueToken q]
  | Jwt_registerAsync => [LibCls "JwtService"]
  | Terminus_module => [LibCls "HealthCheckService"; LibCls "TypeOrmHealthIndicator"]
  | Nest_core => [Reflector]
  | _ => []
  end.

(** Which of them every module sees without importing them: [isGlobal: true] for the
    configuration, the connection of TypeORM, the framework's own. *)
Definition library_globals : list library_module := [Config_forRoot; TypeOrm_forRootAsync; Nest_core].

(** Tokens that only a registration the program writes can stand behind. *)
Definition particular (t : token) : bool :=
  match t with LibCls _ => false | _ => true end.

Class Libraries := lib_exports : library_module → list token.

Class LibrariesLaw `{!Libraries} : Prop := {
  exports_documented l t : t ∈ documented l → t ∈ lib_exports l;
  exports_particular l t : particular t = true → t ∈ lib_exports l → t ∈ documented l;
}.

Section container.
Context (exports : library_module → list token).

Definition find_module (name : string) : option nest_module :=
  List.find (λ m, String.eqb (md_name m) name) source_modules.

Definition exported (r : module_ref) : list token :=
  match r with
  | Own n => match find_module n with Some m => md_exports m | None => [] end
  | Lib l => exports l
  end.

Definition globals : list module_ref :=
  map (λ m, Own (md_name m)) (filter (λ m, md_global m = true) source_modules) ++ map Lib library_globals.

(** Where module [m] finds token [t]. *)
Definition sites (m : nest_module) (t : token) : list module_ref :=
  (if bool_decide (t ∈ map pv_token (md_providers m)) then [Own (md_name m)] else []) ++
  filter (λ r, t ∈ exported r) (md_imports m ++ globals).

(** Everything the container constructs for a module: providers, controllers, guards. *)
Definition constructed (m : nest_module) : list provider :=
  md_providers m ++ map ct_class (md_controllers m) ++ concat (map ct_guards (md_controllers m)).

Definition needs (m : nest_module) : list token := concat (map pv_needs (constructed m)).

(** One provider for a token: found, and found in one place only. *)
Definition resolves (m : nest_module) (t : token) : bool :=
  match sites m t with
  | [] => false
  | r :: rs => negb (particular t) || forallb (λ r', bool_decide (r' = r)) rs
  end.
End container.

(** *** Construction order

    The providers of a program as nodes: a token in the module that provides it.  [ready] has
    everything constructed that it takes from this program. *)
Abbreviation node := (string * token)%type.

Definition nodes : list node :=
  concat (map (λ m, map (λ p, (md_name m, pv_token p)) (constructed m)) source_modules).

Definition own_needs (m : nest_module) (p : provider) : list node :=
  concat (map (λ t, omap (λ r, match r with Own n => Some (n, t) | Lib _ => None end) (sites documented m t)) (pv_needs p)).

Definition node_needs : list (node * list node) :=
  concat (map (λ m, map (λ p, ((md_name m, pv_token p), own_needs m p)) (constructed m)) source_modules).

(** The container constructs what it can until nothing is left. *)
Fixpoint construct (fuel : nat) (left_ : list (node * list node)) (done_ : list node) : list node :=
  match fuel with
  | 0 => done_
  | S fuel' =>
      let now := filter (λ x, Forall (.∈ done_) x.2) left_ in
      construct fuel' (filter (λ x, ¬ Forall (.∈ done_) x.2) left_) (done_ ++ map fst now)
  end.

Definition construction : list node := construct (length nodes) node_needs [].

(** ** Facts *)
Lemma sites_agree exports exports' m t :
  (∀ l, t ∈ exports l ↔ t ∈ exports' l) → sites exports m t = sites exports' m t.
Proof.
  intros Hl. unfold sites. f_equal. generalize (md_imports m ++ globals). intros rs.
  induction rs as [|r rs IH]; [done|]. rewrite !filter_cons, IH.
  assert (Hr : t ∈ exported exports r ↔ t ∈ exported exports' r) by (destruct r; [done|apply Hl]).
  repeat case_decide; tauto.
Qed.

Lemma sites_mono exports exports' m t :
  (∀ l, t ∈ exports l → t ∈ exports' l) → sites exports m t ≠ [] → sites exports' m t ≠ [].
Proof.
  intros Hl. unfold sites. destruct (bool_decide _); [done|]. simpl.
  generalize (md_imports m ++ globals). intros rs.
  induction rs as [|r rs IH]; [done|]. rewrite !filter_cons.
  assert (Hr : t ∈ exported exports r → t ∈ exported exports' r) by (destruct r; [done|apply Hl]).
  repeat case_decide; try done; tauto.
Qed.

Lemma resolves_law `{!Libraries, !LibrariesLaw} m t : resolves documented m t = true → resolves lib_exports m t = true.
Proof.
  intros Hr. destruct (particular t) eqn:Hp.
  - assert (Hs : sites documented m t = sites lib_exports m t).
    { apply sites_agree. intros l. split; [apply exports_documented|by apply exports_particular]. }
    unfold resolves in *. by rewrite <- Hs.
  - assert (Hs : sites lib_exports m t ≠ []).
    { apply (sites_mono documented); [intros l; apply exports_documented|].
      unfold resolves in Hr. by destruct (sites documented m t). }
    unfold resolves. rewrite Hp. by destruct (sites lib_exports m t).
Qed.

Lemma sites_particular `{!Libraries, !LibrariesLaw} m t :
  particular t = true → sites lib_exports m t = sites documented m t.
Proof.
  intros Hp. apply sites_agree. intros l. split; [by apply exports_particular|apply exports_documented].
Qed.

(** Everything is constructed after what it takes. *)
Fixpoint ordered (seen rest : list node) : bool :=
  match rest with
  | [] => true
  | n :: rest' =>
      forallb (λ x, bool_decide (x.1 = n → Forall (.∈ seen) x.2)) node_needs && ordered (n :: seen) rest'
  end.

Lemma ordered_spec seen rest i n ns d :
  ordered seen rest = true → rest !! i = Some n → (n, ns) ∈ node_needs → d ∈ ns →
  d ∈ seen ∨ ∃ j, (j < i)%nat ∧ rest !! j = Some d.
Proof.
  revert seen i. induction rest as [|m rest IH]; intros seen i; [done|]. cbn [ordered].
  intros [Hm Hrest]%andb_prop Hi Hn Hd. destruct i as [|i]; simpl in Hi.
  - simplify_eq. left. rewrite forallb_forall in Hm. specialize (Hm (n, ns)). rewrite bool_decide_eq_true in Hm.
    assert (Hall : Forall (.∈ seen) ns) by (apply Hm; [by apply list_elem_of_In|done]).
    rewrite Forall_forall in Hall. by apply Hall.
  - destruct (IH (m :: seen) i Hrest Hi Hn Hd) as [[->|Hs]%elem_of_cons|(j & Hj & Hl)].
    + right. exists 0. split; [lia|done].
    + by left.
    + right. exists (S j). split; [lia|done].
Qed.

Lemma all_needs_resolve : forallb (λ m, forallb (resolves documented m) (needs m)) source_modules = true.
Proof. vm_compute. reflexivity. Qed.

Lemma construction_ordered : ordered [] construction = true.
Proof. vm_compute. reflexivity. Qed.

Definition provided : list token := concat (map (λ m, map pv_token (md_providers m)) source_modules).

(** C29: The program can be put together, and in one way.  In every module, everything that a
    provider, a controller or a guard takes is found, and nothing of the program's own
    has two providers to choose from; each provider stands in one module, so there is one
    instance of it.  The container constructs everything, each thing after what it takes.
    The queue of the transfers that the relay adds to is the one registered without
    options; the management API and the recovery use the one with the retry options; each
    queue has one consumer. *)
Theorem modules_wire_up `{!Libraries, !LibrariesLaw} :
  (∀ m t, m ∈ source_modules → t ∈ needs m → resolves lib_exports m t = true) ∧
  NoDup provided ∧
  (∀ n, n ∈ nodes → n ∈ construction) ∧
  (∀ i n ns d, construction !! i = Some n → (n, ns) ∈ node_needs → d ∈ ns →
     ∃ j, (j < i)%nat ∧ construction !! j = Some d) ∧
  sites lib_exports OutboxModule (QueueToken TRANSFER_QUEUE) = [Lib (Bull_registerQueue TRANSFER_QUEUE)] ∧
  sites lib_exports IngestionModule (QueueToken TRANSFER_QUEUE) = [Lib (Bull_registerQueueAsync TRANSFER_QUEUE)] ∧
  (∀ m q, m ∈ source_modules → QueueToken q ∈ needs m →
     ∃ c, List.filter (λ p, String.eqb p.2 q) processors = [(c, q)] ∧ Cls c ∈ provided).
Proof.
  split_and!.
  - intros m t Hm Ht. apply resolves_law. pose proof all_needs_resolve as Hall. rewrite forallb_forall in Hall.
    specialize (Hall m (proj1 (list_elem_of_In _ _) Hm)). rewrite forallb_forall in Hall.
    by apply Hall, list_elem_of_In.
  - apply (bool_decide_unpack _). vm_compute. exact I.
  - apply Forall_forall, (bool_decide_unpack _). vm_compute. exact I.
  - intros i n ns d Hi Hn Hd.
    destruct (ordered_spec [] construction i n ns d construction_ordered Hi Hn Hd) as [Hnil|Hj]; [|exact Hj].
    destruct (not_elem_of_nil _ Hnil).
  - rewrite sites_particular by done. vm_compute. reflexivity.
  - rewrite sites_particular by done. vm_compute. reflexivity.
  - assert (Hq : Forall (λ m, Forall (λ t, match t with QueueToken q =>
        ∃ c, List.filter (λ p, String.eqb p.2 q) processors = [(c, q)] ∧ Cls c ∈ provided | _ => True end) (needs m))
        source_modules).
    { repeat (apply Forall_cons; split); try apply Forall_nil; try done;
        (repeat (apply Forall_cons; split); try apply Forall_nil; try done);
        (eexists; split; [vm_compute; reflexivity|apply (bool_decide_unpack _); vm_compute; exact I]). }
    intros m q Hm Ht. rewrite Forall_forall in Hq. specialize (Hq m Hm). rewrite Forall_forall in Hq. exact (Hq _ Ht).
Qed.

(** ** Witness *)
#[local] Instance documented_libraries : Libraries := documented.
#[local] Instance documented_law : LibrariesLaw.
Proof. by split. Qed.

Lemma modules_wire_up_witness :
  sites lib_exports IngestionModule (QueueToken TRANSFER_QUEUE) = [Lib (Bull_registerQueueAsync TRANSFER_QUEUE)].
Proof. destruct modules_wire_up as (_ & _ & _ & _ & _ & Hs & _). exact Hs. Defined.
