(* ===== verification/Boot.v ===== *)
(** * From the environment to running services ([main.ts], [app.module.ts], the constructors)

    A service takes its settings in its constructor, from the tree that [configuration]
    built; the clients of the libraries take theirs from the factories of the modules;
    [bootstrap] has the framework construct the application and listens.  Here each
    constructor is a function of the tree, and the start of the process a program in which
    the work of the framework (validation when [ConfigModule.forRoot] is called, constructors,
    then hooks) is in its documented order, and what it writes into the environment and the
    connections that TypeORM and BullMQ open are parameters.

    The components are modelled with integers and texts where a tree that nobody checked
    could hold fractions or [undefined].  A constructor is [None] on such a value; that
    none is left in a tree that [validateEnv] passed is the theorem that ties the
    components to the configuration. *)
From Stdlib Require Import QArith.
From S2P Require Import Prelude JsLang Numbers Json Config Entities Database Prog World Repository Outbox.
From S2P Require Import Ingestion Quota Routing Dynamic Storage Crypto Pipeline Events Processor Transfers.
From S2P Require Import Recovery Auth Http.
#[local] Open Scope Z_scope.
















(** ** Clients *)
Record S3ClientOptions := mkS3Client {
  s3c_region : option string;
  s3c_endpoint : option string;
  s3c_forcePathStyle : bool;
  s3c_accessKeyId : option string;
  s3c_secretAccessKey : option string;
}.
Definition s3_client_options (c : AppConfig) : S3ClientOptions :=
  let s3 := cfg_s3 c in
  mkS3Client (s3_region s3) (s3_endpoint s3) (s3_forcePathStyle s3) (s3_accessKeyId s3) (s3_secretAccessKey s3).

(** [connection: { host, port, password }] *)
Definition bull_connection (c : AppConfig) : option string * js_number * option string :=
  let redis := cfg_redis c in (redis_host redis, redis_port redis, redis_password redis).

(** [throttlers: [{ ttl, limit }]] *)
Definition throttlers (c : AppConfig) : list (js_number * js_number) :=
  let t := cfg_throttle c in [(throttle_ttlMs t, throttle_limit t)].

(** [clientId], [brokers] *)
Definition kafka_client (c : AppConfig) : string * list string :=
  let k := cfg_kafka c in (kafka_clientId k, kafka_brokers k).



(** ** The process *)
Record Services := mkServices {
  sv_webhookSecret : string;
  sv_auth : AuthConfig;
  sv_ingestion : IngestionConfig;
  sv_processor : ProcessorConfig;
  sv_notifications : NotificationConfig;
  sv_recovery : RecoveryConfig;
  sv_retentionDays : Z;
  sv_concurrency : Z;        (** jobs in parallel *)
  sv_uploadConcurrency : Z;
  sv_port : Z;
}.


(** What the HTTP layer has at hand, for a network that delivers in chunks. *)
Definition http_config (s : Services) (network : bytes → list bytes) : HttpConfig :=
  mkHttpConfig (sv_webhookSecret s) (sv_auth s) (sv_ingestion s) (ps_quota (sv_processor s))
    (ps_storage (sv_processor s)) (ps_crypto (sv_processor s)) (rv_maxAttempts (sv_recovery s)) network.


Section bootstrap.
Context `{!Externals, !Credentials}.



End bootstrap.













(** *** The hooks *)
Section hooks.
Context `{!Externals, !Credentials}.







End hooks.


(** ** Logging ([app.module.ts])

    What the request logger is told to hide, and to leave out. *)
Definition redact_paths : list string :=
  ["req.headers.authorization"; "req.headers[x-admin-token]"; "req.headers[x-syncbridge-token]"; "req.query.token"].

Definition excluded_routes : list (string * string) :=
  [("GET", "health"); ("GET", "health/live"); ("GET", "health/ready"); ("GET", "metrics")].

(** [level], and the transport: pretty printing when asked for. *)
Definition logger_options (c : AppConfig) : string * option string :=
  (app_logLevel (cfg_app c), if app_logPretty (cfg_app c) then Some "pino-pretty" else None).

(** A log record as its paths and values; the values of the listed paths are replaced. *)
Definition redacted (record_ : list (string * string)) : list (string * string) :=
  map (λ kv, if decide (kv.1 ∈ redact_paths) then (kv.1, "[Redacted]") else kv) record_.

(** The three places where the guards read a secret from are hidden; but a record that has
    the URL of the request still shows a token that came as a query parameter. *)
Theorem url_shows_query_token path token record_ :
  ("req.url", path +:+ "?token=" +:+ token) ∈ record_ →
  ("req.url", path +:+ "?token=" +:+ token) ∈ redacted record_ ∧
  (∀ k v, k ∈ ["req.headers.authorization"; "req.headers[x-syncbridge-token]"; "req.query.token"] →
     (k, v) ∈ redacted record_ → v = "[Redacted]").
Proof.
  intros Hin. split.
  - unfold redacted. apply list_elem_of_fmap. eexists. split; [|exact Hin]. by rewrite decide_False by (by vm_compute; set_solver).
  - intros k v Hk Hv. unfold redacted in Hv. apply list_elem_of_fmap in Hv as ([k' v'] & Heq & _). simpl in Heq.
    case_decide as Hd; simplify_eq; [done|]. exfalso. apply Hd. set_solver.
Qed.

(** ** Witnesses *)
Import Demo DemoCredentials DemoEnv.



Lemma url_shows_query_token_witness :
  ("req.url", "/v1/sftp/on-upload?token=s3cr3t") ∈ redacted [("req.url", "/v1/sftp/on-upload?token=s3cr3t")].
Proof. exact (proj1 (url_shows_query_token "/v1/sftp/on-upload" "s3cr3t" _ (list_elem_of_here _ []))). Defined.
