(* ===== verification/Page.v ===== *)
(** * The page as served ([admin-ui/admin-ui.html.ts], [admin-ui/admin-ui.controller.ts],
    the content security policy of [main.ts])

    [AdminUi] has the script of the page.  Here is the markup the script works on, as a
    tree, the names by which the two hold together (ids, handlers, the values of the
    status filter), and the policy under which a browser runs the page. *)
From S2P Require Import Prelude JsLang Entities AdminUi.

(** ** Markup *)
Inductive html :=
  | Text (s : string)
  | Elem (tag : string) (attributes : list (string * string)) (children : list html).

Definition login_section : html :=
  Elem "section" [("id", "login")]
    [Elem "div" [("class", "row")]
       [Elem "input" [("id", "u"); ("placeholder", "username"); ("autocomplete", "username")] [];
        Elem "input" [("id", "p"); ("type", "password"); ("placeholder", "password");
                      ("autocomplete", "current-password")] [];
        Elem "button" [("onclick", "login()")] [Text "Log in"]];
     Elem "p" [("id", "err")] []].

Definition app_section : html :=
  Elem "section" [("id", "app"); ("class", "hidden")]
    [Elem "div" [("class", "row")]
       [Elem "select" [("id", "status")]
          [Elem "option" [("value", "")] [Text "all"];
           Elem "option" [] [Text "PENDING"]; Elem "option" [] [Text "PROCESSING"];
           Elem "option" [("selected", "")] [Text "SUCCESS"]; Elem "option" [] [Text "FAILED"]];
        Elem "button" [("onclick", "load()")] [Text "Refresh"];
        Elem "button" [("class", "secondary"); ("onclick", "retryBatch()")] [Text "Retry all FAILED"];
        Elem "span" [("id", "who"); ("style", "margin-left:auto;font-size:.8rem;opacity:.7")] [];
        Elem "button" [("class", "secondary"); ("onclick", "logout()")] [Text "Log out"]];
     Elem "table" []
       [Elem "thead" [] [Elem "tr" [] (map (λ h, Elem "th" [] (if String.eqb h "" then [] else [Text h]))
          ["filename"; "status"; "attempts"; "bucket/key"; "updated"; ""])];
        Elem "tbody" [("id", "rows")] []]].

Definition page_body : list html := [Elem "h1" [] [Text "S3-SyncBridge — Admin"]; login_section; app_section].

(** [GET /ui]: a public route, outside the rate limit; its type and its body. *)
Definition index : string * list html := ("text/html; charset=utf-8", page_body).

(** *** The script's side: what it looks up with [$], and the functions it declares *)
Definition looked_up : list string := ["login"; "app"; "who"; "err"; "u"; "p"; "status"; "rows"].
Definition script_functions : list string :=
  ["show"; "api"; "login"; "logout"; "canRetry"; "load"; "retryOne"; "dl"; "retryBatch"].

(** ** Reading the document *)
Definition attribute (name : string) (attributes : list (string * string)) : option string :=
  snd <$> List.find (λ a, String.eqb a.1 name) attributes.

Fixpoint collect {A} (f : string → list (string * string) → list html → option A) (h : html) : list A :=
  match h with
  | Text _ => []
  | Elem tag attributes children =>
      match f tag attributes children with Some a => [a] | None => [] end ++ concat (map (collect f) children)
  end.

Definition ids (l : list html) : list string := concat (map (collect (λ _ a _, attribute "id" a)) l).
Definition handlers (l : list html) : list string := concat (map (collect (λ _ a _, attribute "onclick" a)) l).
Definition hidden (h : html) : bool :=
  match h with Elem _ a _ => bool_decide (attribute "class" a = Some "hidden") | Text _ => false end.

(** The value of an option: its attribute, or its text. *)
Definition option_value (attributes : list (string * string)) (children : list html) : string :=
  match attribute "value" attributes, children with
  | Some v, _ => v
  | None, [Text s] => s
  | None, _ => ""
  end.
Definition option_values (l : list html) : list string :=
  concat (map (collect (λ tag a c, if String.eqb tag "option" then Some (option_value a c) else None)) l).
Definition selected_values (l : list html) : list string :=
  concat (map (collect (λ tag a c,
    if String.eqb tag "option" && bool_decide (is_Some (attribute "selected" a))
    then Some (option_value a c) else None)) l).

(** The function an inline handler calls. *)
Definition called (handler : string) : string := String.substring 0 (String.length handler - 2) handler.

(** ** The policy *)
Abbreviation directives := (list (string * list string)).

(** [contentSecurityPolicy.directives] of [main.ts]. *)
Definition csp_directives : directives :=
  [("defaultSrc", ["'self'"]); ("scriptSrc", ["'self'"; "'unsafe-inline'"]);
   ("styleSrc", ["'self'"; "'unsafe-inline'"]); ("imgSrc", ["'self'"; "data:"]); ("connectSrc", ["'self'"])].

(** Helmet writes a directive's name with dashes. *)
Definition is_upper (c : Ascii.ascii) : bool :=
  let n := Ascii.nat_of_ascii c in (65 <=? n)%nat && (n <=? 90)%nat.
Fixpoint dashify (s : string) : string :=
  match s with
  | EmptyString => EmptyString
  | String c s' =>
      if is_upper c then String "-"%char (String (lower_char c) (dashify s')) else String c (dashify s')
  end.

(** The directives that Helmet sets by default, which stay in force unless they are named:
    inline handlers have a directive of their own. *)
Class Helmet := default_directives : directives.
Class HelmetLaw `{!Helmet} : Prop := {
  handlers_default : List.find (λ d, String.eqb d.1 "script-src-attr") default_directives = Some ("script-src-attr", ["'none'"]);
  scripts_default : List.find (λ d, String.eqb d.1 "script-src-elem") default_directives = None;
}.

Definition policy `{!Helmet} : directives :=
  let given := map (λ d, (dashify d.1, d.2)) csp_directives in
  given ++ filter (λ d, d.1 ∉ map fst given) default_directives.

(** The sources of the first directive of a list that the policy has. *)
Fixpoint sources (p : directives) (names : list string) : option (list string) :=
  match names with
  | [] => None
  | n :: names' =>
      match List.find (λ d, String.eqb d.1 n) p with Some d => Some d.2 | None => sources p names' end
  end.

Definition allows_inline (p : directives) (names : list string) : bool :=
  match sources p names with Some s => bool_decide ("'unsafe-inline'" ∈ s) | None => true end.

(** An inline [<script>] and an inline handler, with the directives they fall back to. *)
Definition allows_script (p : directives) : bool := allows_inline p ["script-src-elem"; "script-src"; "default-src"].
Definition allows_handler (p : directives) : bool := allows_inline p ["script-src-attr"; "script-src"; "default-src"].

(** ** Facts *)
Lemma find_appended p q n :
  forallb (λ d : string * list string, negb (String.eqb d.1 n)) p = true →
  List.find (λ d, String.eqb d.1 n) (p ++ q) = List.find (λ d, String.eqb d.1 n) q.
Proof.
  induction p as [|d p IH]; [done|]. simpl. intros [Hd Hp]%andb_prop. destruct (String.eqb d.1 n); [done|auto].
Qed.

Lemma find_kept (names : list string) (q : directives) n :
  n ∉ names → List.find (λ d, String.eqb d.1 n) (filter (λ d, d.1 ∉ names) q) = List.find (λ d, String.eqb d.1 n) q.
Proof.
  intros Hn. induction q as [|d q IH]; [done|]. rewrite filter_cons. simpl. case_decide as Hd; simpl.
  - by rewrite IH.
  - destruct (String.eqb_spec d.1 n) as [Heq|]; [|done]. rewrite Heq in Hd. tauto.
Qed.

(** The page hangs together.  Every element the script looks up is in the markup, once;
    every handler calls a function that the script declares; at first the login form is
    shown and the list hidden, as in a page without a session; and the filter offers
    every status, and starts on SUCCESS. *)
Theorem page_hangs_together :
  NoDup (ids page_body) ∧ (∀ i, i ∈ looked_up → i ∈ ids page_body) ∧
  (∀ h, h ∈ handlers page_body → called h ∈ script_functions) ∧
  hidden login_section = ui_app fresh_page ∧ hidden app_section = negb (ui_app fresh_page) ∧
  (∀ v, v ∈ option_values page_body ↔ v = "" ∨ ∃ st, v = TransferStatus.to_string st) ∧
  selected_values page_body = [TransferStatus.to_string TransferStatus.SUCCESS].
Proof.
  split_and!.
  - apply (bool_decide_unpack _). vm_compute. exact I.
  - apply Forall_forall, (bool_decide_unpack _). vm_compute. exact I.
  - apply Forall_forall, (bool_decide_unpack _). vm_compute. exact I.
  - done.
  - done.
  - intros v. change (option_values page_body) with ["" ; "PENDING"; "PROCESSING"; "SUCCESS"; "FAILED"].
    rewrite !elem_of_cons. split.
    + intros [->|[->|[->|[->|[->|Hv]]]]]; [by left|right..|by apply not_elem_of_nil in Hv];
        [by exists TransferStatus.PENDING|by exists TransferStatus.PROCESSING|by exists TransferStatus.SUCCESS|
         by exists TransferStatus.FAILED].
    + intros [->|[[] ->]]; simpl; tauto.
  - done.
Qed.

(** The policy lets the browser run the script of the page and not its handlers: the
    directive for inline handlers is left at Helmet's default, and every button of the page,
    and every one the rows add, acts through such a handler. *)
Theorem handlers_are_blocked `{!Helmet, !HelmetLaw} :
  allows_script policy = true ∧ allows_handler policy = false ∧
  Forall (λ f, f ∈ map called (handlers page_body)) ["login"; "load"; "retryBatch"; "logout"] ∧
  length (handlers page_body) = length (concat (map (collect (λ tag _ _, if String.eqb tag "button" then Some tag else None)) page_body)).
Proof.
  split_and!; [| |apply (bool_decide_unpack _); vm_compute; exact I|done].
  - unfold allows_script, allows_inline. cbn [sources]. unfold policy.
    rewrite find_appended by reflexivity. rewrite find_kept by (apply (bool_decide_unpack _); vm_compute; exact I).
    rewrite scripts_default. reflexivity.
  - unfold allows_handler, allows_inline. cbn [sources]. unfold policy.
    rewrite find_appended by reflexivity. rewrite find_kept by (apply (bool_decide_unpack _); vm_compute; exact I).
    rewrite handlers_default. reflexivity.
Qed.

(** ** Witness *)
#[local] Instance helmet : Helmet :=
  [("default-src", ["'self'"]); ("object-src", ["'none'"]); ("script-src", ["'self'"]);
   ("script-src-attr", ["'none'"]); ("style-src", ["'self'"; "'unsafe-inline'"])].
#[local] Instance helmet_law : HelmetLaw.
Proof. by split. Qed.

Lemma handlers_are_blocked_witness : allows_handler policy = false.
Proof. exact (proj1 (proj2 handlers_are_blocked)). Defined.
