(* ===== verification/Routes.v ===== *)
(** * From a request line to a handler (the decorators of the controllers,
    [auth/decorators/], [auth/guards/])

    The controllers say with decorators which method and path reaches a handler, which
    guards stand before it, which roles it asks for, how its parameters are filled and
    with which status it answers.  Here the decorators are data, one record per
    controller as it stands in the source; [serve] is the rule by which NestJS reads
    them.  [Http.dispatch] was written by hand, route by route: [routed_as_dispatched]
    shows that the two agree, and that no request line has two readings.

    The matching of paths (Express), what class-transformer makes of a query or a body,
    and the lines that libraries serve beside the controllers ([GET /metrics] of
    Prometheus, [/docs] of Swagger) are code of the libraries: the fields of [Framework],
    with the documented behaviour of the matching as [FrameworkLaw]. *)
From S2P Require Import Prelude JsLang Entities Database Prog World Repository Outbox.
From S2P Require Import Ingestion Quota Storage Crypto Pipeline Events Processor Transfers Auth Http AdminUi Page.

(** ** Decorators *)
Inductive http_method := GET | POST | DELETE.
#[global] Instance http_method_eq_dec : EqDecision http_method.
Proof. solve_decision. Defined.

Definition method_name (m : http_method) : string :=
  match m with GET => "GET" | POST => "POST" | DELETE => "DELETE" end.

Inductive guard := WebhookAuthGuard | JwtAuthGuard | RolesGuard.

(** [SetMetadata(key, value)] for the one key the program sets. *)
Definition metadata : Type := list (string * list Role).
Definition ROLES_KEY : string := "roles".
Definition Roles (roles : list Role) : string * list Role := (ROLES_KEY, roles).

(** [Reflector.getAllAndOverride(key, targets)]: the first target that has the key. *)
Definition get_metadata (key : string) (m : metadata) : option (list Role) :=
  snd <$> List.find (λ p, String.eqb p.1 key) m.
Fixpoint getAllAndOverride (key : string) (targets : list metadata) : option (list Role) :=
  match targets with
  | [] => None
  | m :: rest => match get_metadata key m with Some v => Some v | None => getAllAndOverride key rest end
  end.

(** How a parameter of a handler is filled. *)
Inductive param :=
  | Body (dto : string)               (** [@Body() dto: Dto] *)
  | QueryDto (dto : string)           (** [@Query() query: Dto] *)
  | QueryKey (name : string)          (** [@Query(name)] *)
  | PathUuid (name : string)          (** [@Param(name, ParseUUIDPipe)] *)
  | CurrentUser                       (** [@CurrentUser()]: [req.user] *)
  | Res.                              (** [@Res({ passthrough: true })] *)

Record handler_decl := mkHandlerDecl {
  hd_name : string;
  hd_method : http_method;
  hd_path : string;
  hd_guards : list guard;             (** [@UseGuards] *)
  hd_metadata : metadata;
  hd_code : option Z;                 (** [@HttpCode] *)
  hd_skipThrottle : bool;             (** [@SkipThrottle()] *)
  hd_params : list param;
}.

Record controller_decl := mkControllerDecl {
  cd_name : string;
  cd_path : string;
  cd_guards : list guard;
  cd_metadata : metadata;
  cd_skipThrottle : bool;
  cd_handlers : list handler_decl;
}.

(** ** The controllers *)
Definition UsersController_decl : controller_decl :=
  mkControllerDecl "UsersController" "v1/users" [JwtAuthGuard; RolesGuard] [] false
    [mkHandlerDecl "create" POST "" [] [Roles [ADMIN]] (Some 201%Z) false [Body "CreateUserDto"]].

Definition AuthController_decl : controller_decl :=
  mkControllerDecl "AuthController" "v1/auth" [] [] false
    [mkHandlerDecl "login" POST "login" [] [] (Some 200%Z) false [Body "LoginDto"]].

Definition AdminUiController_decl : controller_decl :=
  mkControllerDecl "AdminUiController" "ui" [] [] false
    [mkHandlerDecl "index" GET "" [] [] None true []].

Definition UsageController_decl : controller_decl :=
  mkControllerDecl "UsageController" "v1/usage" [JwtAuthGuard; RolesGuard] [] false
    [mkHandlerDecl "usage" GET "" [] [] None false [CurrentUser; QueryKey "tenant"]].

Definition SubscriptionsController_decl : controller_decl :=
  mkControllerDecl "SubscriptionsController" "v1/subscriptions" [JwtAuthGuard; RolesGuard] [] false
    [mkHandlerDecl "create" POST "" [] [Roles [OPERATOR; ADMIN]] (Some 201%Z) false
       [Body "CreateSubscriptionDto"; CurrentUser];
     mkHandlerDecl "list" GET "" [] [Roles [VIEWER; OPERATOR; ADMIN]] None false [CurrentUser];
     mkHandlerDecl "remove" DELETE ":id" [] [Roles [OPERATOR; ADMIN]] (Some 204%Z) false
       [PathUuid "id"; CurrentUser]].

Definition HealthController_decl : controller_decl :=
  mkControllerDecl "HealthController" "health" [] [] true
    [mkHandlerDecl "live" GET "live" [] [] None false [];
     mkHandlerDecl "ready" GET "ready" [] [] None false [];
     mkHandlerDecl "check" GET "" [] [] None false []].

Definition IngestionController_decl : controller_decl :=
  mkControllerDecl "IngestionController" "v1/sftp" [] [] false
    [mkHandlerDecl "handleWebhook" POST "on-upload" [WebhookAuthGuard] [] (Some 200%Z) false
       [Body "SftpgoWebhookDto"]].

Definition TransfersController_decl : controller_decl :=
  mkControllerDecl "TransfersController" "v1/transfers" [JwtAuthGuard; RolesGuard] [] false
    [mkHandlerDecl "list" GET "" [] [Roles [VIEWER; OPERATOR; ADMIN]] None false
       [QueryDto "ListTransfersQueryDto"; CurrentUser];
     mkHandlerDecl "getOne" GET ":id" [] [Roles [VIEWER; OPERATOR; ADMIN]] None false
       [PathUuid "id"; CurrentUser];
     mkHandlerDecl "download" GET ":id/download" [] [Roles [VIEWER; OPERATOR; ADMIN]] None false
       [PathUuid "id"; CurrentUser; Res];
     mkHandlerDecl "retryBatch" POST "retry-batch" [] [Roles [OPERATOR; ADMIN]] (Some 200%Z) false
       [Body "RetryBatchDto"; CurrentUser];
     mkHandlerDecl "retry" POST ":id/retry" [] [Roles [OPERATOR; ADMIN]] (Some 200%Z) false
       [PathUuid "id"; CurrentUser]].

(** Whatever order the modules bring them in: it does not matter ([find_route_order]). *)
Definition controllers : list controller_decl :=
  [UsageController_decl; AuthController_decl; UsersController_decl; IngestionController_decl;
   TransfersController_decl; SubscriptionsController_decl; HealthController_decl; AdminUiController_decl].

(** ** Routes *)
Definition route : Type := controller_decl * handler_decl.
Definition routes : list route := concat (map (λ cd, map (pair cd) (cd_handlers cd)) controllers).

(** The segments of a declared path: the controller's, then the handler's. *)
Inductive segment := Lit (s : string) | Var (name : string).

Definition segment_of (s : string) : segment :=
  match s with String ":"%char name => Var name | _ => Lit s end.

Definition pattern (r : route) : list segment :=
  map segment_of (List.filter (λ s, negb (String.eqb s ""))
    (split_char "/"%char (cd_path r.1) ++ split_char "/"%char (hd_path r.2))).

(** Matching segment by segment, with a comparison for the literal ones: the values of
    the variables. *)
Fixpoint fits (same : string → string → bool) (p : list segment) (path : list string)
    : option (list (string * string)) :=
  match p, path with
  | [], [] => Some []
  | Lit s :: p', x :: path' => if same s x then fits same p' path' else None
  | Var n :: p', x :: path' => if String.eqb x "" then None else cons (n, x) <$> fits same p' path'
  | _, _ => None
  end.

Definition same_letters (a b : string) : bool := String.eqb (toLowerCase a) (toLowerCase b).

(** One slash at the end is ignored. *)
Definition without_slash (path : list string) : list string :=
  match last path with
  | Some s => if String.eqb s "" then removelast path else path
  | None => path
  end.

(** ** The framework *)
Record incoming := mkIncoming {
  wr_method : http_method;
  wr_path : list string;             (** the segments of the URL's path *)
  wr_text : string;                  (** what follows: query and body *)
  wr_url : string;
  wr_bearer : option string;
  wr_headerToken : option string;
  wr_queryToken : option string;
  wr_carrier : list (string * string);
  wr_limited : bool;                 (** verdict of the rate limiter, had it to decide *)
}.

(** The request as [Http] has it, once the call is known. *)
Definition request_of (x : incoming) (c : api_call) : request :=
  mkHttpRequest (wr_url x) (wr_bearer x) (wr_headerToken x) (wr_queryToken x) (wr_carrier x) (wr_limited x) c.

(** What a handler returns: an object or a stream, the page, or a text of a library. *)
Inductive answer :=
  | Answer (r : response)
  | Html (contentType : string) (body : list html)
  | LibraryText (contentType text : string).

(** [library_route] are the lines that libraries serve beside the controllers: the metrics
    in Prometheus' format, the OpenAPI documents. *)
Class Framework := {
  path_match : list segment → list string → option (list (string * string));
  to_webhook : string → SftpgoWebhookDto;
  to_login : string → LoginDto;
  to_user : string → CreateUserDto;
  to_retry_batch : string → RetryBatchDto;
  to_subscription : string → CreateSubscriptionDto;
  to_query : string → ListTransfersQueryDto;
  to_tenant : string → option string;
  library_route : http_method → list string → option (P answer);
}.

(** An operation that changes nothing; the registry of the metrics is in the process. *)
Definition scraping_op (X : Type) (op : eff X) : Prop :=
  match op with Proc f => ∀ p, (f p).2 = p | _ => reading_op op end.

(** A pattern without empty segments. *)
Definition proper_pattern (p : list segment) : bool :=
  forallb (λ s, match s with Lit t => negb (String.eqb t "") | Var _ => true end) p.

(** Express matches a path that fits letter by letter, and only paths that fit up to
    letter case and a slash at the end; what libraries serve only reads. *)
Class FrameworkLaw `{!Framework} : Prop := {
  match_exact : ∀ p path b, proper_pattern p = true →
    fits String.eqb p path = Some b → path_match p path = Some b;
  match_only : ∀ p path b, proper_pattern p = true →
    path_match p path = Some b → fits same_letters p (without_slash path) = Some b;
  library_reads : ∀ m path p, library_route m path = Some p → all_ops scraping_op p;
}.

Section serving.
Context `{!Externals, !Gcm, !Credentials, !Validators, !Framework}.

(** The route a request line reaches, and the values of its path variables. *)
Fixpoint find_route (l : list route) (m : http_method) (path : list string)
    : option (route * list (string * string)) :=
  match l with
  | [] => None
  | r :: l' =>
      if bool_decide (hd_method r.2 = m)
      then match path_match (pattern r) path with
           | Some b => Some (r, b)
           | None => find_route l' m path
           end
      else find_route l' m path
  end.

Definition path_param (name : string) (b : list (string * string)) : string :=
  default "" (snd <$> List.find (λ p, String.eqb p.1 name) b).

(** The call of a handler with its arguments: the readiness report has two names, the
    page is outside the API. *)
Inductive target := Api (c : api_call) | AdminPage.

Definition target_of (cd hd : string) (b : list (string * string)) (text : string) : option target :=
  let id := path_param "id" b in
  match cd, hd with
  | "UsersController", "create" => Some (Api (Managed (CreateUser (to_user text))))
  | "AuthController", "login" => Some (Api (Login (to_login text)))
  | "AdminUiController", "index" => Some AdminPage
  | "UsageController", "usage" => Some (Api (Managed (GetUsage (to_tenant text))))
  | "SubscriptionsController", "create" => Some (Api (Managed (CreateSubscription (to_subscription text))))
  | "SubscriptionsController", "list" => Some (Api (Managed ListSubscriptions))
  | "SubscriptionsController", "remove" => Some (Api (Managed (RemoveSubscription id)))
  | "HealthController", "live" => Some (Api HealthLive)
  | "HealthController", "ready" | "HealthController", "check" => Some (Api HealthReady)
  | "IngestionController", "handleWebhook" => Some (Api (OnUpload (to_webhook text)))
  | "TransfersController", "list" => Some (Api (Managed (ListTransfers (to_query text))))
  | "TransfersController", "getOne" => Some (Api (Managed (GetTransfer id)))
  | "TransfersController", "download" => Some (Api (Managed (DownloadTransfer id)))
  | "TransfersController", "retryBatch" => Some (Api (Managed (RetryBatch (to_retry_batch text))))
  | "TransfersController", "retry" => Some (Api (Managed (RetryTransfer id)))
  | _, _ => None
  end.

(** The pipe of a parameter. *)
Definition dto_valid (dto text : string) : bool :=
  match dto with
  | "CreateUserDto" => create_user_valid (to_user text)
  | "LoginDto" => login_valid (to_login text)
  | "CreateSubscriptionDto" => subscription_valid is_url (to_subscription text)
  | "SftpgoWebhookDto" => webhook_valid (to_webhook text)
  | "RetryBatchDto" => retry_batch_valid (to_retry_batch text)
  | "ListTransfersQueryDto" => list_query_valid (to_query text)
  | _ => true
  end.

Definition pipe (c : api_call) (b : list (string * string)) (text : string) (p : param) : option thrown :=
  match p with
  | Body dto | QueryDto dto => if dto_valid dto text then None else Some (TValidation (constraint_texts c))
  | PathUuid name => uuid_or_fail (path_param name b)
  | QueryKey _ | CurrentUser | Res => None
  end.

Fixpoint run_pipes (c : api_call) (b : list (string * string)) (text : string) (ps : list param) : option thrown :=
  match ps with
  | [] => None
  | p :: ps' => match pipe c b text p with Some t => Some t | None => run_pipes c b text ps' end
  end.

(** The guards in order; [JwtAuthGuard] sets [req.user], [RolesGuard] reads it. *)
Fixpoint run_guards (hc : HttpConfig) (req : request) (required : option (list Role)) (gs : list guard)
    (user : option AuthUser) (k : option AuthUser → P response) : P response :=
  match gs with
  | [] => k user
  | WebhookAuthGuard :: gs' =>
      match webhook_guard (hc_webhookSecret hc) (hr_headerToken req) (hr_queryToken req) with
      | Err e => error_response (hr_url req) (TExn e)
      | Ok _ => run_guards hc req required gs' user k
      end
  | JwtAuthGuard :: gs' =>
      now <- call Now ;;
      match jwt_guard (hc_auth hc) now (hr_bearer req) with
      | None => error_response (hr_url req) (TBare 401 "UnauthorizedException" "Unauthorized")
      | Some u => run_guards hc req required gs' (Some u) k
      end
  | RolesGuard :: gs' =>
      match roles_guard (default [] required) user with
      | Err e => error_response (hr_url req) (TExn e)
      | Ok _ => run_guards hc req required gs' user k
      end
  end.

(** The handler's own code, with [req.user] as the guards left it. *)
Definition no_user : exn := Infra (Infra_error "TypeError" "Cannot read properties of undefined" None None).

Definition invoke (hc : HttpConfig) (req : request) (user : option AuthUser) (c : api_call) : P (thrown + body) :=
  match c with
  | OnUpload payload => plain (handleWebhook hc (hr_carrier req) payload)
  | Login dto => plain (auth_login hc dto)
  | HealthLive => plain health_live
  | HealthReady => health_report (hc_storage hc)
  | Managed (CreateUser dto) => plain (users_create hc dto)
  | Managed m => match user with Some u => plain (managed_handler hc u m) | None => Throw no_user end
  end.

(** [@HttpCode], or the default of the method. *)
Definition status_code (hd : handler_decl) : Z :=
  match hd_code hd with
  | Some code => code
  | None => match hd_method hd with POST => 201 | _ => 200 end
  end.

(** The global [ThrottlerGuard] asks for the metadata of the handler, then of the class. *)
Definition over_limit (r : route) (limited : bool) : bool :=
  limited && negb (hd_skipThrottle r.2 || cd_skipThrottle r.1).

Definition too_many (url : string) : P response :=
  error_response url (TText 429 "ThrottlerException: Too Many Requests").

Definition handle_route (hc : HttpConfig) (r : route) (b : list (string * string)) (text : string)
    (req : request) (c : api_call) : P response :=
  if over_limit r (hr_limited req) then too_many (hr_url req)
  else
    run_guards hc req (getAllAndOverride ROLES_KEY [hd_metadata r.2; cd_metadata r.1])
      (cd_guards r.1 ++ hd_guards r.2) None (λ user,
        match run_pipes c b text (hd_params r.2) with
        | Some t => error_response (hr_url req) t
        | None =>
            res <- catch_ (invoke hc req user c) (λ e, Ret (inl (TExn e))) ;;
            match res with
            | inl t => error_response (hr_url req) t
            | inr v => Ret (mkResponse (status_code r.2) v)
            end
        end).

(** A request line without a route, in the words of the framework. *)
Definition no_route (x : incoming) : P response :=
  error_response (wr_url x) (TExn (HttpError 404 ("Cannot " +:+ method_name (wr_method x) +:+ " " +:+ wr_url x))).

Definition answer_of (p : P response) : P answer := r <- p ;; Ret (Answer r).

Definition serve (hc : HttpConfig) (x : incoming) : P answer :=
  match find_route routes (wr_method x) (wr_path x) with
  | None => default (answer_of (no_route x)) (library_route (wr_method x) (wr_path x))
  | Some (r, b) =>
      match target_of (cd_name r.1) (hd_name r.2) b (wr_text x) with
      | Some (Api c) => answer_of (handle_route hc r b (wr_text x) (request_of x c) c)
      | Some AdminPage =>
          if over_limit r (wr_limited x) then answer_of (too_many (wr_url x))
          else Ret (Html Page.index.1 Page.index.2)
      | None => Throw no_user
      end
  end.
End serving.

(** ** No request line has two readings *)

(** Two patterns that some path could fit both. *)
Fixpoint overlap (p q : list segment) : bool :=
  match p, q with
  | [], [] => true
  | Lit s :: p', Lit t :: q' => same_letters s t && overlap p' q'
  | Lit _ :: p', Var _ :: q' | Var _ :: p', Lit _ :: q' | Var _ :: p', Var _ :: q' => overlap p' q'
  | _, _ => false
  end.

Lemma same_letters_trans a b x : same_letters a x = true → same_letters b x = true → same_letters a b = true.
Proof. unfold same_letters. rewrite !String.eqb_eq. congruence. Qed.

Lemma fits_overlap p q path :
  is_Some (fits same_letters p path) → is_Some (fits same_letters q path) → overlap p q = true.
Proof.
  revert q path. induction p as [|[s|n] p IH]; intros [|[t|m] q] [|x path] Hp Hq; simpl in *;
    try (by destruct Hp) || (by destruct Hq); try done.
  - destruct (same_letters s x) eqn:Hs; [|by destruct Hp]. destruct (same_letters t x) eqn:Ht; [|by destruct Hq].
    rewrite (same_letters_trans s t x) by done. by eapply IH.
  - destruct (same_letters s x) eqn:Hs; [|by destruct Hp]. destruct (String.eqb x ""); [by destruct Hq|].
    apply fmap_is_Some in Hq. by eapply IH.
  - destruct (same_letters t x) eqn:Ht; [|by destruct Hq]. destruct (String.eqb x ""); [by destruct Hp|].
    apply fmap_is_Some in Hp. by eapply IH.
  - destruct (String.eqb x ""); [by destruct Hp|]. apply fmap_is_Some in Hp, Hq. by eapply IH.
Qed.

Definition clash (r s : route) : bool :=
  bool_decide (hd_method r.2 = hd_method s.2) && overlap (pattern r) (pattern s).

Fixpoint apart (l : list route) : bool :=
  match l with
  | [] => true
  | r :: l' => forallb (λ s, negb (clash r s)) l' && apart l'
  end.

Lemma routes_apart : apart routes = true.
Proof. vm_compute. reflexivity. Qed.

Lemma routes_proper r : r ∈ routes → proper_pattern (pattern r) = true.
Proof.
  assert (Hall : forallb (λ r, proper_pattern (pattern r)) routes = true) by (vm_compute; reflexivity).
  intros Hr. rewrite forallb_forall in Hall. by apply Hall, list_elem_of_In.
Qed.

Section routing.
Context `{!Framework, !FrameworkLaw}.

Definition reaches (r : route) (m : http_method) (path : list string) (b : list (string * string)) : Prop :=
  hd_method r.2 = m ∧ path_match (pattern r) path = Some b.

Lemma reaches_clash r s m path b b' :
  r ∈ routes → s ∈ routes → reaches r m path b → reaches s m path b' → clash r s = true.
Proof.
  intros Hr%routes_proper Hs%routes_proper [Hm Hp] [Hm' Hp']. unfold clash. rewrite bool_decide_eq_true_2 by congruence. simpl.
  apply match_only in Hp, Hp'; [|done..]. eapply fits_overlap; eauto.
Qed.

Lemma find_route_Some l m path r b : find_route l m path = Some (r, b) → r ∈ l ∧ reaches r m path b.
Proof.
  induction l as [|s l IH]; simpl; [done|]. case_bool_decide as Hm.
  - destruct (path_match (pattern s) path) eqn:Hp; [intros [= <- <-]|intros ?%IH].
    + split; [set_solver|]. by split.
    + split; [set_solver|tauto].
  - intros ?%IH. split; [set_solver|tauto].
Qed.

(** Where patterns are apart, the route is found that is reached. *)
Lemma find_route_apart l m path r b :
  apart l = true → (∀ s, s ∈ l → s ∈ routes) → r ∈ l → reaches r m path b → find_route l m path = Some (r, b).
Proof.
  induction l as [|s l IH]; simpl; [set_solver|]. intros [Hs Hl]%andb_prop Hsub Hin Hr.
  assert (Hsub' : ∀ t, t ∈ l → t ∈ routes) by set_solver.
  apply elem_of_cons in Hin as [->|Hin].
  { destruct Hr as [Hm ->]. by rewrite bool_decide_eq_true_2. }
  rewrite forallb_forall in Hs. specialize (Hs r (proj1 (list_elem_of_In _ _) Hin)).
  case_bool_decide as Hm; [|by apply IH]. destruct (path_match (pattern s) path) eqn:Hp; [|by apply IH].
  pose proof (reaches_clash s r m path _ b (Hsub s (list_elem_of_here _ _)) (Hsub' r Hin) (conj Hm Hp) Hr) as Hc. by rewrite Hc in Hs.
Qed.

(** The order in which the controllers are registered does not matter. *)
Lemma find_route_order l m path : l ≡ₚ routes → find_route l m path = find_route routes m path.
Proof.
  intros Hl. destruct (find_route l m path) as [[r b]|] eqn:Hf.
  - apply find_route_Some in Hf as [Hin Hr]. symmetry.
    apply find_route_apart; [apply routes_apart|done| |done]. by rewrite <- Hl.
  - destruct (find_route routes m path) as [[r b]|] eqn:Hf'; [|done].
    apply find_route_Some in Hf' as [Hin [Hm Hp]]. rewrite <- Hl in Hin. clear Hl. exfalso.
    induction l as [|s l IH]; [set_solver|]. simpl in Hf. apply elem_of_cons in Hin as [->|Hin].
    + by rewrite bool_decide_eq_true_2, Hp in Hf.
    + apply IH; [|done]. case_bool_decide; [|done]. by destruct (path_match (pattern s) path).
Qed.
End routing.

(** ** The declared surface is the one that was modelled *)
Section agreement.
Context `{!Externals, !Gcm, !Credentials, !Validators, !Framework, !FrameworkLaw}.

(** The request line of a call, and what of the call is in its query or body. *)
Definition line_of (c : api_call) : http_method * list string :=
  match c with
  | OnUpload _ => (POST, ["v1"; "sftp"; "on-upload"])
  | Login _ => (POST, ["v1"; "auth"; "login"])
  | HealthLive => (GET, ["health"; "live"])
  | HealthReady => (GET, ["health"; "ready"])
  | Managed (CreateUser _) => (POST, ["v1"; "users"])
  | Managed (ListTransfers _) => (GET, ["v1"; "transfers"])
  | Managed (GetTransfer id) => (GET, ["v1"; "transfers"; id])
  | Managed (DownloadTransfer id) => (GET, ["v1"; "transfers"; id; "download"])
  | Managed (RetryBatch _) => (POST, ["v1"; "transfers"; "retry-batch"])
  | Managed (RetryTransfer id) => (POST, ["v1"; "transfers"; id; "retry"])
  | Managed (CreateSubscription _) => (POST, ["v1"; "subscriptions"])
  | Managed ListSubscriptions => (GET, ["v1"; "subscriptions"])
  | Managed (RemoveSubscription id) => (DELETE, ["v1"; "subscriptions"; id])
  | Managed (GetUsage _) => (GET, ["v1"; "usage"])
  end.

Definition carried (text : string) (c : api_call) : Prop :=
  match c with
  | OnUpload d => to_webhook text = d
  | Login d => to_login text = d
  | Managed (CreateUser d) => to_user text = d
  | Managed (ListTransfers d) => to_query text = d
  | Managed (RetryBatch d) => to_retry_batch text = d
  | Managed (CreateSubscription d) => to_subscription text = d
  | Managed (GetUsage t) => to_tenant text = t
  | Managed (GetTransfer id) | Managed (DownloadTransfer id) | Managed (RetryTransfer id)
  | Managed (RemoveSubscription id) => id ≠ ""
  | _ => True
  end.

(** The routes one by one. *)
Lemma routes_cases (Q : route → Prop) : foldr (λ r acc, Q r ∧ acc) True routes → ∀ r, r ∈ routes → Q r.
Proof.
  generalize routes. intros l. induction l as [|s l IH]; simpl; [set_solver|]. intros [Hs Hl] r Hr.
  apply elem_of_cons in Hr as [->|Hr]; auto.
Qed.

#[local] Ltac each_route r Hr :=
  pattern r; refine (routes_cases _ _ r Hr); clear r Hr; simpl; split_and!; try exact I.

Lemma pipes_agree b text r :
  r ∈ routes → ∀ c, target_of (cd_name r.1) (hd_name r.2) b text = Some (Api c) →
  run_pipes c b text (hd_params r.2) = pipes c.
Proof.
  intros Hr. each_route r Hr; intros c [= <-]; simpl; try done; unfold uuid_or_fail; by case_match.
Qed.

(** A route's decorators make of a request what [dispatch] makes of it. *)
Lemma route_dispatches hc x b r :
  r ∈ routes →
  match target_of (cd_name r.1) (hd_name r.2) b (wr_text x) with
  | Some (Api c) => handle_route hc r b (wr_text x) (request_of x c) c = dispatch hc (request_of x c)
  | Some AdminPage => over_limit r (wr_limited x) = false
  | None => False
  end.
Proof.
  intros Hr. destruct (target_of _ _ _ _) as [[c|]|] eqn:Ht; last first.
  - revert Ht. by each_route r Hr.
  - revert Ht. each_route r Hr; try done. intros _. unfold over_limit. simpl. by destruct (wr_limited x).
  - unfold handle_route. rewrite (pipes_agree b (wr_text x) r Hr c Ht). revert c Ht.
    each_route r Hr; intros c [= <-]; unfold over_limit, dispatch, throttled; simpl; by destruct (wr_limited x).
Qed.

(** Where the route of a call stands in the list, and the variables of its path. *)
Definition place_of (c : api_call) : nat :=
  match c with
  | Managed (GetUsage _) => 0 | Login _ => 1 | Managed (CreateUser _) => 2 | OnUpload _ => 3
  | Managed (ListTransfers _) => 4 | Managed (GetTransfer _) => 5 | Managed (DownloadTransfer _) => 6
  | Managed (RetryBatch _) => 7 | Managed (RetryTransfer _) => 8 | Managed (CreateSubscription _) => 9
  | Managed ListSubscriptions => 10 | Managed (RemoveSubscription _) => 11 | HealthLive => 12 | HealthReady => 13
  end.

Definition variables_of (c : api_call) : list (string * string) :=
  match c with
  | Managed (GetTransfer id) | Managed (DownloadTransfer id) | Managed (RetryTransfer id)
  | Managed (RemoveSubscription id) => [("id", id)]
  | _ => []
  end.

Lemma line_reaches c text :
  carried text c → ∃ r, routes !! place_of c = Some r ∧ hd_method r.2 = (line_of c).1 ∧
    fits String.eqb (pattern r) (line_of c).2 = Some (variables_of c) ∧
    target_of (cd_name r.1) (hd_name r.2) (variables_of c) text = Some (Api c).
Proof.
  assert (Hvar : ∀ id : string, id ≠ "" → String.eqb id "" = false) by (intros id Hid; by apply String.eqb_neq).
  intros Hc. destruct c as [d|d| | |[d|d|id|id|d|id|d| |id|t]]; simpl in Hc; try (apply Hvar in Hc as Hid); subst;
    eexists; (split_and!; [reflexivity|reflexivity| |reflexivity]); simpl; rewrite ?Hid; reflexivity.
Qed.

Lemma serve_line hc x c :
  line_of c = (wr_method x, wr_path x) → carried (wr_text x) c →
  serve hc x = answer_of (dispatch hc (request_of x c)).
Proof.
  intros Hl Hc. destruct (line_reaches c _ Hc) as (r & Hr%list_elem_of_lookup_2 & Hm & Hf & Ht).
  rewrite Hl in Hm, Hf. unfold serve.
  rewrite (find_route_apart routes _ _ r (variables_of c) routes_apart (λ _ H, H) Hr)
    by (split; [done|apply match_exact; [by apply routes_proper|done]]).
  pose proof (route_dispatches hc x (variables_of c) r Hr) as Hd. rewrite Ht in *. by rewrite Hd.
Qed.

(** What becomes of a request: the page, no route, or a call of the API. *)
Lemma serve_cases hc x :
  serve hc x = Ret (Html Page.index.1 Page.index.2) ∨
  serve hc x = default (answer_of (no_route x)) (library_route (wr_method x) (wr_path x)) ∧
    (∀ r, r ∈ routes → hd_method r.2 = wr_method x → path_match (pattern r) (wr_path x) = None) ∨
  ∃ c, serve hc x = answer_of (dispatch hc (request_of x c)).
Proof.
  unfold serve. destruct (find_route routes _ _) as [[r b]|] eqn:Hf.
  - apply find_route_Some in Hf as [Hr _]. pose proof (route_dispatches hc x b r Hr) as Hd.
    destruct (target_of _ _ _ _) as [[c|]|]; [|left; by rewrite Hd|done]. right; right. exists c. by rewrite Hd.
  - right; left. split; [done|]. intros r Hr Hm. destruct (path_match _ _) as [b|] eqn:Hp; [|done].
    by rewrite (find_route_apart routes _ _ r b routes_apart (λ _ H, H) Hr (conj Hm Hp)) in Hf.
Qed.
End agreement.

(** C18: Requests reach the handlers as declared.  A request line is served as the
    decorators of one route say, whatever order the controllers are registered in.
    The line of each call of the API is served by exactly what [dispatch] does for that
    call: the limiter, the guards, the roles, the pipes, the handler and the status.  Every
    other line is the page, another spelling of such a line, or matches no declared path
    and is answered with a 404, unless a library serves it. *)
Theorem routed_as_dispatched `{!Externals, !Gcm, !Credentials, !Validators, !Framework, !FrameworkLaw} hc x :
  (∀ l, l ≡ₚ routes → find_route l (wr_method x) (wr_path x) = find_route routes (wr_method x) (wr_path x)) ∧
  (∀ c, line_of c = (wr_method x, wr_path x) → carried (wr_text x) c →
     serve hc x = answer_of (dispatch hc (request_of x c))) ∧
  (serve hc x = Ret (Html Page.index.1 Page.index.2) ∨
   serve hc x = default (answer_of (no_route x)) (library_route (wr_method x) (wr_path x)) ∧
     (∀ r, r ∈ routes → hd_method r.2 = wr_method x → path_match (pattern r) (wr_path x) = None) ∨
   ∃ c, serve hc x = answer_of (dispatch hc (request_of x c))).
Proof.
  split_and!; [intros l; apply find_route_order|intros c; apply serve_line|apply serve_cases].
Qed.

(** ** Who can change anything *)
Section changes.
Context `{!Externals, !Gcm, !Credentials, !Validators, !Framework, !FrameworkLaw}.

(** The webhook's secret, or a token that is valid now and names an operator or an admin. *)
Definition credentialed (hc : HttpConfig) (x : incoming) (now : Z) : bool :=
  is_ok (webhook_guard (hc_webhookSecret hc) (wr_headerToken x) (wr_queryToken x)) ||
  match jwt_guard (hc_auth hc) now (wr_bearer x) with
  | Some user => bool_decide (OPERATOR ∈ au_roles user) || bool_decide (ADMIN ∈ au_roles user)
  | None => false
  end.

Definition quiet_op (X : Type) (op : eff X) : Prop := ∀ f w, (perform f op w).2 = w.
Definition still {A} (p : P A) (w : world) : Prop := rg eq (λ w w', w' = w) p (λ _ _, True) w.

Lemma quiet_still {A} (p : P A) w : all_ops quiet_op p → still p w.
Proof. apply all_ops_rg. intros X op Hop f w'. apply Hop. Qed.

Lemma reading_quiet X (op : eff X) : reading_op op → quiet_op X op.
Proof. intros Hop f w. by apply reading_op_same. Qed.

Lemma scraping_quiet X (op : eff X) : scraping_op X op → quiet_op X op.
Proof.
  destruct op; try (by intros Hop; apply reading_quiet). intros Hg fl w. unfold perform. simpl. simpl in Hg.
  specialize (Hg (w_proc w)). destruct (f (w_proc w)) as [a q]. simpl in *. subst. by destruct w.
Qed.

Lemma ping_quiet : quiet_op _ RedisPing.
Proof. intros f w. by destruct f. Qed.

Lemma still_bind {A B} (p : P A) (f : A → P B) w : still p w → (∀ a, still (f a) w) → still (bind p f) w.
Proof.
  intros Hp Hf. unfold still. rg_step.
  revert w Hp Hf. induction p as [a|e|X op k IH]; intros w Hp Hf w0 <-; [by apply Hf|done|].
  intros ft. destruct (Hp w eq_refl ft) as [Hw Hk]. split; [done|]. rewrite Hw in *. by apply IH.
Qed.

Lemma still_catch {A} (p : P A) (h : exn → P A) w : still p w → (∀ e, still (h e) w) → still (catch_ p h) w.
Proof.
  intros Hp Hf. unfold still. rg_step.
  revert w Hp Hf. induction p as [a|e|X op k IH]; intros w Hp Hf w0 <-; [done|by apply Hf|].
  intros ft. destruct (Hp w eq_refl ft) as [Hw Hk]. split; [done|]. rewrite Hw in *. by apply IH.
Qed.

Lemma still_ret {A} (a : A) w : still (Ret a) w.
Proof. by intros w0 <-. Qed.
Lemma still_throw {A} e w : still (@Throw _ A e) w.
Proof. by intros w0 <-. Qed.

Lemma still_error url t w : still (error_response url t) w.
Proof. apply quiet_still. unfold error_response. repeat ops_step. by apply reading_quiet. Qed.

Lemma still_respond req h w : still h w → still (respond req h) w.
Proof.
  intros Hh. unfold respond. destruct (pipes _); [apply still_error|]. apply still_bind.
  - apply still_catch; [done|]. intros e. apply still_ret.
  - intros [t|b]; [apply still_error|apply still_ret].
Qed.

Lemma still_plain p w : still p w → still (plain p) w.
Proof. intros Hp. apply still_bind; [done|]. intros b. apply still_ret. Qed.

(** A transaction of reads under the tenant of the caller. *)
Lemma scoped_reading {A} user (work : prog stmt A) :
  all_ops (λ X (s : stmt X), match s with Stmt m => ∀ d, (m d).2 = d end) work →
  all_ops quiet_op (scoped user work).
Proof.
  intros Hw. unfold scoped. destruct (is_admin user).
  - induction work as [a|e|X op k IH]; [exact I..|]. destruct op as [X m]. destruct Hw as [Hm Hk].
    split; [by apply reading_quiet|]. intros r. apply IH, Hk.
  - apply all_ops_call. intros f w. unfold perform. simpl.
    assert (Hin : ∀ d, (in_transaction work d).2 = d).
    { induction work as [a|e|X op k IH]; [done..|]. destruct op as [X m]. destruct Hw as [Hm Hk]. intros d. simpl.
      specialize (Hm d). destruct (m d) as [r d']. simpl in Hm. subst d'. by apply IH. }
    assert (Ht : (transact (db_bind (set_config (au_tenantId user)) (λ _, in_transaction work)) (w_db w)).2 = w_db w).
    { unfold transact, db_bind, set_config. specialize (Hin (set_tenant (Some (au_tenantId user)) (w_db w))).
      destruct (in_transaction work _) as [[a|e] d']; simpl in *; subst; by destruct (w_db w). }
    destruct (transact _ (w_db w)) as [r d']. simpl in Ht. subst d'. destruct f; simpl; by destruct w.
Qed.

Definition writes (c : managed_call) : bool :=
  match c with
  | CreateUser _ | RetryBatch _ | RetryTransfer _ | CreateSubscription _ | RemoveSubscription _ => true
  | _ => false
  end.

Lemma getById_quiet id user : all_ops quiet_op (getById id user).
Proof. unfold getById. apply all_ops_bind; [by apply scoped_reading; repeat ops_step|]. by intros [t|]. Qed.

Lemma reads_still hc user c w : writes c = false → still (managed_handler hc user c) w.
Proof.
  intros Hc. apply quiet_still. destruct c as [d|d|id|id|d|id|d| |id|t]; try done; apply all_ops_bind; try done.
  - by apply scoped_reading; repeat ops_step.
  - apply getById_quiet.
  - unfold download, getObject. apply all_ops_bind; [apply getById_quiet|]. intros t.
    repeat ops_step; try exact I; by apply reading_quiet.
  - unfold list_subscriptions, sql. repeat ops_step. by apply reading_quiet.
  - unfold usage_endpoint, summary, getUsage, sql. repeat ops_step; try exact I; by apply reading_quiet.
Qed.

Lemma writers_are_operators c user :
  writes c = true → roles_guard (required_roles c) (Some user) = Ok tt →
  bool_decide (OPERATOR ∈ au_roles user) || bool_decide (ADMIN ∈ au_roles user) = true.
Proof.
  intros Hw [Hr|(u & r & [= <-] & Hr & Hin)]%roles_guard_ok; [by destruct c|].
  assert (Hcase : r = OPERATOR ∨ r = ADMIN) by (destruct c; try done; simpl in Hr; set_solver).
  destruct Hcase as [-> | ->]; rewrite (bool_decide_eq_true_2 _ Hin); [done|apply orb_true_r].
Qed.

Lemma dispatch_still hc x c w :
  credentialed hc x (d_now (w_db w)) = false → still (dispatch hc (request_of x c)) w.
Proof.
  intros [Hsec Htok]%orb_false_iff. unfold dispatch, webhook_route, managed_route.
  destruct (throttled _); [apply still_error|]. cbn [request_of hr_call hr_headerToken hr_queryToken hr_bearer hr_url].
  destruct c as [payload|dto| | |c].
  - destruct (webhook_guard _ _ _); [done|apply still_error].
  - apply still_respond, still_plain, quiet_still. unfold auth_login, login, validateUser, sql.
    repeat ops_step; try exact I; apply reading_quiet; [|done]. intros d. unfold find_user. by repeat case_match.
  - apply still_respond, still_plain, still_ret.
  - apply still_respond, quiet_still. unfold health_report, ready, s3_isHealthy, redis_isHealthy, indicator,
      ping_database, checkBucket, sql. repeat ops_step; try exact I; try (by apply reading_quiet); apply ping_quiet.
  - unfold still. rg_step. rg_step. unfold perform; simpl. split; [done|]. rg_step.
    destruct (jwt_guard _ _ _) as [user|]; [|apply still_error].
    destruct (roles_guard _ _) as [[]|e] eqn:Hg; [|apply still_error].
    apply still_respond, still_plain, reads_still. destruct (writes c) eqn:Hw; [|done].
    by rewrite (writers_are_operators c user Hw Hg) in Htok.
Qed.
End changes.

(** C17: Only operators, admins and SFTPGo change anything.  Whatever request line is sent,
    with whatever text: unless it carries the webhook's secret, or a token that verifies
    at the present time and names the role operator or admin, the whole world stays as it
    was, whatever fails, at the end and at every point on the way. *)
Theorem changes_need_credentials `{!Externals, !Gcm, !Credentials, !Validators, !Framework, !FrameworkLaw} hc x w fs n :
  credentialed hc x (d_now (w_db w)) = false →
  crash n fs (serve hc x) w = w ∧ final fs (serve hc x) w = w.
Proof.
  intros Hc. apply (seq_unchanged _ (λ _ _, True)).
  destruct (serve_cases hc x) as [-> |[[-> _]|[c ->]]]; [apply still_ret|..];
    [|apply still_bind; [by apply dispatch_still|intros r; apply still_ret]].
  destruct (library_route _ _) as [p|] eqn:Hl; simpl; [apply quiet_still|].
  - eapply all_ops_impl; [|by eapply library_reads]. intros X op. apply scraping_quiet.
  - apply still_bind; [apply still_error|intros r; apply still_ret].
Qed.

(** ** The requests of the admin page *)

(** The segments of the path of a URL, which begins with a slash. *)
Definition url_segments (url : string) : list string :=
  tail (split_char "/"%char (default "" (head (split_char "?"%char url)))).

(** A text that is one segment: an identifier, in the rows the page is given. *)
Definition one_segment (id : string) : Prop :=
  id ≠ "" ∧ no_char "/"%char id = true ∧ no_char "?"%char id = true.

(** A server that answers only when the URL is the line of the call. *)
Definition strict (serve_ : option string → string → api_call → world → option response * world)
    (bearer : option string) (url : string) (c : api_call) (w : world) : option response * world :=
  if bool_decide (url_segments url = (line_of c).2) then serve_ bearer url c w else (None, w).

Definition act_ids (a : Act) : list string :=
  match a with Retry id _ | Save id _ => [id] | _ => [] end.

Lemma id_segments id tail_ :
  one_segment id → no_char "?"%char tail_ = true → no_char "/"%char tail_ = true →
  url_segments ("/v1/transfers/" +:+ id +:+ "/" +:+ tail_) = ["v1"; "transfers"; id; tail_].
Proof.
  intros (_ & Hs & Hq) Ht Ht'. unfold url_segments.
  rewrite (split_char_single "?"%char) by (rewrite !no_char_app, Hq, Ht; reflexivity).
  change (default "" (head [?u])) with u.
  change ("/v1/transfers/" +:+ id +:+ "/" +:+ tail_) with (join "/" [""; "v1"; "transfers"; id; tail_]).
  rewrite (split_join "/"%char); [done|done|]. by repeat constructor.
Qed.

Lemma list_segments st : url_segments ("/v1/transfers?limit=50" +:+ status_value st) = ["v1"; "transfers"].
Proof. destruct st as [[]|]; reflexivity. Qed.

(** The page sends declared lines.  Whatever the user does, on rows whose ids are
    identifiers, every URL the script builds is the request line of the call it means: the page
    behaves the same with a server that checks it. *)
Theorem page_sends_declared_lines locale message serve_ a p w :
  Forall one_segment (act_ids a) →
  act locale message (strict serve_) a p w = act locale message serve_ a p w.
Proof.
  intros Hids.
  assert (Hs : ∀ b url c v, url_segments url = (line_of c).2 → strict serve_ b url c v = serve_ b url c v).
  { intros b url c v Hu. unfold strict. by rewrite bool_decide_eq_true_2. }
  assert (Hload : ∀ st p w, load locale message (strict serve_) st p w = load locale message serve_ st p w).
  { intros st p' w'. unfold load, api. rewrite Hs; [done|]. apply list_segments. }
  assert (Hone : ∀ id rest, act_ids a = [id] → no_char "?"%char rest = true → no_char "/"%char rest = true →
    url_segments ("/v1/transfers/" +:+ id +:+ "/" +:+ rest) = ["v1"; "transfers"; id; rest]).
  { intros id rest Ha. rewrite Ha in Hids. apply id_segments. by inversion Hids. }
  destruct a as [u pw st| |st|id st|st|id f]; simpl; [| | | | |].
  - unfold ui_login. rewrite Hs by reflexivity. destruct (serve_ None _ _ w) as [[res|] w']; [|done].
    destruct (negb _); [done|]. destruct (rs_body res); try done.
  - done.
  - apply Hload.
  - unfold retryOne, api. rewrite Hs by (by apply Hone). destruct (serve_ _ _ _ w) as [[res|] w']; [|done].
    destruct (_ =? 401)%Z; [done|]. destruct (negb _); [done|]. apply Hload.
  - unfold ui_retryBatch, api. destruct (negb (canRetry _)); [done|]. rewrite Hs by reflexivity.
    destruct (serve_ _ _ _ w) as [[res|] w']; [|done]. destruct (_ =? 401)%Z; [done|]. destruct (negb _); [done|].
    destruct (rs_body res); try done.
  - unfold dl. by rewrite Hs by (by apply Hone).
Qed.

(** ** Witnesses *)
Import Demo DemoCipher DemoCredentials.
#[local] Existing Instance demo_validators.

(** A router that matches letter by letter, and texts that all mean the same. *)
Module DemoRouter.
#[export] Instance framework : Framework := {
  path_match := fits String.eqb;
  to_webhook _ := demo_payload;
  to_login text := mkLoginDto "ann" text;
  to_user _ := mkCreateUser "ann" "secret-1" [VIEWER] None;
  to_retry_batch _ := mkRetryBatch None None 100;
  to_subscription _ := mkSubscriptionDto "https://example.org" [] None;
  to_query _ := mkListQuery None 20 0;
  to_tenant _ := None;
  library_route m path :=
    if bool_decide (m = GET ∧ path = ["metrics"])
    then Some (n <- in_proc (λ p, (m_success p, p)) ;; Ret (LibraryText "text/plain" (number_to_string n)))
    else None;
}.

Lemma fits_loosely p path b : fits String.eqb p path = Some b → fits same_letters p path = Some b.
Proof.
  revert path b. induction p as [|[s|n] p IH]; intros [|x path] b; simpl; try done.
  - destruct (String.eqb_spec s x) as [->|]; [|done]. unfold same_letters. rewrite String.eqb_refl. apply IH.
  - destruct (String.eqb x ""); [done|]. destruct (fits String.eqb p path) as [b'|] eqn:Hf; [|done].
    intros [= <-]. by rewrite (IH _ _ Hf).
Qed.

(** A path that fits a proper pattern has no slash at its end. *)
Lemma fits_no_slash p path b : proper_pattern p = true → fits String.eqb p path = Some b → without_slash path = path.
Proof.
  intros Hp Hf. assert (Hne : Forall (λ s, s ≠ "") path).
  { revert path b Hf. induction p as [|[s|n] p IH]; intros [|x path] b; simpl in *; try done.
    - apply andb_prop in Hp as [Hs Hp]. destruct (String.eqb_spec s x) as [->|]; [|done]. intros Hf.
      constructor; [by intros ->|by eapply IH].
    - destruct (String.eqb_spec x ""); [done|]. intros Hf. apply fmap_Some in Hf as (b' & Hf & _).
      constructor; [done|by eapply IH]. }
  unfold without_slash. destruct (last path) as [s|] eqn:Hl; [|done].
  destruct (String.eqb_spec s ""); [|done]. apply last_Some_elem_of in Hl. rewrite Forall_forall in Hne.
  by destruct (Hne s Hl).
Qed.

#[export] Instance framework_law : FrameworkLaw.
Proof.
  split; [done|..].
  - intros p path b Hp Hf. simpl in Hf. rewrite (fits_no_slash p path b) by done. by apply fits_loosely.
  - simpl. intros m path p Hl. case_bool_decide; [|done]. injection Hl as <-. unfold in_proc. by repeat ops_step.
Qed.
End DemoRouter.
Import DemoRouter.

Definition incoming_of (m : http_method) (path : list string) (bearer : option string) : incoming :=
  mkIncoming m path "" "/" bearer None None [] false.

(** A path nobody declared, and the same path with another method. *)
Example unknown_lines :
  find_route routes GET ["v1"; "nowhere"] = None ∧ find_route routes DELETE ["v1"; "transfers"; "t1"] = None ∧
  (λ p, (cd_name p.1.1, hd_name p.1.2, p.2)) <$> find_route routes POST ["v1"; "transfers"; "t1"; "retry"] =
    Some ("TransfersController", "retry", [("id", "t1")]).
Proof. by vm_compute. Qed.

Lemma routed_as_dispatched_witness :
  let x := incoming_of GET ["v1"; "transfers"; "t1"; "download"] None in
  serve demo_http x = answer_of (dispatch demo_http (request_of x (Managed (DownloadTransfer "t1")))).
Proof.
  intros x. destruct (routed_as_dispatched demo_http x) as (_ & Hline & _).
  apply Hline; [reflexivity|discriminate].
Defined.

(** A viewer's token asks for a retry. *)
Lemma changes_need_credentials_witness :
  let x := incoming_of POST ["v1"; "transfers"; "t1"; "retry"] (Some viewer_token) in
  final [] (serve demo_http x) demo_world = demo_world.
Proof.
  intros x. apply (changes_need_credentials demo_http x demo_world [] 0). vm_compute. reflexivity.
Defined.

Lemma page_sends_declared_lines_witness locale message p w :
  act locale message (strict (server demo_http)) (Save "t1" "report.csv") p w =
  act locale message (server demo_http) (Save "t1" "report.csv") p w.
Proof. apply page_sends_declared_lines. repeat constructor. discriminate. Defined.
